(** * Catalog reconciliation, basket aggregation, checkout and basket pruning

    A shallow embedding of the reconciliation core of the ordering backend:
    - [import_products]        (app/users/importing_products.py),
    - [PartnerProductInfoSerializer] validation, [create], [update],
      [update_or_create], [add_parameters]   (app/users/serializers.py),
    - [BasketView.post], [BasketView.delete], [OrderViewSet.create]
                                             (app/users/views.py).

    The relational store is modelled as a record of tables.  A table is a
    list of slots; the primary key of a row is the position of its slot, a
    deleted row leaves an empty slot behind (keys are never reused), and an
    insert appends a slot.  Queries without an explicit ordering enumerate
    rows by increasing primary key.  Python exceptions are results of the
    store monad [M]; a raised exception keeps the rows written so far, since
    none of the modelled functions opens a transaction. *)

From Stdlib Require Import ZArith String Ascii Lia.
From Stdlib Require Import DecimalString DecimalN DecimalPos.
From stdpp Require Import base option list strings gmap pretty.

Local Open Scope Z_scope.

(* ================================================================== *)
(** ** Tables *)
(* ================================================================== *)

Abbreviation table A := (list (option A)).

Section Tables.
Context {A : Type}.

(** [Model.objects.filter(pk=pk).first()] *)
Definition row_at (t : table A) (pk : nat) : option A :=
  match t !! pk with
  | Some (Some r) => Some r
  | _ => None
  end.

(** [Model.objects.filter(P)], by increasing primary key; [i] is the key of
    the first slot of [t]. *)
Fixpoint select_from (P : nat → A → bool) (i : nat) (t : table A)
  : list (nat * A) :=
  match t with
  | [] => []
  | Some r :: t' =>
      if P i r then (i, r) :: select_from P (S i) t'
      else select_from P (S i) t'
  | None :: t' => select_from P (S i) t'
  end.

Definition select (P : nat → A → bool) (t : table A) : list (nat * A) :=
  select_from P 0 t.

(** [Model.objects.create(...)]: the new row gets the next key. *)
Definition tbl_insert (t : table A) (r : A) : table A * nat :=
  (t ++ [Some r], length t).

(** [instance.save()] of a row loaded from the table. *)
Definition tbl_save (t : table A) (pk : nat) (r : A) : table A :=
  <[pk := Some r]> t.

(** [queryset.filter(P).update(...)] *)
Fixpoint update_from (P : nat → A → bool) (f : A → A) (i : nat) (t : table A)
  : table A :=
  match t with
  | [] => []
  | Some r :: t' =>
      Some (if P i r then f r else r) :: update_from P f (S i) t'
  | None :: t' => None :: update_from P f (S i) t'
  end.

Definition update_where (P : nat → A → bool) (f : A → A) (t : table A)
  : table A :=
  update_from P f 0 t.

(** [queryset.filter(P).delete()] *)
Fixpoint delete_from (P : nat → A → bool) (i : nat) (t : table A)
  : table A :=
  match t with
  | [] => []
  | Some r :: t' =>
      (if P i r then None else Some r) :: delete_from P (S i) t'
  | None :: t' => None :: delete_from P (S i) t'
  end.

Definition delete_where (P : nat → A → bool) (t : table A) : table A :=
  delete_from P 0 t.
End Tables.

(* ================================================================== *)
(** ** The persistent entities

    Modelled from the spec: app/users/models.py and app/users/app_choices.py
    are not part of the sources; the rows carry the columns that the
    serializers and views read and write, with the relations of the data
    model (section 3 of the specification).  Foreign keys are primary keys of
    the referenced table. *)
(* ================================================================== *)

Record Shop := {
  shop_owner : nat;
  shop_name : string;
  shop_email : string;
  base_shipping_price : Z;
  is_open : bool
}.

Record ShopCategory := {
  sc_shop : nat;
  sc_category : nat;
  sc_external_id : Z
}.

Record ProductInfo := {
  pi_product : nat;
  pi_shop : nat;
  pi_category : nat;
  external_id : Z;
  quantity : Z;
  price : Z;
  price_rrc : Z
}.

Record ProductParameter := {
  pp_product_info : nat;
  pp_parameter : nat;
  pp_value : nat
}.

Record Contact := {
  contact_user : nat;
  is_deleted : bool
}.

Inductive BuyerOrderState := BO_basket | BO_accepted.
Inductive SellerOrderState := SO_basket | SO_new | SO_canceled | SO_delivered.

Record BuyerOrder := {
  bo_user : nat;
  bo_state : BuyerOrderState;
  bo_contact : option nat;
  bo_created_at : option nat
}.

Record SellerOrder := {
  so_buyer_order : nat;
  so_shop : nat;
  so_state : SellerOrderState;
  so_contact : option nat;
  so_shipping_price : Z;
  so_created_at : option nat
}.

Record SellerOrderItem := {
  oi_order : nat;
  oi_product_info : nat;
  oi_quantity : Z;
  purchase_price : Z;
  purchase_price_rrc : Z
}.

#[global] Instance BuyerOrderState_eq_dec : EqDecision BuyerOrderState.
Proof. solve_decision. Defined.
#[global] Instance SellerOrderState_eq_dec : EqDecision SellerOrderState.
Proof. solve_decision. Defined.

(** The store.  [categories], [products], [parameters] and [values] are the
    global pools; their only column is the name (the value). *)
Record DB := {
  shops : table Shop;
  categories : table string;
  shop_categories : table ShopCategory;
  products : table string;
  product_infos : table ProductInfo;
  parameters : table string;
  values : table string;
  product_parameters : table ProductParameter;
  contacts : table Contact;
  buyer_orders : table BuyerOrder;
  seller_orders : table SellerOrder;
  seller_order_items : table SellerOrderItem
}.

Definition empty_db : DB :=
  {| shops := []; categories := []; shop_categories := []; products := [];
     product_infos := []; parameters := []; values := [];
     product_parameters := []; contacts := []; buyer_orders := [];
     seller_orders := []; seller_order_items := [] |}.

Definition set_shops (v : table Shop) (db : DB) : DB :=
  {| shops := v; categories := categories db;
     shop_categories := shop_categories db; products := products db;
     product_infos := product_infos db; parameters := parameters db;
     values := values db; product_parameters := product_parameters db;
     contacts := contacts db; buyer_orders := buyer_orders db;
     seller_orders := seller_orders db;
     seller_order_items := seller_order_items db |}.

Definition set_categories (v : table string) (db : DB) : DB :=
  {| shops := shops db; categories := v;
     shop_categories := shop_categories db; products := products db;
     product_infos := product_infos db; parameters := parameters db;
     values := values db; product_parameters := product_parameters db;
     contacts := contacts db; buyer_orders := buyer_orders db;
     seller_orders := seller_orders db;
     seller_order_items := seller_order_items db |}.

Definition set_shop_categories (v : table ShopCategory) (db : DB) : DB :=
  {| shops := shops db; categories := categories db;
     shop_categories := v; products := products db;
     product_infos := product_infos db; parameters := parameters db;
     values := values db; product_parameters := product_parameters db;
     contacts := contacts db; buyer_orders := buyer_orders db;
     seller_orders := seller_orders db;
     seller_order_items := seller_order_items db |}.

Definition set_products (v : table string) (db : DB) : DB :=
  {| shops := shops db; categories := categories db;
     shop_categories := shop_categories db; products := v;
     product_infos := product_infos db; parameters := parameters db;
     values := values db; product_parameters := product_parameters db;
     contacts := contacts db; buyer_orders := buyer_orders db;
     seller_orders := seller_orders db;
     seller_order_items := seller_order_items db |}.

Definition set_product_infos (v : table ProductInfo) (db : DB) : DB :=
  {| shops := shops db; categories := categories db;
     shop_categories := shop_categories db; products := products db;
     product_infos := v; parameters := parameters db;
     values := values db; product_parameters := product_parameters db;
     contacts := contacts db; buyer_orders := buyer_orders db;
     seller_orders := seller_orders db;
     seller_order_items := seller_order_items db |}.

Definition set_parameters (v : table string) (db : DB) : DB :=
  {| shops := shops db; categories := categories db;
     shop_categories := shop_categories db; products := products db;
     product_infos := product_infos db; parameters := v;
     values := values db; product_parameters := product_parameters db;
     contacts := contacts db; buyer_orders := buyer_orders db;
     seller_orders := seller_orders db;
     seller_order_items := seller_order_items db |}.

Definition set_values (v : table string) (db : DB) : DB :=
  {| shops := shops db; categories := categories db;
     shop_categories := shop_categories db; products := products db;
     product_infos := product_infos db; parameters := parameters db;
     values := v; product_parameters := product_parameters db;
     contacts := contacts db; buyer_orders := buyer_orders db;
     seller_orders := seller_orders db;
     seller_order_items := seller_order_items db |}.

Definition set_product_parameters (v : table ProductParameter) (db : DB) : DB :=
  {| shops := shops db; categories := categories db;
     shop_categories := shop_categories db; products := products db;
     product_infos := product_infos db; parameters := parameters db;
     values := values db; product_parameters := v;
     contacts := contacts db; buyer_orders := buyer_orders db;
     seller_orders := seller_orders db;
     seller_order_items := seller_order_items db |}.

Definition set_contacts (v : table Contact) (db : DB) : DB :=
  {| shops := shops db; categories := categories db;
     shop_categories := shop_categories db; products := products db;
     product_infos := product_infos db; parameters := parameters db;
     values := values db; product_parameters := product_parameters db;
     contacts := v; buyer_orders := buyer_orders db;
     seller_orders := seller_orders db;
     seller_order_items := seller_order_items db |}.

Definition set_buyer_orders (v : table BuyerOrder) (db : DB) : DB :=
  {| shops := shops db; categories := categories db;
     shop_categories := shop_categories db; products := products db;
     product_infos := product_infos db; parameters := parameters db;
     values := values db; product_parameters := product_parameters db;
     contacts := contacts db; buyer_orders := v;
     seller_orders := seller_orders db;
     seller_order_items := seller_order_items db |}.

Definition set_seller_orders (v : table SellerOrder) (db : DB) : DB :=
  {| shops := shops db; categories := categories db;
     shop_categories := shop_categories db; products := products db;
     product_infos := product_infos db; parameters := parameters db;
     values := values db; product_parameters := product_parameters db;
     contacts := contacts db; buyer_orders := buyer_orders db;
     seller_orders := v;
     seller_order_items := seller_order_items db |}.

Definition set_seller_order_items (v : table SellerOrderItem) (db : DB) : DB :=
  {| shops := shops db; categories := categories db;
     shop_categories := shop_categories db; products := products db;
     product_infos := product_infos db; parameters := parameters db;
     values := values db; product_parameters := product_parameters db;
     contacts := contacts db; buyer_orders := buyer_orders db;
     seller_orders := seller_orders db;
     seller_order_items := v |}.

(* ================================================================== *)
(** ** Exceptions and the store monad *)
(* ================================================================== *)

(** [ValidationError.detail]: a list of messages, a dictionary of field
    errors, or (for a [many=True] field) one entry per item. *)
#[local] Unset Elimination Schemes.
Inductive detail :=
| Msgs (msgs : list string)
| Fields (fields : list (string * detail))
| Items (items : list detail).
#[local] Set Elimination Schemes.

Inductive exn :=
| IntegrityError
| DoesNotExist
| MultipleObjectsReturned
| KeyError (key : string)
| ValidationError (d : detail).

Inductive res (A : Type) :=
| Ok (a : A)
| Raise (e : exn).
Arguments Ok {A} a.
Arguments Raise {A} e.

Definition M (A : Type) : Type := DB → DB * res A.

Definition ret {A} (a : A) : M A := λ db, (db, Ok a).

Definition bind {A B} (m : M A) (k : A → M B) : M B :=
  λ db, match m db with
        | (db', Ok a) => k a db'
        | (db', Raise e) => (db', Raise e)
        end.

Definition raise {A} (e : exn) : M A := λ db, (db, Raise e).

(** [try: m  except <any>: h] *)
Definition try_except {A} (m : M A) (h : exn → M A) : M A :=
  λ db, match m db with
        | (db', Ok a) => (db', Ok a)
        | (db', Raise e) => h e db'
        end.

Definition query {A} (f : DB → A) : M A := λ db, (db, Ok (f db)).

Definition modify (f : DB → DB) : M unit := λ db, (f db, Ok tt).

Notation "'let!' x ':=' m 'in' k" := (bind m (λ x, k))
  (at level 10, x pattern, m at level 100, k at level 200).
Notation "'run!' m 'in' k" := (bind m (λ _, k))
  (at level 10, m at level 100, k at level 200).

(** [Model.objects.get(...)] on the rows matched by a filter. *)
Definition get_unique {A} (matches : list (nat * A)) : res (option (nat * A)) :=
  match matches with
  | [] => Ok None
  | [x] => Ok (Some x)
  | _ => Raise MultipleObjectsReturned
  end.

(** [for x in l: body x] *)
Fixpoint for_each {A} (l : list A) (body : A → M unit) : M unit :=
  match l with
  | [] => ret tt
  | x :: l' => run! body x in for_each l' body
  end.

(* ================================================================== *)
(** ** The decoded catalog payload

    [json_data] is the structure produced by the upload decoder.  Each key
    that the code reads with [d[key]] or [d.get(key)] is an optional field;
    the values have the types of the catalog format (integers for
    identifiers, prices and quantities, text for names and parameters).
    Text is a string of UTF-8 bytes. *)
(* ================================================================== *)

Record category_src := {
  cs_id : option Z;
  cs_name : option string
}.

Record good_src := {
  gs_id : option Z;
  gs_category : option Z;
  gs_name : option string;
  gs_parameters : option (list (string * string));
  gs_price : option Z;
  gs_price_rrc : option Z;
  gs_quantity : option Z
}.

Record payload := {
  p_shop : option string;
  p_categories : option (list category_src);
  p_goods : option (list good_src);
  p_email : option string;
  p_shipping_price : option Z
}.

(** The data handed to [PartnerProductInfoSerializer], and its
    [validated_data], which has the same shape. *)
Record category_data := {
  cd_name : string;
  cd_external_id : Z
}.

Record product_data := {
  pd_external_id : Z;
  pd_category : category_data;
  pd_product_name : string;
  pd_product_parameters : list (string * string);
  pd_price : Z;
  pd_price_rrc : Z;
  pd_quantity : Z
}.

(** The dictionary returned by [import_products]. *)
Inductive import_result :=
| ImportOk (shop_id : nat)
| ParseError (invalid_field : string)
| ShopNameOccupied (name : string)
| CategoryMatchError (key : string)
    (categories_source : list category_src) (product : good_src)
| ProductParseError (invalid_field : string)
    (categories_source : list category_src) (product : good_src)
| InvalidProductInfo (product_info : good_src) (d : detail).

(** [str(KeyError(key))] for a text key and for an integer key. *)
Definition repr_str (key : string) : string := "'" +:+ key +:+ "'".
Definition repr_int (key : Z) : string := pretty key.

(* ================================================================== *)
(** ** Field validation of the serializers *)
(* ================================================================== *)

(** A [string] holds the bytes of a Python [str] in UTF-8, a lone surrogate
    in its three-byte form.  [len], [str.strip], [str.isdigit] and [int]
    work on the characters of the text, so the bytes are grouped into
    characters first: a byte from 128 to 191 continues the character before
    it. *)
Definition is_continuation (c : ascii) : bool :=
  let n := N_of_ascii c in (128 <=? n)%N && (n <? 192)%N.

Fixpoint utf8_chars (s : string) : list string :=
  match s with
  | EmptyString => []
  | String c s' =>
      match s' with
      | String c' _ =>
          if is_continuation c'
          then match utf8_chars s' with
               | ch :: l => String c ch :: l
               | [] => [String c EmptyString]
               end
          else String c EmptyString :: utf8_chars s'
      | EmptyString => [String c EmptyString]
      end
  end.

(** The payload bits of the first byte of a character. *)
Definition lead_bits (n : N) : N :=
  (if n <? 128 then n
   else if n <? 192 then n - 128
   else if n <? 224 then n - 192
   else if n <? 240 then n - 224
   else n - 240)%N.

Fixpoint continuation_bits (acc : N) (s : string) : N :=
  match s with
  | EmptyString => acc
  | String c s' => continuation_bits (acc * 64 + (N_of_ascii c - 128))%N s'
  end.

(** [ord(ch)]: the code point of a character. *)
Definition ord (ch : string) : N :=
  match ch with
  | EmptyString => 0%N
  | String c s' => continuation_bits (lead_bits (N_of_ascii c)) s'
  end.

Definition code_points (s : string) : list N := ord <$> utf8_chars s.

(** [len(s)]: the number of characters. *)
Definition len (s : string) : nat := length (utf8_chars s).

(** [str.isspace] of a character: the characters of the Unicode database
    that are whitespace (general category Zs or bidirectional class WS, B
    or S). *)
Definition is_space (c : N) : bool :=
  ((9 <=? c) && (c <=? 13) || (28 <=? c) && (c <=? 32)
   || (c =? 133) || (c =? 160) || (c =? 5760)
   || (8192 <=? c) && (c <=? 8202) || (c =? 8232) || (c =? 8233)
   || (c =? 8239) || (c =? 8287) || (c =? 12288))%N.

Fixpoint lstrip (l : list string) : list string :=
  match l with
  | [] => []
  | ch :: l' => if is_space (ord ch) then lstrip l' else l
  end.

(** Python's [str.strip()]: the whitespace characters at both ends are
    removed. *)
Definition strip (s : string) : string :=
  String.concat "" (rev (lstrip (rev (lstrip (utf8_chars s))))).

(** The first surrogate among the code points of a text, if there is one. *)
Definition first_surrogate (l : list N) : option N :=
  List.find (λ c, (55296 <=? c) && (c <=? 57343))%N l.

(** A number in hexadecimal with capital letters, as the format [:X]
    prints it. *)
Fixpoint hex_digits (d : Hexadecimal.uint) : string :=
  match d with
  | Hexadecimal.Nil => EmptyString
  | Hexadecimal.D0 d' => String "0" (hex_digits d')
  | Hexadecimal.D1 d' => String "1" (hex_digits d')
  | Hexadecimal.D2 d' => String "2" (hex_digits d')
  | Hexadecimal.D3 d' => String "3" (hex_digits d')
  | Hexadecimal.D4 d' => String "4" (hex_digits d')
  | Hexadecimal.D5 d' => String "5" (hex_digits d')
  | Hexadecimal.D6 d' => String "6" (hex_digits d')
  | Hexadecimal.D7 d' => String "7" (hex_digits d')
  | Hexadecimal.D8 d' => String "8" (hex_digits d')
  | Hexadecimal.D9 d' => String "9" (hex_digits d')
  | Hexadecimal.Da d' => String "A" (hex_digits d')
  | Hexadecimal.Db d' => String "B" (hex_digits d')
  | Hexadecimal.Dc d' => String "C" (hex_digits d')
  | Hexadecimal.Dd d' => String "D" (hex_digits d')
  | Hexadecimal.De d' => String "E" (hex_digits d')
  | Hexadecimal.Df d' => String "F" (hex_digits d')
  end.

Definition hex_upper (n : N) : string := hex_digits (N.to_hex_uint n).

(** [serializers.CharField(max_length=...)].  A value that is empty once
    trimmed is refused as blank.  Otherwise the value is trimmed and the
    validators of the field run in the order in which the field registers
    them: at most [max_length] characters, no null character, no surrogate;
    the messages of all the validators that fail are returned together. *)
Definition CharField (max_length : option nat) (data : string)
  : string + detail :=
  let value := strip data in
  if bool_decide (value = "") then inr (Msgs ["This field may not be blank."])
  else
    let too_long :=
      match max_length with
      | Some n =>
          if (n <? len value)%nat
          then ["Ensure this field has no more than " +:+ pretty n
                +:+ " characters."]
          else []
      | None => []
      end in
    let null :=
      if bool_decide (0%N ∈ code_points value)
      then ["Null characters are not allowed."]
      else [] in
    let surrogate :=
      match first_surrogate (code_points value) with
      | Some c => ["Surrogate characters are not allowed: U+" +:+ hex_upper c
                   +:+ "."]
      | None => []
      end in
    match too_long ++ null ++ surrogate with
    | [] => inl value
    | errors => inr (Msgs errors)
    end.

(** [serializers.IntegerField(min_value=...)] *)
Definition IntegerField (min_value : option Z) (data : Z) : Z + detail :=
  match min_value with
  | Some m =>
      if data <? m
      then inr (Msgs ["Ensure this value is greater than or equal to "
                      +:+ pretty m +:+ "."])
      else inl data
  | None => inl data
  end.

(** Modelled from the spec: the columns [external_id], [quantity], [price]
    and [price_rrc] of [ProductInfo] are declared in models.py, which is not
    part of the sources; the specification names the shared invariants
    "price non-negative, quantity non-negative", so the serializer fields
    generated from them are integer fields bounded below by 0. *)
Definition model_min_value : option Z := Some 0.

(** Errors of a serializer: the failed fields, in field order. *)
Definition field_errors {A} (name : string) (r : A + detail)
  : list (string * detail) :=
  match r with
  | inl _ => []
  | inr d => [(name, d)]
  end.

Definition field_value {A} (default : A) (r : A + detail) : A :=
  match r with
  | inl v => v
  | inr _ => default
  end.

(** [PartnerCategorySerializer]: [name] and [external_id]. *)
Definition validate_category (c : category_data) : category_data + detail :=
  let name := CharField (Some 50%nat) (cd_name c) in
  let ext := IntegerField (Some 1) (cd_external_id c) in
  match field_errors "name" name ++ field_errors "external_id" ext with
  | [] => inl {| cd_name := field_value "" name;
                 cd_external_id := field_value 0 ext |}
  | errs => inr (Fields errs)
  end.

(** [ProductSerializer]: [name]. *)
Definition validate_product (name : string) : string + detail :=
  match CharField None name with
  | inl v => inl v
  | inr d => inr (Fields [("name", d)])
  end.

(** [ProductParameterSerializer]: [parameter] and [value]. *)
Definition validate_parameter (p : string * string)
  : (string * string) + detail :=
  let parameter := CharField None (fst p) in
  let value := CharField None (snd p) in
  match field_errors "parameter" parameter ++ field_errors "value" value with
  | [] => inl (field_value "" parameter, field_value "" value)
  | errs => inr (Fields errs)
  end.

(** [ProductParameterSerializer(many=True)]: when an item is invalid the
    error lists one dictionary per item, empty for the valid ones. *)
Definition validate_parameters (ps : list (string * string))
  : list (string * string) + detail :=
  let rs := map validate_parameter ps in
  if forallb (λ r, match r with inl _ => true | inr _ => false end) rs
  then inl (map (field_value ("", "")) rs)
  else inr (Items (map (λ r, match r with
                             | inl _ => Fields []
                             | inr d => d
                             end) rs)).

(** The field-level part of [PartnerProductInfoSerializer.run_validation],
    in the order of [Meta.fields]; [external_id] is returned apart, for the
    [validate_external_id] hook. *)
Definition validate_fields (data : product_data)
  : (Z + detail) * list (string * detail) * product_data :=
  let ext := IntegerField model_min_value (pd_external_id data) in
  let category := validate_category (pd_category data) in
  let product := validate_product (pd_product_name data) in
  let params := validate_parameters (pd_product_parameters data) in
  let quantity := IntegerField model_min_value (pd_quantity data) in
  let price := IntegerField model_min_value (pd_price data) in
  let price_rrc := IntegerField model_min_value (pd_price_rrc data) in
  (ext,
   field_errors "category" category ++ field_errors "product" product
     ++ field_errors "product_parameters" params
     ++ field_errors "quantity" quantity ++ field_errors "price" price
     ++ field_errors "price_rrc" price_rrc,
   {| pd_external_id := field_value 0 ext;
      pd_category := field_value (pd_category data) category;
      pd_product_name := field_value "" product;
      pd_product_parameters := field_value [] params;
      pd_price := field_value 0 price;
      pd_price_rrc := field_value 0 price_rrc;
      pd_quantity := field_value 0 quantity |}).

(* ================================================================== *)
(** ** PartnerProductInfoSerializer (app/users/serializers.py) *)
(* ================================================================== *)

(** The serializer context: the keys ['request'] (with the authenticated
    user) and ['view'] that the framework sets for a view, and that are
    absent when the serializer is built by [import_products]. *)
Record context := {
  ctx_request : option nat;
  ctx_view : bool
}.

Definition import_context : context :=
  {| ctx_request := None; ctx_view := false |}.

Definition view_context (user : nat) : context :=
  {| ctx_request := Some user; ctx_view := true |}.

(** [sorted(l, key=lambda x: x['parameter'])]: a stable sort by name; byte
    order on UTF-8 text is the order of the code points. *)
Fixpoint insert_by_parameter (x : string * string) (l : list (string * string))
  : list (string * string) :=
  match l with
  | [] => [x]
  | y :: l' =>
      if String.leb (fst x) (fst y) then x :: y :: l'
      else y :: insert_by_parameter x l'
  end.

Definition sort_by_parameter (l : list (string * string))
  : list (string * string) :=
  foldr insert_by_parameter [] l.

(** The keys of [fields_to_update]. *)
Record fields_to_update := {
  fu_quantity : option Z;
  fu_price : option Z;
  fu_price_rrc : option Z;
  fu_product_parameters : option (list (string * string))
}.

Definition no_fields (f : fields_to_update) : bool :=
  match fu_quantity f, fu_price f, fu_price_rrc f, fu_product_parameters f with
  | None, None, None, None => true
  | _, _, _, _ => false
  end.

(** [setattr] of the changed columns on the loaded instance. *)
Definition apply_fields (f : fields_to_update) (row : ProductInfo)
  : ProductInfo :=
  {| pi_product := pi_product row;
     pi_shop := pi_shop row;
     pi_category := pi_category row;
     external_id := external_id row;
     quantity := default (quantity row) (fu_quantity f);
     price := default (price row) (fu_price f);
     price_rrc := default (price_rrc row) (fu_price_rrc f) |}.

Definition changed (old new : Z) : option Z :=
  if bool_decide (old ≠ new) then Some new else None.

(** [<pool>.objects.get_or_create(name=name)] on a global pool. *)
Definition get_or_create_name (tbl : DB → table string)
    (set : table string → DB → DB) (name : string) : M nat :=
  λ db,
    match get_unique (select (λ _ n, bool_decide (n = name)) (tbl db)) with
    | Ok (Some (pk, _)) => (db, Ok pk)
    | Ok None =>
        let '(t, pk) := tbl_insert (tbl db) name in (set t db, Ok pk)
    | Raise e => (db, Raise e)
    end.

(** [shop.product_infos.filter(external_id=value)] *)
Definition listings_with (shop : nat) (value : Z) (db : DB)
  : list (nat * ProductInfo) :=
  select (λ _ p, bool_decide (pi_shop p = shop ∧ external_id p = value))
         (product_infos db).

(** [shop.product_infos.all()] *)
Definition listings_of (shop : nat) (db : DB) : list (nat * ProductInfo) :=
  select (λ _ p, bool_decide (pi_shop p = shop)) (product_infos db).

(** [product_info.product_parameters.all()] *)
Definition parameters_of (product_info : nat) (db : DB)
  : list (nat * ProductParameter) :=
  select (λ _ pp, bool_decide (pp_product_info pp = product_info))
         (product_parameters db).

(** [ProductParameterSerializer(row).data]: the name of the parameter and
    the text of the value (their [__str__]). *)
Definition parameter_repr (db : DB) (row : nat * ProductParameter)
  : option (string * string) :=
  match row_at (parameters db) (pp_parameter (snd row)),
        row_at (values db) (pp_value (snd row)) with
  | Some n, Some v => Some (n, v)
  | _, _ => None
  end.

Module PartnerProductInfoSerializer.

(** [not {'request', 'view'} & self.context.keys()] *)
Definition is_importing (c : context) : bool :=
  negb (bool_decide (is_Some (ctx_request c)) || ctx_view c).

(** [self.context['request'].auth.user.shop] *)
Definition shop (c : context) : M nat :=
  match ctx_request c with
  | None => raise (KeyError "request")
  | Some user =>
      λ db,
        match select (λ _ s, bool_decide (shop_owner s = user)) (shops db) with
        | (pk, _) :: _ => (db, Ok pk)
        | [] => (db, Raise DoesNotExist)
        end
  end.

Definition validate_external_id (c : context) (value : Z) : M Z :=
  if is_importing c then ret value
  else
    let! s := shop c in
    let! taken := query (λ db, bool_decide (listings_with s value db ≠ [])) in
    if taken : bool
    then raise (ValidationError
                  (Msgs ["product with external_id " +:+ pretty value
                         +:+ " is already exists in your shop"]))
    else ret value.

(** [serializer.is_valid(raise_exception=True)] followed by
    [serializer.validated_data]: every field is validated, the errors of
    all fields are collected, and [validate_external_id] runs on an
    [external_id] that passed its field. *)
Definition is_valid (c : context) (data : product_data) : M product_data :=
  let '(ext, errs, validated_data) := validate_fields data in
  let! ext_errs :=
    match ext with
    | inr d => ret [("external_id", d)]
    | inl v =>
        try_except (run! validate_external_id c v in ret [])
          (λ e, match e with
                | ValidationError d => ret [("external_id", d)]
                | _ => raise e
                end)
    end in
  match ext_errs ++ errs with
  | [] => ret validated_data
  | es => raise (ValidationError (Fields es))
  end.

(** One turn of the loop of [add_parameters]: the [try] block and its
    bare [except]. *)
Definition add_parameter (product_info : nat)
    (parameter_dict : string * string) : M unit :=
  try_except
    (let! parameter :=
       get_or_create_name parameters set_parameters (fst parameter_dict) in
     let! value :=
       get_or_create_name values set_values (snd parameter_dict) in
     modify (λ db,
       set_product_parameters
         (fst (tbl_insert (product_parameters db)
                 {| pp_product_info := product_info;
                    pp_parameter := parameter;
                    pp_value := value |})) db))
    (λ _, raise (ValidationError
                   (Fields [("product_parameters", Msgs ["bad fields"])]))).

Definition add_parameters (product_info : nat)
    (parameter_dicts : list (string * string)) (replace_old : bool)
  : M unit :=
  run! (if replace_old
        then modify (λ db,
               set_product_parameters
                 (delete_where
                    (λ _ pp, bool_decide (pp_product_info pp = product_info))
                    (product_parameters db)) db)
        else ret tt) in
  for_each parameter_dicts (add_parameter product_info).

(** [shop.categories.get_or_create(category=..., defaults={'external_id':
    ...})].  Modelled from the spec: a shop-local [external_id] is unique
    per shop, which is the constraint whose violation the caller catches
    as [IntegrityError]. *)
Definition shop_category_get_or_create (shop category_object : nat)
    (category_external_id : Z) : M nat :=
  λ db,
    match get_unique
            (select (λ _ sc, bool_decide (sc_shop sc = shop
                                          ∧ sc_category sc = category_object))
                    (shop_categories db)) with
    | Ok (Some (pk, _)) => (db, Ok pk)
    | Ok None =>
        if bool_decide
             (select (λ _ sc, bool_decide (sc_shop sc = shop
                                ∧ sc_external_id sc = category_external_id))
                     (shop_categories db) ≠ [])
        then (db, Raise IntegrityError)
        else
          let '(t, pk) :=
            tbl_insert (shop_categories db)
              {| sc_shop := shop; sc_category := category_object;
                 sc_external_id := category_external_id |} in
          (set_shop_categories t db, Ok pk)
    | Raise e => (db, Raise e)
    end.

(** [ProductInfo.objects.create(...)].  Modelled from the spec: the
    [external_id] of a listing is unique within its shop. *)
Definition product_info_create (row : ProductInfo) : M nat :=
  λ db,
    if bool_decide (listings_with (pi_shop row) (external_id row) db ≠ [])
    then (db, Raise IntegrityError)
    else
      let '(t, pk) := tbl_insert (product_infos db) row in
      (set_product_infos t db, Ok pk).

Definition create (validated_data : product_data) (shop : nat) : M nat :=
  let category_data := pd_category validated_data in
  let category_external_id := cd_external_id category_data in
  let category_name := cd_name category_data in
  let! category_object :=
    get_or_create_name categories set_categories category_name in
  let! shop_category :=
    try_except
      (shop_category_get_or_create shop category_object category_external_id)
      (λ e, match e with
            | IntegrityError =>
                raise (ValidationError
                  (Fields [("category_external_id",
                            Msgs ["category with external_id "
                                  +:+ pretty category_external_id
                                  +:+ " already exists"])]))
            | _ => raise e
            end) in
  let! product_object :=
    get_or_create_name products set_products
      (pd_product_name validated_data) in
  let! product_info :=
    product_info_create
      {| pi_product := product_object;
         pi_shop := shop;
         pi_category := shop_category;
         external_id := pd_external_id validated_data;
         quantity := pd_quantity validated_data;
         price := pd_price validated_data;
         price_rrc := pd_price_rrc validated_data |} in
  run! add_parameters product_info
         (pd_product_parameters validated_data) false in
  ret product_info.

(** [PartnerProductInfoUpdateSerializer.update]; [instance] is the row as
    it was loaded, [super().update] sets the changed columns on it and
    saves it. *)
Definition update (instance : nat * ProductInfo)
    (validated_data : fields_to_update) : M nat :=
  run! (match fu_product_parameters validated_data with
        | Some parameter_dicts =>
            add_parameters (fst instance) parameter_dicts true
        | None => ret tt
        end) in
  run! modify (λ db,
         set_product_infos
           (tbl_save (product_infos db) (fst instance)
                     (apply_fields validated_data (snd instance))) db) in
  ret (fst instance).

(** [PartnerProductInfoBriefSerializer(instance).data['product_parameters']] *)
Definition brief_parameters (instance : nat) : M (list (string * string)) :=
  λ db,
    match mapM (parameter_repr db) (parameters_of instance db) with
    | Some l => (db, Ok l)
    | None => (db, Raise DoesNotExist)
    end.

Definition update_or_create (validated_data : product_data) (shop : nat)
  : M nat :=
  let! instance :=
    query (λ db, head (listings_with shop (pd_external_id validated_data) db)) in
  match instance with
  | Some (pk, row) =>
      let! product_parameters_old := brief_parameters pk in
      let product_parameters_old := sort_by_parameter product_parameters_old in
      let product_parameters_new := pd_product_parameters validated_data in
      let fields_to_update :=
        {| fu_quantity := changed (quantity row) (pd_quantity validated_data);
           fu_price := changed (price row) (pd_price validated_data);
           fu_price_rrc :=
             changed (price_rrc row) (pd_price_rrc validated_data);
           fu_product_parameters :=
             if bool_decide (product_parameters_old
                             ≠ sort_by_parameter product_parameters_new)
             then Some product_parameters_new else None |} in
      if no_fields fields_to_update then ret pk
      else update (pk, row) fields_to_update
  | None => create validated_data shop
  end.

End PartnerProductInfoSerializer.

(* ================================================================== *)
(** ** import_products (app/users/importing_products.py) *)
(* ================================================================== *)

(** The dictionary comprehension over [categories_source]; a later entry
    with the same id replaces an earlier one.  The key [category['id']] is
    evaluated before the value. *)
Fixpoint build_categories (categories_source : list category_src)
    (acc : gmap Z category_data) : string + gmap Z category_data :=
  match categories_source with
  | [] => inr acc
  | category :: rest =>
      match cs_id category, cs_name category with
      | None, _ => inl (repr_str "id")
      | Some id, None => inl (repr_str "name")
      | Some id, Some name =>
          build_categories rest
            (<[id := {| cd_name := name; cd_external_id := id |}]> acc)
      end
  end.

(** The first [try] block: the required top-level keys. *)
Definition parse_top (json_data : payload)
  : string + (string * list category_src * gmap Z category_data
              * list good_src) :=
  match p_shop json_data with
  | None => inl (repr_str "shop")
  | Some shop_name =>
      match p_categories json_data with
      | None => inl (repr_str "categories")
      | Some categories_source =>
          match build_categories categories_source ∅ with
          | inl key => inl key
          | inr categories =>
              match p_goods json_data with
              | None => inl (repr_str "goods")
              | Some products =>
                  inr (shop_name, categories_source, categories, products)
              end
          end
      end
  end.

(** [Shop.objects.get_or_create(owner_id=user_id, defaults={...})].  The
    name of a shop is unique: its violation is the [IntegrityError] that
    [import_products] reports as an occupied name.  Modelled from the spec:
    a created shop is open. *)
Definition shop_get_or_create (owner_id : nat) (name email : string)
    (shipping_price : Z) : M (nat * bool) :=
  λ db,
    match get_unique
            (select (λ _ s, bool_decide (shop_owner s = owner_id)) (shops db))
    with
    | Ok (Some (pk, _)) => (db, Ok (pk, false))
    | Ok None =>
        if bool_decide
             (select (λ _ s, bool_decide (shop_name s = name)) (shops db) ≠ [])
        then (db, Raise IntegrityError)
        else
          let '(t, pk) :=
            tbl_insert (shops db)
              {| shop_owner := owner_id; shop_name := name;
                 shop_email := email; base_shipping_price := shipping_price;
                 is_open := true |} in
          (set_shops t db, Ok (pk, true))
    | Raise e => (db, Raise e)
    end.

(** The body of the loop over [products] up to the serializer: the category
    lookup and the construction of [product_data]. *)
Definition build_product_data (categories_source : list category_src)
    (categories : gmap Z category_data) (product_source : good_src)
  : import_result + product_data :=
  match gs_category product_source with
  | None =>
      inl (CategoryMatchError (repr_str "category")
             categories_source product_source)
  | Some category_external_id =>
      match categories !! category_external_id with
      | None =>
          inl (CategoryMatchError (repr_int category_external_id)
                 categories_source product_source)
      | Some category =>
          let missing field :=
            inl (ProductParseError (repr_str field)
                   categories_source product_source) in
          match gs_parameters product_source with
          | None => missing "parameters"
          | Some product_parameters =>
          match gs_id product_source with
          | None => missing "id"
          | Some id =>
          match gs_name product_source with
          | None => missing "name"
          | Some name =>
          match gs_price product_source with
          | None => missing "price"
          | Some price =>
          match gs_price_rrc product_source with
          | None => missing "price_rrc"
          | Some price_rrc =>
          match gs_quantity product_source with
          | None => missing "quantity"
          | Some quantity =>
              inr {| pd_external_id := id;
                     pd_category := category;
                     pd_product_name := name;
                     pd_product_parameters := product_parameters;
                     pd_price := price;
                     pd_price_rrc := price_rrc;
                     pd_quantity := quantity |}
          end end end end end end
      end
  end.

(** The loop [for product_source in products]: the first error is returned,
    otherwise the list [validated_product_infos]. *)
Fixpoint validate_products (categories_source : list category_src)
    (categories : gmap Z category_data) (products : list good_src)
  : M (import_result + list product_data) :=
  match products with
  | [] => ret (inr [])
  | product_source :: rest =>
      match build_product_data categories_source categories product_source with
      | inl error => ret (inl error)
      | inr product_data =>
          let! checked :=
            try_except
              (let! validated_data :=
                 PartnerProductInfoSerializer.is_valid import_context
                   product_data in
               ret (inr validated_data))
              (λ e, match e with
                    | ValidationError d =>
                        ret (inl (InvalidProductInfo product_source d))
                    | _ => raise e
                    end) in
          match checked with
          | inl error => ret (inl error)
          | inr validated_data =>
              let! others := validate_products categories_source categories rest in
              match others with
              | inl error => ret (inl error)
              | inr validated => ret (inr (validated_data :: validated))
              end
          end
      end
  end.

(** The set [{product_info['external_id'] for ...}]. *)
Definition external_ids (validated_product_infos : list product_data)
  : gset Z :=
  list_to_set (map pd_external_id validated_product_infos).

Definition zero_quantity (p : ProductInfo) : ProductInfo :=
  {| pi_product := pi_product p; pi_shop := pi_shop p;
     pi_category := pi_category p; external_id := external_id p;
     quantity := 0; price := price p; price_rrc := price_rrc p |}.

(** [shop.product_infos.exclude(external_id__in=ids).update(quantity=0)] *)
Definition zero_missing (shop : nat) (ids : gset Z) : M unit :=
  modify (λ db,
    set_product_infos
      (update_where
         (λ _ p, bool_decide (pi_shop p = shop ∧ external_id p ∉ ids))
         zero_quantity (product_infos db)) db).

(** The two loops of the last block. *)
Definition create_all (shop : nat) (validated_product_infos : list product_data)
  : M unit :=
  for_each validated_product_infos (λ product_info,
    run! PartnerProductInfoSerializer.create product_info shop in ret tt).

Definition upsert_all (shop : nat) (validated_product_infos : list product_data)
  : M unit :=
  for_each validated_product_infos (λ product_info,
    run! PartnerProductInfoSerializer.update_or_create product_info shop
    in ret tt).

(** The last block: bulk creation on a first import, otherwise zeroing of
    the listings missing from the run followed by the upserts. *)
Definition store_products (shop : nat) (shop_created : bool)
    (validated_product_infos : list product_data) : M unit :=
  let! has_listings := query (λ db, bool_decide (listings_of shop db ≠ [])) in
  if shop_created || negb has_listings
  then create_all shop validated_product_infos
  else
    run! zero_missing shop (external_ids validated_product_infos) in
    upsert_all shop validated_product_infos.

Definition import_products (user_id : nat) (user_email : string)
    (json_data : payload) : M import_result :=
  match parse_top json_data with
  | inl key => ret (ParseError key)
  | inr (shop_name, categories_source, categories, products) =>
      let shop_email := default user_email (p_email json_data) in
      let shop_base_shipping_price :=
        default 300 (p_shipping_price json_data) in
      λ db,
        match shop_get_or_create user_id shop_name shop_email
                shop_base_shipping_price db with
        | (db1, Raise IntegrityError) => (db1, Ok (ShopNameOccupied shop_name))
        | (db1, Raise e) => (db1, Raise e)
        | (db1, Ok (shop, shop_created)) =>
            (let! validated :=
               validate_products categories_source categories products in
             match validated with
             | inl error => ret error
             | inr validated_product_infos =>
                 run! store_products shop shop_created
                        validated_product_infos in
                 ret (ImportOk shop)
             end) db1
        end
  end.

(** *** The scenario of the specification *)

Definition toys : category_src := {| cs_id := Some 1; cs_name := Some "Toys" |}.

Definition ball : good_src :=
  {| gs_id := Some 10; gs_category := Some 1; gs_name := Some "Ball";
     gs_parameters := Some [("color", "red")];
     gs_price := Some 100; gs_price_rrc := Some 150; gs_quantity := Some 5 |}.

Definition catalog (goods : list good_src) : payload :=
  {| p_shop := Some "A"; p_categories := Some [toys]; p_goods := Some goods;
     p_email := None; p_shipping_price := None |}.

(* ================================================================== *)
(** ** Baskets and orders (app/users/views.py) *)
(* ================================================================== *)

(** Modelled from the spec: [user.basket_queryset] and [user.basket_object]
    are properties of models.py: the buyer's orders in the [basket] state,
    and the first of them. *)
Definition basket_queryset (user : nat) (db : DB) : list (nat * BuyerOrder) :=
  select (λ _ o, bool_decide (bo_user o = user ∧ bo_state o = BO_basket))
         (buyer_orders db).

Definition basket_object (user : nat) (db : DB) : option (nat * BuyerOrder) :=
  head (basket_queryset user db).

(** [buyer_order.seller_orders.all()] and [seller_order.ordered_items.all()] *)
Definition seller_orders_of (buyer_order : nat) (db : DB)
  : list (nat * SellerOrder) :=
  select (λ _ o, bool_decide (so_buyer_order o = buyer_order))
         (seller_orders db).

Definition ordered_items_of (order : nat) (db : DB)
  : list (nat * SellerOrderItem) :=
  select (λ _ i, bool_decide (oi_order i = order)) (seller_order_items db).

(** The serialized order tree.  [iv_price] and [iv_price_rrc] are the
    purchase prices ([OrderItemBuyerSerializer.to_representation]);
    [iv_status] is the ephemeral [status] attribute of a line item, present
    only on the objects annotated during a request.  The derived totals
    ([summary], [total_sum]) are computed in models.py and are left out;
    [BasketSerializer] shows the same tree without the state, date and
    contact columns. *)
Record item_view := {
  iv_id : nat;
  iv_product_info : nat;
  iv_quantity : Z;
  iv_price : Z;
  iv_price_rrc : Z;
  iv_status : option string
}.

Record seller_order_view := {
  sv_id : nat;
  sv_shop : nat;
  sv_state : SellerOrderState;
  sv_shipping_price : Z;
  sv_items : list item_view
}.

Record order_view := {
  ov_id : nat;
  ov_state : BuyerOrderState;
  ov_created_at : option nat;
  ov_contact : option nat;
  ov_seller_orders : list seller_order_view
}.

Definition render_item (statuses : gmap nat string)
    (item : nat * SellerOrderItem) : item_view :=
  {| iv_id := fst item;
     iv_product_info := oi_product_info (snd item);
     iv_quantity := oi_quantity (snd item);
     iv_price := purchase_price (snd item);
     iv_price_rrc := purchase_price_rrc (snd item);
     iv_status := statuses !! fst item |}.

Definition render_seller_order (statuses : gmap nat string) (db : DB)
    (order : nat * SellerOrder) : seller_order_view :=
  {| sv_id := fst order;
     sv_shop := so_shop (snd order);
     sv_state := so_state (snd order);
     sv_shipping_price := so_shipping_price (snd order);
     sv_items := map (render_item statuses) (ordered_items_of (fst order) db) |}.

Definition render_order (statuses : gmap nat string) (db : DB)
    (order : nat * BuyerOrder) : order_view :=
  {| ov_id := fst order;
     ov_state := bo_state (snd order);
     ov_created_at := bo_created_at (snd order);
     ov_contact := bo_contact (snd order);
     ov_seller_orders :=
       map (render_seller_order statuses db) (seller_orders_of (fst order) db) |}.

Inductive body :=
| Empty
| Tree (t : order_view)
| ErrorMessage (message : string)
| UnknownIds (ids : list nat).

Record response := {
  status_code : nat;
  data : body
}.

Definition HTTP_200_OK : nat := 200.
Definition HTTP_201_CREATED : nat := 201.
Definition HTTP_206_PARTIAL_CONTENT : nat := 206.
Definition HTTP_400_BAD_REQUEST : nat := 400.

Definition api_error (message : body) (status : nat) : response :=
  {| status_code := status; data := message |}.

Definition dquote : string := String (ascii_of_nat 34) EmptyString.

(** The notifications handed to [send_confirmation_email.delay]; the text of
    a message is reduced to the data it is built from. *)
Inductive notification :=
| SellerNotification (email : string) (seller_order : nat)
    (ordered_items_strs : list string)
| BuyerNotification (email : string) (order : nat)
    (ordered_items : list (nat * Z * Z)) (summary_shipping_price : Z).

Module BasketView.

(** [OrderItemBaseSerializer]: [product_info] is a primary key of an
    existing listing, [quantity] is at least 1. *)
Definition validate_item (db : DB) (item : nat * Z) : (nat * Z) + detail :=
  let product_info : nat + detail :=
    match row_at (product_infos db) (fst item) with
    | Some _ => inl (fst item)
    | None =>
        inr (Msgs ["Invalid pk " +:+ dquote +:+ pretty (fst item)
                   +:+ dquote +:+ " - object does not exist."])
    end in
  let quantity := IntegerField (Some 1) (snd item) in
  match field_errors "product_info" product_info
        ++ field_errors "quantity" quantity with
  | [] => inl item
  | errs => inr (Fields errs)
  end.

(** [OrderItemBaseSerializer(data=request.data, many=True)
      .is_valid(raise_exception=True)] *)
Definition validate_items (items : list (nat * Z)) : M (list (nat * Z)) :=
  λ db,
    let rs := map (validate_item db) items in
    if forallb (λ r, match r with inl _ => true | inr _ => false end) rs
    then (db, Ok items)
    else (db, Raise (ValidationError
                       (Items (map (λ r, match r with
                                         | inl _ => Fields []
                                         | inr d => d
                                         end) rs)))).

(** [{item['product_info'].id: item['quantity'] for item in ...}]: the
    last quantity given for a listing wins. *)
Definition ordered_items_dict (items : list (nat * Z)) : gmap nat Z :=
  foldl (λ m item, <[fst item := snd item]> m) ∅ items.

(** The listings of [shop] among the requested ones (the prefetched
    [shop.product_infos]). *)
Definition requested_listings (keys : gmap nat Z) (shop : nat) (db : DB)
  : list (nat * ProductInfo) :=
  select (λ pk p, bool_decide (pi_shop p = shop ∧ is_Some (keys !! pk)))
         (product_infos db).

(** [Shop.objects.filter(is_open=True, product_infos__id__in=keys)]: the
    join returns an open shop once for each of its requested listings. *)
Definition shops_with_ordered_products (keys : gmap nat Z) (db : DB)
  : list (nat * Shop * list (nat * ProductInfo)) :=
  flat_map (λ shop,
              let listings := requested_listings keys (fst shop) db in
              map (λ _, (shop, listings)) listings)
           (select (λ _ s, is_open s) (shops db)).

(** [SellerOrder.objects.get_or_create(buyer_order=basket, shop=shop,
      state=basket, defaults={'shipping_price': ...})] *)
Definition seller_order_get_or_create (basket shop : nat)
    (shipping_price : Z) : M nat :=
  λ db,
    match get_unique
            (select (λ _ o, bool_decide (so_buyer_order o = basket
                                         ∧ so_shop o = shop
                                         ∧ so_state o = SO_basket))
                    (seller_orders db)) with
    | Ok (Some (pk, _)) => (db, Ok pk)
    | Ok None =>
        let '(t, pk) :=
          tbl_insert (seller_orders db)
            {| so_buyer_order := basket; so_shop := shop;
               so_state := SO_basket; so_contact := None;
               so_shipping_price := shipping_price;
               so_created_at := None |} in
        (set_seller_orders t db, Ok pk)
    | Raise e => (db, Raise e)
    end.

(** [SellerOrderItem.objects.update_or_create(order=order,
      product_info=product_info, defaults={...})] *)
Definition item_update_or_create (order product_info : nat)
    (new_quantity new_price new_price_rrc : Z) : M unit :=
  λ db,
    let row := {| oi_order := order; oi_product_info := product_info;
                  oi_quantity := new_quantity;
                  purchase_price := new_price;
                  purchase_price_rrc := new_price_rrc |} in
    match get_unique
            (select (λ _ i, bool_decide (oi_order i = order
                                         ∧ oi_product_info i = product_info))
                    (seller_order_items db)) with
    | Ok (Some (pk, _)) =>
        (set_seller_order_items (tbl_save (seller_order_items db) pk row) db,
         Ok tt)
    | Ok None =>
        (set_seller_order_items (fst (tbl_insert (seller_order_items db) row))
           db, Ok tt)
    | Raise e => (db, Raise e)
    end.

(** [self.user.basket_object or BuyerOrder.objects.create(...)] *)
Definition new_basket (user : nat) : BuyerOrder :=
  {| bo_user := user; bo_state := BO_basket;
     bo_contact := None; bo_created_at := None |}.

Definition ensure_basket (user : nat) : M nat :=
  let! existing := query (basket_object user) in
  match existing with
  | Some (pk, _) => ret pk
  | None =>
      λ db,
        let '(t, pk) := tbl_insert (buyer_orders db) (new_basket user) in
        (set_buyer_orders t db, Ok pk)
  end.

(** The body of the loop over the shops: the seller order of the shop in
    the basket, and a line item for each requested listing of the shop,
    with the price of the listing as it was read with the shops. *)
Definition fill_seller_order (basket : nat)
    (validated_ordered_items : gmap nat Z)
    (entry : nat * Shop * list (nat * ProductInfo)) : M unit :=
  let '(shop, listings) := entry in
  let! order :=
    seller_order_get_or_create basket (fst shop)
      (base_shipping_price (snd shop)) in
  for_each listings (λ product_info,
    match validated_ordered_items !! fst product_info with
    | None => raise (KeyError (pretty (fst product_info)))
    | Some requested =>
        item_update_or_create order (fst product_info) requested
          (price (snd product_info)) (price_rrc (snd product_info))
    end).

Definition post (user : nat) (request_data : list (nat * Z)) : M response :=
  let! basket := ensure_basket user in
  let! validated_data := validate_items request_data in
  let validated_ordered_items := ordered_items_dict validated_data in
  let! shops := query (shops_with_ordered_products validated_ordered_items) in
  run! for_each shops (fill_seller_order basket validated_ordered_items) in
  let! shown := query (basket_object user) in
  match shown with
  | Some order =>
      let! tree := query (λ db, render_order ∅ db order) in
      ret {| status_code := HTTP_201_CREATED; data := Tree tree |}
  | None => raise DoesNotExist
  end.

(** The loop of [delete] over the seller orders of the basket: which
    seller orders are deleted whole and which line items are deleted
    singly.  [seller_orders_baskets] pairs the key of a seller order with
    its line items. *)
Fixpoint prune (seller_orders_baskets : list (nat * list (nat * SellerOrderItem)))
    (ids_to_del : gset nat) (seller_orders_to_del ordered_items_to_del : gset nat)
  : gset nat * gset nat :=
  match seller_orders_baskets with
  | [] => (seller_orders_to_del, ordered_items_to_del)
  | (seller_order, ordered_items) :: rest =>
      let ordered_product_ids : gset nat :=
        list_to_set (map (λ i, oi_product_info (snd i)) ordered_items) in
      let items_to_del_in_current_order := ordered_product_ids ∩ ids_to_del in
      if bool_decide (items_to_del_in_current_order = ∅)
      then prune rest ids_to_del seller_orders_to_del ordered_items_to_del
      else
        let '(seller_orders_to_del, ordered_items_to_del) :=
          if bool_decide (ordered_product_ids = items_to_del_in_current_order)
          then ({[seller_order]} ∪ seller_orders_to_del, ordered_items_to_del)
          else (seller_orders_to_del,
                list_to_set
                  (map fst
                     (List.filter
                        (λ i, bool_decide (oi_product_info (snd i)
                                           ∈ items_to_del_in_current_order))
                        ordered_items))
                ∪ ordered_items_to_del) in
        let ids_to_del := ids_to_del ∖ items_to_del_in_current_order in
        if bool_decide (ids_to_del = ∅)
        then (seller_orders_to_del, ordered_items_to_del)
        else prune rest ids_to_del seller_orders_to_del ordered_items_to_del
  end.

(** Modelled from the spec: the relations of models.py cascade, so that
    deleting a buyer order deletes its seller orders, and deleting a
    seller order deletes its line items. *)
Definition delete_seller_orders (P : nat → SellerOrder → bool) (db : DB) : DB :=
  let doomed : gset nat := list_to_set (map fst (select P (seller_orders db))) in
  set_seller_order_items
    (delete_where (λ _ i, bool_decide (oi_order i ∈ doomed))
                  (seller_order_items db))
    (set_seller_orders (delete_where P (seller_orders db)) db).

Definition delete_basket (basket : nat) (db : DB) : DB :=
  set_buyer_orders
    (delete_where (λ pk _, bool_decide (pk = basket)) (buyer_orders db))
    (delete_seller_orders (λ _ o, bool_decide (so_buyer_order o = basket)) db).

(** [delete], from the parsed query parameter on: the parsing of
    [product_info=1,20,5] either answers with a parameter error before
    the store is read, or yields the set [ids_to_del].  A line item names
    its listing by the foreign key column.  The [remove] calls detach a
    row from its parent before the final [delete] of the same row; the
    model deletes the row. *)
Definition delete (user : nat) (ids_to_del : gset nat) : M response :=
  let! found := query (basket_object user) in
  match found with
  | None =>
      ret (api_error (ErrorMessage "Your basket does not exists")
             HTTP_400_BAD_REQUEST)
  | Some (basket, basket_row) =>
      let! seller_orders_baskets :=
        query (λ db, map (λ o, (fst o, ordered_items_of (fst o) db))
                         (seller_orders_of basket db)) in
      let all_ordered_ids : gset nat :=
        list_to_set
          (flat_map (λ o, map (λ i, oi_product_info (snd i)) (snd o))
                    seller_orders_baskets) in
      let unknown_ids := ids_to_del ∖ all_ordered_ids in
      if bool_decide (unknown_ids ≠ ∅)
      then ret (api_error (UnknownIds (elements unknown_ids))
                  HTTP_400_BAD_REQUEST)
      else if bool_decide (bo_state basket_row = BO_basket)
              && bool_decide (ids_to_del = all_ordered_ids)
      then
        run! modify (delete_basket basket) in
        ret {| status_code := HTTP_200_OK; data := Empty |}
      else
        let '(seller_orders_to_del, ordered_items_to_del) :=
          prune seller_orders_baskets ids_to_del ∅ ∅ in
        run! (if bool_decide (seller_orders_to_del ≠ ∅)
              then modify (delete_seller_orders
                             (λ pk o, bool_decide (so_buyer_order o = basket
                                                   ∧ pk ∈ seller_orders_to_del)))
              else ret tt) in
        run! (if bool_decide (ordered_items_to_del ≠ ∅)
              then modify (λ db,
                     set_seller_order_items
                       (delete_where
                          (λ pk _, bool_decide (pk ∈ ordered_items_to_del))
                          (seller_order_items db)) db)
              else ret tt) in
        let! tree := query (λ db, render_order ∅ db (basket, basket_row)) in
        ret {| status_code := HTTP_200_OK; data := Tree tree |}
  end.

End BasketView.

Module OrderViewSet.

(** [BuyerOrderSerializer(data=request.data).is_valid(raise_exception=True)]:
    [contact_id] is required, names an existing contact, and
    [validate_contact_id] wants it among the user's contacts that are not
    deleted. *)
Definition validate_contact (user : nat) (contact_id : option nat) : M nat :=
  λ db,
    let invalid message :=
      (db, Raise (ValidationError
                    (Fields [("contact_id", Msgs [message])]))) in
    match contact_id with
    | None => invalid "This field is required."
    | Some c =>
        match row_at (contacts db) c with
        | None =>
            invalid ("Invalid pk " +:+ dquote +:+ pretty c +:+ dquote
                     +:+ " - object does not exist.")
        | Some contact =>
            if bool_decide (contact_user contact = user)
               && negb (is_deleted contact)
            then (db, Ok c)
            else invalid "invalid contact"
        end
    end.

(** The state of the first loop of [create]. *)
Record check := {
  acceptable_order : bool;
  quantity_to_update : gmap nat Z;
  ordered_items_strs : gmap nat (list string);
  statuses : gmap nat string
}.

Definition check_start : check :=
  {| acceptable_order := true; quantity_to_update := ∅;
     ordered_items_strs := ∅; statuses := ∅ |}.

(** One turn of the inner loop, for the line item [ordered_item] of
    [seller_order] and the listing it references. *)
Definition check_item (seller_order : nat) (ordered_item : nat * SellerOrderItem)
    (ordered_product_info : ProductInfo) (st : check) : check :=
  let ordered_quantity := oi_quantity (snd ordered_item) in
  let available_quantity := quantity ordered_product_info in
  let result_quantity := available_quantity - ordered_quantity in
  let id := oi_product_info (snd ordered_item) in
  if result_quantity <? 0 then
    {| acceptable_order := false;
       quantity_to_update := quantity_to_update st;
       ordered_items_strs := ordered_items_strs st;
       statuses :=
         <[fst ordered_item :=
             "too many ordered. You ordered " +:+ pretty ordered_quantity
             +:+ " pcs, but only " +:+ pretty available_quantity
             +:+ " pcs in stock"]> (statuses st) |}
  else if acceptable_order st then
    {| acceptable_order := true;
       quantity_to_update := <[id := result_quantity]> (quantity_to_update st);
       ordered_items_strs :=
         <[seller_order :=
             default [] (ordered_items_strs st !! seller_order)
             ++ ["id: " +:+ pretty id +:+ ", external_id: "
                 +:+ pretty (external_id ordered_product_info)
                 +:+ ", quantity: " +:+ pretty ordered_quantity]]>
           (ordered_items_strs st);
       statuses := statuses st |}
  else st.

(** The order tree as prefetched at the start of the request: every seller
    order with its line items, every line item with its listing. *)
Definition prefetch (order : nat) (db : DB)
  : res (list (nat * SellerOrder
               * list (nat * SellerOrderItem * ProductInfo))) :=
  let load_items (o : nat * SellerOrder) :=
    mapM (λ i, match row_at (product_infos db) (oi_product_info (snd i)) with
               | Some p => Some (i, p)
               | None => None
               end)
         (ordered_items_of (fst o) db) in
  match mapM (λ o, match load_items o with
                   | Some items => Some (o, items)
                   | None => None
                   end)
             (seller_orders_of order db) with
  | Some tree => Ok tree
  | None => Raise DoesNotExist
  end.

Definition check_all
    (all_orders : list (nat * SellerOrder
                        * list (nat * SellerOrderItem * ProductInfo)))
  : check :=
  foldl (λ st o,
           foldl (λ st i, check_item (fst (fst o)) (fst i) (snd i) st)
                 st (snd o))
        check_start all_orders.

Definition set_listing_quantity (q : Z) (p : ProductInfo) : ProductInfo :=
  {| pi_product := pi_product p; pi_shop := pi_shop p;
     pi_category := pi_category p; external_id := external_id p;
     quantity := q; price := price p; price_rrc := price_rrc p |}.

(** The confirmation of one seller order: the stock of its listings, its
    contact, state and date, and the notification of the seller. *)
Definition confirm_seller_order (st : check) (users_contact current_date : nat)
    (o : nat * SellerOrder * list (nat * SellerOrderItem * ProductInfo))
  : M notification :=
  let '(seller_order, seller_order_row, ordered_items) := o in
  run! for_each ordered_items (λ i,
         let ordered_product_info_id := oi_product_info (snd (fst i)) in
         match quantity_to_update st !! ordered_product_info_id with
         | None => raise (KeyError (pretty ordered_product_info_id))
         | Some q =>
             modify (λ db,
               set_product_infos
                 (update_where
                    (λ pk _, bool_decide (pk = ordered_product_info_id))
                    (set_listing_quantity q) (product_infos db)) db)
         end) in
  run! modify (λ db,
         set_seller_orders
           (tbl_save (seller_orders db) seller_order
              {| so_buyer_order := so_buyer_order seller_order_row;
                 so_shop := so_shop seller_order_row;
                 so_state := SO_new;
                 so_contact := Some users_contact;
                 so_shipping_price := so_shipping_price seller_order_row;
                 so_created_at := Some current_date |}) db) in
  let! shop := query (λ db, row_at (shops db) (so_shop seller_order_row)) in
  match ordered_items_strs st !! seller_order, shop with
  | Some strs, Some shop =>
      ret (SellerNotification (shop_email shop) seller_order strs)
  | None, _ => raise (KeyError (pretty seller_order))
  | _, None => raise DoesNotExist
  end.

Fixpoint confirm_seller_orders (st : check) (users_contact current_date : nat)
    (all_orders : list (nat * SellerOrder
                        * list (nat * SellerOrderItem * ProductInfo)))
  : M (list notification) :=
  match all_orders with
  | [] => ret []
  | o :: rest =>
      let! sent := confirm_seller_order st users_contact current_date o in
      let! more := confirm_seller_orders st users_contact current_date rest in
      ret (sent :: more)
  end.

(** [create]: [contact_id] is the request data, [current_date] the value of
    [timezone.now()]; the result carries the notifications emitted.  The
    tree is prefetched by the query that finds the order; nothing is
    written between that query and the validation of the request, so the
    model reads the tree after the validation, and a line item whose
    listing cannot be loaded raises when the first loop reaches it. *)
Definition create (user : nat) (user_email : string) (contact_id : option nat)
    (current_date : nat) : M (response * list notification) :=
  let! found := query (basket_object user) in
  match found with
  | None =>
      ret (api_error (ErrorMessage "no order to confirm") HTTP_200_OK, [])
  | Some (order, order_row) =>
      let! users_contact := validate_contact user contact_id in
      let! all_orders := (λ db, (db, prefetch order db)) in
      let st := check_all all_orders in
      if acceptable_order st then
        let! to_sellers :=
          confirm_seller_orders st users_contact current_date all_orders in
        let accepted :=
          {| bo_user := bo_user order_row;
             bo_state := BO_accepted;
             bo_contact := bo_contact order_row;
             bo_created_at := Some current_date |} in
        run! modify (λ db,
               set_buyer_orders (tbl_save (buyer_orders db) order accepted)
                                db) in
        let to_buyer :=
          BuyerNotification user_email order
            (flat_map
               (λ o, map (λ i, (oi_product_info (snd (fst i)),
                                oi_quantity (snd (fst i)),
                                oi_quantity (snd (fst i)) * price (snd i)))
                         (snd o))
               all_orders)
            (foldr Z.add 0
               (map (λ o, so_shipping_price (snd (fst o))) all_orders)) in
        let! tree :=
          query (λ db, render_order (statuses st) db (order, accepted)) in
        ret ({| status_code := HTTP_201_CREATED; data := Tree tree |},
             to_sellers ++ [to_buyer])
      else
        let! tree :=
          query (λ db, render_order (statuses st) db (order, order_row)) in
        ret ({| status_code := HTTP_206_PARTIAL_CONTENT; data := Tree tree |},
             [])
  end.

End OrderViewSet.

(* ================================================================== *)
(** ** Predicates of the specification *)
(* ================================================================== *)

(** The validation that the serializer applies whatever its context: the
    fields of [Meta.fields], with the errors of all of them. *)
Definition validated (data : product_data) : product_data + detail :=
  let '(ext, errs, validated_data) := validate_fields data in
  match field_errors "external_id" ext ++ errs with
  | [] => inl validated_data
  | es => inr (Fields es)
  end.

(** The outcome of the validation loop of [import_products] as a function
    of the payload alone. *)
Fixpoint validation_of (categories_source : list category_src)
    (categories : gmap Z category_data) (products : list good_src)
  : import_result + list product_data :=
  match products with
  | [] => inr []
  | product_source :: rest =>
      match build_product_data categories_source categories product_source with
      | inl error => inl error
      | inr product_data =>
          match validated product_data with
          | inr d => inl (InvalidProductInfo product_source d)
          | inl validated_data =>
              match validation_of categories_source categories rest with
              | inl error => inl error
              | inr others => inr (validated_data :: others)
              end
          end
      end
  end.

(** Weakest precondition of a store computation: [Q] holds of the store and
    of the result that [m] produces from [db]. *)
Definition wp {A} (m : M A) (Q : DB → res A → Prop) (db : DB) : Prop :=
  Q (m db).1 (m db).2.

(** The shop of an owner, as [get_or_create(owner_id=...)] looks it up. *)
Definition shops_of_owner (owner : nat) (db : DB) : list (nat * Shop) :=
  select (λ _ s, bool_decide (shop_owner s = owner)) (shops db).

Definition shops_named (name : string) (db : DB) : list (nat * Shop) :=
  select (λ _ s, bool_decide (shop_name s = name)) (shops db).

(** The natural key of a listing. *)
Definition listing_key (shop : nat) (ext : Z) (p : ProductInfo) : Prop :=
  pi_shop p = shop ∧ external_id p = ext.

(** The columns of a listing that no reconciliation run writes. *)
Definition same_listing (p p' : ProductInfo) : Prop :=
  pi_product p' = pi_product p ∧ pi_shop p' = pi_shop p
  ∧ pi_category p' = pi_category p ∧ external_id p' = external_id p.

(** Referential integrity of the parameter rows: each belongs to a listing
    of the table (listings are never deleted, so a key below the length of
    the table is a key that was allocated). *)
Definition params_wf (db : DB) : Prop :=
  ∀ k pp, row_at (product_parameters db) k = Some pp →
          (pp_product_info pp < length (product_infos db))%nat.

(** The parameters of a listing as the brief serializer shows them. *)
Definition brief_of (db : DB) (product_info : nat)
  : option (list (string * string)) :=
  mapM (parameter_repr db) (parameters_of product_info db).

(** The listing of [shop] found for the external id of [info] carries the
    quantity, the prices and (up to the sort by name) the parameters of
    [info]. *)
Definition synced (db : DB) (shop : nat) (info : product_data) : Prop :=
  ∃ pk p old,
    head (listings_with shop (pd_external_id info) db) = Some (pk, p)
    ∧ quantity p = pd_quantity info
    ∧ price p = pd_price info
    ∧ price_rrc p = pd_price_rrc info
    ∧ brief_of db pk = Some old
    ∧ sort_by_parameter old = sort_by_parameter (pd_product_parameters info).

(** A global pool holds a name (a value) at most once. *)
Definition pool_unique (t : table string) : Prop :=
  ∀ pk pk' name, row_at t pk = Some name → row_at t pk' = Some name → pk = pk'.

Definition pools_unique (db : DB) : Prop :=
  pool_unique (categories db) ∧ pool_unique (products db)
  ∧ pool_unique (parameters db) ∧ pool_unique (values db).

(** What a reconciliation step may do to the store: the pools and the
    category mappings only grow, and without duplicates, listings are kept
    with their identity, and nothing outside the catalog is written. *)
Record grows (db db' : DB) : Prop := {
  grows_shops : shops db' = shops db;
  grows_categories : categories db `prefix_of` categories db';
  grows_shop_categories : shop_categories db `prefix_of` shop_categories db';
  grows_products : products db `prefix_of` products db';
  grows_parameters : parameters db `prefix_of` parameters db';
  grows_values : values db `prefix_of` values db';
  grows_listings_length :
    (length (product_infos db) ≤ length (product_infos db'))%nat;
  grows_listings :
    ∀ pk p, row_at (product_infos db) pk = Some p →
            ∃ p', row_at (product_infos db') pk = Some p' ∧ same_listing p p';
  grows_contacts : contacts db' = contacts db;
  grows_buyer_orders : buyer_orders db' = buyer_orders db;
  grows_seller_orders : seller_orders db' = seller_orders db;
  grows_seller_order_items : seller_order_items db' = seller_order_items db;
  grows_pools_unique : pools_unique db → pools_unique db'
}.

(** A step that works on the listing [(shop, ext)] leaves every other
    listing as it is, with its parameter rows, and creates listings of that
    key only, under fresh primary keys. *)
Definition untouched (shop : nat) (ext : Z) (db db' : DB) : Prop :=
  (∀ pk p, row_at (product_infos db) pk = Some p → ¬ listing_key shop ext p →
           row_at (product_infos db') pk = Some p
           ∧ parameters_of pk db' = parameters_of pk db)
  ∧ (∀ pk p', row_at (product_infos db') pk = Some p' →
              row_at (product_infos db) pk = None →
              listing_key shop ext p' ∧ (length (product_infos db) ≤ pk)%nat).

(* ================================================================== *)
(** ** Steps, invariants and sample stores *)
(* ================================================================== *)

Section CatalogPredicates.
Import PartnerProductInfoSerializer.

(** What [add_parameters] may do: a pool step on everything but the
    parameter rows, of which only those of [pk] change. *)
Definition params_step (pk : nat) (db db' : DB) : Prop :=
  grows db db'
  ∧ product_infos db' = product_infos db
  ∧ shop_categories db' = shop_categories db
  ∧ categories db' = categories db
  ∧ products db' = products db
  ∧ (∀ pk', pk' ≠ pk → parameters_of pk' db' = parameters_of pk' db).

(** The facts that a step on the parameter rows of [pk] establishes. *)
Definition params_post (pk : nat) (added : list (string * string))
    (db db' : DB) (r : res unit) : Prop :=
  params_step pk db db'
  ∧ (params_wf db → (pk < length (product_infos db))%nat → params_wf db')
  ∧ (∀ l0, brief_of db pk = Some l0 → r = Ok tt →
           brief_of db' pk = Some (l0 ++ added)).

(** The steps of a reconciliation that work on the listing [(shop, ext)]. *)
Definition upsert_step (shop : nat) (ext : Z) (db db' : DB) : Prop :=
  grows db db' ∧ untouched shop ext db db'.

(** A step on the pools and the category mappings. *)
Definition catalog_step (db db' : DB) : Prop :=
  grows db db'
  ∧ product_infos db' = product_infos db
  ∧ product_parameters db' = product_parameters db.

(** The listing that [create] writes for [info]. *)
Definition created_listing (db : DB) (shop : nat) (info : product_data)
    (pk : nat) : Prop :=
  ∃ row sc,
    row_at (product_infos db) pk = Some row
    ∧ listing_key shop (pd_external_id info) row
    ∧ quantity row = pd_quantity info
    ∧ price row = pd_price info
    ∧ price_rrc row = pd_price_rrc info
    ∧ row_at (products db) (pi_product row) = Some (pd_product_name info)
    ∧ row_at (shop_categories db) (pi_category row) = Some sc
    ∧ sc_shop sc = shop
    ∧ row_at (categories db) (sc_category sc) = Some (cd_name (pd_category info)).

(** What [update] establishes for the listing [pk] loaded as [row] and the
    changed fields [f]. *)
Definition update_post (pk : nat) (row : ProductInfo) (f : fields_to_update)
    (db db' : DB) (r : res nat) : Prop :=
  upsert_step (pi_shop row) (external_id row) db db'
  ∧ (params_wf db → params_wf db')
  ∧ (∀ k, r = Ok k →
     k = pk
     ∧ row_at (product_infos db') pk = Some (apply_fields f row)
     ∧ (∀ old, brief_of db pk = Some old →
               brief_of db' pk = Some (default old (fu_product_parameters f)))
     ∧ (fu_product_parameters f = None →
        product_parameters db' = product_parameters db)).

(** The result of [is_valid(raise_exception=True)] for an outcome of the
    field validation. *)
Definition of_validated (v : product_data + detail) : res product_data :=
  match v with
  | inl validated_data => Ok validated_data
  | inr d => Raise (ValidationError d)
  end.

(** The row that [shop_get_or_create] appends for a new shop. *)
Definition new_shop (owner : nat) (name email : string) (shipping : Z) : Shop :=
  {| shop_owner := owner; shop_name := name; shop_email := email;
     base_shipping_price := shipping; is_open := true |}.

(** A run over the external ids [ids] of [shop] leaves the listings of every
    other key as they are, and creates listings of those keys only. *)
Definition run_step (shop : nat) (ids : list Z) (db db' : DB) : Prop :=
  grows db db'
  ∧ (∀ pk p, row_at (product_infos db) pk = Some p →
             ¬ (pi_shop p = shop ∧ external_id p ∈ ids) →
             row_at (product_infos db') pk = Some p)
  ∧ (∀ pk p', row_at (product_infos db') pk = Some p' →
              row_at (product_infos db) pk = None →
              pi_shop p' = shop ∧ external_id p' ∈ ids).

(** The external ids of a run, in the order of the payload. *)
Definition ids_of (infos : list product_data) : list Z :=
  map pd_external_id infos.

(** After the upserts every listing of the run carries the data of its last
    occurrence in the run. *)
Definition last_synced (shop : nat) (infos : list product_data) (db : DB)
  : Prop :=
  ∀ l1 info l2, infos = l1 ++ info :: l2 →
                pd_external_id info ∉ ids_of l2 → synced db shop info.

(** The listing belongs to [shop] and its external id is none of [ids]. *)
Definition missing_from_run (shop : nat) (ids : gset Z) (p : ProductInfo)
  : bool :=
  bool_decide (pi_shop p = shop ∧ external_id p ∉ ids).

(** The store after the quantity of the listings of [shop] outside [ids]
    was set to 0. *)
Definition zeroed (shop : nat) (ids : gset Z) (db : DB) : DB :=
  set_product_infos
    (update_where (λ _ p, missing_from_run shop ids p) zero_quantity
                  (product_infos db)) db.

(** The result of a run is an error. *)
Definition is_error (e : import_result) : Prop := ∀ shop, e ≠ ImportOk shop.

(** A good that names a category the payload does not declare. *)
Definition stray : good_src :=
  {| gs_id := Some 10; gs_category := Some 2; gs_name := Some "Ball";
     gs_parameters := Some [("color", "red")];
     gs_price := Some 100; gs_price_rrc := Some 150; gs_quantity := Some 5 |}.

(** The listing payload that the import builds for [ball]. *)
Definition ball_data : product_data :=
  {| pd_external_id := 10;
     pd_category := {| cd_name := "Toys"; cd_external_id := 1 |};
     pd_product_name := "Ball";
     pd_product_parameters := [("color", "red")];
     pd_price := 100; pd_price_rrc := 150; pd_quantity := 5 |}.

(** The store after the owner 7 imported the catalog of shop A. *)
Definition shop_a : DB :=
  (import_products 7 "owner@example.com" (catalog [ball]) empty_db).1.

(** Referential integrity of the listings: each belongs to a shop of the
    table. *)
Definition listings_wf (db : DB) : Prop :=
  ∀ pk p, row_at (product_infos db) pk = Some p →
          (pi_shop p < length (shops db))%nat.

(** Every listing of [shop] outside the run is delisted. *)
Definition others_zero (shop : nat) (infos : list product_data) (db : DB)
  : Prop :=
  ∀ pk p, row_at (product_infos db) pk = Some p → pi_shop p = shop →
          external_id p ∉ ids_of infos → quantity p = 0.

(** The listing row with the quantity and the prices of the run. *)
Definition with_run_fields (info : product_data) (row : ProductInfo)
  : ProductInfo :=
  {| pi_product := pi_product row; pi_shop := pi_shop row;
     pi_category := pi_category row; external_id := external_id row;
     quantity := pd_quantity info; price := pd_price info;
     price_rrc := pd_price_rrc info |}.

(** The good [ball] with another colour. *)
Definition ball_blue : good_src :=
  {| gs_id := Some 10; gs_category := Some 1; gs_name := Some "Ball";
     gs_parameters := Some [("color", "blue")];
     gs_price := Some 100; gs_price_rrc := Some 150; gs_quantity := Some 5 |}.

(** A step that keeps the listings of the key [(shop, ext)] as they are,
    with their parameter rows, and adds no listing of that key. *)
Definition kept_step (shop : nat) (ext : Z) (db db' : DB) : Prop :=
  (categories db `prefix_of` categories db'
   ∧ shop_categories db `prefix_of` shop_categories db'
   ∧ products db `prefix_of` products db'
   ∧ parameters db `prefix_of` parameters db'
   ∧ values db `prefix_of` values db')
  ∧ (∀ pk p, row_at (product_infos db) pk = Some p →
             ∃ p', row_at (product_infos db') pk = Some p' ∧ same_listing p p')
  ∧ (∀ pk p, row_at (product_infos db) pk = Some p → listing_key shop ext p →
             row_at (product_infos db') pk = Some p
             ∧ parameters_of pk db' = parameters_of pk db)
  ∧ (∀ pk p', row_at (product_infos db') pk = Some p' →
              row_at (product_infos db) pk = None → ¬ listing_key shop ext p').

(** The listing of [shop] for the external id of [info] references the
    global Product and Category rows of the names of [info], and its
    parameter rows show the parameters of [info]. *)
Definition shares_rows (db : DB) (shop : nat) (info : product_data) : Prop :=
  ∃ pk row sc old,
    head (listings_with shop (pd_external_id info) db) = Some (pk, row)
    ∧ row_at (products db) (pi_product row) = Some (pd_product_name info)
    ∧ row_at (shop_categories db) (pi_category row) = Some sc
    ∧ row_at (categories db) (sc_category sc) = Some (cd_name (pd_category info))
    ∧ brief_of db pk = Some old
    ∧ sort_by_parameter old = sort_by_parameter (pd_product_parameters info).

(** The run of [json_data] creates the listing of [info] in [shop]: [info]
    is the only good of the run with its external id, and the shop has no
    listing with that id before the run. *)
Definition creates (json_data : payload) (shop : nat) (db : DB)
    (info : product_data) : Prop :=
  ∃ name cs cats goods l1 l2,
    parse_top json_data = inr (name, cs, cats, goods)
    ∧ validation_of cs cats goods = inr (l1 ++ info :: l2)
    ∧ (pd_external_id info ∉ ids_of l1)
    ∧ (pd_external_id info ∉ ids_of l2)
    ∧ listings_with shop (pd_external_id info) db = [].

(** The row [k] of the pool holds [name], and no other row does. *)
Definition only_row (t : table string) (k : nat) (name : string) : Prop :=
  row_at t k = Some name ∧ ∀ k', row_at t k' = Some name → k' = k.

(** The listing [pk] has a parameter row that references the Parameter row
    [k] and the ValueOfParameter row [v]. *)
Definition listing_parameter (db : DB) (pk k v : nat) : Prop :=
  ∃ i pp, (i, pp) ∈ parameters_of pk db
          ∧ pp_parameter pp = k ∧ pp_value pp = v.

(** The listings of two shops reference the same rows of every pool for
    the names they have in common. *)
Definition both_share (db : DB) (shop1 : nat) (info1 : product_data)
    (shop2 : nat) (info2 : product_data) : Prop :=
  ∃ pk1 row1 sc1 pk2 row2 sc2,
    head (listings_with shop1 (pd_external_id info1) db) = Some (pk1, row1)
    ∧ head (listings_with shop2 (pd_external_id info2) db) = Some (pk2, row2)
    ∧ row_at (shop_categories db) (pi_category row1) = Some sc1
    ∧ row_at (shop_categories db) (pi_category row2) = Some sc2
    ∧ (pd_product_name info1 = pd_product_name info2 →
       only_row (products db) (pi_product row1) (pd_product_name info1)
       ∧ pi_product row2 = pi_product row1)
    ∧ (cd_name (pd_category info1) = cd_name (pd_category info2) →
       only_row (categories db) (sc_category sc1) (cd_name (pd_category info1))
       ∧ sc_category sc2 = sc_category sc1)
    ∧ (∀ n v1 v2,
         (n, v1) ∈ pd_product_parameters info1 →
         (n, v2) ∈ pd_product_parameters info2 →
         ∃ k w1 w2, only_row (parameters db) k n
                    ∧ listing_parameter db pk1 k w1
                    ∧ listing_parameter db pk2 k w2)
    ∧ (∀ n1 n2 v,
         (n1, v) ∈ pd_product_parameters info1 →
         (n2, v) ∈ pd_product_parameters info2 →
         ∃ k q1 q2, only_row (values db) k v
                    ∧ listing_parameter db pk1 q1 k
                    ∧ listing_parameter db pk2 q2 k).

(** The good of external id 10 under another product name. *)
Definition bat : good_src :=
  {| gs_id := Some 10; gs_category := Some 1; gs_name := Some "Bat";
     gs_parameters := Some [("color", "red")];
     gs_price := Some 100; gs_price_rrc := Some 150; gs_quantity := Some 5 |}.

(** The catalog of shop B. *)
Definition catalog_b (goods : list good_src) : payload :=
  {| p_shop := Some "B"; p_categories := Some [toys]; p_goods := Some goods;
     p_email := None; p_shipping_price := None |}.

(** The store after the owner 8 imported the same good for shop B. *)
Definition shops_a_b : DB :=
  (import_products 8 "other@example.com" (catalog_b [ball]) shop_a).1.

(** The Shop row of shop A. *)
Definition shop_a_row : Shop := new_shop 7 "A" "owner@example.com" 300.

(** The store after shop A imported a catalog without goods. *)
Definition delisted : DB :=
  (import_products 7 "owner@example.com" (catalog []) shop_a).1.

(** A second good of shop A, and the store after the owner 7 imported the
    catalog of both goods. *)
Definition kite : good_src :=
  {| gs_id := Some 11; gs_category := Some 1; gs_name := Some "Kite";
     gs_parameters := Some [("color", "green")];
     gs_price := Some 70; gs_price_rrc := Some 90; gs_quantity := Some 3 |}.

Definition shop_a_two : DB :=
  (import_products 7 "owner@example.com" (catalog [ball; kite]) empty_db).1.

(** The good [ball] restocked, cheaper and in another colour, and the
    listing payload that the import builds for it. *)
Definition ball_restocked : good_src :=
  {| gs_id := Some 10; gs_category := Some 1; gs_name := Some "Ball";
     gs_parameters := Some [("color", "blue")];
     gs_price := Some 80; gs_price_rrc := Some 150; gs_quantity := Some 9 |}.

Definition ball_restocked_data : product_data :=
  {| pd_external_id := 10;
     pd_category := {| cd_name := "Toys"; cd_external_id := 1 |};
     pd_product_name := "Ball";
     pd_product_parameters := [("color", "blue")];
     pd_price := 80; pd_price_rrc := 150; pd_quantity := 9 |}.

(** A catalog of shop A that declares another category under the id that
    the shop uses for Toys, with a new good in it. *)
Definition games : category_src :=
  {| cs_id := Some 1; cs_name := Some "Games" |}.

Definition chess : good_src :=
  {| gs_id := Some 12; gs_category := Some 1; gs_name := Some "Chess";
     gs_parameters := Some [];
     gs_price := Some 40; gs_price_rrc := Some 50; gs_quantity := Some 2 |}.

Definition catalog_games : payload :=
  {| p_shop := Some "A"; p_categories := Some [games]; p_goods := Some [chess];
     p_email := None; p_shipping_price := None |}.

End CatalogPredicates.

Section BasketPredicates.
Import BasketView.

(** Referential integrity of the seller orders and of the line items. *)
Definition orders_wf (db : DB) : Prop :=
  ∀ k o, row_at (seller_orders db) k = Some o →
         (so_buyer_order o < length (buyer_orders db))%nat.

(** A listing whose shop is not open. *)
Definition closed_listing (db : DB) (pk : nat) : Prop :=
  ∃ p, row_at (product_infos db) pk = Some p
       ∧ ∀ s, row_at (shops db) (pi_shop p) = Some s → is_open s = false.

(** The store with a new basket of [user] appended. *)
Definition with_new_basket (user : nat) (db : DB) : DB :=
  set_buyer_orders (buyer_orders db ++ [Some (new_basket user)]) db.

(** The tree of that basket: no seller order. *)
Definition empty_basket_view (db : DB) : order_view :=
  {| ov_id := length (buyer_orders db); ov_state := BO_basket;
     ov_created_at := None; ov_contact := None; ov_seller_orders := [] |}.

(** The loop over the shops writes seller orders and line items only. *)
Definition basket_step (db db' : DB) : Prop :=
  shops db' = shops db ∧ product_infos db' = product_infos db
  ∧ buyer_orders db' = buyer_orders db ∧ contacts db' = contacts db
  ∧ categories db' = categories db ∧ products db' = products db
  ∧ shop_categories db' = shop_categories db
  ∧ parameters db' = parameters db ∧ values db' = values db
  ∧ product_parameters db' = product_parameters db.

(** A request for a listing that does not exist. *)
Definition closed_request : list (nat * Z) := [(5%nat, 1)].

End BasketPredicates.

Section CheckoutPredicates.
Import OrderViewSet.

(** Every line item references a listing of the store (the foreign key of
    [SellerOrderItem.product_info]). *)
Definition items_wf (db : DB) : Prop :=
  ∀ k i, row_at (seller_order_items db) k = Some i →
         is_Some (row_at (product_infos db) (oi_product_info i)).

(** The line item asks for more than the listing has in stock. *)
Definition shortfall (i : SellerOrderItem) (p : ProductInfo) : bool :=
  quantity p - oi_quantity i <? 0.

(** The annotation of a line item with a shortfall. *)
Definition too_many (ordered available : Z) : string :=
  "too many ordered. You ordered " +:+ pretty ordered
  +:+ " pcs, but only " +:+ pretty available +:+ " pcs in stock".

(** The annotation of the line item [k], read off the store. *)
Definition annotation (db : DB) (k : nat) : option string :=
  match row_at (seller_order_items db) k with
  | Some i =>
      match row_at (product_infos db) (oi_product_info i) with
      | Some p =>
          if shortfall i p then Some (too_many (oi_quantity i) (quantity p))
          else None
      | None => None
      end
  | None => None
  end.

(** A prefetched tree agrees with the store it was read from. *)
Definition loaded (db : DB)
    (items : list (nat * SellerOrderItem * ProductInfo)) : Prop :=
  Forall (λ ip, row_at (seller_order_items db) (fst (fst ip))
                = Some (snd (fst ip))
                ∧ row_at (product_infos db) (oi_product_info (snd (fst ip)))
                  = Some (snd ip)) items.

(** The inner loop of the first phase of [create], over the line items of
    the seller order [so]. *)
Definition check_items (so : nat)
    (items : list (nat * SellerOrderItem * ProductInfo)) (st : check) : check :=
  foldl (λ st i, check_item so (fst i) (snd i) st) st items.

(** No line item of the list has a shortfall. *)
Definition no_shortfall
    (items : list (nat * SellerOrderItem * ProductInfo)) : bool :=
  forallb (λ ip, negb (shortfall (snd (fst ip)) (snd ip))) items.

(** The annotations after the line items with the keys [ks] were checked. *)
Definition annotated (db : DB) (ks : list nat) (st : check) : Prop :=
  ∀ k, statuses st !! k = if decide (k ∈ ks) then annotation db k else None.

(** The keys of the line items of a prefetched tree. *)
Definition item_keys
    (tree : list (nat * SellerOrder
                  * list (nat * SellerOrderItem * ProductInfo))) : list nat :=
  flat_map (λ o, map (λ ip, fst (fst ip)) (snd o)) tree.

(** Pairs [x] with what [g] loads for it. *)
Definition attach {A B} (g : A → option B) (x : A) : option (A * B) :=
  match g x with Some y => Some (x, y) | None => None end.

(** The line items of a seller order, each with its listing. *)
Definition load_items (db : DB) (o : nat * SellerOrder)
  : option (list (nat * SellerOrderItem * ProductInfo)) :=
  mapM (attach (λ i, row_at (product_infos db) (oi_product_info (snd i))))
       (ordered_items_of (fst o) db).

(** A line item of the basket [order] asks for more than its listing has. *)
Definition short_item (order : nat) (db : DB) : Prop :=
  ∃ o i p, o ∈ seller_orders_of order db
           ∧ i ∈ ordered_items_of (fst o) db
           ∧ row_at (product_infos db) (oi_product_info (snd i)) = Some p
           ∧ quantity p < oi_quantity (snd i).

End CheckoutPredicates.

Section PrunerPredicates.
Import BasketView.

(** The listings ordered by the line items ([ordered_product_ids]). *)
Definition listing_ids (items : list (nat * SellerOrderItem)) : gset nat :=
  list_to_set (map (λ i, oi_product_info (snd i)) items).

(** No listing is ordered in two seller orders of the list. *)
Fixpoint once (sob : list (nat * list (nat * SellerOrderItem))) : Prop :=
  match sob with
  | [] => True
  | o :: rest =>
      Forall (λ o', listing_ids (snd o) ## listing_ids (snd o')) rest
      ∧ once rest
  end.

(** The seller orders that [prune] is to delete whole, and the line items
    it is to delete singly. *)
Definition whole (sob : list (nat * list (nat * SellerOrderItem)))
    (ids : gset nat) (so : nat) : Prop :=
  ∃ items, (so, items) ∈ sob
           ∧ listing_ids items ∩ ids ≠ ∅ ∧ listing_ids items ⊆ ids.

(** The line items that [prune] is to delete singly. *)
Definition single (sob : list (nat * list (nat * SellerOrderItem)))
    (ids : gset nat) (k : nat) : Prop :=
  ∃ so items i, (so, items) ∈ sob ∧ (k, i) ∈ items
                ∧ oi_product_info i ∈ ids ∧ ¬ listing_ids items ⊆ ids.

(** The seller orders of the basket, each with its line items. *)
Definition baskets_of (basket : nat) (db : DB)
  : list (nat * list (nat * SellerOrderItem)) :=
  map (λ o, (fst o, ordered_items_of (fst o) db)) (seller_orders_of basket db).

(** The listings ordered in the basket ([all_ordered_ids]). *)
Definition all_ordered_ids (basket : nat) (db : DB) : gset nat :=
  list_to_set
    (flat_map (λ o, map (λ i, oi_product_info (snd i)) (snd o))
              (baskets_of basket db)).

(** Within the basket, a listing is ordered in one seller order only: the
    seller order of the shop of the listing. *)
Definition listing_once (basket : nat) (db : DB) : Prop :=
  ∀ o1 o2 i1 i2,
    o1 ∈ seller_orders_of basket db → o2 ∈ seller_orders_of basket db →
    i1 ∈ ordered_items_of (fst o1) db → i2 ∈ ordered_items_of (fst o2) db →
    oi_product_info (snd i1) = oi_product_info (snd i2) → fst o1 = fst o2.

(** The line item belongs to a seller order of the basket. *)
Definition in_basket (basket : nat) (db : DB) (i : SellerOrderItem) : bool :=
  match row_at (seller_orders db) (oi_order i) with
  | Some o => bool_decide (so_buyer_order o = basket)
  | None => false
  end.

(** The seller order [k] has a line item, and the request names the listing
    of each of its line items. *)
Definition emptied (ids : gset nat) (db : DB) (k : nat) : bool :=
  match ordered_items_of k db with
  | [] => false
  | items => forallb (λ i, bool_decide (oi_product_info (snd i) ∈ ids)) items
  end.

(** The filter [basket.seller_orders.filter(id__in=seller_orders_to_del)]. *)
Definition doomed_order (basket : nat) (seller_orders_to_del : gset nat)
    (pk : nat) (o : SellerOrder) : bool :=
  bool_decide (so_buyer_order o = basket ∧ pk ∈ seller_orders_to_del).

(** [SellerOrderItem.objects.filter(id__in=ordered_items_to_del).delete()] *)
Definition delete_items (ordered_items_to_del : gset nat) (db : DB) : DB :=
  set_seller_order_items
    (delete_where (λ pk _, bool_decide (pk ∈ ordered_items_to_del))
                  (seller_order_items db)) db.

(** The store after the two deletes that follow the loop of [delete]. *)
Definition pruned (basket : nat) (ids : gset nat) (db : DB) : DB :=
  let sets := prune (baskets_of basket db) ids ∅ ∅ in
  delete_items sets.2 (delete_seller_orders (doomed_order basket sets.1) db).

(** What is left of a row after the rows that satisfy [drop] are deleted. *)
Definition remaining {A} (drop : A → bool) (row : option A) : option A :=
  match row with
  | Some r => if drop r then None else Some r
  | None => None
  end.

End PrunerPredicates.

(** The snapshot of the line item is the price of its listing in [db]. *)
Definition listing_priced (db : DB) (i : SellerOrderItem) : Prop :=
  ∃ p, row_at (product_infos db) (oi_product_info i) = Some p
       ∧ purchase_price i = price p ∧ purchase_price_rrc i = price_rrc p.

(** Every line item of [db] is still there in [db'], for the same listing
    in the same seller order, either as it was or with the prices of its
    listing in [db0]. *)
Definition snapshot_step (db0 db db' : DB) : Prop :=
  ∀ k i, row_at (seller_order_items db) k = Some i →
         ∃ i', row_at (seller_order_items db') k = Some i'
               ∧ oi_order i' = oi_order i
               ∧ oi_product_info i' = oi_product_info i
               ∧ (i' = i ∨ listing_priced db0 i').

(** The good [ball] at higher prices. *)
Definition ball_dear : good_src :=
  {| gs_id := Some 10; gs_category := Some 1; gs_name := Some "Ball";
     gs_parameters := Some [("color", "red")];
     gs_price := Some 120; gs_price_rrc := Some 180; gs_quantity := Some 5 |}.

(** The buyer 3 has two pieces of the listing 0 of shop A in the basket. *)
Definition basket_a : DB := (BasketView.post 3 [(0%nat, 2)] shop_a).1.

(** The line item of [basket_a], with its purchase prices. *)
Definition ball_item (paid paid_rrc : Z) : SellerOrderItem :=
  {| oi_order := 0; oi_product_info := 0; oi_quantity := 2;
     purchase_price := paid; purchase_price_rrc := paid_rrc |}.

(** Shop A after it was closed. *)
Definition shop_a_closed : DB :=
  set_shops
    [Some {| shop_owner := 7; shop_name := "A";
             shop_email := "owner@example.com";
             base_shipping_price := 300; is_open := false |}]
    shop_a.

(** The buyer 3 has a contact and asks for seven pieces of a listing of
    which five are in stock. *)
Definition short_basket : DB :=
  (BasketView.post 3 [(0%nat, 7)]
     (set_contacts [Some {| contact_user := 3; is_deleted := false |}]
        shop_a)).1.

(** The seller order and the line item of [short_basket]. *)
Definition short_order : SellerOrder :=
  {| so_buyer_order := 0; so_shop := 0; so_state := SO_basket;
     so_contact := None; so_shipping_price := 300; so_created_at := None |}.

Definition short_line : SellerOrderItem :=
  {| oi_order := 0; oi_product_info := 0; oi_quantity := 7;
     purchase_price := 100; purchase_price_rrc := 150 |}.

(** The buyer 3 has a listing of shop A and a listing of shop B in the
    basket. *)
Definition two_orders : DB :=
  (BasketView.post 3 [(0%nat, 1); (1%nat, 1)] shops_a_b).1.

(** A good with a negative price. *)
Definition ball_negative : good_src :=
  {| gs_id := Some 10; gs_category := Some 1; gs_name := Some "Ball";
     gs_parameters := Some [("color", "red")];
     gs_price := Some (-1); gs_price_rrc := Some 150; gs_quantity := Some 5 |}.

(* ================================================================== *)
(** ** Further views, steps and predicates *)
(* ================================================================== *)

(* ================================================================== *)
(** ** The query parameter of BasketView.delete (app/users/views.py) *)
(* ================================================================== *)

(** [str.strip(chars)] for a single character. *)
Fixpoint lstrip_char (d : ascii) (s : string) : string :=
  match s with
  | EmptyString => EmptyString
  | String c s' => if Ascii.eqb c d then lstrip_char d s' else s
  end.

Fixpoint rstrip_char (d : ascii) (s : string) : string :=
  match s with
  | EmptyString => EmptyString
  | String c s' =>
      match rstrip_char d s' with
      | EmptyString => if Ascii.eqb c d then EmptyString else String c EmptyString
      | r => String c r
      end
  end.

Definition strip_char (d : ascii) (s : string) : string :=
  rstrip_char d (lstrip_char d s).

(** [str.split(sep)] for a single character: the items between the
    separators, empty ones included; never an empty list. *)
Fixpoint split (sep : ascii) (s : string) : list string :=
  match s with
  | EmptyString => [EmptyString]
  | String c s' =>
      let items := split sep s' in
      if Ascii.eqb c sep then EmptyString :: items
      else match items with
           | item :: items' => String c item :: items'
           | [] => [String c EmptyString]
           end
  end.

(** What [delete] takes from the interpreter it runs on: the numeric
    properties that the interpreter's Unicode database gives to the
    characters outside ASCII, and the limit of [int]. *)
Record interpreter := {
  (** [unicodedata.decimal(chr(c), None)], for the characters of numeric
      type Decimal *)
  unicode_decimal : N → option N;
  (** the character has a digit value without being a decimal: numeric type
      Digit (superscripts, circled digits and the like) *)
  unicode_digit : N → bool;
  (** [sys.get_int_max_str_digits()]: the longest decimal string that [int]
      converts, where the interpreter has such a limit *)
  int_max_str_digits : option nat
}.

(** The decimal value of a character: in ASCII the digits [0] to [9]. *)
Definition decimal (py : interpreter) (c : N) : option N :=
  (if c <? 128
   then if (48 <=? c) && (c <=? 57) then Some (c - 48) else None
   else unicode_decimal py c)%N.

(** [str.isdigit()]: at least one character, and every character a decimal
    or a digit of the Unicode database. *)
Definition is_digit (py : interpreter) (c : N) : bool :=
  match decimal py c with
  | Some _ => true
  | None => (128 <=? c)%N && unicode_digit py c
  end.

Definition isdigit (py : interpreter) (s : string) : bool :=
  negb (bool_decide (s = EmptyString))
  && forallb (is_digit py) (code_points s).

(** [int(item)] of a string, as [delete] calls it, on a string of digits:
    [None] is a [ValueError].  Every character is replaced by its decimal
    value; a string with a character that has none (a digit that is not a
    decimal), an empty string, and a string longer than the limit are not
    converted.  (Signs, blanks and underscores, which [int] also reads, are
    not digits.) *)
Definition int (py : interpreter) (item : string) : option N :=
  let within :=
    match int_max_str_digits py with
    | Some limit => negb (limit <? len item)%nat
    | None => true
    end in
  if within && negb (bool_decide (item = EmptyString))
  then foldl (λ n d, 10 * n + d)%N 0%N <$> mapM (decimal py) (code_points item)
  else None.

(** The database of Unicode 14.0.0, as CPython 3.11 has it: the zeros of
    the ranges of ten decimals outside ASCII, and the ranges of the digits
    that are not decimals. *)
Definition decimal_zeros : list N :=
  [
   1632; 1776; 1984; 2406; 2534; 2662; 2790; 2918; 3046; 3174; 3302; 3430;
   3558; 3664; 3792; 3872; 4160; 4240; 6112; 6160; 6470; 6608; 6784; 6800;
   6992; 7088; 7232; 7248; 42528; 43216; 43264; 43472; 43504; 43600; 44016;
   65296; 66720; 68912; 69734; 69872; 69942; 70096; 70384; 70736; 70864;
   71248; 71360; 71472; 71904; 72016; 72784; 73040; 73120; 92768; 92864;
   93008; 120782; 120792; 120802; 120812; 120822; 123200; 123632; 125264;
   130032
  ]%N.

Definition digit_ranges : list (N * N) :=
  [
   (178, 179); (185, 185); (4969, 4977); (6618, 6618); (8304, 8304);
   (8308, 8313); (8320, 8329); (9312, 9320); (9332, 9340); (9352, 9360);
   (9450, 9450); (9461, 9469); (9471, 9471); (10102, 10110); (10112, 10120);
   (10122, 10130); (68160, 68163); (69216, 69224); (69714, 69722);
   (127232, 127242)
  ]%N.

Definition python_3_11 : interpreter := {|
  unicode_decimal c :=
    (λ zero, c - zero)%N
      <$> List.find (λ zero, (zero <=? c) && (c <? zero + 10))%N decimal_zeros;
  unicode_digit c :=
    existsb (λ r, (r.1 <=? c) && (c <=? r.2))%N digit_ranges;
  int_max_str_digits := Some 4300%nat
|}.

Inductive parsed :=
| Parsed (ids_to_del : gset N)
| Answered (answer : response)
| ValueError (item : string).

(** [param_value_error] *)
Definition param_value_error (value : string) : response :=
  api_error (ErrorMessage ("`" +:+ value +:+ "` is not valid value"))
            HTTP_400_BAD_REQUEST.

Definition BASKET_DEL_PARAM_NAME : string := "product_info".
Definition BASKET_DEL_PARAM_DELIMITER : ascii := ","%char.

(** The loop of [delete] over the items of the parameter. *)
Fixpoint collect_ids (py : interpreter) (items : list string)
    (ids_to_del : gset N) : parsed :=
  match items with
  | [] => Parsed ids_to_del
  | item :: rest =>
      if bool_decide (item = EmptyString) then collect_ids py rest ids_to_del
      else if isdigit py item then
        match int py item with
        | None => ValueError item
        | Some id_to_del =>
            if (0 <? id_to_del)%N
            then collect_ids py rest ({[id_to_del]} ∪ ids_to_del)
            else Answered (param_value_error item)
        end
      else Answered (param_value_error item)
  end.

(** The head of [delete]: from [request.GET.get('product_info')] to the set
    [ids_to_del]. *)
Definition parse_ids (py : interpreter) (ids_to_del_value : option string)
  : parsed :=
  match ids_to_del_value with
  | None =>
      Answered
        (api_error
           (ErrorMessage ("`" +:+ BASKET_DEL_PARAM_NAME
                          +:+ "` - this URL`s parameter is required"))
           HTTP_400_BAD_REQUEST)
  | Some value =>
      let value := strip_char BASKET_DEL_PARAM_DELIMITER value in
      if bool_decide (value = EmptyString)
      then Answered (param_value_error
                       (String BASKET_DEL_PARAM_DELIMITER EmptyString))
      else collect_ids py (split BASKET_DEL_PARAM_DELIMITER value) ∅
  end.

(** The items of a parameter that the loop looks at: the ones between the
    delimiters that are not empty. *)
Definition named_items (value : string) : list string :=
  List.filter (λ item, negb (bool_decide (item = EmptyString)))
              (split BASKET_DEL_PARAM_DELIMITER value).

(** The string holds nothing but separators. *)
Fixpoint only_sep (sep : ascii) (s : string) : bool :=
  match s with
  | EmptyString => true
  | String c s' => Ascii.eqb c sep && only_sep sep s'
  end.

Definition nonempty (item : string) : bool :=
  negb (bool_decide (item = EmptyString)).

(** Python's [str] of a natural number. *)
Definition str (n : N) : string := NilEmpty.string_of_uint (N.to_uint n).

(** The item names a listing: it is a string of digits that [int] converts
    to the positive number [id]. *)
Definition names_id (py : interpreter) (item : string) (id : N) : Prop :=
  isdigit py item = true ∧ int py item = Some id ∧ (0 < id)%N.

(** The digits of a decimal numeral, as numbers. *)
Fixpoint uint_digits (d : Decimal.uint) : list N :=
  match d with
  | Decimal.Nil => []
  | Decimal.D0 d' => 0%N :: uint_digits d'
  | Decimal.D1 d' => 1%N :: uint_digits d'
  | Decimal.D2 d' => 2%N :: uint_digits d'
  | Decimal.D3 d' => 3%N :: uint_digits d'
  | Decimal.D4 d' => 4%N :: uint_digits d'
  | Decimal.D5 d' => 5%N :: uint_digits d'
  | Decimal.D6 d' => 6%N :: uint_digits d'
  | Decimal.D7 d' => 7%N :: uint_digits d'
  | Decimal.D8 d' => 8%N :: uint_digits d'
  | Decimal.D9 d' => 9%N :: uint_digits d'
  end.

(** The check of one item, as a function. *)
Definition id_of (py : interpreter) (item : string) : option N :=
  if isdigit py item
  then match int py item with
       | Some id => if (0 <? id)%N then Some id else None
       | None => None
       end
  else None.

(** [BasketView.get]: the basket of the user, or an empty body. *)
Definition BasketView_get (user : nat) : M response :=
  let! _basket_object := query (basket_object user) in
  match _basket_object with
  | Some order =>
      let! tree := query (λ db, render_order ∅ db order) in
      ret {| status_code := HTTP_200_OK; data := Tree tree |}
  | None => ret {| status_code := HTTP_200_OK; data := Empty |}
  end.

(** The line item is as a request with the quantities [keys] writes it on
    the store [db0]: for a requested listing of an open shop, with the
    requested quantity and the prices of the listing. *)
Definition settled (keys : gmap nat Z) (db0 : DB) (i : SellerOrderItem)
  : Prop :=
  ∃ p s, keys !! oi_product_info i = Some (oi_quantity i)
         ∧ row_at (product_infos db0) (oi_product_info i) = Some p
         ∧ purchase_price i = price p
         ∧ purchase_price_rrc i = price_rrc p
         ∧ row_at (shops db0) (pi_shop p) = Some s ∧ is_open s = true.

(** A seller order of the basket, in the basket state, for an open shop. *)
Definition basket_order (basket : nat) (db0 : DB) (o : SellerOrder) : Prop :=
  so_buyer_order o = basket ∧ so_state o = SO_basket
  ∧ ∃ s, row_at (shops db0) (so_shop o) = Some s ∧ is_open s = true.

(** What the loop of [post] over the shops may do to the store. *)
Definition adds_step (basket : nat) (keys : gmap nat Z) (db0 db db' : DB)
  : Prop :=
  basket_step db db'
  ∧ seller_orders db `prefix_of` seller_orders db'
  ∧ (∀ k o, row_at (seller_orders db') k = Some o →
            row_at (seller_orders db) k = None → basket_order basket db0 o)
  ∧ (∀ k i, row_at (seller_order_items db) k = Some i →
            ∃ i', row_at (seller_order_items db') k = Some i'
                  ∧ oi_order i' = oi_order i
                  ∧ oi_product_info i' = oi_product_info i
                  ∧ (i' = i ∨ (settled keys db0 i'
                               ∧ in_basket basket db' i' = true)))
  ∧ (∀ k i', row_at (seller_order_items db') k = Some i' →
             row_at (seller_order_items db) k = None →
             settled keys db0 i' ∧ in_basket basket db' i' = true).

(** The listing [pk] is in the basket, in the seller order of [shop]. *)
Definition placed (basket : nat) (keys : gmap nat Z) (db0 db : DB)
    (shop pk : nat) : Prop :=
  ∃ k i o, row_at (seller_order_items db) k = Some i
           ∧ oi_product_info i = pk ∧ settled keys db0 i
           ∧ row_at (seller_orders db) (oi_order i) = Some o
           ∧ so_buyer_order o = basket ∧ so_shop o = shop
           ∧ so_state o = SO_basket.

Section BasketAddPredicates.
Import BasketView.

(** An entry of [shops_with_ordered_products]: an open shop of [db0] with
    its requested listings. *)
Definition open_entry (keys : gmap nat Z) (db0 : DB)
    (entry : nat * Shop * list (nat * ProductInfo)) : Prop :=
  row_at (shops db0) (fst (fst entry)) = Some (snd (fst entry))
  ∧ is_open (snd (fst entry)) = true
  ∧ ∀ pk p, (pk, p) ∈ snd entry →
            row_at (product_infos db0) pk = Some p
            ∧ pi_shop p = fst (fst entry) ∧ is_Some (keys !! pk).

(** The inner loop of [post], over the requested listings of a shop. *)
Definition fill_items (order : nat) (keys : gmap nat Z)
    (listings : list (nat * ProductInfo)) : M unit :=
  for_each listings (λ product_info,
    match keys !! fst product_info with
    | None => raise (KeyError (pretty (fst product_info)))
    | Some requested =>
        item_update_or_create order (fst product_info) requested
          (price (snd product_info)) (price_rrc (snd product_info))
    end).

End BasketAddPredicates.

(** The store and the basket after the first statement of [post]. *)
Definition ensured (user : nat) (db : DB) : DB * nat :=
  match basket_object user db with
  | Some (pk, _) => (db, pk)
  | None => (with_new_basket user db, length (buyer_orders db))
  end.

(** The request passes the validation of its items. *)
Definition valid_request (request_data : list (nat * Z)) (db : DB) : Prop :=
  ∀ item, item ∈ request_data →
          is_Some (row_at (product_infos db) (fst item)) ∧ 1 ≤ snd item.

(** The answer to the request that fills [basket_a]. *)
Definition basket_a_answer : response :=
  {| status_code := HTTP_201_CREATED;
     data := Tree (render_order ∅ basket_a (0%nat, BasketView.new_basket 3)) |}.

(** [ProductView.get_queryset]:
    [ProductInfo.objects.filter(shop__is_open=True, quantity__gt=0)], the
    catalogue that the buyers browse. *)
Definition ProductView_get_queryset (db : DB) : list (nat * ProductInfo) :=
  select (λ _ p, match row_at (shops db) (pi_shop p) with
                 | Some shop => is_open shop
                 | None => false
                 end && bool_decide (0 < quantity p))
         (product_infos db).

(** [PartnerProductView.perform_destroy]: [instance.quantity = 0] and
    [instance.save()]; [instance] is a row loaded from the table. *)
Definition PartnerProductView_perform_destroy (instance : nat * ProductInfo)
  : M unit :=
  modify (λ db,
    set_product_infos
      (tbl_save (product_infos db) (fst instance)
                (zero_quantity (snd instance))) db).

(** Modelled from the spec: an owner has at most one shop, [user.shop] is
    that shop, and it raises [DoesNotExist] for a user without a shop. *)
Definition users_shop (user : nat) : M (nat * Shop) :=
  λ db,
    match shops_of_owner user db with
    | shop :: _ => (db, Ok shop)
    | [] => (db, Raise DoesNotExist)
    end.

(** [PartnerProductView.get_queryset]: [self.user.shop.product_infos.all()] *)
Definition PartnerProductView_get_queryset (user : nat)
  : M (list (nat * ProductInfo)) :=
  let! shop := users_shop user in
  query (listings_of (fst shop)).

(** [ContactView.get_queryset]:
    [self.user.contacts.filter(is_deleted=False)] *)
Definition ContactView_get_queryset (user : nat) (db : DB)
  : list (nat * Contact) :=
  select (λ _ c, bool_decide (contact_user c = user) && negb (is_deleted c))
         (contacts db).

(** [ContactView.perform_destroy]: [instance.is_deleted = True] and
    [instance.save()]. *)
Definition ContactView_perform_destroy (instance : nat * Contact) : M unit :=
  modify (λ db,
    set_contacts
      (tbl_save (contacts db) (fst instance)
                {| contact_user := contact_user (snd instance);
                   is_deleted := true |}) db).

(** The answer of [PartnerStateView]: the status and the [shop_is_open] of
    the body. *)
Record state_response := {
  state_status : nat;
  shop_is_open : bool
}.

(** What [PartnerStateSerializer(data=request.data)] makes of the request:
    the errors of the validation, or the validated choice.  Modelled from
    the spec: the choices of [PartnerState] are in app_choices.py; the view
    names [PartnerState.open] and [PartnerState.closed], and a choice that
    is neither is not a key of [states]. *)
Inductive PartnerState := PS_open | PS_closed | PS_other (value : string).

Inductive state_data :=
| StateInvalid (errors : detail)
| StateValid (state : PartnerState).

(** [PartnerStateView.get] *)
Definition PartnerStateView_get (user : nat) : M state_response :=
  let! shop := users_shop user in
  ret {| state_status := HTTP_200_OK; shop_is_open := is_open (snd shop) |}.

Definition set_is_open (new_state : bool) (shop : Shop) : Shop :=
  {| shop_owner := shop_owner shop; shop_name := shop_name shop;
     shop_email := shop_email shop;
     base_shipping_price := base_shipping_price shop;
     is_open := new_state |}.

(** [PartnerStateView.post]: the shop is looked up after the request is
    validated and the choice is mapped to the new state; [self.users_shop]
    is the related object that the user instance of the request caches, so
    the row that is saved is the one whose [is_open] was set. *)
Definition PartnerStateView_post (user : nat) (request_data : state_data)
  : M state_response :=
  match request_data with
  | StateInvalid errors => raise (ValidationError errors)
  | StateValid new_state =>
      let! new_state :=
        match new_state with
        | PS_open => ret true
        | PS_closed => ret false
        | PS_other value => raise (KeyError value)
        end in
      let! shop := users_shop user in
      run! modify (λ db,
             set_shops (tbl_save (shops db) (fst shop)
                                 (set_is_open new_state (snd shop))) db) in
      ret {| state_status := HTTP_201_CREATED; shop_is_open := new_state |}
  end.

(** The listing of [shop_a]. *)
Definition ball_listing : ProductInfo :=
  {| pi_product := 0; pi_shop := 0; pi_category := 0; external_id := 10;
     quantity := 5; price := 100; price_rrc := 150 |}.

(** [short_basket] after the buyer deleted the contact. *)
Definition contact_retired : DB :=
  (ContactView_perform_destroy
     (0%nat, {| contact_user := 3; is_deleted := false |}) short_basket).1.

(** The line items of the seller orders of [order]. *)
Definition basket_lines (order : nat) (db : DB)
  : list (nat * SellerOrderItem) :=
  flat_map (λ o, ordered_items_of (fst o) db) (seller_orders_of order db).

(** The seller order as [create] confirms it. *)
Definition confirmed (users_contact current_date : nat) (o : SellerOrder)
  : SellerOrder :=
  {| so_buyer_order := so_buyer_order o; so_shop := so_shop o;
     so_state := SO_new; so_contact := Some users_contact;
     so_shipping_price := so_shipping_price o;
     so_created_at := Some current_date |}.

(** The buyer order as [create] accepts it. *)
Definition accepted (current_date : nat) (b : BuyerOrder) : BuyerOrder :=
  {| bo_user := bo_user b; bo_state := BO_accepted;
     bo_contact := bo_contact b; bo_created_at := Some current_date |}.

(** The stock that the first loop of [create] computes for the listings of
    the line items, in the order of the loop. *)
Definition stock_after
    (items : list (nat * SellerOrderItem * ProductInfo)) (m : gmap nat Z)
  : gmap nat Z :=
  foldl (λ m ip, <[oi_product_info (snd (fst ip))
                   := quantity (snd ip) - oi_quantity (snd (fst ip))]> m)
        m items.

(** The listings of the line items of a prefetched tree. *)
Definition tree_listings
    (tree : list (nat * SellerOrder
                  * list (nat * SellerOrderItem * ProductInfo))) : list nat :=
  map (λ ip, oi_product_info (snd (fst ip))) (flat_map snd tree).

(** The store [db] in the second loop of [create], started on [db0]: the
    listings [ids] have the stock of [stock], the seller orders [orders] are
    confirmed, and nothing else has changed. *)
Definition confirming (stock : gmap nat Z) (users_contact current_date : nat)
    (ids orders : list nat) (db0 db : DB) : Prop :=
  (∀ pk, row_at (product_infos db) pk
         = (λ p, if decide (pk ∈ ids)
                 then OrderViewSet.set_listing_quantity
                        (default 0 (stock !! pk)) p
                 else p) <$> row_at (product_infos db0) pk)
  ∧ (∀ k, row_at (seller_orders db) k
          = (λ o, if decide (k ∈ orders)
                  then confirmed users_contact current_date o
                  else o) <$> row_at (seller_orders db0) k)
  ∧ shops db = shops db0 ∧ buyer_orders db = buyer_orders db0
  ∧ seller_order_items db = seller_order_items db0
  ∧ contacts db = contacts db0 ∧ categories db = categories db0
  ∧ shop_categories db = shop_categories db0 ∧ products db = products db0
  ∧ parameters db = parameters db0 ∧ values db = values db0
  ∧ product_parameters db = product_parameters db0.

(** Modelled from the spec: a buyer order belongs to its buyer and a seller
    order to its shop; [user.orders] and [shop.orders] are the reverse
    relations of models.py.

    [OrderViewSet.get_queryset]:
    [self.user.orders.exclude(state=BuyerOrderState.basket)] *)
Definition OrderViewSet_get_queryset (user : nat) (db : DB)
  : list (nat * BuyerOrder) :=
  select (λ _ o, bool_decide (bo_user o = user)
                 && negb (bool_decide (bo_state o = BO_basket)))
         (buyer_orders db).

(** [PartnerOrderView.get_queryset]:
    [self.user.shop.orders.exclude(state=SellerOrderState.basket)] *)
Definition PartnerOrderView_get_queryset (user : nat)
  : M (list (nat * SellerOrder)) :=
  let! shop := users_shop user in
  query (λ db,
    select (λ _ o, bool_decide (so_shop o = fst shop)
                   && negb (bool_decide (so_state o = SO_basket)))
           (seller_orders db)).

(** The buyer 3 has a contact and two pieces of the listing 0 of shop A in
    the basket; five are in stock. *)
Definition stocked_basket : DB :=
  (BasketView.post 3 [(0%nat, 2)]
     (set_contacts [Some {| contact_user := 3; is_deleted := false |}]
        shop_a)).1.

(** A good with two parameters, and the store after the owner 7 imported it
    for shop A. *)
Definition ball_sized : good_src :=
  {| gs_id := Some 10; gs_category := Some 1; gs_name := Some "Ball";
     gs_parameters := Some [("color", "red"); ("size", "5")];
     gs_price := Some 100; gs_price_rrc := Some 150; gs_quantity := Some 5 |}.

Definition shop_sized : DB :=
  (import_products 7 "owner@example.com" (catalog [ball_sized]) empty_db).1.

(** The listing payload of [ball_sized], with the parameters in the order
    [parameters]. *)
Definition ball_sized_data (parameters : list (string * string))
  : product_data :=
  {| pd_external_id := 10;
     pd_category := {| cd_name := "Toys"; cd_external_id := 1 |};
     pd_product_name := "Ball";
     pd_product_parameters := parameters;
     pd_price := 100; pd_price_rrc := 150; pd_quantity := 5 |}.

(** The row that [item_update_or_create] writes. *)
Definition line_item (order product_info : nat)
    (new_quantity new_price new_price_rrc : Z) : SellerOrderItem :=
  {| oi_order := order; oi_product_info := product_info;
     oi_quantity := new_quantity; purchase_price := new_price;
     purchase_price_rrc := new_price_rrc |}.

(** [o] is the one seller order of [basket] for [shop] in the basket
    state. *)
Definition sole_order (basket shop : nat) (db : DB) (o : nat) : Prop :=
  ∃ row,
    select (λ _ o, bool_decide (so_buyer_order o = basket ∧ so_shop o = shop
                                ∧ so_state o = SO_basket))
           (seller_orders db) = [(o, row)].

(** [line] is the one line item of the seller order [o] for the listing
    [pk]. *)
Definition sole_item (o pk : nat) (line : SellerOrderItem) (db : DB) : Prop :=
  ∃ k,
    select (λ _ i, bool_decide (oi_order i = o ∧ oi_product_info i = pk))
           (seller_order_items db) = [(k, line)].

(** The line item that a request with the quantities [keys] writes into
    the seller order [o] for the listing [x]. *)
Definition line_of (keys : gmap nat Z) (o : nat) (x : nat * ProductInfo)
  : option SellerOrderItem :=
  (λ q, line_item o (fst x) q (price (snd x)) (price_rrc (snd x)))
    <$> keys !! fst x.

(** The seller order [o] has the line items of the request for the
    listings [listings], once each. *)
Definition items_done (keys : gmap nat Z) (o : nat)
    (listings : list (nat * ProductInfo)) (db : DB) : Prop :=
  ∀ x, x ∈ listings →
       ∃ line, line_of keys o x = Some line ∧ sole_item o (fst x) line db.

(** The basket has the seller order and the line items of the request for
    the entry, once each. *)
Definition entry_done (basket : nat) (keys : gmap nat Z)
    (entry : nat * Shop * list (nat * ProductInfo)) (db : DB) : Prop :=
  ∃ o, sole_order basket (fst (fst entry)) db o
       ∧ items_done keys o (snd entry) db.

(** Every line item belongs to a seller order of the store (the foreign
    key of [SellerOrderItem.order]). *)
Definition lines_wf (db : DB) : Prop :=
  ∀ k i, row_at (seller_order_items db) k = Some i →
         (oi_order i < length (seller_orders db))%nat.

(* ================================================================== *)
(** * Proofs *)
(* ================================================================== *)

#[local] Set Warnings "-clear-no-such-hyp".

(* ================================================================== *)
(** ** Facts about tables *)
(* ================================================================== *)

Section TableFacts.
Context {A : Type}.
Implicit Types (t : table A) (P : nat → A → bool) (r : A).

Lemma row_at_Some t pk r : row_at t pk = Some r ↔ t !! pk = Some (Some r).
Proof.
  unfold row_at. destruct (t !! pk) as [[x|]|]; split; intros H;
    inversion H; subst; reflexivity.
Qed.

Lemma row_at_lt t pk r : row_at t pk = Some r → (pk < length t)%nat.
Proof. rewrite row_at_Some. apply lookup_lt_Some. Qed.

Lemma row_at_ge t pk : (length t ≤ pk)%nat → row_at t pk = None.
Proof. intros H. unfold row_at. by rewrite lookup_ge_None_2. Qed.

Lemma row_at_app_l t t' pk :
  (pk < length t)%nat → row_at (t ++ t') pk = row_at t pk.
Proof. intros H. unfold row_at. by rewrite lookup_app_l. Qed.

Lemma row_at_app_Some t t' pk r :
  row_at t pk = Some r → row_at (t ++ t') pk = Some r.
Proof.
  intros H. rewrite row_at_app_l; [done|]. by eapply row_at_lt.
Qed.

Lemma row_at_insert_new t r : row_at (t ++ [Some r]) (length t) = Some r.
Proof.
  unfold row_at. rewrite lookup_app_r by lia. by rewrite Nat.sub_diag.
Qed.

Lemma row_at_save_eq t pk r r0 :
  row_at t pk = Some r0 → row_at (tbl_save t pk r) pk = Some r.
Proof.
  intros H. unfold row_at, tbl_save.
  rewrite list_lookup_insert_eq; [done|]. by eapply row_at_lt.
Qed.

Lemma row_at_save_ne t pk pk' r :
  pk ≠ pk' → row_at (tbl_save t pk r) pk' = row_at t pk'.
Proof.
  intros H. unfold row_at, tbl_save. by rewrite list_lookup_insert_ne.
Qed.

Lemma tbl_save_id t pk r : row_at t pk = Some r → tbl_save t pk r = t.
Proof.
  rewrite row_at_Some. intros H. unfold tbl_save. by apply list_insert_id.
Qed.

(** *** Filters *)

Lemma select_from_app P i t t' :
  select_from P i (t ++ t')
  = select_from P i t ++ select_from P (i + length t) t'.
Proof.
  revert i. induction t as [|[r|] t IH]; intros i; simpl.
  - by rewrite Nat.add_0_r.
  - rewrite IH. replace (S i + length t)%nat with (i + S (length t))%nat by lia.
    by destruct (P i r).
  - rewrite IH. by replace (S i + length t)%nat with (i + S (length t))%nat by lia.
Qed.

Lemma select_insert P t r :
  select P (t ++ [Some r])
  = select P t ++ (if P (length t) r then [(length t, r)] else []).
Proof. unfold select. rewrite select_from_app. simpl. by destruct (P _ r). Qed.

Lemma elem_of_select_from P i t pk r :
  (pk, r) ∈ select_from P i t
  ↔ ∃ j, pk = (i + j)%nat ∧ t !! j = Some (Some r) ∧ P pk r = true.
Proof.
  revert i. induction t as [|[x|] t IH]; intros i; simpl.
  - split; [by intros ?%elem_of_nil | by intros (j & _ & ? & _)].
  - destruct (P i x) eqn:HP.
    + rewrite elem_of_cons, IH. split.
      * intros [[= -> ->] | (j & -> & Hj & Hp)].
        -- exists 0%nat. rewrite Nat.add_0_r. done.
        -- exists (S j). split; [lia|]. done.
      * intros ([|j] & -> & Hj & Hp); simpl in Hj.
        -- left. rewrite Nat.add_0_r. by inversion Hj.
        -- right. exists j. split; [lia|]. split; [done|].
           by replace (S i + j)%nat with (i + S j)%nat by lia.
    + rewrite IH. split.
      * intros (j & -> & Hj & Hp). exists (S j). split; [lia|]. done.
      * intros ([|j] & -> & Hj & Hp); simpl in Hj.
        -- rewrite Nat.add_0_r in Hp. inversion Hj; subst. congruence.
        -- exists j. split; [lia|]. split; [done|].
           by replace (S i + j)%nat with (i + S j)%nat by lia.
  - rewrite IH. split.
    + intros (j & -> & Hj & Hp). exists (S j). split; [lia|]. done.
    + intros ([|j] & -> & Hj & Hp); simpl in Hj; [done|].
      exists j. split; [lia|]. split; [done|].
      by replace (S i + j)%nat with (i + S j)%nat by lia.
Qed.

Lemma elem_of_select P t pk r :
  (pk, r) ∈ select P t ↔ row_at t pk = Some r ∧ P pk r = true.
Proof.
  unfold select. rewrite elem_of_select_from, row_at_Some. split.
  - intros (j & -> & Hj & Hp). done.
  - intros [H1 H2]. exists pk. done.
Qed.

Lemma select_nil P t :
  select P t = [] ↔ ∀ pk r, row_at t pk = Some r → P pk r = false.
Proof.
  split.
  - intros H pk r Hr. destruct (P pk r) eqn:HP; [|done].
    assert ((pk, r) ∈ select P t) as Hin by by apply elem_of_select.
    rewrite H in Hin. by apply elem_of_nil in Hin.
  - intros H. destruct (select P t) as [|[pk r] l] eqn:E; [done|].
    assert ((pk, r) ∈ select P t) as Hin by (rewrite E; left).
    apply elem_of_select in Hin as [H1 H2]. rewrite (H _ _ H1) in H2. done.
Qed.

Lemma select_from_ext P Q i t :
  (∀ j r, t !! j = Some (Some r) → P (i + j)%nat r = Q (i + j)%nat r) →
  select_from P i t = select_from Q i t.
Proof.
  revert i. induction t as [|[x|] t IH]; intros i H; simpl; [done| |].
  - specialize (H 0%nat x eq_refl) as H0. rewrite Nat.add_0_r in H0.
    rewrite H0, IH; [done|].
    intros j r Hj. replace (S i + j)%nat with (i + S j)%nat by lia.
    by apply H.
  - apply IH. intros j r Hj. replace (S i + j)%nat with (i + S j)%nat by lia.
    by apply H.
Qed.

Lemma select_ext P Q t :
  (∀ pk r, row_at t pk = Some r → P pk r = Q pk r) →
  select P t = select Q t.
Proof.
  intros H. apply select_from_ext. intros j r Hj. apply H.
  by apply row_at_Some.
Qed.

Lemma select_from_keys_ge P i t pk r :
  (pk, r) ∈ select_from P i t → (i ≤ pk)%nat.
Proof. rewrite elem_of_select_from. intros (j & -> & _). lia. Qed.

Lemma select_from_NoDup P i t : NoDup (map fst (select_from P i t)).
Proof.
  revert i. induction t as [|[x|] t IH]; intros i; simpl; [constructor| |apply IH].
  destruct (P i x); [|apply IH]. simpl. constructor; [|apply IH].
  intros Hin. apply list_elem_of_fmap in Hin as ([pk r] & Heq & Hin).
  simpl in Heq. subst pk. apply select_from_keys_ge in Hin. lia.
Qed.

Lemma select_NoDup P t : NoDup (map fst (select P t)).
Proof. apply select_from_NoDup. Qed.

(** The first match of a filter is the least key that satisfies it. *)
Lemma head_select_from P i t pk r :
  head (select_from P i t) = Some (pk, r) ↔
  ∃ j, pk = (i + j)%nat ∧ t !! j = Some (Some r) ∧ P pk r = true
       ∧ ∀ j' r', (j' < j)%nat → t !! j' = Some (Some r') →
                  P (i + j')%nat r' = false.
Proof.
  revert i. induction t as [|[x|] t IH]; intros i; simpl.
  - split; [done | by intros (j & _ & ? & _)].
  - destruct (P i x) eqn:HP; simpl.
    + split.
      * intros [= -> ->]. exists 0%nat. rewrite Nat.add_0_r.
        repeat split; [done|]. intros; lia.
      * intros ([|j] & -> & Hj & Hp & Hmin); simpl in Hj.
        -- rewrite Nat.add_0_r. by inversion Hj.
        -- specialize (Hmin 0%nat x ltac:(lia) eq_refl).
           rewrite Nat.add_0_r in Hmin. congruence.
    + rewrite IH. split.
      * intros (j & -> & Hj & Hp & Hmin). exists (S j).
        split; [lia|]. split; [done|].
        split; [by replace (i + S j)%nat with (S i + j)%nat by lia|].
        intros [|j'] r' Hlt Hj'; simpl in Hj'.
        -- rewrite Nat.add_0_r. by inversion Hj'; subst.
        -- replace (i + S j')%nat with (S i + j')%nat by lia.
           apply Hmin; [lia|done].
      * intros ([|j] & -> & Hj & Hp & Hmin); simpl in Hj.
        -- rewrite Nat.add_0_r in Hp. inversion Hj; subst. congruence.
        -- exists j. split; [lia|]. split; [done|].
           split; [by replace (S i + j)%nat with (i + S j)%nat by lia|].
           intros j' r' Hlt Hj'.
           replace (S i + j')%nat with (i + S j')%nat by lia.
           apply Hmin; [lia|done].
  - rewrite IH. split.
    + intros (j & -> & Hj & Hp & Hmin). exists (S j).
      split; [lia|]. split; [done|].
      split; [by replace (i + S j)%nat with (S i + j)%nat by lia|].
      intros [|j'] r' Hlt Hj'; simpl in Hj'; [done|].
      replace (i + S j')%nat with (S i + j')%nat by lia.
      apply Hmin; [lia|done].
    + intros ([|j] & -> & Hj & Hp & Hmin); simpl in Hj; [done|].
      exists j. split; [lia|]. split; [done|].
      split; [by replace (S i + j)%nat with (i + S j)%nat by lia|].
      intros j' r' Hlt Hj'.
      replace (S i + j')%nat with (i + S j')%nat by lia.
      apply Hmin; [lia|done].
Qed.

Lemma head_select P t pk r :
  head (select P t) = Some (pk, r) ↔
  row_at t pk = Some r ∧ P pk r = true
  ∧ ∀ pk' r', (pk' < pk)%nat → row_at t pk' = Some r' → P pk' r' = false.
Proof.
  unfold select. rewrite head_select_from. split.
  - intros (j & -> & Hj & Hp & Hmin). simpl in *.
    split; [by apply row_at_Some|]. split; [done|].
    intros pk' r' Hlt Hr. apply (Hmin pk' r' Hlt). by apply row_at_Some.
  - intros (Hr & Hp & Hmin). exists pk. split; [done|].
    split; [by apply row_at_Some|]. split; [done|].
    intros j' r' Hlt Hj'. apply Hmin; [done|]. by apply row_at_Some.
Qed.

(** *** Bulk updates and deletions *)

Lemma update_from_length P f i t : length (update_from P f i t) = length t.
Proof.
  revert i. induction t as [|[x|] t IH]; intros i; simpl; [done| |];
    by rewrite IH.
Qed.

Lemma update_from_lookup P f i t j :
  update_from P f i t !! j
  = match t !! j with
    | Some (Some r) => Some (Some (if P (i + j)%nat r then f r else r))
    | o => o
    end.
Proof.
  revert i j. induction t as [|[x|] t IH]; intros i [|j]; simpl; try done.
  - by rewrite Nat.add_0_r.
  - rewrite IH. by replace (S i + j)%nat with (i + S j)%nat by lia.
  - rewrite IH. by replace (S i + j)%nat with (i + S j)%nat by lia.
Qed.

Lemma row_at_update_where P f t pk :
  row_at (update_where P f t) pk
  = (λ r, if P pk r then f r else r) <$> row_at t pk.
Proof.
  unfold row_at, update_where. rewrite update_from_lookup.
  by destruct (t !! pk) as [[r|]|].
Qed.

Lemma update_where_length P f t : length (update_where P f t) = length t.
Proof. apply update_from_length. Qed.

Lemma update_where_id P f t :
  (∀ pk r, row_at t pk = Some r → P pk r = true → f r = r) →
  update_where P f t = t.
Proof.
  intros H. apply list_eq. intros j. unfold update_where.
  rewrite update_from_lookup. destruct (t !! j) as [[r|]|] eqn:E; [|done..].
  simpl. destruct (P j r) eqn:HP; [|done].
  rewrite (H j r); [done| |done]. by apply row_at_Some.
Qed.

Lemma delete_from_length P i t : length (delete_from P i t) = length t.
Proof.
  revert i. induction t as [|[x|] t IH]; intros i; simpl; [done| |];
    by rewrite IH.
Qed.

Lemma delete_from_lookup P i t j :
  delete_from P i t !! j
  = match t !! j with
    | Some (Some r) => Some (if P (i + j)%nat r then None else Some r)
    | o => o
    end.
Proof.
  revert i j. induction t as [|[x|] t IH]; intros i [|j]; simpl; try done.
  - by rewrite Nat.add_0_r.
  - rewrite IH. by replace (S i + j)%nat with (i + S j)%nat by lia.
  - rewrite IH. by replace (S i + j)%nat with (i + S j)%nat by lia.
Qed.

Lemma row_at_delete_where P t pk :
  row_at (delete_where P t) pk
  = match row_at t pk with
    | Some r => if P pk r then None else Some r
    | None => None
    end.
Proof.
  unfold row_at, delete_where. rewrite delete_from_lookup.
  destruct (t !! pk) as [[r|]|]; [|done..]. simpl. by destruct (P pk r).
Qed.

Lemma delete_where_length P t : length (delete_where P t) = length t.
Proof. apply delete_from_length. Qed.

Lemma delete_where_id P t :
  (∀ pk r, row_at t pk = Some r → P pk r = false) →
  delete_where P t = t.
Proof.
  intros H. apply list_eq. intros j. unfold delete_where.
  rewrite delete_from_lookup. destruct (t !! j) as [[r|]|] eqn:E; [|done..].
  simpl. rewrite (H j r); [done|]. by apply row_at_Some.
Qed.

Lemma select_from_delete_from P Q i t :
  select_from P i (delete_from Q i t)
  = select_from (λ k r, P k r && negb (Q k r)) i t.
Proof.
  revert i. induction t as [|[x|] t IH]; intros i; simpl; [done| |apply IH].
  destruct (Q i x); simpl.
  - rewrite andb_false_r. apply IH.
  - rewrite andb_true_r. destruct (P i x); by rewrite IH.
Qed.

Lemma select_delete_where P Q t :
  select P (delete_where Q t) = select (λ k r, P k r && negb (Q k r)) t.
Proof. apply select_from_delete_from. Qed.

Lemma select_delete_where_disjoint P Q t :
  (∀ pk r, P pk r = true → Q pk r = false) →
  select P (delete_where Q t) = select P t.
Proof.
  intros H. rewrite select_delete_where. apply select_ext.
  intros pk r _. destruct (P pk r) eqn:HP; [|done]. by rewrite (H pk r).
Qed.

Lemma select_delete_where_covered P Q t :
  (∀ pk r, P pk r = true → Q pk r = true) →
  select P (delete_where Q t) = [].
Proof.
  intros H. rewrite select_delete_where. apply select_nil.
  intros pk r _. destruct (P pk r) eqn:HP; [|done]. by rewrite (H pk r).
Qed.

(** Two tables with the same length and the same rows are equal. *)
Lemma table_eq t t' :
  length t = length t' → (∀ pk, row_at t pk = row_at t' pk) → t = t'.
Proof.
  intros Hlen H. apply list_eq. intros j. specialize (H j).
  unfold row_at in H.
  destruct (t !! j) as [[r|]|] eqn:E, (t' !! j) as [[r'|]|] eqn:E';
    try done; try congruence;
    try (apply lookup_ge_None in E'; apply lookup_lt_Some in E; lia);
    try (apply lookup_ge_None in E; apply lookup_lt_Some in E'; lia).
Qed.

(** A filter sees only the rows of the table. *)
Lemma select_rows P t t' :
  length t = length t' → (∀ pk, row_at t pk = row_at t' pk) →
  select P t = select P t'.
Proof. intros Hlen H. by rewrite (table_eq t t'). Qed.
End TableFacts.

(* ================================================================== *)
(** ** Reasoning about store computations *)
(* ================================================================== *)

Section WpRules.
Context {A B : Type}.

Lemma wp_run (m : M A) (Q : DB → res A → Prop) db db' r :
  wp m Q db → m db = (db', r) → Q db' r.
Proof. unfold wp. intros H Heq. by rewrite Heq in H. Qed.

Lemma wp_mono (m : M A) (Q Q' : DB → res A → Prop) db :
  wp m Q db → (∀ db' r, Q db' r → Q' db' r) → wp m Q' db.
Proof. unfold wp. auto. Qed.

Lemma wp_ret (a : A) (Q : DB → res A → Prop) db :
  Q db (Ok a) → wp (ret a) Q db.
Proof. done. Qed.

Lemma wp_raise e (Q : DB → res A → Prop) db :
  Q db (Raise e) → wp (raise e) Q db.
Proof. done. Qed.

Lemma wp_query (f : DB → A) (Q : DB → res A → Prop) db :
  Q db (Ok (f db)) → wp (query f) Q db.
Proof. done. Qed.

Lemma wp_modify (f : DB → DB) (Q : DB → res unit → Prop) db :
  Q (f db) (Ok tt) → wp (modify f) Q db.
Proof. done. Qed.

Lemma wp_bind (m : M A) (k : A → M B) (Q : DB → res B → Prop) db :
  wp m (λ db' r, match r with
                 | Ok a => wp (k a) Q db'
                 | Raise e => Q db' (Raise e)
                 end) db →
  wp (bind m k) Q db.
Proof.
  unfold wp, bind. destruct (m db) as [db' [a|e]]; simpl; done.
Qed.

Lemma wp_try_except (m : M A) (h : exn → M A) (Q : DB → res A → Prop) db :
  wp m (λ db' r, match r with
                 | Ok a => Q db' (Ok a)
                 | Raise e => wp (h e) Q db'
                 end) db →
  wp (try_except m h) Q db.
Proof.
  unfold wp, try_except. destruct (m db) as [db' [a|e]]; simpl; done.
Qed.
End WpRules.

(** A loop keeps an invariant that each turn keeps; when a turn raises, the
    loop stops with the store of that turn. *)
Lemma wp_for_each {A} (I : DB → Prop) (l : list A) (body : A → M unit) db :
  I db →
  (∀ x db0, x ∈ l → I db0 → wp (body x) (λ db' _, I db') db0) →
  wp (for_each l body) (λ db' _, I db') db.
Proof.
  revert db. induction l as [|x l IH]; intros db HI Hbody; simpl.
  - by apply wp_ret.
  - apply wp_bind. eapply wp_mono; [apply Hbody; [left|done]|].
    intros db' [[]|e] HI'; [|done].
    apply IH; [done|]. intros y db0 Hy. apply Hbody. by right.
Qed.

(** The same with the position in the list: [I done db] holds when the
    elements [done] have been processed. *)
Lemma wp_for_each_prefix {A} (I : list A → DB → Prop) (l : list A)
    (body : A → M unit) db :
  I [] db →
  (∀ pre x post db0, l = pre ++ x :: post → I pre db0 →
     wp (body x) (λ db' r, r = Ok tt → I (pre ++ [x]) db') db0) →
  wp (for_each l body) (λ db' r, r = Ok tt → I l db') db.
Proof.
  intros HI Hbody.
  cut (∀ pre rest db0, l = pre ++ rest → I pre db0 →
         wp (for_each rest body) (λ db' r, r = Ok tt → I l db') db0).
  { intros H. by apply (H [] l). }
  intros pre rest. revert pre. induction rest as [|x rest IH];
    intros pre db0 Hl Hpre; simpl.
  - apply wp_ret. intros _. rewrite app_nil_r in Hl. by subst.
  - apply wp_bind. eapply wp_mono; [by eapply Hbody|].
    intros db' [[]|e] H; simpl; [|done].
    apply (IH (pre ++ [x])); [by rewrite <- app_assoc|by apply H].
Qed.

(* ================================================================== *)
(** ** The step relation [grows] *)
(* ================================================================== *)

Lemma same_listing_refl p : same_listing p p.
Proof. by repeat split. Qed.

Lemma same_listing_trans p p' p'' :
  same_listing p p' → same_listing p' p'' → same_listing p p''.
Proof. unfold same_listing. intros (?&?&?&?) (?&?&?&?). repeat split; congruence. Qed.

#[global] Instance grows_refl : Reflexive grows.
Proof.
  intros db. split; try done.
  intros pk p H. exists p. split; [done|apply same_listing_refl].
Qed.

#[global] Instance grows_trans : Transitive grows.
Proof.
  intros db1 db2 db3 H12 H23.
  destruct H12 as [? ? ? ? ? ? ? L12 ? ? ? ? U12],
           H23 as [? ? ? ? ? ? ? L23 ? ? ? ? U23].
  split; try (etrans; eassumption); try congruence; [|by auto].
  intros pk p H. destruct (L12 pk p H) as (p' & H' & Hs).
  destruct (L23 pk p' H') as (p'' & H'' & Hs').
  exists p''. split; [done|]. by eapply same_listing_trans.
Qed.

Lemma prefix_of_snoc {A} (l : list A) x : l `prefix_of` l ++ [x].
Proof. by exists [x]. Qed.

Lemma row_at_prefix {A} (t t' : table A) pk r :
  t `prefix_of` t' → row_at t pk = Some r → row_at t' pk = Some r.
Proof. intros [ext ->]. apply row_at_app_Some. Qed.

Lemma key_same_listing shop ext p p' :
  same_listing p p' → listing_key shop ext p → listing_key shop ext p'.
Proof. unfold same_listing, listing_key. intros (?&?&?&?) [? ?]. split; congruence. Qed.

Lemma key_same_listing_inv shop ext p p' :
  same_listing p p' → listing_key shop ext p' → listing_key shop ext p.
Proof. unfold same_listing, listing_key. intros (?&?&?&?) [? ?]. split; congruence. Qed.

Section Catalog.
Import PartnerProductInfoSerializer.

(* ================================================================== *)
(** ** The global pools *)
(* ================================================================== *)

Lemma get_or_create_name_run tbl set name db :
  get_or_create_name tbl set name db
  = match select (λ _ n, bool_decide (n = name)) (tbl db) with
    | [] => (set (tbl db ++ [Some name]) db, Ok (length (tbl db)))
    | [(pk, _)] => (db, Ok pk)
    | _ => (db, Raise MultipleObjectsReturned)
    end.
Proof.
  unfold get_or_create_name.
  destruct (select _ (tbl db)) as [|[pk n] [|? ?]]; done.
Qed.

Lemma get_or_create_name_wp tbl set name db :
  (∀ t d, tbl (set t d) = t) →
  wp (get_or_create_name tbl set name)
     (λ db' r, (db' = db
                ∨ (db' = set (tbl db ++ [Some name]) db
                   ∧ ∀ pk, row_at (tbl db) pk ≠ Some name))
               ∧ ∀ pk, r = Ok pk → row_at (tbl db') pk = Some name) db.
Proof.
  intros Hlens. unfold wp. rewrite get_or_create_name_run.
  destruct (select _ (tbl db)) as [|[pk n] [|? ?]] eqn:E; simpl.
  - split.
    + right. split; [done|]. intros pk Hpk.
      rewrite select_nil in E. specialize (E pk name Hpk).
      by apply bool_decide_eq_false in E.
    + intros pk [= <-]. rewrite Hlens. apply row_at_insert_new.
  - split; [by left|]. intros ? [= <-].
    assert ((pk, n) ∈ select (λ _ n, bool_decide (n = name)) (tbl db)) as Hin
      by (rewrite E; left).
    apply elem_of_select in Hin as [Hr Hn]. apply bool_decide_eq_true in Hn.
    by subst.
  - split; [by left|done].
Qed.

Lemma pool_unique_snoc t name :
  pool_unique t → (∀ pk, row_at t pk ≠ Some name) →
  pool_unique (t ++ [Some name]).
Proof.
  intros Hu Habsent pk pk' n H H'.
  assert (∀ k m, row_at (t ++ [Some name]) k = Some m →
                 (row_at t k = Some m ∧ (k < length t)%nat)
                 ∨ (k = length t ∧ m = name)) as Hcases.
  { intros k m Hk. destruct (decide (k < length t)%nat) as [Hlt|Hge].
    - left. by rewrite row_at_app_l in Hk.
    - right. unfold row_at in Hk. rewrite lookup_app_r in Hk by lia.
      destruct (k - length t)%nat as [|i] eqn:Ei; simpl in Hk; [|done].
      inversion Hk. split; [lia|done]. }
  destruct (Hcases _ _ H) as [[H1 _]|[-> ->]],
           (Hcases _ _ H') as [[H2 _]|[-> Hn]].
  - by eapply Hu.
  - subst. by destruct (Habsent pk).
  - by destruct (Habsent pk').
  - done.
Qed.

Lemma grows_pool_fields db db' :
  shops db' = shops db →
  categories db `prefix_of` categories db' →
  shop_categories db `prefix_of` shop_categories db' →
  products db `prefix_of` products db' →
  parameters db `prefix_of` parameters db' →
  values db `prefix_of` values db' →
  product_infos db' = product_infos db →
  contacts db' = contacts db →
  buyer_orders db' = buyer_orders db →
  seller_orders db' = seller_orders db →
  seller_order_items db' = seller_order_items db →
  (pools_unique db → pools_unique db') →
  grows db db'.
Proof.
  intros ? ? ? ? ? ? Hpi ? ? ? ? ?. split; try done.
  - by rewrite Hpi.
  - intros pk p Hrow. exists p. rewrite Hpi. split; [done|apply same_listing_refl].
Qed.

Ltac solve_prefix :=
  simpl; first [reflexivity | apply prefix_of_snoc
               | by apply prefix_app_r | by etrans; [|apply prefix_of_snoc] ].

Ltac solve_unique :=
  intros (?&?&?&?); repeat split; simpl in *; try done;
  apply pool_unique_snoc; done.

Ltac solve_grows :=
  apply grows_pool_fields; solve [done | solve_prefix | solve_unique].

(* ================================================================== *)
(** ** The parameters of a listing *)
(* ================================================================== *)

Lemma parameter_repr_stable db db' row x :
  parameters db `prefix_of` parameters db' →
  values db `prefix_of` values db' →
  parameter_repr db row = Some x → parameter_repr db' row = Some x.
Proof.
  intros Hp Hv. unfold parameter_repr.
  destruct (row_at (parameters db) _) as [n|] eqn:En; [|done].
  destruct (row_at (values db) _) as [v|] eqn:Ev; [|done].
  intros [= <-].
  by rewrite (row_at_prefix _ _ _ _ Hp En), (row_at_prefix _ _ _ _ Hv Ev).
Qed.

Lemma brief_of_stable db db' pk l :
  parameters db `prefix_of` parameters db' →
  values db `prefix_of` values db' →
  parameters_of pk db' = parameters_of pk db →
  brief_of db pk = Some l → brief_of db' pk = Some l.
Proof.
  intros Hp Hv Hrows. unfold brief_of. rewrite Hrows, !mapM_Some.
  intros H. eapply Forall2_impl; [exact H|]. simpl.
  intros row x. by apply parameter_repr_stable.
Qed.

Lemma parameters_of_insert pk row db t :
  product_parameters db = t ++ [Some row] →
  ∀ db0, product_parameters db0 = t →
  parameters_of pk db
  = parameters_of pk db0
    ++ (if bool_decide (pp_product_info row = pk) then [(length t, row)] else []).
Proof.
  intros H db0 H0. unfold parameters_of. rewrite H, H0. apply select_insert.
Qed.

Lemma brief_of_insert db db' pk l row d :
  parameters db `prefix_of` parameters db' →
  values db `prefix_of` values db' →
  product_parameters db' = product_parameters db ++ [Some row] →
  pp_product_info row = pk →
  brief_of db pk = Some l →
  parameter_repr db' (length (product_parameters db), row) = Some d →
  brief_of db' pk = Some (l ++ [d]).
Proof.
  intros Hp Hv Hrows Hpk Hl Hd. unfold brief_of, parameters_of in *.
  rewrite Hrows, select_insert, bool_decide_eq_true_2 by done.
  apply mapM_Some, Forall2_app.
  - apply mapM_Some in Hl. eapply Forall2_impl; [exact Hl|]. simpl.
    intros r x. by apply parameter_repr_stable.
  - by repeat constructor.
Qed.

Lemma params_wf_fresh db pk :
  params_wf db → (length (product_infos db) ≤ pk)%nat →
  parameters_of pk db = [].
Proof.
  intros Hwf Hpk. apply select_nil. intros k pp Hk.
  apply bool_decide_eq_false. intros Heq. apply Hwf in Hk. lia.
Qed.

Lemma brief_of_nil db pk : parameters_of pk db = [] → brief_of db pk = Some [].
Proof. unfold brief_of. by intros ->. Qed.

Lemma params_step_refl pk db : params_step pk db db.
Proof. split; [reflexivity|done]. Qed.

Lemma params_step_trans pk db1 db2 db3 :
  params_step pk db1 db2 → params_step pk db2 db3 → params_step pk db1 db3.
Proof.
  intros (?&?&?&?&?&H12) (?&?&?&?&?&H23).
  split; [by etrans|]. repeat split; try congruence.
  intros pk' Hne. rewrite H23, H12; done.
Qed.

Ltac step_solve :=
  split; [solve_grows | repeat split; simpl; try done].

Lemma params_wf_insert db db' row :
  product_infos db' = product_infos db →
  product_parameters db' = product_parameters db ++ [Some row] →
  (pp_product_info row < length (product_infos db))%nat →
  params_wf db → params_wf db'.
Proof.
  intros Hpi Hpp Hpk Hwf k pp. rewrite Hpp, Hpi. unfold row_at.
  destruct (decide (k < length (product_parameters db))%nat) as [Hlt|Hge].
  - rewrite lookup_app_l by done. intros Hk. by apply (Hwf k pp).
  - rewrite lookup_app_r by lia.
    destruct (k - length (product_parameters db))%nat as [|n]; simpl; [|done].
    by intros [= <-].
Qed.

Lemma add_parameter_wp pk d db :
  wp (add_parameter pk d) (params_post pk [d] db) db.
Proof.
  unfold add_parameter, params_post.
  apply wp_try_except, wp_bind.
  eapply wp_mono; [by apply (get_or_create_name_wp parameters set_parameters)|].
  intros db1 [p|e] (Hs1 & Hp); simpl.
  2:{ apply wp_raise. destruct Hs1 as [->|[-> A1]].
      - split; [apply params_step_refl|done].
      - split; [step_solve|done]. }
  specialize (Hp p eq_refl).
  apply wp_bind.
  eapply wp_mono; [by apply (get_or_create_name_wp values set_values)|].
  intros db2 [v|e] (Hs2 & Hv); simpl.
  2:{ apply wp_raise.
      destruct Hs1 as [->|[-> A1]], Hs2 as [->|[-> A2]];
        (split; [step_solve|done]). }
  specialize (Hv v eq_refl).
  apply wp_modify.
  assert (params_step pk db db2
          ∧ parameters db `prefix_of` parameters db2
          ∧ values db `prefix_of` values db2
          ∧ product_parameters db2 = product_parameters db
          ∧ product_infos db2 = product_infos db
          ∧ row_at (parameters db2) p = Some d.1)
    as (Hstep & Hpp & Hpv & Hrows & Hpi & Hp2).
  { destruct Hs1 as [->|[-> A1]], Hs2 as [->|[-> A2]]; simpl in *;
      (split; [step_solve|]); repeat split; try done; solve_prefix. }
  set (row := {| pp_product_info := pk; pp_parameter := p; pp_value := v |}).
  split; [|split].
  - eapply params_step_trans; [exact Hstep|].
    step_solve.
    intros pk' Hne. unfold parameters_of; simpl. rewrite select_insert.
    simpl. rewrite bool_decide_eq_false_2 by done. by rewrite app_nil_r.
  - intros Hwf Hpk. eapply (params_wf_insert db _ row); simpl; try done.
    by rewrite Hrows.
  - intros l0 Hbrief _.
    eapply (brief_of_insert db _ pk l0 row); simpl; try done.
    + by rewrite Hrows.
    + unfold parameter_repr. simpl. rewrite Hp2, Hv. by destruct d.
Qed.

Lemma params_post_trans pk l1 l2 db db1 db2 r :
  params_post pk l1 db db1 (Ok tt) → params_post pk l2 db1 db2 r →
  params_post pk (l1 ++ l2) db db2 r.
Proof.
  intros (S1 & W1 & B1) (S2 & W2 & B2).
  assert (product_infos db1 = product_infos db) as Hpi by apply S1.
  split; [by eapply params_step_trans|]. split.
  - intros Hwf Hpk. apply W2; [by apply W1|by rewrite Hpi].
  - intros l0 Hb Hr. rewrite app_assoc. apply B2; [|done]. by apply B1.
Qed.

Lemma params_post_raise pk l db db' e :
  params_step pk db db' →
  (params_wf db → (pk < length (product_infos db))%nat → params_wf db') →
  params_post pk l db db' (Raise e).
Proof. intros. by split. Qed.

Lemma add_parameters_loop_wp pk ps db :
  wp (for_each ps (add_parameter pk)) (params_post pk ps db) db.
Proof.
  revert db. induction ps as [|d ps IH]; intros db; simpl.
  - apply wp_ret. split; [apply params_step_refl|]. split; [done|].
    intros l0 Hb _. by rewrite app_nil_r.
  - apply wp_bind. eapply wp_mono; [by apply add_parameter_wp|].
    intros db1 [[]|e] H1; simpl.
    + eapply wp_mono; [apply IH|]. intros db2 r H2.
      by apply (params_post_trans pk [d] ps db db1 db2).
    + destruct H1 as (? & ? & _). by apply params_post_raise.
Qed.

Lemma delete_parameters_spec pk db :
  let db' := set_product_parameters
               (delete_where (λ _ pp, bool_decide (pp_product_info pp = pk))
                             (product_parameters db)) db in
  params_step pk db db' ∧ (params_wf db → params_wf db')
  ∧ brief_of db' pk = Some [].
Proof.
  intros db'. split; [|split].
  - subst db'. split; [apply grows_pool_fields; done|].
    repeat split; simpl; try done.
    intros pk' Hne. unfold parameters_of. simpl.
    apply select_delete_where_disjoint. intros k r Hk.
    apply bool_decide_eq_true in Hk. apply bool_decide_eq_false. congruence.
  - intros Hwf k pp. subst db'. simpl. rewrite row_at_delete_where.
    destruct (row_at (product_parameters db) k) as [r|] eqn:E; [|done].
    destruct (bool_decide _); [done|]. intros [= <-]. by apply (Hwf k).
  - apply brief_of_nil. subst db'. unfold parameters_of. simpl.
    by apply select_delete_where_covered.
Qed.

Lemma add_parameters_wp pk ps (replace_old : bool) db :
  wp (add_parameters pk ps replace_old)
     (λ db' r,
        params_step pk db db'
        ∧ (params_wf db → (pk < length (product_infos db))%nat → params_wf db')
        ∧ (∀ l0, (if replace_old then l0 = []
                  else brief_of db pk = Some l0) →
                 r = Ok tt → brief_of db' pk = Some (l0 ++ ps))) db.
Proof.
  unfold add_parameters. apply wp_bind.
  destruct replace_old.
  - apply wp_modify.
    destruct (delete_parameters_spec pk db) as (Hs & Hwf' & Hb).
    eapply wp_mono; [apply add_parameters_loop_wp|].
    intros db2 r (S2 & W2 & B2).
    split; [by eapply params_step_trans|]. split.
    + intros Hwf Hpk. apply W2; [by apply Hwf'|done].
    + intros l0 -> Hr. by apply B2.
  - apply wp_ret. eapply wp_mono; [apply add_parameters_loop_wp|].
    intros db2 r (S2 & W2 & B2). done.
Qed.

(* ================================================================== *)
(** ** Creating and updating a listing *)
(* ================================================================== *)

Lemma brief_of_ext db db' pk :
  parameters db' = parameters db → values db' = values db →
  product_parameters db' = product_parameters db →
  brief_of db' pk = brief_of db pk.
Proof.
  intros Hp Hv Hpp. unfold brief_of, parameters_of. rewrite Hpp.
  f_equal. unfold parameter_repr. by rewrite Hp, Hv.
Qed.

Lemma params_wf_ext db db' :
  product_parameters db' = product_parameters db →
  (length (product_infos db) ≤ length (product_infos db'))%nat →
  params_wf db → params_wf db'.
Proof.
  intros Hpp Hlen Hwf k pp. rewrite Hpp. intros H%Hwf. lia.
Qed.

Lemma upsert_step_refl shop ext db : upsert_step shop ext db db.
Proof.
  split; [reflexivity|]. split; [done|]. intros pk p' H H'. congruence.
Qed.

Lemma upsert_step_trans shop ext db1 db2 db3 :
  upsert_step shop ext db1 db2 → upsert_step shop ext db2 db3 →
  upsert_step shop ext db1 db3.
Proof.
  intros [G12 [U12 N12]] [G23 [U23 N23]]. split; [by etrans|]. split.
  - intros pk p H Hk. destruct (U12 pk p H Hk) as [H2 E2].
    destruct (U23 pk p H2 Hk) as [H3 E3]. split; [done|congruence].
  - intros pk p' H3 H1.
    destruct (row_at (product_infos db2) pk) as [p2|] eqn:E2.
    + destruct (N12 pk p2 E2 H1) as [Hk Hlen].
      destruct (grows_listings _ _ G23 pk p2 E2) as (q & Hq & Hs).
      assert (q = p') as -> by congruence.
      split; [by eapply key_same_listing|done].
    + destruct (N23 pk p' H3 E2) as [Hk Hlen]. split; [done|].
      pose proof (grows_listings_length _ _ G12). lia.
Qed.

Lemma params_step_upsert_step shop ext pk db db' :
  params_step pk db db' →
  (∀ p, row_at (product_infos db) pk = Some p → listing_key shop ext p) →
  upsert_step shop ext db db'.
Proof.
  intros (G & Hpi & _ & _ & _ & Hothers) Hkey. split; [done|]. split.
  - intros pk0 p H Hn. rewrite Hpi. split; [done|].
    apply Hothers. intros ->. by apply Hn, Hkey.
  - intros pk0 p'. rewrite Hpi. congruence.
Qed.

Lemma catalog_step_refl db : catalog_step db db.
Proof. split; [reflexivity|done]. Qed.

Lemma catalog_step_trans db1 db2 db3 :
  catalog_step db1 db2 → catalog_step db2 db3 → catalog_step db1 db3.
Proof.
  intros (?&?&?) (?&?&?). split; [by etrans|]. split; congruence.
Qed.

Lemma catalog_step_upsert_step shop ext db db' :
  catalog_step db db' → upsert_step shop ext db db'.
Proof.
  intros (G & Hpi & Hpp). split; [done|]. split.
  - intros pk p H _. rewrite Hpi. split; [done|].
    unfold parameters_of. by rewrite Hpp.
  - intros pk p'. rewrite Hpi. congruence.
Qed.

Lemma catalog_step_params_wf db db' :
  catalog_step db db' → params_wf db → params_wf db'.
Proof.
  intros (G & Hpi & Hpp). apply params_wf_ext; [done|]. by rewrite Hpi.
Qed.

Ltac catalog_solve := split; [solve_grows | split; simpl; done].

Lemma shop_category_get_or_create_wp shop category_object ext db :
  wp (shop_category_get_or_create shop category_object ext)
     (λ db' r,
        (db' = db
         ∨ db' = set_shop_categories
                   (shop_categories db
                    ++ [Some {| sc_shop := shop; sc_category := category_object;
                                sc_external_id := ext |}]) db)
        ∧ ∀ pk, r = Ok pk →
            ∃ sc, row_at (shop_categories db') pk = Some sc
                  ∧ sc_shop sc = shop ∧ sc_category sc = category_object) db.
Proof.
  unfold wp, shop_category_get_or_create.
  destruct (select _ (shop_categories db)) as [|[pk sc] [|? ?]] eqn:E; simpl.
  - case_bool_decide; simpl; [split; [by left|done]|].
    split; [by right|]. intros pk [= <-]. eexists. simpl.
    split; [apply row_at_insert_new|done].
  - split; [by left|]. intros ? [= <-].
    assert ((pk, sc) ∈ select
              (λ _ sc, bool_decide (sc_shop sc = shop
                                    ∧ sc_category sc = category_object))
              (shop_categories db)) as Hin by (rewrite E; left).
    apply elem_of_select in Hin as [Hr Hn]. apply bool_decide_eq_true in Hn.
    exists sc. by destruct Hn.
  - split; [by left|done].
Qed.

Lemma listings_with_nil shop ext db :
  listings_with shop ext db = [] ↔
  ∀ pk p, row_at (product_infos db) pk = Some p → ¬ listing_key shop ext p.
Proof.
  unfold listings_with. rewrite select_nil. split.
  - intros H pk p Hr Hk. specialize (H pk p Hr).
    by apply bool_decide_eq_false in H.
  - intros H pk p Hr. apply bool_decide_eq_false. by apply (H pk p).
Qed.

Lemma head_listings_with shop ext db pk p :
  head (listings_with shop ext db) = Some (pk, p) ↔
  row_at (product_infos db) pk = Some p ∧ listing_key shop ext p
  ∧ ∀ pk' p', (pk' < pk)%nat → row_at (product_infos db) pk' = Some p' →
              ¬ listing_key shop ext p'.
Proof.
  unfold listings_with. rewrite head_select. split.
  - intros (Hr & Hk & Hmin). split; [done|].
    split; [by apply bool_decide_eq_true in Hk|].
    intros pk' p' Hlt Hr' Hk'. specialize (Hmin pk' p' Hlt Hr').
    by apply bool_decide_eq_false in Hmin.
  - intros (Hr & Hk & Hmin). split; [done|].
    split; [by apply bool_decide_eq_true|].
    intros pk' p' Hlt Hr'. apply bool_decide_eq_false. by eapply Hmin.
Qed.

Lemma product_info_create_wp row db :
  wp (product_info_create row)
     (λ db' r,
        match r with
        | Ok pk => listings_with (pi_shop row) (external_id row) db = []
                   ∧ pk = length (product_infos db)
                   ∧ db' = set_product_infos (product_infos db ++ [Some row]) db
        | Raise _ => db' = db
        end) db.
Proof.
  unfold wp, product_info_create. case_bool_decide as H; simpl; [done|].
  split; [|done]. destruct (listings_with _ _ db); [done|]. by destruct H.
Qed.

Lemma insert_listing_step db row :
  let db' := set_product_infos (product_infos db ++ [Some row]) db in
  upsert_step (pi_shop row) (external_id row) db db'
  ∧ (params_wf db → params_wf db').
Proof.
  intros db'. split; [split; [|split]|].
  - split; simpl; try done.
    + rewrite length_app. simpl. lia.
    + intros pk p H. exists p. split; [|apply same_listing_refl].
      by apply row_at_app_Some.
  - intros pk p H _. simpl. split; [by apply row_at_app_Some|done].
  - intros pk p'. simpl. intros H' H.
    destruct (decide (pk < length (product_infos db))%nat) as [Hlt|Hge].
    + rewrite row_at_app_l in H' by done. congruence.
    + unfold row_at in H'. rewrite lookup_app_r in H' by lia.
      destruct (pk - length (product_infos db))%nat; simpl in H'; [|done].
      inversion H'; subst. split; [done|lia].
  - apply params_wf_ext; [done|]. simpl. rewrite length_app. lia.
Qed.

Lemma category_get_or_create_wp name db :
  wp (get_or_create_name categories set_categories name)
     (λ db' r, catalog_step db db'
               ∧ ∀ pk, r = Ok pk → row_at (categories db') pk = Some name) db.
Proof.
  eapply wp_mono; [by apply (get_or_create_name_wp categories set_categories)|].
  intros db' r [[->|[-> A]] H]; (split; [catalog_solve|done]).
Qed.

Lemma product_get_or_create_wp name db :
  wp (get_or_create_name products set_products name)
     (λ db' r, catalog_step db db'
               ∧ ∀ pk, r = Ok pk → row_at (products db') pk = Some name) db.
Proof.
  eapply wp_mono; [by apply (get_or_create_name_wp products set_products)|].
  intros db' r [[->|[-> A]] H]; (split; [catalog_solve|done]).
Qed.

Lemma shop_category_catalog_wp shop category_object ext db :
  wp (shop_category_get_or_create shop category_object ext)
     (λ db' r, catalog_step db db'
               ∧ ∀ pk, r = Ok pk →
                   ∃ sc, row_at (shop_categories db') pk = Some sc
                         ∧ sc_shop sc = shop
                         ∧ sc_category sc = category_object) db.
Proof.
  eapply wp_mono; [apply shop_category_get_or_create_wp|].
  intros db' r [[->| ->] H]; (split; [catalog_solve|done]).
Qed.

Lemma create_wp info shop db :
  wp (create info shop)
     (λ db' r,
        upsert_step shop (pd_external_id info) db db'
        ∧ (params_wf db → params_wf db')
        ∧ ∀ pk, r = Ok pk →
            listings_with shop (pd_external_id info) db = []
            ∧ pk = length (product_infos db)
            ∧ created_listing db' shop info pk
            ∧ (params_wf db →
               brief_of db' pk = Some (pd_product_parameters info))) db.
Proof.
  unfold create. apply wp_bind.
  eapply wp_mono; [apply category_get_or_create_wp|].
  intros db1 [c|e] [S1 Hc]; simpl.
  2:{ split; [by apply catalog_step_upsert_step|].
      split; [by eapply catalog_step_params_wf|done]. }
  specialize (Hc c eq_refl). apply wp_bind, wp_try_except.
  eapply wp_mono; [apply shop_category_catalog_wp|].
  intros db2 [scpk|e] [S2 Hsc]; simpl.
  2:{ assert (catalog_step db db2) as S by by eapply catalog_step_trans.
      assert (upsert_step shop (pd_external_id info) db db2
              ∧ (params_wf db → params_wf db2))
        as [? ?]
        by (split; [by apply catalog_step_upsert_step
                   |by eapply catalog_step_params_wf]).
      destruct e; by apply wp_raise. }
  destruct (Hsc scpk eq_refl) as (sc & Hscrow & Hscshop & Hsccat). clear Hsc.
  apply wp_bind.
  eapply wp_mono; [apply product_get_or_create_wp|].
  intros db3 [p|e] [S3 Hp]; simpl.
  2:{ assert (catalog_step db db3) as S
        by (eapply catalog_step_trans; [|exact S3];
            by eapply catalog_step_trans).
      split; [by apply catalog_step_upsert_step|].
      split; [by eapply catalog_step_params_wf|done]. }
  specialize (Hp p eq_refl).
  assert (catalog_step db db3) as S
    by (eapply catalog_step_trans; [|exact S3]; by eapply catalog_step_trans).
  assert (params_wf db → params_wf db3) as Hwf3
    by by eapply catalog_step_params_wf.
  apply wp_bind.
  eapply wp_mono; [apply product_info_create_wp|].
  intros db4 [pk|e]; simpl.
  2:{ intros ->. split; [by apply catalog_step_upsert_step|done]. }
  intros (Hnone & -> & ->).
  set (row := {| pi_product := p; pi_shop := shop; pi_category := scpk;
                 external_id := pd_external_id info;
                 quantity := pd_quantity info; price := pd_price info;
                 price_rrc := pd_price_rrc info |}) in *.
  destruct (insert_listing_step db3 row) as [U4 Hwf4].
  set (db4 := set_product_infos (product_infos db3 ++ [Some row]) db3) in *.
  assert (upsert_step shop (pd_external_id info) db db4) as U
    by (eapply upsert_step_trans; [by apply catalog_step_upsert_step|exact U4]).
  apply wp_bind.
  eapply wp_mono;
    [apply (add_parameters_wp (length (product_infos db3))
              (pd_product_parameters info) false db4)|].
  intros db5 r (P5 & Hwf5 & Hb).
  assert (upsert_step shop (pd_external_id info) db db5) as U5.
  { eapply upsert_step_trans; [exact U|].
    eapply params_step_upsert_step; [exact P5|].
    intros q. subst db4. simpl. rewrite row_at_insert_new.
    by intros [= <-]. }
  assert (params_wf db → params_wf db5) as Hwf'.
  { intros Hwf. apply Hwf5; [by apply Hwf4, Hwf3|].
    subst db4. simpl. rewrite length_app. simpl. lia. }
  destruct r as [[]|e]; simpl; [|done].
  apply wp_ret. split; [done|]. split; [done|]. intros pk [= <-].
  destruct S as (G & Hpi & Hpp).
  split; [|split; [by rewrite Hpi|]].
  { unfold listings_with in *. by rewrite <- Hpi. }
  split.
  - destruct P5 as (G5 & Hpi5 & Hsc5 & Hc5 & Hp5 & _).
    exists row, sc. rewrite Hpi5, Hsc5, Hc5, Hp5. subst db4. simpl.
    split; [apply row_at_insert_new|]. split; [done|].
    do 3 (split; [done|]).
    split; [done|]. split; [|split; [done|]].
    + destruct S3 as (G3 & _). eapply row_at_prefix; [apply G3|done].
    + destruct S3 as (G3 & _), S2 as (G2 & _).
      eapply row_at_prefix; [apply G3|]. eapply row_at_prefix; [apply G2|].
      by rewrite Hsccat.
  - intros Hwf. apply (Hb []); [|done].
    apply brief_of_nil. unfold parameters_of. subst db4. simpl.
    apply (params_wf_fresh db3); [by apply Hwf3|done].
Qed.

Lemma save_listing_step db pk row row' :
  row_at (product_infos db) pk = Some row → same_listing row row' →
  let db' := set_product_infos (tbl_save (product_infos db) pk row') db in
  upsert_step (pi_shop row) (external_id row) db db'
  ∧ (params_wf db → params_wf db')
  ∧ row_at (product_infos db') pk = Some row'
  ∧ ∀ k, brief_of db' k = brief_of db k.
Proof.
  intros Hrow Hsame db'. split; [split; [|split]|split; [|split]].
  - split; simpl; try done.
    + unfold tbl_save. by rewrite length_insert.
    + intros k p H. destruct (decide (k = pk)) as [->|Hne].
      * exists row'. split; [by eapply row_at_save_eq|]. congruence.
      * exists p. rewrite row_at_save_ne by done.
        split; [done|apply same_listing_refl].
  - intros k p H Hn. simpl. split; [|done].
    rewrite row_at_save_ne; [done|]. intros ->. apply Hn.
    assert (p = row) as -> by congruence. done.
  - intros k p'. simpl. intros H' H.
    destruct (decide (k = pk)) as [->|Hne]; [congruence|].
    rewrite row_at_save_ne in H' by done. congruence.
  - apply params_wf_ext; [done|]. simpl. unfold tbl_save.
    by rewrite length_insert.
  - simpl. by eapply row_at_save_eq.
  - intros k. by apply brief_of_ext.
Qed.

Lemma same_listing_apply_fields f row : same_listing row (apply_fields f row).
Proof. by repeat split. Qed.

Lemma update_save_wp pk row f db db1 :
  row_at (product_infos db) pk = Some row →
  upsert_step (pi_shop row) (external_id row) db db1 →
  (params_wf db → params_wf db1) →
  product_infos db1 = product_infos db →
  (∀ old, brief_of db pk = Some old →
          brief_of db1 pk = Some (default old (fu_product_parameters f))) →
  (fu_product_parameters f = None →
   product_parameters db1 = product_parameters db) →
  wp (run! modify (λ db,
        set_product_infos
          (tbl_save (product_infos db) pk (apply_fields f row)) db)
      in ret pk)
     (update_post pk row f db) db1.
Proof.
  intros Hrow U1 Hwf1 Hpi1 Hb1 Hpp1.
  apply wp_bind, wp_modify. simpl. apply wp_ret.
  assert (row_at (product_infos db1) pk = Some row) as Hrow1
    by by rewrite Hpi1.
  destruct (save_listing_step db1 pk row (apply_fields f row) Hrow1
              (same_listing_apply_fields f row)) as (U2 & Hwf2 & Hr2 & Hb2).
  split; [by eapply upsert_step_trans|]. split; [by intros ?; apply Hwf2, Hwf1|].
  intros k [= <-]. split; [done|]. split; [done|].
  split; [intros old Hold; rewrite Hb2; by apply Hb1|].
  intros Hn. simpl. by apply Hpp1.
Qed.

Lemma update_wp pk row f db :
  row_at (product_infos db) pk = Some row →
  wp (update (pk, row) f) (update_post pk row f db) db.
Proof.
  intros Hrow. unfold update. simpl. apply wp_bind.
  destruct (fu_product_parameters f) as [ps|] eqn:Ef.
  - eapply wp_mono; [apply (add_parameters_wp pk ps true db)|].
    intros db1 r (P1 & Hwf1 & Hb1).
    assert (upsert_step (pi_shop row) (external_id row) db db1) as U1.
    { eapply params_step_upsert_step; [exact P1|].
      intros q Hq. assert (q = row) as -> by congruence. done. }
    assert (params_wf db → params_wf db1) as Hwf'
      by (intros ?; apply Hwf1; [done|by eapply row_at_lt]).
    destruct r as [[]|e]; [|by split].
    apply update_save_wp; try done.
    + apply P1.
    + rewrite Ef. simpl. intros old _. by apply (Hb1 []).
    + by rewrite Ef.
  - apply wp_ret. apply update_save_wp; try done.
    + apply upsert_step_refl.
    + by rewrite Ef.
Qed.

(** *** The listing found for an external id *)

Lemma head_listings_other shop ext shop' ext' db db' pk p :
  upsert_step shop' ext' db db' → (shop, ext) ≠ (shop', ext') →
  head (listings_with shop ext db) = Some (pk, p) →
  head (listings_with shop ext db') = Some (pk, p)
  ∧ parameters_of pk db' = parameters_of pk db.
Proof.
  intros [G [U N]] Hne. rewrite !head_listings_with.
  intros (Hr & Hk & Hmin).
  assert (¬ listing_key shop' ext' p) as Hnk.
  { intros [? ?]. destruct Hk. apply Hne. congruence. }
  destruct (U pk p Hr Hnk) as [Hr' Hps]. split; [|done].
  split; [done|]. split; [done|].
  intros pk' p' Hlt Hr2 Hk2.
  destruct (row_at (product_infos db) pk') as [p0|] eqn:E0.
  - destruct (grows_listings _ _ G pk' p0 E0) as (q & Hq & Hs).
    assert (q = p') as -> by congruence.
    apply (Hmin pk' p0 Hlt E0). by eapply key_same_listing_inv.
  - destruct (N pk' p' Hr2 E0) as [_ Hlen].
    apply row_at_lt in Hr. lia.
Qed.

Lemma head_listings_same shop ext db db' pk p :
  upsert_step shop ext db db' →
  head (listings_with shop ext db) = Some (pk, p) →
  ∃ p', head (listings_with shop ext db') = Some (pk, p') ∧ same_listing p p'.
Proof.
  intros [G [U N]]. rewrite head_listings_with. intros (Hr & Hk & Hmin).
  destruct (grows_listings _ _ G pk p Hr) as (p' & Hr' & Hs).
  exists p'. split; [|done]. apply head_listings_with.
  split; [done|]. split; [by eapply key_same_listing|].
  intros pk' q Hlt Hq Hkq.
  destruct (row_at (product_infos db) pk') as [p0|] eqn:E0.
  - destruct (grows_listings _ _ G pk' p0 E0) as (q' & Hq' & Hs').
    assert (q' = q) as -> by congruence.
    apply (Hmin pk' p0 Hlt E0). by eapply key_same_listing_inv.
  - destruct (N pk' q Hq E0) as [_ Hlen]. apply row_at_lt in Hr. lia.
Qed.

Lemma head_listings_created shop ext db db' row :
  upsert_step shop ext db db' →
  listings_with shop ext db = [] →
  row_at (product_infos db') (length (product_infos db)) = Some row →
  listing_key shop ext row →
  head (listings_with shop ext db') = Some (length (product_infos db), row).
Proof.
  intros [G [U N]] Hnil Hr Hk. apply head_listings_with.
  split; [done|]. split; [done|].
  intros pk' q Hlt Hq Hkq.
  destruct (row_at (product_infos db) pk') as [p0|] eqn:E0.
  - destruct (grows_listings _ _ G pk' p0 E0) as (q' & Hq' & Hs').
    assert (q' = q) as -> by congruence.
    apply (proj1 (listings_with_nil shop ext db) Hnil pk' p0 E0).
    by eapply key_same_listing_inv.
  - destruct (N pk' q Hq E0) as [_ Hlen]. lia.
Qed.

(** A step on another listing keeps a listing in step with its data. *)
Lemma synced_other shop info shop' ext' db db' :
  upsert_step shop' ext' db db' → (shop, pd_external_id info) ≠ (shop', ext') →
  synced db shop info → synced db' shop info.
Proof.
  intros US Hne (pk & p & old & Hhead & Hq & Hp & Hprrc & Hb & Hsort).
  destruct (head_listings_other _ _ _ _ _ _ _ _ US Hne Hhead) as [Hhead' Hps].
  exists pk, p, old. repeat (split; [done|]). split; [|done].
  destruct US as [G _].
  eapply brief_of_stable; [apply G|apply G|done|done].
Qed.

Lemma changed_None old new : changed old new = None → old = new.
Proof.
  unfold changed. case_bool_decide as H; [done|]. intros _.
  destruct (decide (old = new)); [done|]. by destruct H.
Qed.

Lemma changed_default old new : default old (changed old new) = new.
Proof. unfold changed. case_bool_decide as H; [done|]. simpl.
  destruct (decide (old = new)); [done|]. by destruct H. Qed.

Lemma brief_parameters_run pk db :
  brief_parameters pk db
  = match brief_of db pk with
    | Some l => (db, Ok l)
    | None => (db, Raise DoesNotExist)
    end.
Proof. done. Qed.

Lemma update_or_create_wp info shop db :
  wp (update_or_create info shop)
     (λ db' r,
        upsert_step shop (pd_external_id info) db db'
        ∧ (params_wf db → params_wf db')
        ∧ ∀ pk, r = Ok pk → params_wf db → synced db' shop info) db.
Proof.
  unfold update_or_create. apply wp_bind, wp_query.
  destruct (head (listings_with shop (pd_external_id info) db))
    as [[pk row]|] eqn:Ehead.
  - pose proof Ehead as (Hrow & [Hshop Hext] & Hmin)%head_listings_with.
    apply wp_bind. unfold wp at 1. rewrite brief_parameters_run.
    destruct (brief_of db pk) as [old|] eqn:Eold; simpl.
    2:{ split; [apply upsert_step_refl|done]. }
    match goal with |- context [no_fields ?f] => set (fs := f) end.
    destruct (no_fields fs) eqn:Eno.
    + apply wp_ret. split; [apply upsert_step_refl|]. split; [done|].
      intros ? _ _. exists pk, row, old. split; [done|].
      unfold no_fields in Eno. subst fs. simpl in Eno.
      destruct (changed (quantity row) _) eqn:E1; [done|].
      destruct (changed (price row) _) eqn:E2; [done|].
      destruct (changed (price_rrc row) _) eqn:E3; [done|].
      case_bool_decide as E4; [done|].
      split; [by apply changed_None|]. split; [by apply changed_None|].
      split; [by apply changed_None|]. split; [done|].
      destruct (decide (sort_by_parameter old
                        = sort_by_parameter (pd_product_parameters info)));
        [done|by destruct E4].
    + eapply wp_mono; [by apply (update_wp pk row fs db)|].
      intros db' r (US & Hwf' & Hres). rewrite Hshop, Hext in US.
      split; [done|]. split; [done|]. intros pk' -> _.
      destruct (Hres pk' eq_refl) as (-> & Hrow' & Hb' & _).
      specialize (Hb' old Eold).
      destruct (head_listings_same _ _ _ _ _ _ US Ehead) as (row' & Hh' & _).
      pose proof Hh' as (Hrow2 & _)%head_listings_with.
      assert (row' = apply_fields fs row) as -> by congruence.
      exists pk, (apply_fields fs row),
        (default old (fu_product_parameters fs)).
      split; [done|]. subst fs. simpl.
      rewrite !changed_default. do 3 (split; [done|]). split; [done|].
      case_bool_decide as E4; simpl; [done|].
      destruct (decide (sort_by_parameter old
                        = sort_by_parameter (pd_product_parameters info)));
        [done|by destruct E4].
  - eapply wp_mono; [by apply create_wp|].
    intros db' r (US & Hwf' & Hres). split; [done|]. split; [done|].
    intros pk -> Hwf. destruct (Hres pk eq_refl) as (Hnil & -> & Hc & Hb).
    destruct Hc as (row & sc & Hr & Hk & Hq & Hp & Hprrc & _).
    exists (length (product_infos db)), row, (pd_product_parameters info).
    split; [by eapply head_listings_created|]. split; [done|].
    split; [done|]. split; [done|]. split; [by apply Hb|done].
Qed.

(** An upsert of data that the listing already carries writes nothing. *)
Lemma update_or_create_synced info shop db :
  synced db shop info →
  ∃ pk, update_or_create info shop db = (db, Ok pk).
Proof.
  intros (pk & p & old & Hhead & Hq & Hp & Hprrc & Hb & Hsort).
  exists pk. unfold update_or_create, bind, query. rewrite Hhead.
  rewrite brief_parameters_run, Hb. simpl.
  unfold changed. rewrite Hq, Hp, Hprrc, Hsort.
  rewrite !bool_decide_eq_false_2 by (intros H; by apply H). done.
Qed.

(* ================================================================== *)
(** ** Validation *)
(* ================================================================== *)

(** In the context of an import the serializer does not read the store. *)
Lemma is_valid_import data db :
  is_valid import_context data db = (db, of_validated (validated data)).
Proof.
  unfold is_valid, validated.
  destruct (validate_fields data) as [[[v|d] errs] vd]; simpl;
    unfold bind, try_except, ret; simpl; by destruct errs.
Qed.

Lemma validated_external_id data vd :
  validated data = inl vd → pd_external_id vd = pd_external_id data.
Proof.
  unfold validated, validate_fields.
  set (ext := IntegerField model_min_value (pd_external_id data)).
  destruct ext as [v|d] eqn:E; simpl.
  - match goal with |- context [match ?l with [] => _ | _ :: _ => _ end] =>
      destruct l; [|done] end.
    intros [= <-]. simpl. subst ext. unfold IntegerField in E. simpl in E.
    destruct (pd_external_id data <? 0); by inversion E.
  - done.
Qed.

Lemma validate_products_run cs cats products db :
  validate_products cs cats products db
  = (db, Ok (validation_of cs cats products)).
Proof.
  induction products as [|g rest IH]; simpl; [done|].
  destruct (build_product_data cs cats g) as [e|data]; [done|].
  unfold bind, try_except. rewrite is_valid_import.
  destruct (validated data) as [vd|d]; simpl; [|done].
  rewrite IH. by destruct (validation_of cs cats rest).
Qed.

Lemma validation_of_ids cs cats products infos :
  validation_of cs cats products = inr infos →
  map Some (map pd_external_id infos) = map gs_id products.
Proof.
  revert infos. induction products as [|g rest IH]; intros infos; simpl.
  - by intros [= <-].
  - destruct (build_product_data cs cats g) as [e|data] eqn:Eb; [done|].
    destruct (validated data) as [vd|d] eqn:Ev; [|done].
    destruct (validation_of cs cats rest) as [e|others]; [done|].
    intros [= <-]. simpl. rewrite (IH others eq_refl). f_equal.
    rewrite (validated_external_id _ _ Ev).
    unfold build_product_data in Eb.
    destruct (gs_category g); [|done]. destruct (cats !! _); [|done].
    destruct (gs_parameters g); [|done]. destruct (gs_id g); [|done].
    destruct (gs_name g); [|done]. destruct (gs_price g); [|done].
    destruct (gs_price_rrc g); [|done]. destruct (gs_quantity g); [|done].
    by inversion Eb.
Qed.

(* ================================================================== *)
(** ** The shop of the owner *)
(* ================================================================== *)

Lemma shop_get_or_create_run owner name email shipping db :
  shop_get_or_create owner name email shipping db
  = match shops_of_owner owner db with
    | [] =>
        if bool_decide (shops_named name db ≠ [])
        then (db, Raise IntegrityError)
        else (set_shops (shops db ++ [Some (new_shop owner name email shipping)])
                        db,
              Ok (length (shops db), true))
    | [(pk, _)] => (db, Ok (pk, false))
    | _ => (db, Raise MultipleObjectsReturned)
    end.
Proof.
  unfold shop_get_or_create, shops_of_owner, shops_named.
  destruct (select _ (shops db)) as [|[pk s] [|? ?]]; simpl; try done.
Qed.

Lemma shops_of_owner_created owner s db :
  shops_of_owner owner db = [] → shop_owner s = owner →
  shops_of_owner owner (set_shops (shops db ++ [Some s]) db)
  = [(length (shops db), s)].
Proof.
  unfold shops_of_owner. simpl. intros H Ho. rewrite select_insert, H.
  by rewrite bool_decide_eq_true_2.
Qed.

Lemma import_products_run user_id user_email json_data db :
  import_products user_id user_email json_data db
  = match parse_top json_data with
    | inl key => (db, Ok (ParseError key))
    | inr (shop_name, cs, cats, products) =>
        match shop_get_or_create user_id shop_name
                (default user_email (p_email json_data))
                (default 300 (p_shipping_price json_data)) db with
        | (db1, Raise IntegrityError) => (db1, Ok (ShopNameOccupied shop_name))
        | (db1, Raise e) => (db1, Raise e)
        | (db1, Ok (shop, shop_created)) =>
            match validation_of cs cats products with
            | inl error => (db1, Ok error)
            | inr infos =>
                match store_products shop shop_created infos db1 with
                | (db2, Ok _) => (db2, Ok (ImportOk shop))
                | (db2, Raise e) => (db2, Raise e)
                end
            end
        end
    end.
Proof.
  unfold import_products.
  destruct (parse_top json_data) as [key|[[[shop_name cs] cats] products]];
    [done|].
  destruct (shop_get_or_create _ _ _ _ db) as [db1 [[shop created]|e]];
    [|done].
  unfold bind at 1. rewrite validate_products_run.
  destruct (validation_of cs cats products) as [err|infos]; [done|].
  unfold bind, ret. by destruct (store_products _ _ _ db1) as [db2 [[]|e]].
Qed.

(* ================================================================== *)
(** ** The loops over the validated listings *)
(* ================================================================== *)

Lemma run_step_refl shop ids db : run_step shop ids db db.
Proof. split; [reflexivity|]. split; [done|]. intros ????. congruence. Qed.

Lemma run_step_trans shop ids db1 db2 db3 :
  run_step shop ids db1 db2 → run_step shop ids db2 db3 →
  run_step shop ids db1 db3.
Proof.
  intros (G12 & U12 & N12) (G23 & U23 & N23). split; [by etrans|]. split.
  - intros pk p H Hn. apply U23; [|done]. by apply U12.
  - intros pk p' H3 H1.
    destruct (row_at (product_infos db2) pk) as [p2|] eqn:E2.
    + destruct (N12 pk p2 E2 H1) as [Hs He].
      destruct (grows_listings _ _ G23 pk p2 E2) as (q & Hq & Hsame).
      assert (q = p') as -> by congruence.
      destruct Hsame as (_ & Hshop & _ & Hext). split; congruence.
    + by apply (N23 pk p').
Qed.

Lemma upsert_step_run_step shop ext ids db db' :
  upsert_step shop ext db db' → ext ∈ ids → run_step shop ids db db'.
Proof.
  intros (G & U & N) Hin. split; [done|]. split.
  - intros pk p H Hn. apply U; [done|]. intros [Hs He]. apply Hn.
    split; [done|]. by rewrite He.
  - intros pk p' H' H. destruct (N pk p' H' H) as [[Hs He] _].
    split; [done|]. by rewrite He.
Qed.

Lemma run_step_mono shop ids ids' db db' :
  ids ⊆ ids' → run_step shop ids db db' → run_step shop ids' db db'.
Proof.
  intros Hsub (G & U & N). split; [done|]. split.
  - intros pk p H Hn. apply U; [done|]. intros [Hs He]. apply Hn.
    split; [done|]. by apply Hsub.
  - intros pk p' H' H. destruct (N pk p' H' H) as [Hs He].
    split; [done|]. by apply Hsub.
Qed.

Lemma upsert_all_step shop infos db :
  wp (upsert_all shop infos)
     (λ db' _, run_step shop (ids_of infos) db db'
               ∧ (params_wf db → params_wf db')) db.
Proof.
  unfold upsert_all.
  apply (wp_for_each
           (λ db0, run_step shop (ids_of infos) db db0
                   ∧ (params_wf db → params_wf db0))).
  { split; [apply run_step_refl|done]. }
  intros info db0 Hin [R W]. apply wp_bind.
  eapply wp_mono; [apply update_or_create_wp|].
  intros db1 r (US & W1 & _).
  assert (run_step shop (ids_of infos) db db1 ∧ (params_wf db → params_wf db1))
    as HI.
  { split; [|by intros ?; apply W1, W].
    eapply run_step_trans; [exact R|].
    eapply upsert_step_run_step; [exact US|].
    unfold ids_of. apply list_elem_of_fmap. by exists info. }
  destruct r; [by apply wp_ret|done].
Qed.

Lemma create_all_step shop infos db :
  wp (create_all shop infos)
     (λ db' _, run_step shop (ids_of infos) db db'
               ∧ (params_wf db → params_wf db')) db.
Proof.
  unfold create_all.
  apply (wp_for_each
           (λ db0, run_step shop (ids_of infos) db db0
                   ∧ (params_wf db → params_wf db0))).
  { split; [apply run_step_refl|done]. }
  intros info db0 Hin [R W]. apply wp_bind.
  eapply wp_mono; [apply create_wp|].
  intros db1 r (US & W1 & _).
  assert (run_step shop (ids_of infos) db db1 ∧ (params_wf db → params_wf db1))
    as HI.
  { split; [|by intros ?; apply W1, W].
    eapply run_step_trans; [exact R|].
    eapply upsert_step_run_step; [exact US|].
    unfold ids_of. apply list_elem_of_fmap. by exists info. }
  destruct r; [by apply wp_ret|done].
Qed.

(** Where [create] succeeds, [update_or_create] does the same. *)
Lemma create_as_upsert info shop db db' pk :
  create info shop db = (db', Ok pk) →
  update_or_create info shop db = (db', Ok pk).
Proof.
  intros H. pose proof (create_wp info shop db) as Hwp.
  eapply wp_run in Hwp; [|exact H]. destruct Hwp as (_ & _ & Hres).
  destruct (Hres pk eq_refl) as (Hnil & _).
  unfold update_or_create, bind, query. by rewrite Hnil.
Qed.

Lemma create_all_as_upsert_all shop infos db db' :
  create_all shop infos db = (db', Ok tt) →
  upsert_all shop infos db = (db', Ok tt).
Proof.
  unfold create_all, upsert_all. revert db.
  induction infos as [|info infos IH]; intros db; simpl; [done|].
  unfold bind at 1 2 4 5.
  destruct (create info shop db) as [db1 [pk|e]] eqn:E; [|done].
  rewrite (create_as_upsert _ _ _ _ _ E). simpl. apply IH.
Qed.

Lemma upsert_all_synced shop infos db :
  params_wf db →
  wp (upsert_all shop infos)
     (λ db' r, r = Ok tt → last_synced shop infos db') db.
Proof.
  intros Hwf. unfold upsert_all.
  eapply wp_mono.
  { apply (wp_for_each_prefix
             (λ pre db0, params_wf db0 ∧ last_synced shop pre db0)).
    - split; [done|]. intros l1 info l2 H. by destruct l1.
    - intros pre x post db0 Hl [W L]. apply wp_bind.
      eapply wp_mono; [apply update_or_create_wp|].
      intros db1 [pk|e] (US & W1 & S1); simpl; [|done].
      apply wp_ret. intros _. split; [by apply W1|].
      intros l1 info l2 Hdec Hnot.
      destruct l2 as [|y l2 _] using rev_ind.
      + apply app_inj_tail in Hdec as [-> ->]. by apply (S1 pk).
      + rewrite app_comm_cons, app_assoc in Hdec.
        apply app_inj_tail in Hdec as [-> ->].
        unfold ids_of in Hnot. rewrite map_app in Hnot.
        apply not_elem_of_app in Hnot as [Hn1 Hn2].
        eapply synced_other; [exact US| |by apply (L l1 info l2)].
        intros [= Heq]. apply Hn2. simpl. rewrite Heq. left. }
  simpl. intros db' r H Hr. by apply H.
Qed.

(* ================================================================== *)
(** ** The last block of the import *)
(* ================================================================== *)

Lemma store_products_run shop created infos db :
  store_products shop created infos db
  = if created || negb (bool_decide (listings_of shop db ≠ []))
    then create_all shop infos db
    else upsert_all shop infos (zeroed shop (external_ids infos) db).
Proof.
  unfold store_products, bind, query.
  by destruct (created || negb (bool_decide (listings_of shop db ≠ []))).
Qed.

Lemma row_at_zeroed shop ids db pk :
  row_at (product_infos (zeroed shop ids db)) pk
  = (λ p, if missing_from_run shop ids p then zero_quantity p else p)
    <$> row_at (product_infos db) pk.
Proof. unfold zeroed. simpl. by rewrite row_at_update_where. Qed.

Lemma zeroed_grows shop ids db : grows db (zeroed shop ids db).
Proof.
  split; try done.
  - simpl. by rewrite update_where_length.
  - intros pk p H. rewrite row_at_zeroed, H. simpl.
    destruct (missing_from_run shop ids p); eexists; (split; [done|]);
      by repeat split.
Qed.

Lemma zeroed_params_wf shop ids db :
  params_wf db → params_wf (zeroed shop ids db).
Proof.
  apply params_wf_ext; [done|]. simpl. by rewrite update_where_length.
Qed.

Lemma store_products_step shop created infos db :
  wp (store_products shop created infos)
     (λ db' _, grows db db' ∧ (params_wf db → params_wf db')) db.
Proof.
  unfold wp. rewrite store_products_run.
  destruct (created || negb (bool_decide (listings_of shop db ≠ []))).
  - pose proof (create_all_step shop infos db) as [[G _] W]. done.
  - pose proof (upsert_all_step shop infos (zeroed shop (external_ids infos) db))
      as [[G _] W].
    split; [etrans; [apply zeroed_grows|exact G]|].
    intros Hwf. by apply W, zeroed_params_wf.
Qed.

(* ================================================================== *)
(** ** The shop row of an import *)
(* ================================================================== *)

(** C10.  On a first import (the owner has no shop, the payload has its
    required keys and the name is free) the run appends one Shop row: its
    email is the [email] of the payload, or the owner's own email when the
    key is absent, and its base shipping price is the [shipping_price] of
    the payload, or 300 when the key is absent.  When the owner already has
    a shop, no run changes the Shop table, whatever the payload says. *)
Theorem C10_shop_defaults (user_id : nat) (user_email : string)
    (json_data : payload) (db : DB) :
  let db' := (import_products user_id user_email json_data db).1 in
  (∀ name cs cats goods,
     shops_of_owner user_id db = [] →
     parse_top json_data = inr (name, cs, cats, goods) →
     shops_named name db = [] →
     ∃ s, shops db' = shops db ++ [Some s]
          ∧ shop_owner s = user_id ∧ shop_name s = name
          ∧ (p_email json_data = None → shop_email s = user_email)
          ∧ (∀ e, p_email json_data = Some e → shop_email s = e)
          ∧ (p_shipping_price json_data = None → base_shipping_price s = 300)
          ∧ (∀ q, p_shipping_price json_data = Some q →
                  base_shipping_price s = q))
  ∧ (shops_of_owner user_id db ≠ [] → shops db' = shops db).
Proof.
  intros db'. subst db'. rewrite import_products_run. split.
  - intros name cs cats goods Hnone Hparse Hfree.
    rewrite Hparse, shop_get_or_create_run, Hnone, Hfree. simpl.
    exists (new_shop user_id name (default user_email (p_email json_data))
              (default 300 (p_shipping_price json_data))).
    split; [|split; [done|split; [done|]]].
    + destruct (validation_of cs cats goods) as [err|infos]; simpl; [done|].
      match goal with |- context [store_products ?a ?b ?c ?d] =>
        pose proof (store_products_step a b c d) as [G _];
        destruct (store_products a b c d) as [db2 [[]|e]] end;
        simpl in *; by rewrite (grows_shops _ _ G).
    + simpl. repeat split.
      * by intros ->.
      * by intros e ->.
      * by intros ->.
      * by intros q ->.
  - intros Hsome.
    destruct (parse_top json_data) as [key|[[[name cs] cats] goods]]; [done|].
    rewrite shop_get_or_create_run.
    destruct (shops_of_owner user_id db) as [|[pk s] [|? ?]]; [done| |done].
    destruct (validation_of cs cats goods) as [err|infos]; simpl; [done|].
    match goal with |- context [store_products ?a ?b ?c ?d] =>
      pose proof (store_products_step a b c d) as [G _];
      destruct (store_products a b c d) as [db2 [[]|e]] end;
      simpl in *; by rewrite (grows_shops _ _ G).
Qed.

(* ================================================================== *)
(** ** Runs that end in an error *)
(* ================================================================== *)

Lemma validation_of_error cs cats products err :
  validation_of cs cats products = inl err →
  (∃ k g, err = CategoryMatchError k cs g)
  ∨ (∃ k g, err = ProductParseError k cs g)
  ∨ (∃ g d, err = InvalidProductInfo g d).
Proof.
  induction products as [|g rest IH]; simpl; [done|].
  destruct (build_product_data cs cats g) as [e|data] eqn:Eb.
  - intros [= <-]. unfold build_product_data in Eb.
    destruct (gs_category g); [|inversion Eb; left; eauto].
    destruct (cats !! _); [|inversion Eb; left; eauto].
    right; left.
    destruct (gs_parameters g); [|inversion Eb; eauto].
    destruct (gs_id g); [|inversion Eb; eauto].
    destruct (gs_name g); [|inversion Eb; eauto].
    destruct (gs_price g); [|inversion Eb; eauto].
    destruct (gs_price_rrc g); [|inversion Eb; eauto].
    destruct (gs_quantity g); [|inversion Eb; eauto]. done.
  - destruct (validated data) as [vd|d]; [|intros [= <-]; right; right; eauto].
    destruct (validation_of cs cats rest); [|done]. intros [= <-]. by apply IH.
Qed.

(** C1, as stated, fails: a first import whose only good names a category
    that the payload does not list returns the category-matching error, and
    the Shop row created before the goods are read stays in the store. *)
Lemma C1_counterexample :
  let run := import_products 7 "owner@example.com" (catalog [stray]) empty_db in
  run.2 = Ok (CategoryMatchError "2" [toys] stray)
  ∧ shops run.1 = [Some (new_shop 7 "A" "owner@example.com" 300)]
  ∧ run.1 ≠ empty_db.
Proof. vm_compute. split; [done|]. split; [done|]. intros [=]. Qed.

(** C1, amended.  A run that returns a structured error (a parse error, an
    occupied shop name, a category matching error, a product parse error or
    invalid listing data) writes no listing, category, product, parameter
    or order row: the store is left as it was, except that a first import
    has appended the Shop row of the owner before the goods were read.  The
    store is left entirely as it was when the owner already has a shop,
    when a required top-level key is missing, and when the shop name is
    occupied.  The statement is about the errors that are returned: a run
    that raises an exception while the listings are written returns
    nothing, and the rows written before the exception stay. *)
Theorem C1_failed_run (user_id : nat) (user_email : string)
    (json_data : payload) (db db' : DB) (e : import_result) :
  import_products user_id user_email json_data db = (db', Ok e) →
  is_error e →
  (db' = db
   ∨ (shops_of_owner user_id db = []
      ∧ ∃ s, shop_owner s = user_id
             ∧ db' = set_shops (shops db ++ [Some s]) db))
  ∧ (shops_of_owner user_id db ≠ [] → db' = db)
  ∧ (∀ key, e = ParseError key → db' = db)
  ∧ (∀ name, e = ShopNameOccupied name → db' = db).
Proof.
  rewrite import_products_run. intros H Herr.
  destruct (parse_top json_data) as [key|[[[name cs] cats] goods]].
  { inversion H; subst. split; [by left|]. split; [done|]. split; by intros. }
  rewrite shop_get_or_create_run in H.
  assert (∀ db1 shop created,
            match validation_of cs cats goods with
            | inl error => (db1, Ok error)
            | inr infos =>
                match store_products shop created infos db1 with
                | (db2, Ok _) => (db2, Ok (ImportOk shop))
                | (db2, Raise e) => (db2, Raise e)
                end
            end = (db', Ok e) →
            db' = db1 ∧ (∀ key, e ≠ ParseError key)
            ∧ (∀ name, e ≠ ShopNameOccupied name)) as Hval.
  { intros db1 shop created Hrun.
    destruct (validation_of cs cats goods) as [err|infos] eqn:Ev.
    - inversion Hrun; subst. split; [done|].
      destruct (validation_of_error _ _ _ _ Ev)
        as [(?&?&->)|[(?&?&->)|(?&?&->)]]; by split.
    - destruct (store_products shop created infos db1) as [db2 [[]|?]];
        inversion Hrun; subst. by destruct (Herr shop). }
  destruct (shops_of_owner user_id db) as [|[pk s] [|? ?]] eqn:Eo.
  - case_bool_decide as Hfree.
    + inversion H; subst. split; [by left|]. split; [done|]. split; by intros.
    + apply Hval in H as (-> & Hk & Hn).
      split; [right; split; [done|]; eexists; split; [|reflexivity]; done|].
      split; [done|]. split; [intros k ->; by destruct (Hk k)|].
      intros n ->. by destruct (Hn n).
  - apply Hval in H as (-> & Hk & Hn). split; [by left|]. split; [done|]. split; by intros.
  - done.
Qed.

Lemma C1_failed_run_witness :
  let run := import_products 7 "owner@example.com" (catalog [stray]) empty_db in
  run.1 = empty_db
  ∨ (shops_of_owner 7 empty_db = []
     ∧ ∃ s, shop_owner s = 7%nat
            ∧ run.1 = set_shops (shops empty_db ++ [Some s]) empty_db).
Proof.
  apply (C1_failed_run 7 "owner@example.com" (catalog [stray]) empty_db _
           (CategoryMatchError "2" [toys] stray)).
  - vm_compute. reflexivity.
  - intros shop. discriminate.
Defined.

(* ================================================================== *)
(** ** The validation shared with the manual path *)
(* ================================================================== *)

Lemma validate_fields_external_id data v errs vd :
  validate_fields data = (inl v, errs, vd) → v = pd_external_id data.
Proof.
  unfold validate_fields, IntegerField. simpl.
  destruct (pd_external_id data <? 0); [done|]. by intros [= <- _ _].
Qed.

Lemma is_valid_view user shop s rest data db :
  shops_of_owner user db = (shop, s) :: rest →
  is_valid (view_context user) data db
  = (db,
     match validate_fields data with
     | (inl v, errs, vd) =>
         if bool_decide (listings_with shop v db ≠ [])
         then Raise (ValidationError
                (Fields (("external_id",
                          Msgs ["product with external_id " +:+ pretty v
                                +:+ " is already exists in your shop"])
                         :: errs)))
         else of_validated (validated data)
     | (inr _, _, _) => of_validated (validated data)
     end).
Proof.
  intros Hshop. unfold is_valid, validated.
  destruct (validate_fields data) as [[[v|d] errs] vd]; simpl.
  - unfold try_except, bind, validate_external_id,
      PartnerProductInfoSerializer.shop, query. simpl.
    unfold shops_of_owner in Hshop. unfold bind. rewrite Hshop. simpl.
    destruct (bool_decide (listings_with shop v db ≠ [])); simpl; [done|].
    by destruct errs.
  - unfold bind, ret. simpl. done.
Qed.

(** C6, as stated, fails: once shop A lists external id 10, the payload of
    that listing passes the validation of an import and is rejected by the
    validation of the manual creation, which also checks that the external
    id is free. *)
Lemma C6_counterexample :
  (is_valid import_context ball_data shop_a).2 = Ok ball_data
  ∧ (is_valid (view_context 7) ball_data shop_a).2
    = Raise (ValidationError
               (Fields [("external_id",
                         Msgs ["product with external_id 10 is already exists in your shop"])]))
  ∧ (import_products 7 "owner@example.com" (catalog [ball]) shop_a).2
    = Ok (ImportOk 0).
Proof. vm_compute. done. Qed.

(** C6, amended.  The import validates every listing payload with the
    serializer of the manual creation path, and so with the same field
    validation; the check that the external id is free in the shop belongs
    to the manual path alone and is skipped by the import, which does not
    read the store to validate.  The first invalid listing ends the run with
    its validation detail, and no listing or parameter row is written. *)
Theorem C6_shared_validation :
  (∀ data db,
     is_valid import_context data db = (db, of_validated (validated data)))
  ∧ (∀ user shop s rest data db vd,
       shops_of_owner user db = (shop, s) :: rest →
       is_valid (view_context user) data db = (db, Ok vd)
       ↔ validated data = inl vd
         ∧ listings_with shop (pd_external_id data) db = [])
  ∧ (∀ user_id user_email json_data db name cs cats pre g post
       firsts data d db1 shop created,
       parse_top json_data = inr (name, cs, cats, pre ++ g :: post) →
       shop_get_or_create user_id name
         (default user_email (p_email json_data))
         (default 300 (p_shipping_price json_data)) db
       = (db1, Ok (shop, created)) →
       validation_of cs cats pre = inr firsts →
       build_product_data cs cats g = inr data →
       validated data = inr d →
       import_products user_id user_email json_data db
       = (db1, Ok (InvalidProductInfo g d))
       ∧ product_infos db1 = product_infos db
       ∧ product_parameters db1 = product_parameters db).
Proof.
  split; [apply is_valid_import|]. split.
  - intros user shop s rest data db vd Hshop.
    rewrite (is_valid_view _ _ _ _ _ _ Hshop). unfold validated.
    destruct (validate_fields data) as [[[v|d] errs] vd0] eqn:Ef; simpl.
    + rewrite <- (validate_fields_external_id _ _ _ _ Ef).
      case_bool_decide as Ht.
      * split; [done|]. intros [_ Hnil]. by rewrite Hnil in Ht.
      * assert (listings_with shop v db = []) as Hnil.
        { destruct (listings_with shop v db); [done|]. by destruct Ht. }
        destruct errs; simpl; split; try done.
        -- intros [= <-]. done.
        -- by intros [[= <-] _].
        -- by intros [[=] _].
    + split; [done|]. by intros [[=] _].
  - intros user_id user_email json_data db name cs cats pre g post
      firsts data d db1 shop created Hparse Hshop Hpre Hbuild Hinvalid.
    rewrite import_products_run, Hparse, Hshop.
    assert (validation_of cs cats (pre ++ g :: post)
            = inl (InvalidProductInfo g d)) as ->.
    { clear Hparse. revert firsts Hpre.
      induction pre as [|x pre IH]; intros firsts Hpre; simpl.
      - by rewrite Hbuild, Hinvalid.
      - simpl in Hpre.
        destruct (build_product_data cs cats x); [done|].
        destruct (validated p); [|done].
        destruct (validation_of cs cats pre) eqn:E; [done|].
        by rewrite (IH l). }
    split; [done|]. rewrite shop_get_or_create_run in Hshop.
    destruct (shops_of_owner user_id db) as [|[pk s] [|? ?]].
    + case_bool_decide; [done|]. by inversion Hshop.
    + by inversion Hshop.
    + done.
Qed.

(* ================================================================== *)
(** ** Re-import into an existing catalog *)
(* ================================================================== *)

Lemma elem_of_external_ids infos e :
  e ∈ external_ids infos ↔ e ∈ ids_of infos.
Proof. unfold external_ids, ids_of. apply elem_of_list_to_set. Qed.

Lemma missing_from_run_true shop infos p :
  missing_from_run shop (external_ids infos) p = true
  ↔ pi_shop p = shop ∧ external_id p ∉ ids_of infos.
Proof.
  unfold missing_from_run. rewrite bool_decide_eq_true.
  by rewrite elem_of_external_ids.
Qed.

Lemma parse_top_goods json_data name cs cats goods :
  parse_top json_data = inr (name, cs, cats, goods) →
  p_goods json_data = Some goods.
Proof.
  unfold parse_top. destruct (p_shop json_data); [|done].
  destruct (p_categories json_data); [|done].
  destruct (build_categories _ _); [done|].
  destruct (p_goods json_data); [|done]. by intros [= _ _ _ ->].
Qed.

(** What a successful run consists of. *)
Lemma import_products_ok user_id user_email json_data db db' shop :
  import_products user_id user_email json_data db = (db', Ok (ImportOk shop)) →
  ∃ name cs cats goods infos db1 created,
    parse_top json_data = inr (name, cs, cats, goods)
    ∧ shop_get_or_create user_id name
        (default user_email (p_email json_data))
        (default 300 (p_shipping_price json_data)) db
      = (db1, Ok (shop, created))
    ∧ validation_of cs cats goods = inr infos
    ∧ store_products shop created infos db1 = (db', Ok tt).
Proof.
  rewrite import_products_run.
  destruct (parse_top json_data) as [key|[[[name cs] cats] goods]]; [done|].
  destruct (shop_get_or_create _ _ _ _ db) as [db1 [[shop1 created]|e]] eqn:Es.
  2:{ by destruct e. }
  destruct (validation_of cs cats goods) as [err|infos] eqn:Ev.
  { intros [= -> ->]. destruct (validation_of_error _ _ _ _ Ev)
      as [(?&?&?)|[(?&?&?)|(?&?&?)]]; done. }
  destruct (store_products shop1 created infos db1) as [db2 [[]|e]] eqn:Est;
    [|done].
  intros [= -> ->]. by exists name, cs, cats, goods, infos, db1, created.
Qed.

Lemma zero_quantity_row p :
  quantity (zero_quantity p) = 0 ∧ same_listing p (zero_quantity p)
  ∧ price (zero_quantity p) = price p
  ∧ price_rrc (zero_quantity p) = price_rrc p.
Proof. by repeat split. Qed.

(** C4, as stated, fails for a re-import that raises in the last block: the
    catalog declares the category Games under the id that the shop uses
    for Toys, so the creation of the listing of its good raises; the
    listing missing from the run is delisted all the same, and the good of
    the run has no listing. *)
Lemma C4_counterexample :
  let run := import_products 7 "owner@example.com" catalog_games shop_a in
  listings_of 0 shop_a ≠ []
  ∧ (∃ d, run.2 = Raise (ValidationError d))
  ∧ (quantity <$> row_at (product_infos shop_a) 0 = Some 5
     ∧ quantity <$> row_at (product_infos run.1) 0 = Some 0)
  ∧ listings_with 0 12 run.1 = [].
Proof.
  vm_compute. split; [discriminate|]. split; [by eexists|]. done.
Qed.

(** C4, amended.  A re-import into the non-empty catalog of the owner's
    shop deletes no listing row of the store, whatever its outcome.  Once
    the payload has passed parsing and validation the run succeeds or
    raises, and in both cases every listing of the shop whose external id
    is absent from the run has quantity 0 afterwards and its other columns
    as before.  When the run succeeds every listing of the run is upserted:
    the shop has a listing with its external id that carries the quantity,
    prices and parameters of the run (those of the last good with that
    id).  A successful run is one whose payload passed parsing and
    validation. *)
Theorem C4_reimport (user_id : nat) (user_email : string) (json_data : payload)
    (db db' : DB) (shop0 : nat) (s : Shop) (r : res import_result) :
  params_wf db →
  shops_of_owner user_id db = [(shop0, s)] →
  listings_of shop0 db ≠ [] →
  import_products user_id user_email json_data db = (db', r) →
  (∀ pk p, row_at (product_infos db) pk = Some p →
           ∃ p', row_at (product_infos db') pk = Some p' ∧ same_listing p p')
  ∧ (∀ name cs cats goods infos,
       parse_top json_data = inr (name, cs, cats, goods) →
       validation_of cs cats goods = inr infos →
       (r = Ok (ImportOk shop0) ∨ ∃ e, r = Raise e)
       ∧ (∀ pk p, row_at (product_infos db) pk = Some p →
                  pi_shop p = shop0 → external_id p ∉ ids_of infos →
                  ∃ p', row_at (product_infos db') pk = Some p'
                        ∧ quantity p' = 0 ∧ same_listing p p'
                        ∧ price p' = price p ∧ price_rrc p' = price_rrc p)
       ∧ (r = Ok (ImportOk shop0) → last_synced shop0 infos db'))
  ∧ (∀ shop, r = Ok (ImportOk shop) →
             shop = shop0
             ∧ ∃ name cs cats goods infos,
                 parse_top json_data = inr (name, cs, cats, goods)
                 ∧ validation_of cs cats goods = inr infos).
Proof.
  intros Hwf Hshop Hlist. rewrite import_products_run.
  assert (∀ pk p, row_at (product_infos db) pk = Some p →
                  ∃ p', row_at (product_infos db) pk = Some p'
                        ∧ same_listing p p') as Hsame.
  { intros pk p Hp. exists p. by repeat split. }
  destruct (parse_top json_data) as [key|[[[name cs] cats] goods]].
  { intros [= <- <-]. split; [exact Hsame|]. split; by intros. }
  rewrite shop_get_or_create_run, Hshop.
  destruct (validation_of cs cats goods) as [err|infos] eqn:Ev.
  { intros [= <- <-]. split; [exact Hsame|]. split.
    - intros ? ? ? ? ? Heq Hv. inversion Heq; subst. congruence.
    - intros shop [= ->].
      destruct (validation_of_error _ _ _ _ Ev)
        as [(?&?&?)|[(?&?&?)|(?&?&?)]]; done. }
  rewrite store_products_run, (bool_decide_eq_true_2 _ Hlist). simpl.
  set (dbz := zeroed shop0 (external_ids infos) db).
  pose proof (upsert_all_step shop0 infos dbz) as [(G & U & _) _].
  pose proof (upsert_all_synced shop0 infos dbz
                (zeroed_params_wf _ _ _ Hwf)) as Hsync.
  unfold wp in Hsync.
  destruct (upsert_all shop0 infos dbz) as [db2 res] eqn:Hup.
  cbn [fst snd] in Hsync. cbn beta iota. intros Hrun.
  assert (db' = db2
          ∧ (r = Ok (ImportOk shop0) ∨ ∃ e, r = Raise e)
          ∧ (r = Ok (ImportOk shop0) → res = Ok tt)) as (-> & Hr & Hok).
  { destruct res as [[]|e]; inversion Hrun; subst.
    - split; [done|]. split; [by left|done].
    - split; [done|]. split; [right; by eexists|done]. }
  split; [|split].
  - apply grows_listings. etrans; [apply zeroed_grows|exact G].
  - intros ? ? ? ? infos' Heq Hv. inversion Heq; subst.
    assert (infos' = infos) as -> by congruence.
    split; [exact Hr|]. split.
    + intros pk p Hp Hps Hpe. exists (zero_quantity p).
      split; [|apply zero_quantity_row]. apply U.
      * unfold dbz. rewrite row_at_zeroed, Hp. simpl.
        by rewrite (proj2 (missing_from_run_true shop0 infos p)).
      * simpl. by intros [_ ?].
    + intros Hs. by apply Hsync, Hok.
  - intros shop ->. destruct Hr as [[= ->]|[e [=]]]. split; [done|].
    by exists name, cs, cats, goods, infos.
Qed.

(* ================================================================== *)
(** ** Running the same import twice *)
(* ================================================================== *)

Lemma zero_quantity_id p : quantity p = 0 → zero_quantity p = p.
Proof. destruct p. simpl. by intros ->. Qed.

Lemma zeroed_id shop infos db :
  others_zero shop infos db → zeroed shop (external_ids infos) db = db.
Proof.
  intros Hz. unfold zeroed. rewrite update_where_id; [by destruct db|].
  intros pk p Hp [Hs He]%missing_from_run_true.
  apply zero_quantity_id. by eapply Hz.
Qed.

Lemma upsert_all_synced_id shop infos db :
  (∀ info, info ∈ infos → synced db shop info) →
  upsert_all shop infos db = (db, Ok tt).
Proof.
  unfold upsert_all. induction infos as [|info infos IH]; intros H; [done|].
  simpl. unfold bind at 1 2.
  destruct (update_or_create_synced info shop db) as [pk ->];
    [apply H; left|].
  simpl. apply IH. intros i Hi. apply H. by right.
Qed.

Lemma last_synced_all shop infos db :
  NoDup (ids_of infos) → last_synced shop infos db →
  ∀ info, info ∈ infos → synced db shop info.
Proof.
  intros Hnd Hl info Hin.
  apply list_elem_of_split in Hin as (l1 & l2 & ->).
  apply (Hl l1 info l2 eq_refl).
  unfold ids_of in *. rewrite map_app in Hnd. simpl in Hnd.
  apply NoDup_app in Hnd as (_ & _ & Hnd). by apply NoDup_cons in Hnd as [? _].
Qed.

Lemma synced_listing shop info db :
  synced db shop info → listings_of shop db ≠ [].
Proof.
  intros (pk & p & old & Hh & _) Hnil.
  apply head_listings_with in Hh as (Hr & [Hs He] & _).
  unfold listings_of in Hnil. rewrite select_nil in Hnil.
  specialize (Hnil pk p Hr). apply bool_decide_eq_false in Hnil. done.
Qed.

(** The state after a successful run. *)
Lemma store_products_ok shop created infos db db' :
  params_wf db →
  (created = true → listings_of shop db = []) →
  store_products shop created infos db = (db', Ok tt) →
  grows db db' ∧ last_synced shop infos db' ∧ others_zero shop infos db'.
Proof.
  intros Hwf Hcreated. rewrite store_products_run.
  destruct (created || negb (bool_decide (listings_of shop db ≠ []))) eqn:Eb.
  - intros Hrun.
    assert (listings_of shop db = []) as Hnil.
    { destruct created; [by apply Hcreated|]. simpl in Eb.
      apply negb_true_iff, bool_decide_eq_false in Eb.
      destruct (listings_of shop db); [done|]. by destruct Eb. }
    pose proof (create_all_step shop infos db) as Hstep.
    eapply wp_run in Hstep; [|exact Hrun]. destruct Hstep as [(G & U & N) W].
    apply create_all_as_upsert_all in Hrun.
    pose proof (upsert_all_synced shop infos db Hwf) as Hsync.
    eapply wp_run in Hsync; [|exact Hrun].
    split; [done|]. split; [by apply Hsync|].
    intros pk p Hp Hs He.
    destruct (row_at (product_infos db) pk) as [p0|] eqn:E0.
    + destruct (grows_listings _ _ G pk p0 E0) as (q & Hq & Hsame).
      assert (q = p) as -> by congruence.
      unfold listings_of in Hnil. rewrite select_nil in Hnil.
      specialize (Hnil pk p0 E0). apply bool_decide_eq_false in Hnil.
      destruct Hsame as (_ & Hshop & _). congruence.
    + destruct (N pk p Hp E0) as [_ Hin]. done.
  - intros Hrun. set (dbz := zeroed shop (external_ids infos) db) in *.
    pose proof (upsert_all_step shop infos dbz) as Hstep.
    eapply wp_run in Hstep; [|exact Hrun]. destruct Hstep as [(G & U & N) W].
    pose proof (upsert_all_synced shop infos dbz
                  (zeroed_params_wf _ _ _ Hwf)) as Hsync.
    eapply wp_run in Hsync; [|exact Hrun].
    split; [etrans; [apply zeroed_grows|exact G]|].
    split; [by apply Hsync|].
    intros pk p Hp Hs He.
    destruct (row_at (product_infos dbz) pk) as [p0|] eqn:E0.
    + destruct (grows_listings _ _ G pk p0 E0) as (q & Hq & Hsame).
      assert (q = p) as -> by congruence.
      destruct Hsame as (_ & Hshop & _ & Hext).
      assert (row_at (product_infos db') pk = Some p0) as Hp0.
      { apply U; [done|]. intros [_ Hin]. apply He. by rewrite Hext. }
      assert (p0 = p) as -> by congruence.
      subst dbz. rewrite row_at_zeroed in E0.
      destruct (row_at (product_infos db) pk) as [q|]; [|done].
      simpl in E0. destruct (missing_from_run _ _ q) eqn:Em.
      * inversion E0. done.
      * inversion E0; subst q.
        assert (missing_from_run shop (external_ids infos) p = true) as Hm
          by by apply missing_from_run_true.
        congruence.
    + destruct (N pk p Hp E0) as [_ Hin]. done.
Qed.

(** The upsert of a listing that exists: its row takes the quantity and the
    prices of the run, its parameter rows are kept when the old and the new
    parameters agree after the sort by name and are replaced by the new ones
    otherwise, and no other listing is written. *)
Lemma update_or_create_existing info shop db pk row old db' k :
  head (listings_with shop (pd_external_id info) db) = Some (pk, row) →
  brief_of db pk = Some old →
  update_or_create info shop db = (db', Ok k) →
  k = pk
  ∧ row_at (product_infos db') pk = Some (with_run_fields info row)
  ∧ (sort_by_parameter old = sort_by_parameter (pd_product_parameters info) →
     product_parameters db' = product_parameters db)
  ∧ (sort_by_parameter old ≠ sort_by_parameter (pd_product_parameters info) →
     brief_of db' pk = Some (pd_product_parameters info))
  ∧ upsert_step shop (pd_external_id info) db db'.
Proof.
  intros Hhead Hold.
  pose proof Hhead as (Hrow & [Hshop Hext] & _)%head_listings_with.
  unfold update_or_create, bind at 1, query. rewrite Hhead.
  unfold bind at 1. rewrite brief_parameters_run, Hold.
  match goal with |- context [no_fields ?f] => set (fs := f) end.
  assert (apply_fields fs row = with_run_fields info row) as Hfields.
  { unfold apply_fields, with_run_fields. subst fs. simpl.
    by rewrite !changed_default. }
  destruct (no_fields fs) eqn:Eno.
  - intros [= <- <-]. split; [done|].
    unfold no_fields in Eno. subst fs. simpl in Eno.
    destruct (changed (quantity row) _) eqn:E1; [done|].
    destruct (changed (price row) _) eqn:E2; [done|].
    destruct (changed (price_rrc row) _) eqn:E3; [done|].
    case_bool_decide as E4; [done|].
    apply changed_None in E1, E2, E3.
    split; [|split; [done|split; [|apply upsert_step_refl]]].
    + rewrite Hrow. f_equal. unfold with_run_fields. destruct row. simpl in *.
      by subst.
    + intros Hne. destruct E4. done.
  - intros Hrun. pose proof (update_wp pk row fs db Hrow) as Hwp.
    eapply wp_run in Hwp; [|exact Hrun].
    destruct Hwp as (US & _ & Hres).
    destruct (Hres k eq_refl) as (-> & Hrow' & Hb & Hpp).
    rewrite Hshop, Hext in US. split; [done|].
    split; [by rewrite <- Hfields|]. split; [|split; [|done]].
    + intros Heq. apply Hpp. subst fs. simpl.
      by rewrite bool_decide_eq_false_2 by (intros H; by apply H).
    + intros Hne. rewrite (Hb old Hold). subst fs. simpl.
      by rewrite bool_decide_eq_true_2.
Qed.

(** C3, as stated, fails: when a payload lists the same external id twice
    with different parameters, the second of two identical successful runs
    replaces the parameter rows of the listing again. *)
Lemma C3_counterexample :
  let twice := catalog [ball; ball_blue] in
  let run1 := import_products 7 "owner@example.com" twice shop_a in
  let run2 := import_products 7 "owner@example.com" twice run1.1 in
  run1.2 = Ok (ImportOk 0) ∧ run2.2 = Ok (ImportOk 0)
  ∧ product_parameters run1.1
    = [None;
       Some {| pp_product_info := 0; pp_parameter := 0; pp_value := 1 |}]
  ∧ product_parameters run2.1
    = [None; None; None;
       Some {| pp_product_info := 0; pp_parameter := 0; pp_value := 1 |}]
  ∧ run2.1 ≠ run1.1.
Proof. vm_compute. repeat split. intros [=]. Qed.

(** C3, amended.  On a store with referential integrity, the second of two
    runs of the same payload changes no row, provided that the first run
    succeeded and that the goods of the payload have pairwise distinct ids.
    For each listing that exists, an upsert writes the quantity and prices
    of the run into its row, replaces its parameter rows only when the new
    parameters differ from the old ones after the sort by name, leaves every
    other listing alone, and writes nothing at all when the listing already
    carries the data of the run. *)
Theorem C3_second_run (user_id : nat) (user_email : string)
    (json_data : payload) (db db1 : DB) (shop : nat) :
  params_wf db → listings_wf db →
  (∀ goods, p_goods json_data = Some goods → NoDup (map gs_id goods)) →
  import_products user_id user_email json_data db = (db1, Ok (ImportOk shop)) →
  import_products user_id user_email json_data db1 = (db1, Ok (ImportOk shop))
  ∧ (∀ info shop0 db0,
       synced db0 shop0 info →
       ∃ pk, update_or_create info shop0 db0 = (db0, Ok pk))
  ∧ (∀ info shop0 db0 pk row old db' k,
       head (listings_with shop0 (pd_external_id info) db0) = Some (pk, row) →
       brief_of db0 pk = Some old →
       update_or_create info shop0 db0 = (db', Ok k) →
       k = pk
       ∧ row_at (product_infos db') pk = Some (with_run_fields info row)
       ∧ (sort_by_parameter old = sort_by_parameter (pd_product_parameters info) →
          product_parameters db' = product_parameters db0)
       ∧ (sort_by_parameter old ≠ sort_by_parameter (pd_product_parameters info) →
          brief_of db' pk = Some (pd_product_parameters info))
       ∧ upsert_step shop0 (pd_external_id info) db0 db').
Proof.
  intros Hwf Hlwf Hnodup Hrun.
  split; [|split; [apply update_or_create_synced
                  |apply update_or_create_existing]].
  destruct (import_products_ok _ _ _ _ _ _ Hrun)
    as (name & cs & cats & goods & infos & dbs & created
        & Hparse & Hs & Hv & Hst).
  (* the shop of the owner after the first step *)
  assert (∃ s, shops_of_owner user_id dbs = [(shop, s)]
               ∧ params_wf dbs
               ∧ (created = true → listings_of shop dbs = [])) as (s & Ho & Hwfs & Hc).
  { rewrite shop_get_or_create_run in Hs.
    destruct (shops_of_owner user_id db) as [|[pk s] [|? ?]] eqn:Eo.
    - case_bool_decide; [done|]. inversion Hs; subst. eexists.
      split; [by apply shops_of_owner_created|]. split; [done|].
      intros _. apply select_nil. intros pk p Hp. apply bool_decide_eq_false.
      simpl in Hp. apply Hlwf in Hp. lia.
    - inversion Hs; subst. exists s. done.
    - done. }
  assert (NoDup (ids_of infos)) as Hnd.
  { apply (NoDup_fmap (@Some Z)). unfold ids_of.
    change (NoDup (map Some (map pd_external_id infos))).
    rewrite (validation_of_ids _ _ _ _ Hv).
    apply Hnodup. by eapply parse_top_goods. }
  destruct (store_products_ok _ _ _ _ _ Hwfs Hc Hst) as (G & Hsync & Hzero).
  pose proof (last_synced_all _ _ _ Hnd Hsync) as Hall.
  rewrite import_products_run, Hparse, shop_get_or_create_run.
  unfold shops_of_owner. rewrite (grows_shops _ _ G).
  fold (shops_of_owner user_id dbs). rewrite Ho, Hv.
  rewrite store_products_run. simpl.
  case_bool_decide as Hl; simpl.
  - rewrite (zeroed_id _ _ _ Hzero). by rewrite upsert_all_synced_id.
  - destruct infos as [|info infos]; [done|].
    exfalso. assert (listings_of shop db1 = []) as Hnil.
    { destruct (listings_of shop db1); [done|]. by destruct Hl. }
    apply (synced_listing shop info db1); [|done]. apply Hall. left.
Qed.

(* ================================================================== *)
(** ** Global rows are shared, never duplicated *)
(* ================================================================== *)

Lemma for_each_app {A} (l1 l2 : list A) (body : A → M unit) db :
  for_each (l1 ++ l2) body db
  = match for_each l1 body db with
    | (db1, Ok _) => for_each l2 body db1
    | (db1, Raise e) => (db1, Raise e)
    end.
Proof.
  revert db. induction l1 as [|x l1 IH]; intros db; simpl; [done|].
  unfold bind. destruct (body x db) as [db1 [[]|e]]; [apply IH|done].
Qed.

Lemma kept_step_refl shop ext db : kept_step shop ext db db.
Proof.
  split; [done|]. split; [|split; [done|]].
  - intros pk p H. exists p. split; [done|apply same_listing_refl].
  - intros ????. congruence.
Qed.

Lemma kept_step_trans shop ext db1 db2 db3 :
  kept_step shop ext db1 db2 → kept_step shop ext db2 db3 →
  kept_step shop ext db1 db3.
Proof.
  intros ((Pa&Pb&Pc&Pd&Pe) & L12 & K12 & N12)
         ((Qa&Qb&Qc&Qd&Qe) & L23 & K23 & N23).
  split; [repeat split; by etrans|]. split; [|split].
  - intros pk p Hrow. destruct (L12 pk p Hrow) as (p' & H' & S').
    destruct (L23 pk p' H') as (p'' & H'' & S'').
    exists p''. split; [done|]. by eapply same_listing_trans.
  - intros pk p Hrow Hk. destruct (K12 pk p Hrow Hk) as [H2 E2].
    destruct (K23 pk p H2 Hk) as [H3 E3]. split; [done|congruence].
  - intros pk p' H3 H1 Hk.
    destruct (row_at (product_infos db2) pk) as [p2|] eqn:E2.
    + destruct (L23 pk p2 E2) as (q & Hq & Hs).
      assert (q = p') as -> by congruence.
      apply (N12 pk p2 E2 H1). by eapply key_same_listing_inv.
    + by apply (N23 pk p' H3 E2).
Qed.

Lemma upsert_step_kept shop ext shop' ext' db db' :
  upsert_step shop' ext' db db' → (shop, ext) ≠ (shop', ext') →
  kept_step shop ext db db'.
Proof.
  intros [G [U N]] Hne.
  assert (∀ p, listing_key shop ext p → ¬ listing_key shop' ext' p) as Hoff.
  { intros p [? ?] [? ?]. apply Hne. congruence. }
  split; [repeat split; apply G|]. split; [apply G|]. split.
  - intros pk p H Hk. apply U; [done|]. by apply Hoff.
  - intros pk p' H' H Hk. destruct (N pk p' H' H) as [Hk' _].
    by apply (Hoff p').
Qed.

Lemma zeroed_kept shop ext shop' ids db :
  shop ≠ shop' ∨ ext ∈ ids →
  kept_step shop ext db (zeroed shop' ids db).
Proof.
  intros Hoff.
  pose proof (zeroed_grows shop' ids db) as G.
  split; [repeat split; apply G|]. split; [apply G|]. split.
  - intros pk p H [Hs He]. rewrite row_at_zeroed, H. simpl.
    unfold missing_from_run. rewrite bool_decide_eq_false_2; [done|].
    intros [Hs' He']. destruct Hoff as [Hn|Hin]; [congruence|].
    by rewrite He in He'.
  - intros pk p'. rewrite row_at_zeroed. intros H' H. by rewrite H in H'.
Qed.

Lemma kept_listings_nil shop ext db db' :
  kept_step shop ext db db' →
  listings_with shop ext db = [] → listings_with shop ext db' = [].
Proof.
  intros (_ & L & _ & N). rewrite !listings_with_nil. intros Hnil pk p' H' Hk.
  destruct (row_at (product_infos db) pk) as [p0|] eqn:E0.
  - destruct (L pk p0 E0) as (q & Hq & Hs).
    assert (q = p') as -> by congruence.
    apply (Hnil pk p0 E0). by eapply key_same_listing_inv.
  - by apply (N pk p' H' E0).
Qed.

Lemma kept_head shop ext db db' pk p :
  kept_step shop ext db db' →
  head (listings_with shop ext db) = Some (pk, p) →
  head (listings_with shop ext db') = Some (pk, p)
  ∧ parameters_of pk db' = parameters_of pk db.
Proof.
  intros (_ & L & K & N). rewrite !head_listings_with.
  intros (Hr & Hk & Hmin). destruct (K pk p Hr Hk) as [Hr' Hps].
  split; [|done]. split; [done|]. split; [done|].
  intros pk' p' Hlt Hr2 Hk2.
  destruct (row_at (product_infos db) pk') as [p0|] eqn:E0.
  - destruct (L pk' p0 E0) as (q & Hq & Hs).
    assert (q = p') as -> by congruence.
    apply (Hmin pk' p0 Hlt E0). by eapply key_same_listing_inv.
  - by apply (N pk' p' Hr2 E0).
Qed.

Lemma shares_rows_kept shop info db db' :
  kept_step shop (pd_external_id info) db db' →
  shares_rows db shop info → shares_rows db' shop info.
Proof.
  intros K (pk & row & sc & old & Hh & Hp & Hsc & Hc & Hb & Hsort).
  destruct (kept_head _ _ _ _ _ _ K Hh) as [Hh' Hps].
  destruct K as ((Pc & Psc & Pp & Ppa & Pv) & _).
  exists pk, row, sc, old. split; [done|].
  split; [by eapply row_at_prefix|]. split; [by eapply row_at_prefix|].
  split; [by eapply row_at_prefix|]. split; [|done].
  by eapply brief_of_stable.
Qed.

Lemma upsert_all_kept shop ext shop' infos db :
  (∀ x, x ∈ infos → (shop, ext) ≠ (shop', pd_external_id x)) →
  wp (upsert_all shop' infos) (λ db' _, kept_step shop ext db db') db.
Proof.
  intros Hoff. unfold upsert_all.
  apply (wp_for_each (λ db0, kept_step shop ext db db0)).
  { apply kept_step_refl. }
  intros x db0 Hx K. apply wp_bind.
  eapply wp_mono; [apply update_or_create_wp|].
  intros db1 r (US & _).
  assert (kept_step shop ext db db1) as K1.
  { eapply kept_step_trans; [exact K|].
    eapply upsert_step_kept; [exact US|by apply Hoff]. }
  destruct r; [by apply wp_ret|done].
Qed.

Lemma create_all_kept shop ext shop' infos db :
  (∀ x, x ∈ infos → (shop, ext) ≠ (shop', pd_external_id x)) →
  wp (create_all shop' infos) (λ db' _, kept_step shop ext db db') db.
Proof.
  intros Hoff. unfold create_all.
  apply (wp_for_each (λ db0, kept_step shop ext db db0)).
  { apply kept_step_refl. }
  intros x db0 Hx K. apply wp_bind.
  eapply wp_mono; [apply create_wp|].
  intros db1 r (US & _).
  assert (kept_step shop ext db db1) as K1.
  { eapply kept_step_trans; [exact K|].
    eapply upsert_step_kept; [exact US|by apply Hoff]. }
  destruct r; [by apply wp_ret|done].
Qed.

(** The upsert that creates the listing of [info]. *)
Lemma update_or_create_shares info shop db db' pk :
  params_wf db → listings_with shop (pd_external_id info) db = [] →
  update_or_create info shop db = (db', Ok pk) →
  shares_rows db' shop info.
Proof.
  intros Hwf Hnil Hrun.
  unfold update_or_create, bind at 1, query in Hrun. rewrite Hnil in Hrun.
  simpl in Hrun. pose proof (create_wp info shop db) as Hwp.
  eapply wp_run in Hwp; [|exact Hrun]. destruct Hwp as (US & _ & Hres).
  destruct (Hres pk eq_refl) as (_ & -> & Hc & Hb).
  destruct Hc as (row & sc & Hr & Hk & _ & _ & _ & Hp & Hsc & _ & Hcat).
  exists (length (product_infos db)), row, sc, (pd_product_parameters info).
  split; [by eapply head_listings_created|]. repeat (split; [done|]).
  split; [by apply Hb|done].
Qed.

Lemma store_products_shares shop created infos l1 info l2 db db' :
  params_wf db →
  infos = l1 ++ info :: l2 →
  pd_external_id info ∉ ids_of l1 → pd_external_id info ∉ ids_of l2 →
  listings_with shop (pd_external_id info) db = [] →
  store_products shop created infos db = (db', Ok tt) →
  shares_rows db' shop info.
Proof.
  intros Hwf -> Hn1 Hn2 Hnil. rewrite store_products_run.
  set (infos := l1 ++ info :: l2).
  assert ((∃ db0, params_wf db0
                  ∧ listings_with shop (pd_external_id info) db0 = []
                  ∧ (upsert_all shop infos db0 = (db', Ok tt)
                     ∨ create_all shop infos db0 = (db', Ok tt))) →
          shares_rows db' shop info) as Hmain.
  { intros (db0 & Hwf0 & Hnil0 & Hrun).
    assert (upsert_all shop infos db0 = (db', Ok tt)) as Hups
      by (destruct Hrun; [done|by apply create_all_as_upsert_all]).
    clear Hrun. unfold upsert_all in Hups. subst infos.
    rewrite for_each_app in Hups.
    match type of Hups with context [for_each l1 ?b db0] =>
      change (for_each l1 b db0) with (upsert_all shop l1 db0) in Hups end.
    pose proof (upsert_all_kept shop (pd_external_id info) shop l1 db0) as K1.
    pose proof (upsert_all_step shop l1 db0) as [_ W1].
    destruct (upsert_all shop l1 db0) as [dba [[]|e]] eqn:E1; [|done].
    unfold wp in K1. rewrite E1 in K1. simpl in K1, W1.
    assert (kept_step shop (pd_external_id info) db0 dba) as Ka.
    { apply K1. intros x Hx [= Heq]. apply Hn1. rewrite Heq.
      unfold ids_of. apply list_elem_of_fmap. by exists x. }
    simpl in Hups. unfold bind at 1 2 in Hups.
    destruct (update_or_create info shop dba) as [dbb [pk|e]] eqn:E2; [|done].
    simpl in Hups.
    match type of Hups with context [for_each l2 ?b dbb] =>
      change (for_each l2 b dbb) with (upsert_all shop l2 dbb) in Hups end.
    pose proof (upsert_all_kept shop (pd_external_id info) shop l2 dbb) as K2.
    unfold wp in K2. rewrite Hups in K2. simpl in K2.
    eapply shares_rows_kept.
    - apply K2. intros x Hx [= Heq]. apply Hn2. rewrite Heq.
      unfold ids_of. apply list_elem_of_fmap. by exists x.
    - eapply update_or_create_shares; [by apply W1| |exact E2].
      by eapply kept_listings_nil. }
  destruct (created || negb (bool_decide (listings_of shop db ≠ []))).
  - intros Hrun. apply Hmain. exists db. auto.
  - intros Hrun. apply Hmain.
    exists (zeroed shop (external_ids infos) db).
    split; [by apply zeroed_params_wf|]. split; [|by left].
    eapply kept_listings_nil; [|exact Hnil]. apply zeroed_kept. right.
    apply elem_of_external_ids. subst infos. unfold ids_of.
    rewrite map_app. apply elem_of_app. right. left.
Qed.

Lemma shop_step_same owner name email shipping db db1 r :
  shop_get_or_create owner name email shipping db = (db1, r) →
  db1 = db ∨ ∃ s, db1 = set_shops (shops db ++ [Some s]) db.
Proof.
  rewrite shop_get_or_create_run.
  destruct (shops_of_owner owner db) as [|[pk s] [|? ?]].
  - case_bool_decide; intros [= <- _]; [by left|right; by eexists].
  - intros [= <- _]. by left.
  - intros [= <- _]. by left.
Qed.

(** The run of another shop keeps the listings of [shop]. *)
Lemma import_products_kept shop ext user_id user_email json_data db db' shop' :
  import_products user_id user_email json_data db = (db', Ok (ImportOk shop')) →
  shop ≠ shop' → kept_step shop ext db db'.
Proof.
  intros Hrun Hne.
  destruct (import_products_ok _ _ _ _ _ _ Hrun)
    as (name & cs & cats & goods & infos & db1 & created
        & Hparse & Hs & Hv & Hst).
  assert (kept_step shop ext db db1) as K1.
  { destruct (shop_step_same _ _ _ _ _ _ _ Hs) as [->|[s ->]];
      exact (kept_step_refl shop ext db). }
  eapply kept_step_trans; [exact K1|].
  rewrite store_products_run in Hst.
  assert (∀ x, x ∈ infos → (shop, ext) ≠ (shop', pd_external_id x)) as Hoff
    by (intros x _ [= ? _]; done).
  destruct (created || negb (bool_decide (listings_of shop' db1 ≠ []))).
  - pose proof (create_all_kept shop ext shop' infos db1 Hoff) as K.
    eapply wp_run in K; [|exact Hst]. done.
  - eapply kept_step_trans; [apply zeroed_kept; by left|].
    pose proof (upsert_all_kept shop ext shop' infos
                  (zeroed shop' (external_ids infos) db1) Hoff) as K.
    eapply wp_run in K; [|exact Hst]. done.
Qed.

Lemma import_products_pools_unique user_id user_email json_data db :
  pools_unique db →
  pools_unique (import_products user_id user_email json_data db).1.
Proof.
  intros Hu. rewrite import_products_run.
  destruct (parse_top json_data) as [key|[[[name cs] cats] goods]]; [done|].
  destruct (shop_get_or_create _ _ _ _ db) as [db1 r] eqn:Es.
  assert (pools_unique db1) as Hu1
    by (destruct (shop_step_same _ _ _ _ _ _ _ Es) as [->|[s ->]]; done).
  destruct r as [[shop created]|e]; [|by destruct e].
  destruct (validation_of cs cats goods) as [err|infos]; [done|].
  pose proof (store_products_step shop created infos db1) as [G _].
  destruct (store_products shop created infos db1) as [db2 [[]|e]];
    simpl in *; by apply (grows_pools_unique _ _ G).
Qed.

Lemma import_products_params_wf user_id user_email json_data db :
  params_wf db →
  params_wf (import_products user_id user_email json_data db).1.
Proof.
  intros Hu. rewrite import_products_run.
  destruct (parse_top json_data) as [key|[[[name cs] cats] goods]]; [done|].
  destruct (shop_get_or_create _ _ _ _ db) as [db1 r] eqn:Es.
  assert (params_wf db1) as Hu1
    by (destruct (shop_step_same _ _ _ _ _ _ _ Es) as [->|[s ->]]; done).
  destruct r as [[shop created]|e]; [|by destruct e].
  destruct (validation_of cs cats goods) as [err|infos]; [done|].
  pose proof (store_products_step shop created infos db1) as [_ W].
  destruct (store_products shop created infos db1) as [db2 [[]|e]];
    simpl in *; by apply W.
Qed.

Lemma import_products_shares user_id user_email json_data db db' shop info :
  params_wf db →
  import_products user_id user_email json_data db = (db', Ok (ImportOk shop)) →
  creates json_data shop db info →
  shares_rows db' shop info.
Proof.
  intros Hwf Hrun (name & cs & cats & goods & l1 & l2
                   & Hparse & Hv & Hn1 & Hn2 & Hnil).
  destruct (import_products_ok _ _ _ _ _ _ Hrun)
    as (name' & cs' & cats' & goods' & infos & db1 & created
        & Hparse' & Hs & Hv' & Hst).
  rewrite Hparse in Hparse'. inversion Hparse'; subst. clear Hparse'.
  rewrite Hv in Hv'. inversion Hv'; subst. clear Hv'.
  eapply (store_products_shares shop created _ l1 info l2 db1);
    try done.
  - destruct (shop_step_same _ _ _ _ _ _ _ Hs) as [->|[s ->]]; done.
  - destruct (shop_step_same _ _ _ _ _ _ _ Hs) as [->|[s ->]]; done.
Qed.

(** *** One row per name, referenced by both listings *)

Lemma insert_by_parameter_elem x y l :
  y ∈ insert_by_parameter x l ↔ y = x ∨ y ∈ l.
Proof.
  induction l as [|z l IH]; simpl.
  - rewrite list_elem_of_singleton. split; [by left|]. intros [?|?%elem_of_nil]; done.
  - destruct (String.leb x.1 z.1).
    + by rewrite elem_of_cons.
    + rewrite !elem_of_cons, IH. tauto.
Qed.

Lemma sort_by_parameter_elem y l : y ∈ sort_by_parameter l ↔ y ∈ l.
Proof.
  induction l as [|x l IH]; simpl; [done|].
  rewrite insert_by_parameter_elem, elem_of_cons, IH. done.
Qed.

Lemma brief_member db pk old n v :
  brief_of db pk = Some old → (n, v) ∈ old →
  ∃ i pp, (i, pp) ∈ parameters_of pk db
          ∧ row_at (parameters db) (pp_parameter pp) = Some n
          ∧ row_at (values db) (pp_value pp) = Some v.
Proof.
  unfold brief_of. rewrite mapM_Some. intros HF Hin.
  apply list_elem_of_lookup in Hin as [j Hj].
  destruct (Forall2_lookup_r _ _ _ _ _ HF Hj) as ([i pp] & Hrow & Hrepr).
  exists i, pp. split; [by eapply list_elem_of_lookup_2|].
  unfold parameter_repr in Hrepr. simpl in Hrepr.
  destruct (row_at (parameters db) _); [|done].
  destruct (row_at (values db) _); [|done]. by inversion Hrepr.
Qed.

Lemma shares_member db shop info n v :
  shares_rows db shop info → (n, v) ∈ pd_product_parameters info →
  ∀ pk row, head (listings_with shop (pd_external_id info) db) = Some (pk, row) →
  ∃ k w, row_at (parameters db) k = Some n ∧ row_at (values db) w = Some v
         ∧ listing_parameter db pk k w.
Proof.
  intros (pk0 & row0 & sc & old & Hh & _ & _ & _ & Hb & Hsort) Hin pk row Hh'.
  assert (pk0 = pk) as -> by congruence.
  assert ((n, v) ∈ old) as Hold.
  { apply sort_by_parameter_elem. rewrite Hsort.
    by apply sort_by_parameter_elem. }
  destruct (brief_member _ _ _ _ _ Hb Hold) as (i & pp & Hrow & Hn & Hv).
  exists (pp_parameter pp), (pp_value pp). split; [done|]. split; [done|].
  by exists i, pp.
Qed.

Lemma shares_both db shop1 info1 shop2 info2 :
  pools_unique db →
  shares_rows db shop1 info1 → shares_rows db shop2 info2 →
  both_share db shop1 info1 shop2 info2.
Proof.
  intros (Uc & Up & Upa & Uv) S1 S2.
  pose proof S1 as (pk1 & row1 & sc1 & old1 & Hh1 & Hp1 & Hsc1 & Hc1 & _).
  pose proof S2 as (pk2 & row2 & sc2 & old2 & Hh2 & Hp2 & Hsc2 & Hc2 & _).
  exists pk1, row1, sc1, pk2, row2, sc2. do 4 (split; [done|]).
  split; [|split; [|split]].
  - intros Heq. rewrite <- Heq in Hp2. split; [split; [done|]|].
    + intros k' Hk'. by eapply Up.
    + by eapply Up.
  - intros Heq. rewrite <- Heq in Hc2. split; [split; [done|]|].
    + intros k' Hk'. by eapply Uc.
    + by eapply Uc.
  - intros n v1 v2 Hin1 Hin2.
    destruct (shares_member _ _ _ _ _ S1 Hin1 pk1 row1 Hh1)
      as (k1 & w1 & Hk1 & _ & L1).
    destruct (shares_member _ _ _ _ _ S2 Hin2 pk2 row2 Hh2)
      as (k2 & w2 & Hk2 & _ & L2).
    assert (k2 = k1) as -> by by eapply Upa.
    exists k1, w1, w2. split; [split; [done|]|done].
    intros k' Hk'. by eapply Upa.
  - intros n1 n2 v Hin1 Hin2.
    destruct (shares_member _ _ _ _ _ S1 Hin1 pk1 row1 Hh1)
      as (k1 & w1 & _ & Hw1 & L1).
    destruct (shares_member _ _ _ _ _ S2 Hin2 pk2 row2 Hh2)
      as (k2 & w2 & _ & Hw2 & L2).
    assert (w2 = w1) as -> by by eapply Uv.
    exists w1, k1, k2. split; [split; [done|]|done].
    intros k' Hk'. by eapply Uv.
Qed.

(** C8, as stated, fails: when two shops that list external id 10 as "Ball"
    both import a catalog that names it "Bat", both runs succeed, no Product
    row named "Bat" exists afterwards, and both listings keep referencing
    the row "Ball". *)
Lemma C8_counterexample :
  let run1 := import_products 7 "owner@example.com" (catalog [bat]) shops_a_b in
  let run2 := import_products 8 "other@example.com" (catalog_b [bat]) run1.1 in
  run1.2 = Ok (ImportOk 0) ∧ run2.2 = Ok (ImportOk 1)
  ∧ products run2.1 = [Some "Ball"]
  ∧ select (λ _ n, bool_decide (n = "Bat")) (products run2.1) = []
  ∧ map (λ l, pi_product l.2) (select (λ _ _, true) (product_infos run2.1))
    = [0%nat; 0%nat].
Proof. vm_compute. done. Qed.

(** C8, amended.  No run duplicates a global row: a store whose pools hold
    each name at most once is left so by every run, whatever its outcome.
    When two different shops each import a catalog that creates a listing
    (a good under an external id new to the shop, listed once in the run),
    then for every product name, category name, parameter name and
    parameter value that the two goods have in common the pool holds
    exactly one row, and both listings reference it.  (A listing that
    exists keeps its product and its category when it is imported again.) *)
Theorem C8_shared_rows (db db1 db2 : DB) (u1 u2 : nat) (e1 e2 : string)
    (j1 j2 : payload) (shop1 shop2 : nat) (info1 info2 : product_data) :
  pools_unique db → params_wf db →
  import_products u1 e1 j1 db = (db1, Ok (ImportOk shop1)) →
  import_products u2 e2 j2 db1 = (db2, Ok (ImportOk shop2)) →
  shop1 ≠ shop2 →
  creates j1 shop1 db info1 → creates j2 shop2 db1 info2 →
  (∀ u e j d, pools_unique d → pools_unique (import_products u e j d).1)
  ∧ pools_unique db2
  ∧ both_share db2 shop1 info1 shop2 info2.
Proof.
  intros Hu Hwf Hrun1 Hrun2 Hne Hc1 Hc2.
  split; [intros; by apply import_products_pools_unique|].
  assert (pools_unique db1) as Hu1.
  { pose proof (import_products_pools_unique u1 e1 j1 db Hu) as H.
    by rewrite Hrun1 in H. }
  assert (pools_unique db2) as Hu2.
  { pose proof (import_products_pools_unique u2 e2 j2 db1 Hu1) as H.
    by rewrite Hrun2 in H. }
  assert (params_wf db1) as Hwf1.
  { pose proof (import_products_params_wf u1 e1 j1 db Hwf) as H.
    by rewrite Hrun1 in H. }
  split; [done|]. apply shares_both; [done| |].
  - eapply shares_rows_kept.
    + exact (import_products_kept shop1 (pd_external_id info1) u2 e2 j2
               db1 db2 shop2 Hrun2 Hne).
    + exact (import_products_shares u1 e1 j1 db db1 shop1 info1
               Hwf Hrun1 Hc1).
  - exact (import_products_shares u2 e2 j2 db1 db2 shop2 info2
             Hwf1 Hrun2 Hc2).
Qed.

(* ================================================================== *)
(** ** The scenario of the specification, as instances of the theorems *)
(* ================================================================== *)

Lemma params_wf_check db :
  forallb (λ o, match o with
                | Some pp => (pp_product_info pp <? length (product_infos db))%nat
                | None => true
                end) (product_parameters db) = true →
  params_wf db.
Proof.
  intros H k pp Hk. apply row_at_Some in Hk.
  rewrite forallb_forall in H.
  specialize (H (Some pp)). simpl in H. apply Nat.ltb_lt, H.
  apply list_elem_of_In. by eapply list_elem_of_lookup_2.
Qed.

Lemma listings_wf_check db :
  forallb (λ o, match o with
                | Some p => (pi_shop p <? length (shops db))%nat
                | None => true
                end) (product_infos db) = true →
  listings_wf db.
Proof.
  intros H k p Hk. apply row_at_Some in Hk.
  rewrite forallb_forall in H.
  specialize (H (Some p)). simpl in H. apply Nat.ltb_lt, H.
  apply list_elem_of_In. by eapply list_elem_of_lookup_2.
Qed.

Lemma pools_unique_empty : pools_unique empty_db.
Proof. repeat split; intros pk pk' n H; done. Qed.

Lemma C10_shop_defaults_witness :
  ∃ s, shops (import_products 7 "owner@example.com" (catalog [ball]) empty_db).1
       = shops empty_db ++ [Some s]
       ∧ shop_email s = "owner@example.com" ∧ base_shipping_price s = 300.
Proof.
  destruct (C10_shop_defaults 7 "owner@example.com" (catalog [ball]) empty_db)
    as [Hfirst _].
  destruct (Hfirst "A" [toys]
              (<[1 := {| cd_name := "Toys"; cd_external_id := 1 |}]> ∅) [ball]
              eq_refl eq_refl eq_refl)
    as (s & Hs & _ & _ & He & _ & Hp & _).
  exists s. split; [exact Hs|]. split; [exact (He eq_refl)|exact (Hp eq_refl)].
Defined.

Lemma C4_reimport_witness :
  let run :=
    import_products 7 "owner@example.com" (catalog [ball_restocked])
                    shop_a_two in
  run.2 = Ok (ImportOk 0)
  ∧ (∃ p p', row_at (product_infos shop_a_two) 1 = Some p
             ∧ quantity p = 3
             ∧ row_at (product_infos run.1) 1 = Some p'
             ∧ quantity p' = 0 ∧ same_listing p p'
             ∧ price p' = price p ∧ price_rrc p' = price_rrc p)
  ∧ last_synced 0 [ball_restocked_data] run.1.
Proof.
  intros run.
  assert (run.2 = Ok (ImportOk 0)) as Hok by (vm_compute; reflexivity).
  destruct (C4_reimport 7 "owner@example.com" (catalog [ball_restocked])
              shop_a_two run.1 0 shop_a_row run.2)
    as (_ & Hrun & _).
  - apply params_wf_check. vm_compute. reflexivity.
  - vm_compute. reflexivity.
  - vm_compute. discriminate.
  - by destruct (import_products _ _ _ _).
  - destruct (Hrun "A" [toys]
                (<[1 := {| cd_name := "Toys"; cd_external_id := 1 |}]> ∅)
                [ball_restocked] [ball_restocked_data])
      as (_ & Hzero & Hsync); [vm_compute; reflexivity..|].
    split; [exact Hok|]. split; [|exact (Hsync Hok)].
    destruct (Hzero 1%nat
                {| pi_product := 1; pi_shop := 0; pi_category := 0;
                   external_id := 11; quantity := 3; price := 70;
                   price_rrc := 90 |})
      as (p' & Hp' & Hq); [vm_compute; reflexivity|reflexivity|..].
    + intros [[=]|[]%elem_of_nil]%elem_of_cons.
    + eexists _, p'. split; [vm_compute; reflexivity|]. split; [done|].
      split; [exact Hp'|exact Hq].
Defined.

Lemma C3_second_run_witness :
  import_products 7 "owner@example.com" (catalog [ball]) shop_a
  = (shop_a, Ok (ImportOk 0)).
Proof.
  apply (C3_second_run 7 "owner@example.com" (catalog [ball]) empty_db shop_a 0).
  - apply params_wf_check. reflexivity.
  - apply listings_wf_check. reflexivity.
  - intros goods [= <-]. simpl. apply NoDup_singleton.
  - vm_compute. reflexivity.
Defined.

Lemma creates_ball_a : creates (catalog [ball]) 0 empty_db ball_data.
Proof.
  exists "A", [toys],
    (<[1 := {| cd_name := "Toys"; cd_external_id := 1 |}]> ∅), [ball], [], [].
  split; [reflexivity|]. split; [vm_compute; reflexivity|].
  split; [apply not_elem_of_nil|]. split; [apply not_elem_of_nil|].
  reflexivity.
Qed.

Lemma creates_ball_b : creates (catalog_b [ball]) 1 shop_a ball_data.
Proof.
  exists "B", [toys],
    (<[1 := {| cd_name := "Toys"; cd_external_id := 1 |}]> ∅), [ball], [], [].
  split; [reflexivity|]. split; [vm_compute; reflexivity|].
  split; [apply not_elem_of_nil|]. split; [apply not_elem_of_nil|].
  vm_compute. reflexivity.
Qed.

Lemma C8_shared_rows_witness :
  pools_unique shops_a_b ∧ both_share shops_a_b 0 ball_data 1 ball_data.
Proof.
  apply (C8_shared_rows empty_db shop_a shops_a_b 7 8
           "owner@example.com" "other@example.com"
           (catalog [ball]) (catalog_b [ball]) 0 1 ball_data ball_data).
  - apply pools_unique_empty.
  - apply params_wf_check. reflexivity.
  - vm_compute. reflexivity.
  - vm_compute. reflexivity.
  - discriminate.
  - apply creates_ball_a.
  - apply creates_ball_b.
Defined.

End Catalog.

Section Basket.
Import BasketView.

(* ================================================================== *)
(** ** The basket of a buyer *)
(* ================================================================== *)

Lemma ordered_items_dict_lookup data pk q :
  ordered_items_dict data !! pk = Some q → (pk, q) ∈ data.
Proof.
  unfold ordered_items_dict.
  cut (∀ (m : gmap nat Z),
         foldl (λ m item, <[item.1 := item.2]> m) m data !! pk = Some q →
         m !! pk = Some q ∨ (pk, q) ∈ data).
  { intros H Hl. destruct (H ∅ Hl) as [Hm|?]; [|done].
    by rewrite lookup_empty in Hm. }
  induction data as [|[k v] data IH]; intros m; simpl; [by left|].
  intros H. destruct (IH _ H) as [Hm|Hin]; [|right; by right].
  destruct (decide (k = pk)) as [->|Hne].
  - rewrite lookup_insert_eq in Hm. inversion Hm; subst. right. left.
  - rewrite lookup_insert_ne in Hm by done. by left.
Qed.

Lemma ensure_basket_new user db :
  basket_object user db = None →
  ensure_basket user db
  = (with_new_basket user db, Ok (length (buyer_orders db))).
Proof. intros H. unfold ensure_basket, bind, query. by rewrite H. Qed.

Lemma basket_object_new user db :
  basket_object user db = None →
  basket_object user (with_new_basket user db)
  = Some (length (buyer_orders db), new_basket user).
Proof.
  unfold basket_object, basket_queryset. simpl. intros H.
  rewrite select_insert. simpl.
  destruct (select _ (buyer_orders db)); [|done]. simpl.
  by rewrite bool_decide_eq_true_2.
Qed.

Lemma validate_item_ok db item :
  (∃ p, row_at (product_infos db) item.1 = Some p) → 1 ≤ item.2 →
  validate_item db item = inl item.
Proof.
  intros [p Hp] Hq. unfold validate_item, IntegerField. rewrite Hp. simpl.
  destruct (item.2 <? 1) eqn:E; [apply Z.ltb_lt in E; lia|done].
Qed.

Lemma validate_item_missing db item :
  row_at (product_infos db) item.1 = None →
  ∃ d, validate_item db item = inr d.
Proof.
  intros Hp. unfold validate_item. rewrite Hp. simpl.
  destruct (IntegerField (Some 1) item.2); simpl; by eexists.
Qed.

Lemma validate_items_ok data db :
  (∀ item, item ∈ data →
     (∃ p, row_at (product_infos db) item.1 = Some p) ∧ 1 ≤ item.2) →
  validate_items data db = (db, Ok data).
Proof.
  intros H. unfold validate_items.
  rewrite (proj2 (forallb_forall _ _)); [done|].
  intros r Hr. apply in_map_iff in Hr as (item & <- & Hin).
  apply list_elem_of_In in Hin. destruct (H item Hin) as [Hp Hq].
  by rewrite validate_item_ok.
Qed.

Lemma validate_items_missing data db item :
  item ∈ data → row_at (product_infos db) item.1 = None →
  ∃ d, validate_items data db = (db, Raise (ValidationError d)).
Proof.
  intros Hin Hp. unfold validate_items.
  destruct (forallb _ _) eqn:E; [|by eexists].
  rewrite forallb_forall in E.
  destruct (validate_item_missing db item Hp) as [d Hd].
  specialize (E (validate_item db item)). rewrite Hd in E.
  discriminate E. apply in_map_iff. exists item. split; [done|].
  by apply list_elem_of_In.
Qed.

Lemma flat_map_nil {A B} (f : A → list B) (l : list A) :
  (∀ x, x ∈ l → f x = []) → flat_map f l = [].
Proof.
  induction l as [|x l IH]; intros H; simpl; [done|].
  rewrite (H x) by left. simpl. apply IH. intros y Hy. apply H. by right.
Qed.

Lemma no_open_shops keys db :
  (∀ pk, is_Some (keys !! pk) → closed_listing db pk) →
  shops_with_ordered_products keys db = [].
Proof.
  intros Hclosed. unfold shops_with_ordered_products.
  apply flat_map_nil. intros [sk s] Hin.
  apply elem_of_select in Hin as [Hs Hopen]. simpl.
  assert (requested_listings keys sk db = []) as ->; [|done].
  apply select_nil. intros pk p Hp. apply bool_decide_eq_false.
  intros [Hshop Hkey]. destruct (Hclosed pk Hkey) as (p' & Hp' & Hc).
  assert (p' = p) as -> by congruence.
  rewrite Hshop in Hc. specialize (Hc s Hs). congruence.
Qed.

Lemma basket_step_refl db : basket_step db db.
Proof. by repeat split. Qed.

Lemma basket_step_trans db1 db2 db3 :
  basket_step db1 db2 → basket_step db2 db3 → basket_step db1 db3.
Proof.
  intros (?&?&?&?&?&?&?&?&?&?) (?&?&?&?&?&?&?&?&?&?).
  repeat split; congruence.
Qed.

Lemma seller_order_get_or_create_step basket shop shipping db :
  wp (seller_order_get_or_create basket shop shipping)
     (λ db' _, basket_step db db'
               ∧ seller_order_items db' = seller_order_items db) db.
Proof.
  unfold wp, seller_order_get_or_create.
  destruct (select _ (seller_orders db)) as [|[pk o] [|? ?]]; simpl;
    split; by repeat split.
Qed.

Lemma item_update_or_create_step order pk q p prrc db :
  wp (item_update_or_create order pk q p prrc)
     (λ db' _, basket_step db db' ∧ seller_orders db' = seller_orders db) db.
Proof.
  unfold wp, item_update_or_create.
  destruct (select _ (seller_order_items db)) as [|[i r] [|? ?]]; simpl;
    split; by repeat split.
Qed.

Lemma fill_seller_order_step basket keys entry db :
  wp (fill_seller_order basket keys entry) (λ db' _, basket_step db db') db.
Proof.
  destruct entry as [[sk s] listings]. unfold fill_seller_order.
  apply wp_bind. eapply wp_mono; [apply seller_order_get_or_create_step|].
  intros db1 [order|e] [S1 _]; [|done].
  apply (wp_for_each (λ db0, basket_step db db0)); [done|].
  intros [pk p] db0 _ S0. simpl.
  destruct (keys !! pk) as [q|]; [|by apply wp_raise].
  eapply wp_mono; [apply item_update_or_create_step|].
  intros db2 r [S2 _]. by eapply basket_step_trans.
Qed.

Lemma fill_basket_step basket keys shops db :
  wp (for_each shops (fill_seller_order basket keys))
     (λ db' _, basket_step db db') db.
Proof.
  apply (wp_for_each (λ db0, basket_step db db0)); [apply basket_step_refl|].
  intros entry db0 _ S0.
  eapply wp_mono; [apply fill_seller_order_step|].
  intros db1 r S1. by eapply basket_step_trans.
Qed.

(** C9, as stated, fails for a listing that does not exist: the request is
    rejected by the validation of its items, so no basket is returned, while
    the basket row written before the validation stays in the store. *)
Lemma C9_counterexample :
  ∃ d, post 3 closed_request empty_db
       = (with_new_basket 3 empty_db, Raise (ValidationError d))
       ∧ buyer_orders (with_new_basket 3 empty_db) = [Some (new_basket 3)].
Proof. eexists. vm_compute. split; reflexivity. Qed.

(** C9, amended.  For a buyer without a basket, [post] writes the basket row
    before it validates the request and before it filters the listings,
    whatever the request.  When every requested listing belongs to a shop
    that is not open, the answer is the persisted empty basket, with no
    seller order.  When a requested listing does not exist, the request is
    rejected with a validation error and the empty basket stays persisted. *)
Theorem C9_basket_before_filter (user : nat) (request_data : list (nat * Z))
    (db : DB) :
  basket_object user db = None →
  buyer_orders (post user request_data db).1
  = buyer_orders db ++ [Some (new_basket user)]
  ∧ (orders_wf db →
     (∀ item, item ∈ request_data →
              closed_listing db item.1 ∧ 1 ≤ item.2) →
     post user request_data db
     = (with_new_basket user db,
        Ok {| status_code := HTTP_201_CREATED;
              data := Tree (empty_basket_view db) |}))
  ∧ ((∃ item, item ∈ request_data
              ∧ row_at (product_infos db) item.1 = None) →
     ∃ d, post user request_data db
          = (with_new_basket user db, Raise (ValidationError d))).
Proof.
  intros Hnone. unfold post. unfold bind at 1.
  rewrite (ensure_basket_new _ _ Hnone).
  set (db1 := with_new_basket user db). split; [|split].
  - unfold bind at 1.
    destruct (validate_items request_data db1) as [db2 [vd|e]] eqn:Ev.
    + assert (db2 = db1) as ->.
      { unfold validate_items in Ev. by destruct (forallb _ _); inversion Ev. }
      unfold bind at 1, query. unfold bind at 1.
      pose proof (fill_basket_step (length (buyer_orders db))
                    (ordered_items_dict vd)
                    (shops_with_ordered_products (ordered_items_dict vd) db1)
                    db1) as Hstep.
      unfold wp in Hstep.
      destruct (for_each _ _ db1) as [db3 [[]|e]]; simpl in *.
      * destruct Hstep as (_ & _ & Hbo & _).
        unfold bind. simpl.
        destruct (basket_object user db3); simpl; by rewrite Hbo.
      * by destruct Hstep as (_ & _ & -> & _).
    + assert (db2 = db1) as ->.
      { unfold validate_items in Ev. by destruct (forallb _ _); inversion Ev. }
      done.
  - intros Hwf Hclosed. unfold bind at 1.
    rewrite (ensure_basket_new _ _ Hnone). fold db1. unfold bind at 1.
    rewrite validate_items_ok.
    2:{ intros item Hin. destruct (Hclosed item Hin) as [(p & Hp & _) Hq].
        split; [by exists p|done]. }
    unfold bind at 1, query. rewrite no_open_shops.
    2:{ intros pk [q Hq]. apply ordered_items_dict_lookup in Hq.
        destruct (Hclosed _ Hq) as [(p & Hp & Hc) _]. by exists p. }
    simpl. unfold bind at 1. simpl. unfold bind at 1.
    subst db1. rewrite (basket_object_new _ _ Hnone). simpl.
    unfold bind, query, ret. simpl. do 3 f_equal.
    unfold render_order, empty_basket_view. simpl. f_equal.
    assert (seller_orders_of (length (buyer_orders db))
              (with_new_basket user db) = []) as ->; [|done].
    apply select_nil. intros k o Ho. apply bool_decide_eq_false.
    intros Heq. apply Hwf in Ho. lia.
  - intros (item & Hin & Hmissing). unfold bind at 1.
    rewrite (ensure_basket_new _ _ Hnone). fold db1. unfold bind at 1.
    destruct (validate_items_missing request_data db1 item Hin Hmissing)
      as [d ->].
    by exists d.
Qed.

End Basket.

Section Checkout.
Import OrderViewSet.

(* ================================================================== *)
(** ** Checkout *)
(* ================================================================== *)

Lemma validate_contact_store user contact db :
  (validate_contact user contact db).1 = db.
Proof.
  unfold validate_contact. destruct contact as [c|]; [|done].
  destruct (row_at _ c); [|done]. by destruct (_ && _).
Qed.

Lemma check_item_acceptable so i p st :
  acceptable_order (check_item so i p st)
  = acceptable_order st && negb (shortfall (snd i) p).
Proof.
  unfold check_item, shortfall.
  destruct (_ <? 0); simpl; [by rewrite andb_false_r|].
  destruct (acceptable_order st) eqn:E; simpl; [done|by rewrite E].
Qed.

Lemma check_item_statuses so i p st :
  statuses (check_item so i p st)
  = if shortfall (snd i) p
    then <[fst i := too_many (oi_quantity (snd i)) (quantity p)]> (statuses st)
    else statuses st.
Proof.
  unfold check_item, shortfall.
  destruct (_ <? 0); simpl; [done|]. by destruct (acceptable_order st).
Qed.

Lemma check_items_acceptable so items st :
  acceptable_order (check_items so items st)
  = acceptable_order st && no_shortfall items.
Proof.
  revert st. induction items as [|ip items IH]; intros st; simpl.
  - by rewrite andb_true_r.
  - unfold check_items in *. simpl. rewrite IH, check_item_acceptable.
    by rewrite andb_assoc.
Qed.

Lemma check_all_from st
    (tree : list (nat * SellerOrder
                  * list (nat * SellerOrderItem * ProductInfo))) :
  acceptable_order
    (foldl (λ st o, check_items (fst (fst o)) (snd o) st) st tree)
  = acceptable_order st && forallb (λ o, no_shortfall (snd o)) tree.
Proof.
  revert st. induction tree as [|o tree IH]; intros st; simpl.
  - by rewrite andb_true_r.
  - rewrite IH, check_items_acceptable. by rewrite andb_assoc.
Qed.

Lemma check_all_acceptable
    (tree : list (nat * SellerOrder
                  * list (nat * SellerOrderItem * ProductInfo))) :
  acceptable_order (check_all tree)
  = forallb (λ o, no_shortfall (snd o)) tree.
Proof. unfold check_all. apply (check_all_from check_start). Qed.

Lemma annotation_loaded db i p :
  row_at (seller_order_items db) (fst i) = Some (snd i) →
  row_at (product_infos db) (oi_product_info (snd i)) = Some p →
  annotation db (fst i)
  = if shortfall (snd i) p
    then Some (too_many (oi_quantity (snd i)) (quantity p)) else None.
Proof. intros Hi Hp. unfold annotation. by rewrite Hi, Hp. Qed.

Lemma check_item_annotated db so i p ks st :
  row_at (seller_order_items db) (fst i) = Some (snd i) →
  row_at (product_infos db) (oi_product_info (snd i)) = Some p →
  annotated db ks st →
  annotated db (ks ++ [fst i]) (check_item so i p st).
Proof.
  intros Hi Hp Hst k. rewrite check_item_statuses.
  pose proof (annotation_loaded db i p Hi Hp) as Ha.
  specialize (Hst k).
  assert (k ∈ ks ++ [fst i] ↔ k ∈ ks ∨ k = fst i) as Hmem
    by (by rewrite elem_of_app, list_elem_of_singleton).
  destruct (shortfall (snd i) p);
    destruct (decide (k = fst i)) as [->|Hne];
    rewrite ?lookup_insert_eq, ?lookup_insert_ne by done;
    rewrite ?Hst; repeat case_decide;
    try done; try (by rewrite Ha); exfalso; tauto.
Qed.

Lemma check_items_annotated db so items ks st :
  loaded db items → annotated db ks st →
  annotated db (ks ++ map (λ ip, fst (fst ip)) items) (check_items so items st).
Proof.
  intros Hl. revert ks st.
  induction Hl as [|ip items [Hi Hp] _ IH]; intros ks st Hst; simpl.
  - by rewrite app_nil_r.
  - unfold check_items in *. simpl.
    rewrite (cons_middle _ ks), app_assoc. apply IH.
    by apply check_item_annotated.
Qed.

Lemma check_all_annotated db tree :
  Forall (λ o, loaded db (snd o)) tree →
  annotated db (item_keys tree) (check_all tree).
Proof.
  intros Hl. unfold check_all.
  cut (∀ ks st, annotated db ks st →
         annotated db (ks ++ item_keys tree)
           (foldl (λ st o, check_items (fst (fst o)) (snd o) st) st tree)).
  { intros H. apply (H [] check_start). intros k.
    change (statuses check_start) with (∅ : gmap nat string).
    rewrite lookup_empty. case_decide as Hk; [|done].
    by apply elem_of_nil in Hk. }
  induction Hl as [|o tree Ho _ IH]; intros ks st Hst; simpl.
  - by rewrite app_nil_r.
  - rewrite app_assoc. apply IH. by apply check_items_annotated.
Qed.

Lemma mapM_attach {A B} (g : A → option B) (l : list A) (k : list (A * B)) :
  mapM (attach g) l = Some k →
  map fst k = l ∧ Forall (λ xy, g (fst xy) = Some (snd xy)) k.
Proof.
  intros H%mapM_Some_1. induction H as [|x [x' y] l k Hx _ [IH1 IH2]].
  - by split.
  - unfold attach in Hx. destruct (g x) as [y'|] eqn:E; [|done].
    inversion Hx; subst. simpl. split; [by f_equal|]. by constructor.
Qed.

Lemma mapM_attach_total {A B} (g : A → option B) (l : list A) :
  (∀ x, x ∈ l → is_Some (g x)) → is_Some (mapM (attach g) l).
Proof.
  induction l as [|x l IH]; intros H; [by eexists|].
  destruct (H x) as [y Hy]; [by left|].
  destruct IH as [k Hk]; [intros z Hz; apply H; by right|].
  exists ((x, y) :: k). apply mapM_Some_2. constructor.
  - unfold attach. by rewrite Hy.
  - by apply mapM_Some_1.
Qed.

Lemma prefetch_unfold order db :
  prefetch order db
  = match mapM (attach (load_items db)) (seller_orders_of order db) with
    | Some tree => Ok tree
    | None => Raise DoesNotExist
    end.
Proof. reflexivity. Qed.

Lemma prefetch_store order db tree :
  prefetch order db = Ok tree →
  map fst tree = seller_orders_of order db
  ∧ Forall (λ o, map fst (snd o) = ordered_items_of (fst (fst o)) db
                 ∧ loaded db (snd o)) tree.
Proof.
  rewrite prefetch_unfold.
  destruct (mapM _ _) as [tree'|] eqn:E; [|done].
  intros Heq. inversion Heq; subst tree'. clear Heq.
  apply mapM_attach in E as [Hfst Hall]. split; [done|].
  eapply Forall_impl; [exact Hall|]. intros [o items] Ho. simpl in *.
  unfold load_items in Ho. apply mapM_attach in Ho as [Hitems Hrows].
  split; [done|].
  unfold loaded. apply Forall_forall. intros [i p] Hin.
  rewrite Forall_forall in Hrows. specialize (Hrows _ Hin). simpl in *.
  split; [|done].
  assert (i ∈ ordered_items_of (fst o) db) as Hi.
  { rewrite <- Hitems. apply list_elem_of_fmap. by exists (i, p). }
  destruct i as [k i]. by apply elem_of_select in Hi as [Hi _].
Qed.

Lemma prefetch_total order db :
  items_wf db → ∃ tree, prefetch order db = Ok tree.
Proof.
  intros Hwf. rewrite prefetch_unfold.
  destruct (mapM_attach_total (load_items db) (seller_orders_of order db))
    as [tree ->]; [|by exists tree].
  intros o _. unfold load_items. apply mapM_attach_total.
  intros [k i] Hi. apply elem_of_select in Hi as [Hi _]. simpl.
  by apply (Hwf k).
Qed.

Lemma short_item_rejected order db tree :
  prefetch order db = Ok tree → short_item order db →
  acceptable_order (check_all tree) = false.
Proof.
  intros Hpre (o & i & p & Ho & Hi & Hp & Hlt).
  apply prefetch_store in Hpre as [Hfst Hall].
  rewrite check_all_acceptable. apply not_true_is_false. intros Hacc.
  rewrite forallb_forall in Hacc.
  rewrite <- Hfst in Ho. apply list_elem_of_fmap in Ho as ([o' items] & -> & Ho).
  rewrite Forall_forall in Hall. destruct (Hall _ Ho) as [Hitems Hrows].
  simpl in *.
  specialize (Hacc _ (proj1 (list_elem_of_In _ _) Ho)). simpl in Hacc.
  unfold no_shortfall in Hacc. rewrite forallb_forall in Hacc.
  rewrite <- Hitems in Hi. apply list_elem_of_fmap in Hi as ([i' p'] & -> & Hi).
  unfold loaded in Hrows. rewrite Forall_forall in Hrows.
  destruct (Hrows _ Hi) as [_ Hp']. simpl in *.
  assert (p' = p) as -> by congruence.
  specialize (Hacc _ (proj1 (list_elem_of_In _ _) Hi)). simpl in Hacc.
  unfold shortfall in Hacc. apply negb_true_iff, Z.ltb_ge in Hacc. lia.
Qed.

Lemma basket_annotations order db tree o i :
  prefetch order db = Ok tree →
  o ∈ seller_orders_of order db → i ∈ ordered_items_of (fst o) db →
  statuses (check_all tree) !! fst i = annotation db (fst i).
Proof.
  intros Hpre Ho Hi. apply prefetch_store in Hpre as [Hfst Hall].
  rewrite (check_all_annotated db tree).
  2:{ eapply Forall_impl; [exact Hall|]. by intros ? [_ ?]. }
  rewrite decide_True; [done|].
  rewrite <- Hfst in Ho. apply list_elem_of_fmap in Ho as ([o' items] & -> & Ho).
  rewrite Forall_forall in Hall. destruct (Hall _ Ho) as [Hitems _].
  simpl in *. rewrite <- Hitems in Hi.
  apply list_elem_of_fmap in Hi as (ip & -> & Hi).
  unfold item_keys. apply list_elem_of_In, in_flat_map.
  exists (o', items). split; [by apply list_elem_of_In|].
  simpl. apply in_map_iff. exists ip. split; [done|]. by apply list_elem_of_In.
Qed.

Lemma create_short user user_email contact_id current_date db order order_row :
  basket_object user db = Some (order, order_row) →
  short_item order db →
  create user user_email contact_id current_date db
  = match (validate_contact user contact_id db).2 with
    | Raise e => (db, Raise e)
    | Ok _ =>
        match prefetch order db with
        | Raise e => (db, Raise e)
        | Ok tree =>
            (db, Ok ({| status_code := HTTP_206_PARTIAL_CONTENT;
                        data := Tree (render_order (statuses (check_all tree))
                                        db (order, order_row)) |}, []))
        end
    end.
Proof.
  intros Hbasket Hshort. unfold create, bind at 1, query. rewrite Hbasket.
  unfold bind at 1.
  pose proof (validate_contact_store user contact_id db) as Hstore.
  destruct (validate_contact user contact_id db) as [db1 [c|e]] eqn:Ec;
    simpl in Hstore; subst db1; simpl; [|done].
  unfold bind at 1. destruct (prefetch order db) as [tree|e] eqn:Epre; [|done].
  by rewrite (short_item_rejected order db tree Epre Hshort).
Qed.

(** C2.  A checkout of a basket in which a line item asks for more than its
    listing has in stock leaves the store as it was, whatever the contact of
    the request: no stock is decremented, no order changes its state, no
    date or contact is written.  With a contact that passes the validation
    the answer is the partial acceptance (206) of the basket tree as stored,
    without any notification; in this tree a line item carries the message
    of its shortfall when it asks for more than its listing has, and no
    annotation otherwise. *)
Theorem C2_partial_acceptance (user : nat) (user_email : string)
    (contact_id : option nat) (current_date : nat) (db : DB)
    (order : nat) (order_row : BuyerOrder) :
  basket_object user db = Some (order, order_row) →
  short_item order db →
  (create user user_email contact_id current_date db).1 = db
  ∧ (items_wf db →
     ∀ c, (validate_contact user contact_id db).2 = Ok c →
     ∃ annotations,
       create user user_email contact_id current_date db
       = (db, Ok ({| status_code := HTTP_206_PARTIAL_CONTENT;
                     data := Tree (render_order annotations db
                                     (order, order_row)) |}, []))
       ∧ bo_state order_row = BO_basket
       ∧ ∀ o i, o ∈ seller_orders_of order db →
                i ∈ ordered_items_of (fst o) db →
                ∃ p, row_at (product_infos db) (oi_product_info (snd i))
                     = Some p
                     ∧ annotations !! fst i
                       = if quantity p <? oi_quantity (snd i)
                         then Some (too_many (oi_quantity (snd i))
                                      (quantity p))
                         else None).
Proof.
  intros Hbasket Hshort.
  rewrite (create_short _ _ _ _ _ _ _ Hbasket Hshort). split.
  { destruct (validate_contact user contact_id db).2; [|done].
    by destruct (prefetch order db). }
  intros Hwf c Hc. rewrite Hc.
  destruct (prefetch_total order db Hwf) as [tree Epre]. rewrite Epre.
  exists (statuses (check_all tree)). split; [done|]. split.
  { unfold basket_object, basket_queryset in Hbasket.
    apply head_select in Hbasket as (_ & Hb & _).
    by apply bool_decide_eq_true in Hb as [_ ?]. }
  intros o i Ho Hi.
  rewrite (basket_annotations order db tree o i Epre Ho Hi).
  destruct i as [k i]. pose proof Hi as Hrow.
  apply elem_of_select in Hrow as [Hrow _].
  destruct (Hwf k i Hrow) as [p Hp]. exists p. split; [done|].
  unfold annotation. simpl. rewrite Hrow, Hp. unfold shortfall.
  replace (quantity p - oi_quantity i <? 0)
    with (quantity p <? oi_quantity i); [done|].
  destruct (quantity p <? oi_quantity i) eqn:E1; symmetry.
  - apply Z.ltb_lt in E1. apply Z.ltb_lt. lia.
  - apply Z.ltb_ge in E1. apply Z.ltb_ge. lia.
Qed.

End Checkout.

Section Pruner.
Import BasketView.

(* ================================================================== *)
(** ** The pruner of the basket *)
(* ================================================================== *)

Lemma elem_of_listing_ids items x :
  x ∈ listing_ids items ↔ ∃ k i, (k, i) ∈ items ∧ oi_product_info i = x.
Proof.
  unfold listing_ids. rewrite elem_of_list_to_set, list_elem_of_fmap. split.
  - intros ([k i] & -> & Hin). by exists k, i.
  - intros (k & i & Hin & <-). by exists (k, i).
Qed.

Lemma whole_nil ids so : ¬ whole [] ids so.
Proof. intros (items & Hin & _). by apply elem_of_nil in Hin. Qed.

Lemma single_nil ids k : ¬ single [] ids k.
Proof. intros (so & items & i & Hin & _). by apply elem_of_nil in Hin. Qed.

Lemma whole_cons so items rest ids so' :
  whole ((so, items) :: rest) ids so'
  ↔ (so' = so ∧ listing_ids items ∩ ids ≠ ∅ ∧ listing_ids items ⊆ ids)
    ∨ whole rest ids so'.
Proof.
  unfold whole. split.
  - intros (items' & Hin & H). apply elem_of_cons in Hin as [Heq|Hin].
    + inversion Heq; subst. by left.
    + right. by exists items'.
  - intros [(-> & H)|(items' & Hin & H)].
    + exists items. split; [left|done].
    + exists items'. split; [by right|done].
Qed.

Lemma single_cons so items rest ids k :
  single ((so, items) :: rest) ids k
  ↔ (∃ i, (k, i) ∈ items ∧ oi_product_info i ∈ ids
          ∧ ¬ listing_ids items ⊆ ids)
    ∨ single rest ids k.
Proof.
  unfold single. split.
  - intros (so' & items' & i & Hin & H).
    apply elem_of_cons in Hin as [Heq|Hin].
    + inversion Heq; subst. left. by exists i.
    + right. by exists so', items', i.
  - intros [(i & H)|(so' & items' & i & Hin & H)].
    + exists so, items, i. split; [left|done].
    + exists so', items', i. split; [by right|done].
Qed.

(** Taking the matched listings of one seller order out of the request does
    not change what is matched in the seller orders that share no listing
    with it. *)
Lemma whole_shrink (P : gset nat) rest ids so :
  Forall (λ o', P ## listing_ids (snd o')) rest →
  whole rest (ids ∖ (P ∩ ids)) so ↔ whole rest ids so.
Proof.
  intros Hdis. rewrite Forall_forall in Hdis. unfold whole.
  split; intros (items & Hin & Hne & Hsub); exists items;
    (split; [done|]); specialize (Hdis _ Hin); simpl in Hdis; set_solver.
Qed.

Lemma single_shrink (P : gset nat) rest ids k :
  Forall (λ o', P ## listing_ids (snd o')) rest →
  single rest (ids ∖ (P ∩ ids)) k ↔ single rest ids k.
Proof.
  intros Hdis. rewrite Forall_forall in Hdis. unfold single.
  split; intros (so & items & i & Hin & Hi & Hid & Hsub); exists so, items, i;
    (split; [done|]); (split; [done|]); specialize (Hdis _ Hin);
    simpl in Hdis;
    assert (oi_product_info i ∈ listing_ids items)
      by (apply elem_of_listing_ids; by exists k, i);
    set_solver.
Qed.

Lemma whole_exhausted (P : gset nat) rest ids so :
  Forall (λ o', P ## listing_ids (snd o')) rest →
  ids ∖ (P ∩ ids) = ∅ → ¬ whole rest ids so.
Proof.
  intros Hdis Hids (items & Hin & Hne & Hsub).
  rewrite Forall_forall in Hdis. specialize (Hdis _ Hin). simpl in Hdis.
  set_solver.
Qed.

Lemma single_exhausted (P : gset nat) rest ids k :
  Forall (λ o', P ## listing_ids (snd o')) rest →
  ids ∖ (P ∩ ids) = ∅ → ¬ single rest ids k.
Proof.
  intros Hdis Hids (so & items & i & Hin & Hi & Hid & Hsub).
  rewrite Forall_forall in Hdis. specialize (Hdis _ Hin). simpl in Hdis.
  assert (oi_product_info i ∈ listing_ids items)
    by (apply elem_of_listing_ids; by exists k, i).
  set_solver.
Qed.

Lemma elem_of_matched (D : gset nat) items k :
  k ∈@{gset nat}
    list_to_set
      (map fst (List.filter (λ i, bool_decide (oi_product_info (snd i) ∈ D))
                            items))
  ↔ ∃ i, (k, i) ∈ items ∧ oi_product_info i ∈ D.
Proof.
  rewrite elem_of_list_to_set, list_elem_of_fmap. split.
  - intros ([k' i] & -> & Hin). apply list_elem_of_In, filter_In in Hin.
    destruct Hin as [Hin Hd]. apply bool_decide_eq_true in Hd.
    exists i. split; [by apply list_elem_of_In|done].
  - intros (i & Hin & Hd). exists (k, i). split; [done|].
    apply list_elem_of_In, filter_In. split; [by apply list_elem_of_In|].
    by apply bool_decide_eq_true.
Qed.

Lemma prune_spec sob ids S I :
  once sob →
  (∀ so, so ∈ (prune sob ids S I).1 ↔ so ∈ S ∨ whole sob ids so)
  ∧ (∀ k, k ∈ (prune sob ids S I).2 ↔ k ∈ I ∨ single sob ids k).
Proof.
  revert ids S I. induction sob as [|[so items] rest IH]; intros ids S I.
  { intros _. simpl. split; intros x; split; try (by left).
    - intros [?|H]; [done|]. by apply whole_nil in H.
    - intros [?|H]; [done|]. by apply single_nil in H. }
  intros [Hdis Hrest]. simpl in Hdis. simpl.
  fold (listing_ids items).
  set (P := listing_ids items) in *. set (D := P ∩ ids).
  case_bool_decide as Hnone.
  { destruct (IH ids S I Hrest) as [IHS IHI]. split.
    - intros x. rewrite IHS, whole_cons. fold P. set_solver.
    - intros x. rewrite IHI, single_cons. fold P.
      split; [tauto|]. intros [?|[(i & Hin & Hid & _)|?]]; [tauto| |tauto].
      assert (oi_product_info i ∈ P)
        by (apply elem_of_listing_ids; by exists x, i).
      set_solver. }
  case_bool_decide as Hall.
  - case_bool_decide as Hdone; simpl.
    + split.
      * intros x. rewrite whole_cons. fold P.
        pose proof (whole_exhausted P rest ids x Hdis Hdone). set_solver.
      * intros x. rewrite single_cons. fold P.
        pose proof (single_exhausted P rest ids x Hdis Hdone).
        split; [tauto|]. intros [?|[(i & _ & _ & Hno)|?]]; [tauto| |tauto].
        set_solver.
    + destruct (IH (ids ∖ D) ({[so]} ∪ S) I Hrest) as [IHS IHI]. split.
      * intros x. rewrite IHS, whole_cons. fold P. unfold D.
        rewrite (whole_shrink P rest ids x Hdis). set_solver.
      * intros x. rewrite IHI, single_cons. fold P. unfold D.
        rewrite (single_shrink P rest ids x Hdis).
        split; [tauto|]. intros [?|[(i & _ & _ & Hno)|?]]; [tauto| |tauto].
        set_solver.
  - assert (∀ x, x ∈@{gset nat}
              list_to_set
                (map fst (List.filter
                            (λ i, bool_decide (oi_product_info (snd i) ∈ D))
                            items))
              ↔ ∃ i, (x, i) ∈ items ∧ oi_product_info i ∈ ids
                     ∧ ¬ P ⊆ ids) as Hmatched.
    { intros x. rewrite elem_of_matched. split.
      - intros (i & Hin & Hd). exists i. set_solver.
      - intros (i & Hin & Hd & _). exists i. split; [done|].
        assert (oi_product_info i ∈ P)
          by (apply elem_of_listing_ids; by exists x, i).
        set_solver. }
    case_bool_decide as Hdone; simpl.
    + split.
      * intros x. rewrite whole_cons. fold P.
        pose proof (whole_exhausted P rest ids x Hdis Hdone). set_solver.
      * intros x. rewrite single_cons. fold P.
        pose proof (single_exhausted P rest ids x Hdis Hdone).
        pose proof (Hmatched x) as Hx. rewrite elem_of_union. tauto.
    + destruct (IH (ids ∖ D) S
                  (list_to_set
                     (map fst (List.filter
                        (λ i, bool_decide (oi_product_info (snd i) ∈ D))
                        items)) ∪ I) Hrest) as [IHS IHI].
      split.
      * intros x. rewrite IHS, whole_cons. fold P. unfold D.
        rewrite (whole_shrink P rest ids x Hdis). set_solver.
      * intros x. rewrite IHI, single_cons. fold P. unfold D.
        rewrite (single_shrink P rest ids x Hdis).
        pose proof (Hmatched x) as Hx. rewrite elem_of_union. tauto.
Qed.

(** *** The pruner on the store *)

Lemma set_seller_order_items_id db :
  set_seller_order_items (seller_order_items db) db = db.
Proof. by destruct db. Qed.

Lemma set_seller_orders_id db : set_seller_orders (seller_orders db) db = db.
Proof. by destruct db. Qed.

Lemma delete_items_none db : delete_items ∅ db = db.
Proof.
  unfold delete_items. rewrite delete_where_id.
  - apply set_seller_order_items_id.
  - intros pk r _. by apply bool_decide_eq_false.
Qed.

Lemma delete_seller_orders_none basket db :
  delete_seller_orders (doomed_order basket ∅) db = db.
Proof.
  unfold delete_seller_orders.
  assert (select (doomed_order basket ∅) (seller_orders db) = []) as ->.
  { apply select_nil. intros pk r _. apply bool_decide_eq_false.
    intros [_ H]. set_solver. }
  rewrite (delete_where_id (doomed_order basket ∅)).
  2:{ intros pk r _. apply bool_decide_eq_false. intros [_ H]. set_solver. }
  rewrite set_seller_orders_id. rewrite delete_where_id.
  - apply set_seller_order_items_id.
  - intros pk r _. by apply bool_decide_eq_false.
Qed.

Lemma basket_object_state user db basket basket_row :
  basket_object user db = Some (basket, basket_row) →
  row_at (buyer_orders db) basket = Some basket_row
  ∧ bo_user basket_row = user ∧ bo_state basket_row = BO_basket.
Proof.
  intros H. unfold basket_object, basket_queryset in H.
  apply head_select in H as (Hrow & Hb & _).
  by apply bool_decide_eq_true in Hb as [? ?].
Qed.

Lemma delete_run user ids db basket basket_row :
  basket_object user db = Some (basket, basket_row) →
  delete user ids db
  = if bool_decide (ids ∖ all_ordered_ids basket db ≠ ∅)
    then (db, Ok (api_error
                    (UnknownIds (elements (ids ∖ all_ordered_ids basket db)))
                    HTTP_400_BAD_REQUEST))
    else if bool_decide (ids = all_ordered_ids basket db)
    then (delete_basket basket db,
          Ok {| status_code := HTTP_200_OK; data := Empty |})
    else (pruned basket ids db,
          Ok {| status_code := HTTP_200_OK;
                data := Tree (render_order ∅ (pruned basket ids db)
                                (basket, basket_row)) |}).
Proof.
  intros Hbasket. unfold delete, bind at 1, query. rewrite Hbasket.
  unfold bind at 1. fold (baskets_of basket db).
  fold (all_ordered_ids basket db).
  destruct (basket_object_state _ _ _ _ Hbasket) as (_ & _ & ->).
  case_bool_decide as Hunknown; [done|].
  rewrite (bool_decide_eq_true_2 (BO_basket = BO_basket)) by done. simpl.
  case_bool_decide as Hfull; [done|].
  unfold pruned.
  destruct (prune (baskets_of basket db) ids ∅ ∅) as [S' I']. simpl.
  unfold bind at 1.
  assert ((if bool_decide (S' ≠ ∅)
           then modify (delete_seller_orders
                  (λ pk o, bool_decide (so_buyer_order o = basket ∧ pk ∈ S')))
           else ret tt) db
          = (delete_seller_orders (doomed_order basket S') db, Ok tt)) as ->.
  { case_bool_decide as HS; [done|].
    subst S'.
    by rewrite delete_seller_orders_none. }
  unfold bind at 1.
  set (db1 := delete_seller_orders (doomed_order basket S') db).
  assert ((if bool_decide (I' ≠ ∅)
           then modify (λ db0,
                  set_seller_order_items
                    (delete_where (λ pk _, bool_decide (pk ∈ I'))
                                  (seller_order_items db0)) db0)
           else ret tt) db1
          = (delete_items I' db1, Ok tt)) as ->.
  { case_bool_decide as HI; [done|].
    subst I'. by rewrite delete_items_none. }
  done.
Qed.

Lemma once_map (db : DB) (l : list (nat * SellerOrder)) :
  NoDup (map fst l) →
  (∀ o1 o2 i1 i2, o1 ∈ l → o2 ∈ l →
     i1 ∈ ordered_items_of (fst o1) db → i2 ∈ ordered_items_of (fst o2) db →
     oi_product_info (snd i1) = oi_product_info (snd i2) → fst o1 = fst o2) →
  once (map (λ o, (fst o, ordered_items_of (fst o) db)) l).
Proof.
  induction l as [|o l IH]; intros Hnd Hone; simpl; [done|].
  apply NoDup_cons in Hnd as [Hfresh Hnd]. split.
  - apply Forall_forall. intros o' Hin.
    apply list_elem_of_fmap in Hin as (o2 & -> & Hin). simpl.
    apply elem_of_disjoint. intros x Hx1 Hx2.
    apply elem_of_listing_ids in Hx1 as (k1 & i1 & Hi1 & E1).
    apply elem_of_listing_ids in Hx2 as (k2 & i2 & Hi2 & E2).
    apply Hfresh. apply list_elem_of_fmap. exists o2. split; [|done].
    apply (Hone o o2 (k1, i1) (k2, i2)); try done; [left|by right|].
    simpl. congruence.
  - apply IH; [done|]. intros o1 o2 i1 i2 H1 H2.
    apply Hone; by right.
Qed.

Lemma once_baskets basket db :
  listing_once basket db → once (baskets_of basket db).
Proof. intros H. apply once_map; [apply select_NoDup|exact H]. Qed.

Lemma elem_of_baskets basket db k items :
  (k, items) ∈ baskets_of basket db
  ↔ (∃ o, row_at (seller_orders db) k = Some o ∧ so_buyer_order o = basket)
    ∧ items = ordered_items_of k db.
Proof.
  unfold baskets_of, seller_orders_of. rewrite list_elem_of_fmap. split.
  - intros ([k' o] & Heq & Hin). simpl in Heq. inversion Heq; subst.
    apply elem_of_select in Hin as [Hrow Hb].
    apply bool_decide_eq_true in Hb. split; [by exists o|done].
  - intros [(o & Hrow & Hb) ->]. exists (k, o). split; [done|].
    apply elem_of_select. split; [done|]. by apply bool_decide_eq_true.
Qed.

Lemma all_named ids items :
  forallb (λ i : nat * SellerOrderItem,
             bool_decide (oi_product_info (snd i) ∈ ids)) items = true
  ↔ listing_ids items ⊆ ids.
Proof.
  rewrite forallb_forall. split.
  - intros H x Hx. apply elem_of_listing_ids in Hx as (k & i & Hin & <-).
    apply list_elem_of_In in Hin. specialize (H _ Hin).
    by apply bool_decide_eq_true in H.
  - intros H [k i] Hin. apply bool_decide_eq_true. apply H.
    apply elem_of_listing_ids. exists k, i. split; [|done].
    by apply list_elem_of_In.
Qed.

Lemma emptied_spec ids db k :
  emptied ids db k = true
  ↔ listing_ids (ordered_items_of k db) ∩ ids ≠ ∅
    ∧ listing_ids (ordered_items_of k db) ⊆ ids.
Proof.
  unfold emptied. destruct (ordered_items_of k db) as [|[k0 i0] items] eqn:E.
  - split; [done|]. intros [H _]. exfalso. apply H. set_solver.
  - rewrite all_named. split; [|tauto]. intros Hsub. split; [|done].
    assert (oi_product_info i0 ∈ listing_ids ((k0, i0) :: items)) as Hin.
    { apply elem_of_listing_ids. exists k0, i0. split; [left|done]. }
    set_solver.
Qed.

Lemma emptied_named ids db k i :
  emptied ids db (oi_order i) = true →
  row_at (seller_order_items db) k = Some i → oi_product_info i ∈ ids.
Proof.
  intros [_ Hsub]%emptied_spec Hrow. apply Hsub.
  apply elem_of_listing_ids. exists k, i. split; [|done].
  apply elem_of_select. split; [done|]. by apply bool_decide_eq_true.
Qed.

Lemma whole_baskets basket ids db k :
  whole (baskets_of basket db) ids k
  ↔ (∃ o, row_at (seller_orders db) k = Some o ∧ so_buyer_order o = basket)
    ∧ emptied ids db k = true.
Proof.
  unfold whole. rewrite emptied_spec. split.
  - intros (items & [Ho ->]%elem_of_baskets & H). done.
  - intros [Ho H]. exists (ordered_items_of k db).
    split; [by apply elem_of_baskets|done].
Qed.

Lemma in_basket_spec basket db i :
  in_basket basket db i = true
  ↔ ∃ o, row_at (seller_orders db) (oi_order i) = Some o
         ∧ so_buyer_order o = basket.
Proof.
  unfold in_basket. destruct (row_at _ (oi_order i)) as [o|].
  - rewrite bool_decide_eq_true. split; [by exists o|].
    intros (o' & Heq & H). by inversion Heq; subst.
  - split; [done|]. by intros (o & ? & _).
Qed.

Lemma single_baskets basket ids db k :
  single (baskets_of basket db) ids k
  ↔ ∃ i, row_at (seller_order_items db) k = Some i
         ∧ in_basket basket db i = true ∧ oi_product_info i ∈ ids
         ∧ emptied ids db (oi_order i) = false.
Proof.
  unfold single. split.
  - intros (so & items & i & [Ho ->]%elem_of_baskets & Hi & Hid & Hno).
    apply elem_of_select in Hi as [Hrow Hso].
    apply bool_decide_eq_true in Hso. subst so.
    exists i. split; [done|]. split; [by apply in_basket_spec|].
    split; [done|]. apply not_true_is_false.
    intros [_ Hsub]%emptied_spec. by apply Hno.
  - intros (i & Hrow & Ho%in_basket_spec & Hid & Hno).
    exists (oi_order i), (ordered_items_of (oi_order i) db), i.
    split; [by apply elem_of_baskets|].
    assert ((k, i) ∈ ordered_items_of (oi_order i) db) as Hin.
    { apply elem_of_select. split; [done|]. by apply bool_decide_eq_true. }
    split; [done|]. split; [done|]. intros Hsub.
    apply not_true_iff_false in Hno. apply Hno. apply emptied_spec.
    split; [|done].
    assert (oi_product_info i ∈ listing_ids (ordered_items_of (oi_order i) db))
      by (apply elem_of_listing_ids; by exists k, i).
    set_solver.
Qed.

Lemma pruned_seller_orders basket ids db k :
  once (baskets_of basket db) →
  row_at (seller_orders (pruned basket ids db)) k
  = match row_at (seller_orders db) k with
    | Some o =>
        if bool_decide (so_buyer_order o = basket) && emptied ids db k
        then None else Some o
    | None => None
    end.
Proof.
  intros Hone. unfold pruned.
  destruct (prune_spec (baskets_of basket db) ids ∅ ∅ Hone) as [HS _].
  destruct (prune (baskets_of basket db) ids ∅ ∅) as [S' I']. simpl in *.
  rewrite row_at_delete_where.
  destruct (row_at (seller_orders db) k) as [o|] eqn:Hrow; [|done].
  assert (doomed_order basket S' k o
          = bool_decide (so_buyer_order o = basket) && emptied ids db k) as ->;
    [|done].
  unfold doomed_order. apply eq_true_iff_eq.
  rewrite andb_true_iff, !bool_decide_eq_true, HS, whole_baskets.
  split.
  - intros [Hb [Hempty|[_ He]]]; [set_solver|done].
  - intros [Hb He]. split; [done|]. right. split; [by exists o|done].
Qed.

Lemma pruned_items basket ids db k :
  once (baskets_of basket db) →
  row_at (seller_order_items (pruned basket ids db)) k
  = match row_at (seller_order_items db) k with
    | Some i =>
        if in_basket basket db i && bool_decide (oi_product_info i ∈ ids)
        then None else Some i
    | None => None
    end.
Proof.
  intros Hone. unfold pruned.
  destruct (prune_spec (baskets_of basket db) ids ∅ ∅ Hone) as [HS HI].
  destruct (prune (baskets_of basket db) ids ∅ ∅) as [S' I']. simpl in *.
  rewrite !row_at_delete_where.
  destruct (row_at (seller_order_items db) k) as [i|] eqn:Hrow; [|done].
  set (doomed := list_to_set
                   (map fst (select (doomed_order basket S') (seller_orders db)))
                 : gset nat).
  assert (oi_order i ∈ doomed
          ↔ in_basket basket db i = true
            ∧ emptied ids db (oi_order i) = true) as Hdoomed.
  { unfold doomed. rewrite elem_of_list_to_set, list_elem_of_fmap.
    rewrite in_basket_spec. split.
    - intros ([k' o] & Hk & Hin). simpl in Hk. subst k'.
      apply elem_of_select in Hin as [Ho Hd].
      apply bool_decide_eq_true in Hd as [Hb Hin].
      apply HS in Hin as [Hin|[_ He]%whole_baskets]; [set_solver|].
      split; [by exists o|done].
    - intros [(o & Ho & Hb) He]. exists (oi_order i, o). split; [done|].
      apply elem_of_select. split; [done|]. apply bool_decide_eq_true.
      split; [done|]. apply HS. right. apply whole_baskets.
      split; [by exists o|done]. }
  assert (k ∈ I'
          ↔ in_basket basket db i = true ∧ oi_product_info i ∈ ids
            ∧ emptied ids db (oi_order i) = false) as Hsingle.
  { rewrite HI, single_baskets. split.
    - intros [Hin|(i' & Hi' & H)]; [set_solver|]. congruence.
    - intros H. right. by exists i. }
  pose proof (emptied_named ids db k i) as Hnamed.
  destruct (in_basket basket db i), (emptied ids db (oi_order i)); simpl;
    repeat case_bool_decide; simpl; try done; exfalso; naive_solver.
Qed.

Lemma pruned_rest basket ids db :
  product_infos (pruned basket ids db) = product_infos db
  ∧ buyer_orders (pruned basket ids db) = buyer_orders db.
Proof. by unfold pruned. Qed.

Lemma deleted_basket_orders basket db k :
  row_at (seller_orders (delete_basket basket db)) k
  = remaining (λ o, bool_decide (so_buyer_order o = basket))
              (row_at (seller_orders db) k).
Proof. unfold delete_basket. simpl. by rewrite row_at_delete_where. Qed.

Lemma deleted_basket_items basket db k :
  row_at (seller_order_items (delete_basket basket db)) k
  = remaining (in_basket basket db) (row_at (seller_order_items db) k).
Proof.
  unfold delete_basket. simpl. rewrite row_at_delete_where.
  destruct (row_at (seller_order_items db) k) as [i|]; [|done]. simpl.
  assert (bool_decide
            (oi_order i ∈@{gset nat}
               list_to_set
                 (map fst (select (λ _ o, bool_decide (so_buyer_order o = basket))
                                  (seller_orders db))))
          = in_basket basket db i) as ->; [|done].
  apply eq_true_iff_eq.
  rewrite bool_decide_eq_true, in_basket_spec, elem_of_list_to_set,
    list_elem_of_fmap.
  split.
  - intros ([k' o] & Hk & Hin). simpl in Hk. subst k'.
    apply elem_of_select in Hin as [Ho Hb].
    apply bool_decide_eq_true in Hb. by exists o.
  - intros (o & Ho & Hb). exists (oi_order i, o). split; [done|].
    apply elem_of_select. split; [done|]. by apply bool_decide_eq_true.
Qed.

Lemma deleted_basket_order basket db k :
  row_at (buyer_orders (delete_basket basket db)) k
  = remaining (λ _, bool_decide (k = basket)) (row_at (buyer_orders db) k).
Proof. unfold delete_basket. simpl. by rewrite row_at_delete_where. Qed.

(** C7.  For a buyer with a basket in which no listing is ordered in two
    seller orders: when the request names exactly the listings ordered in
    the basket, [delete] deletes the buyer order, its seller orders and
    their line items, leaves every other row, and answers 200 with an empty
    body; when the request names a proper subset of them, it deletes the
    line items of the basket whose listing is named, and the seller orders
    of the basket that have a line item and whose line items are all named,
    leaves every other line item and seller order, the buyer orders and the
    listings as they were, and answers 200 with the tree of what is left. *)
Theorem C7_pruner (user : nat) (ids_to_del : gset nat) (db : DB)
    (basket : nat) (basket_row : BuyerOrder) :
  basket_object user db = Some (basket, basket_row) →
  once (baskets_of basket db) →
  (ids_to_del = all_ordered_ids basket db →
   ∃ db', delete user ids_to_del db
          = (db', Ok {| status_code := HTTP_200_OK; data := Empty |})
     ∧ (∀ k, row_at (buyer_orders db') k
             = remaining (λ _, bool_decide (k = basket))
                         (row_at (buyer_orders db) k))
     ∧ (∀ k, row_at (seller_orders db') k
             = remaining (λ o, bool_decide (so_buyer_order o = basket))
                         (row_at (seller_orders db) k))
     ∧ (∀ k, row_at (seller_order_items db') k
             = remaining (in_basket basket db)
                         (row_at (seller_order_items db) k))
     ∧ product_infos db' = product_infos db)
  ∧ (ids_to_del ⊂ all_ordered_ids basket db →
     ∃ db', delete user ids_to_del db
            = (db', Ok {| status_code := HTTP_200_OK;
                          data := Tree (render_order ∅ db'
                                          (basket, basket_row)) |})
       ∧ (∀ k, row_at (seller_order_items db') k
               = remaining
                   (λ i, in_basket basket db i
                         && bool_decide (oi_product_info i ∈ ids_to_del))
                   (row_at (seller_order_items db) k))
       ∧ (∀ k, row_at (seller_orders db') k
               = remaining
                   (λ o, bool_decide (so_buyer_order o = basket)
                         && emptied ids_to_del db k)
                   (row_at (seller_orders db) k))
       ∧ buyer_orders db' = buyer_orders db
       ∧ product_infos db' = product_infos db).
Proof.
  intros Hbasket Hone. rewrite (delete_run _ _ _ _ _ Hbasket). split.
  - intros Hfull. exists (delete_basket basket db).
    rewrite bool_decide_eq_false_2 by set_solver.
    rewrite bool_decide_eq_true_2 by done. split; [done|].
    split; [intros k; apply deleted_basket_order|].
    split; [intros k; apply deleted_basket_orders|].
    split; [intros k; apply deleted_basket_items|done].
  - intros Hsub. exists (pruned basket ids_to_del db).
    rewrite bool_decide_eq_false_2 by set_solver.
    rewrite bool_decide_eq_false_2 by set_solver. split; [done|].
    split; [intros k; by apply pruned_items|].
    split; [intros k; by apply pruned_seller_orders|].
    by destruct (pruned_rest basket ids_to_del db).
Qed.

End Pruner.

(* ================================================================== *)
(** ** The price snapshot of a line item *)
(* ================================================================== *)

Lemma snapshot_step_refl db0 db : snapshot_step db0 db db.
Proof. intros k i Hrow. exists i. by repeat split; try left. Qed.

Lemma snapshot_step_same db0 db db' :
  seller_order_items db' = seller_order_items db → snapshot_step db0 db db'.
Proof. intros Heq k i Hrow. exists i. rewrite Heq. by repeat split; try left. Qed.

Lemma snapshot_step_trans db0 db1 db2 db3 :
  snapshot_step db0 db1 db2 → snapshot_step db0 db2 db3 →
  snapshot_step db0 db1 db3.
Proof.
  intros H12 H23 k i Hrow.
  destruct (H12 k i Hrow) as (i' & Hrow' & Ho & Hp & Hi).
  destruct (H23 k i' Hrow') as (i'' & Hrow'' & Ho' & Hp' & Hi').
  exists i''. split; [done|]. split; [congruence|]. split; [congruence|].
  destruct Hi' as [->|?]; [done|by right].
Qed.

Lemma get_unique_Some {A} (l : list (nat * A)) x :
  get_unique l = Ok (Some x) → l = [x].
Proof. destruct l as [|y [|? ?]]; simpl; intros H; by inversion H. Qed.

Lemma item_update_or_create_snapshot db0 order pk q p db :
  row_at (product_infos db0) pk = Some p →
  wp (BasketView.item_update_or_create order pk q (price p) (price_rrc p))
     (λ db' _, snapshot_step db0 db db') db.
Proof.
  intros Hp. unfold wp, BasketView.item_update_or_create.
  destruct (get_unique _) as [[[k0 r0]|]|e] eqn:E; simpl.
  - apply get_unique_Some in E.
    assert ((k0, r0) ∈ select
              (λ _ i, bool_decide (oi_order i = order
                                   ∧ oi_product_info i = pk))
              (seller_order_items db)) as Hin by (rewrite E; left).
    apply elem_of_select in Hin as [Hrow0 Hkey].
    apply bool_decide_eq_true in Hkey as [Ho Hpk].
    intros k i Hrow. destruct (decide (k0 = k)) as [->|Hne].
    + eexists. split; [by eapply row_at_save_eq|]. simpl.
      assert (r0 = i) as -> by congruence.
      split; [done|]. split; [done|]. right. by exists p.
    + exists i. simpl. rewrite row_at_save_ne by done.
      by repeat split; try left.
  - intros k i Hrow. exists i. simpl. split; [by apply row_at_app_Some|].
    by repeat split; try left.
  - apply snapshot_step_refl.
Qed.

Lemma fill_seller_order_snapshot db0 basket keys entry db :
  (∀ pk p, (pk, p) ∈ snd entry → row_at (product_infos db0) pk = Some p) →
  wp (BasketView.fill_seller_order basket keys entry)
     (λ db' _, snapshot_step db0 db db') db.
Proof.
  destruct entry as [[sk s] listings]. simpl. intros Hloaded.
  unfold BasketView.fill_seller_order.
  apply wp_bind. eapply wp_mono; [apply seller_order_get_or_create_step|].
  intros db1 [order|e] [_ S1]; [|by apply snapshot_step_same].
  apply (wp_for_each (λ db', snapshot_step db0 db db'));
    [by apply snapshot_step_same|].
  intros [pk p] db2 Hin S2. simpl.
  destruct (keys !! pk) as [q|]; [|by apply wp_raise].
  eapply wp_mono; [apply (item_update_or_create_snapshot db0), Hloaded, Hin|].
  intros db3 r S3. by eapply snapshot_step_trans.
Qed.

Lemma shops_with_ordered_products_loaded keys db entry pk p :
  entry ∈ BasketView.shops_with_ordered_products keys db →
  (pk, p) ∈ snd entry → row_at (product_infos db) pk = Some p.
Proof.
  unfold BasketView.shops_with_ordered_products. intros Hentry Hin.
  apply list_elem_of_In, in_flat_map in Hentry as (shop & _ & Hentry).
  apply in_map_iff in Hentry as (x & <- & _). simpl in Hin.
  by apply elem_of_select in Hin as [? _].
Qed.

Lemma ensure_basket_store user db :
  seller_order_items (BasketView.ensure_basket user db).1
  = seller_order_items db
  ∧ product_infos (BasketView.ensure_basket user db).1 = product_infos db.
Proof.
  unfold BasketView.ensure_basket, bind, query.
  by destruct (basket_object user db) as [[pk o]|].
Qed.

Lemma validate_items_store items db :
  (BasketView.validate_items items db).1 = db.
Proof. unfold BasketView.validate_items. by destruct (forallb _ _). Qed.

Lemma post_snapshot user request_data db :
  snapshot_step db db (BasketView.post user request_data db).1.
Proof.
  unfold BasketView.post. unfold bind at 1.
  destruct (ensure_basket_store user db) as [Hitems Hlistings].
  destruct (BasketView.ensure_basket user db) as [db1 [basket|e]];
    simpl in *; [|by apply snapshot_step_same].
  unfold bind at 1.
  pose proof (validate_items_store request_data db1) as Hv.
  destruct (BasketView.validate_items request_data db1) as [db2 [vd|e]];
    simpl in *; subst db2; [|by apply snapshot_step_same].
  unfold bind at 1, query. unfold bind at 1.
  set (keys := BasketView.ordered_items_dict vd).
  assert (wp (for_each (BasketView.shops_with_ordered_products keys db1)
                (BasketView.fill_seller_order basket keys))
             (λ db' _, snapshot_step db db1 db') db1) as Hloop.
  { apply (wp_for_each (λ db', snapshot_step db db1 db'));
      [apply snapshot_step_refl|].
    intros entry db2 Hentry S2.
    eapply wp_mono; [apply (fill_seller_order_snapshot db)|].
    - intros pk p Hin. rewrite <- Hlistings.
      by eapply shops_with_ordered_products_loaded.
    - intros db3 r S3. by eapply snapshot_step_trans. }
  unfold wp in Hloop.
  destruct (for_each _ _ db1) as [db2 [[]|e]]; simpl in *.
  - eapply snapshot_step_trans; [by apply snapshot_step_same|].
    unfold bind, query. simpl.
    by destruct (basket_object user db2).
  - eapply snapshot_step_trans; [by apply snapshot_step_same|done].
Qed.

(** *** The operations that do not write line items *)

Lemma import_products_items user_id user_email json_data db :
  seller_order_items (import_products user_id user_email json_data db).1
  = seller_order_items db.
Proof.
  rewrite import_products_run.
  destruct (parse_top json_data) as [key|[[[name cs] cats] goods]]; [done|].
  destruct (shop_get_or_create _ _ _ _ db) as [db1 r] eqn:Es.
  assert (seller_order_items db1 = seller_order_items db) as H1
    by (destruct (shop_step_same _ _ _ _ _ _ _ Es) as [->|[s ->]]; done).
  destruct r as [[shop created]|e]; [|by destruct e].
  destruct (validation_of cs cats goods) as [err|infos]; [done|].
  pose proof (store_products_step shop created infos db1) as [G _].
  destruct (store_products shop created infos db1) as [db2 [[]|e]];
    simpl in *; by rewrite (grows_seller_order_items _ _ G).
Qed.

Lemma update_or_create_items info shop db :
  seller_order_items
    (PartnerProductInfoSerializer.update_or_create info shop db).1
  = seller_order_items db.
Proof.
  pose proof (update_or_create_wp info shop db) as [[G _] _].
  exact (grows_seller_order_items _ _ G).
Qed.

Lemma confirm_seller_order_items st users_contact current_date o db :
  wp (OrderViewSet.confirm_seller_order st users_contact current_date o)
     (λ db' _, seller_order_items db' = seller_order_items db) db.
Proof.
  destruct o as [[so row] items]. unfold OrderViewSet.confirm_seller_order.
  apply wp_bind.
  eapply wp_mono.
  { apply (wp_for_each (λ db', seller_order_items db' = seller_order_items db));
      [done|].
    intros i db0 _ H0.
    destruct (OrderViewSet.quantity_to_update st !! _); [|by apply wp_raise].
    by apply wp_modify. }
  intros db1 [[]|e] H1; [|done].
  apply wp_bind, wp_modify. apply wp_bind, wp_query.
  simpl. destruct (OrderViewSet.ordered_items_strs st !! so) as [strs|];
    [destruct (row_at (shops db1) (so_shop row))|]; done.
Qed.

Lemma confirm_seller_orders_items st users_contact current_date all_orders db :
  wp (OrderViewSet.confirm_seller_orders st users_contact current_date
        all_orders)
     (λ db' _, seller_order_items db' = seller_order_items db) db.
Proof.
  revert db. induction all_orders as [|o rest IH]; intros db; simpl; [done|].
  apply wp_bind. eapply wp_mono; [apply confirm_seller_order_items|].
  intros db1 [sent|e] H1; [|done].
  apply wp_bind. eapply wp_mono; [apply IH|].
  intros db2 [more|e] H2; [|congruence].
  apply wp_ret. congruence.
Qed.

Lemma create_items user user_email contact_id current_date db :
  seller_order_items
    (OrderViewSet.create user user_email contact_id current_date db).1
  = seller_order_items db.
Proof.
  change (wp (OrderViewSet.create user user_email contact_id current_date)
             (λ db' _, seller_order_items db' = seller_order_items db) db).
  unfold OrderViewSet.create. apply wp_bind, wp_query.
  destruct (basket_object user db) as [[order order_row]|]; [|done].
  apply wp_bind. unfold wp at 1.
  pose proof (validate_contact_store user contact_id db) as Hstore.
  destruct (OrderViewSet.validate_contact user contact_id db)
    as [db1 [c|e]]; simpl in *; subst db1; [|done].
  apply wp_bind. unfold wp at 1. simpl.
  destruct (OrderViewSet.prefetch order db) as [tree|e]; [|done].
  destruct (OrderViewSet.acceptable_order _); [|done].
  apply wp_bind. eapply wp_mono; [apply confirm_seller_orders_items|].
  intros db1 [sent|e] H1; [|done].
  apply wp_bind, wp_modify. by apply wp_bind, wp_query.
Qed.

Lemma remaining_Some {A} (drop : A → bool) row r :
  remaining drop row = Some r → row = Some r.
Proof. destruct row as [x|]; simpl; [|done]. by destruct (drop x). Qed.

Lemma delete_items_kept user ids_to_del db k i :
  row_at (seller_order_items (BasketView.delete user ids_to_del db).1) k
  = Some i →
  row_at (seller_order_items db) k = Some i.
Proof.
  destruct (basket_object user db) as [[basket basket_row]|] eqn:Hbasket.
  - rewrite (delete_run _ _ _ _ _ Hbasket).
    case_bool_decide; [done|]. case_bool_decide; cbn [fst].
    + rewrite deleted_basket_items. apply remaining_Some.
    + unfold pruned, delete_items, BasketView.delete_seller_orders. simpl.
      rewrite !row_at_delete_where.
      destruct (row_at (seller_order_items db) k) as [r|]; [|done].
      destruct (bool_decide _); [done|]. by destruct (bool_decide _).
  - unfold BasketView.delete, bind, query. by rewrite Hbasket.
Qed.

(** C5, as stated, fails: after the price of the listing was changed by a
    later import, adding the same listing to the basket again overwrites
    the purchase prices of the line item with the new prices. *)
Lemma C5_counterexample :
  let repriced :=
    (import_products 7 "owner@example.com" (catalog [ball_dear]) basket_a).1 in
  let added_again := (BasketView.post 3 [(0%nat, 2)] repriced).1 in
  row_at (seller_order_items basket_a) 0 = Some (ball_item 100 150)
  ∧ row_at (seller_order_items repriced) 0 = Some (ball_item 100 150)
  ∧ row_at (seller_order_items added_again) 0 = Some (ball_item 120 180).
Proof. vm_compute. repeat split. Qed.

(** C5, amended.  A line item is not written by a catalog import, by the
    upsert of a listing or by a checkout, whatever they do to the price of
    its listing, and the pruner can only delete it.  A basket-add keeps the
    line item for the same listing in the same seller order, and either
    leaves it as it is or overwrites its purchase prices with the current
    prices of its listing. *)
Theorem C5_price_snapshot (db : DB) (k : nat) (i : SellerOrderItem) :
  row_at (seller_order_items db) k = Some i →
  (∀ user_id user_email json_data,
     row_at (seller_order_items
               (import_products user_id user_email json_data db).1) k
     = Some i)
  ∧ (∀ info shop,
       row_at (seller_order_items
                 (PartnerProductInfoSerializer.update_or_create info shop db).1)
              k
       = Some i)
  ∧ (∀ user user_email contact_id current_date,
       row_at (seller_order_items
                 (OrderViewSet.create user user_email contact_id current_date
                    db).1) k
       = Some i)
  ∧ (∀ user ids_to_del i',
       row_at (seller_order_items (BasketView.delete user ids_to_del db).1) k
       = Some i' → i' = i)
  ∧ (∀ user request_data,
       ∃ i', row_at (seller_order_items
                       (BasketView.post user request_data db).1) k
             = Some i'
             ∧ oi_order i' = oi_order i
             ∧ oi_product_info i' = oi_product_info i
             ∧ (i' = i ∨ listing_priced db i')).
Proof.
  intros Hrow. split; [|split; [|split; [|split]]].
  - intros. by rewrite import_products_items.
  - intros. by rewrite update_or_create_items.
  - intros. by rewrite create_items.
  - intros user ids_to_del i' Hi'. apply delete_items_kept in Hi'. congruence.
  - intros user request_data. by apply post_snapshot.
Qed.

Lemma C5_price_snapshot_witness :
  row_at (seller_order_items
            (import_products 7 "owner@example.com" (catalog [ball_dear])
               basket_a).1) 0
  = Some (ball_item 100 150).
Proof.
  destruct (C5_price_snapshot basket_a 0 (ball_item 100 150)) as [H _].
  - vm_compute. reflexivity.
  - apply H.
Defined.

Lemma C9_basket_before_filter_witness :
  BasketView.post 3 [(0%nat, 1)] shop_a_closed
  = (with_new_basket 3 shop_a_closed,
     Ok {| status_code := HTTP_201_CREATED;
           data := Tree (empty_basket_view shop_a_closed) |}).
Proof.
  destruct (C9_basket_before_filter 3 [(0%nat, 1)] shop_a_closed)
    as (_ & H & _); [reflexivity|].
  apply H.
  - intros k o Ho. vm_compute in Ho. discriminate.
  - intros item Hin. apply list_elem_of_singleton in Hin. subst item.
    split; [|simpl; lia].
    eexists. split; [vm_compute; reflexivity|].
    intros s Hs. vm_compute in Hs. by inversion Hs.
Defined.

Lemma short_basket_items_wf : items_wf short_basket.
Proof.
  intros [|k] i Hrow; vm_compute in Hrow; [|discriminate].
  inversion Hrow; subst. vm_compute. by eexists.
Qed.

Lemma C2_partial_acceptance_witness :
  ∃ annotations,
    OrderViewSet.create 3 "buyer@example.com" (Some 0%nat) 9 short_basket
    = (short_basket,
       Ok ({| status_code := HTTP_206_PARTIAL_CONTENT;
              data := Tree (render_order annotations short_basket
                              (0%nat, BasketView.new_basket 3)) |}, []))
    ∧ annotations !! 0%nat = Some (too_many 7 5).
Proof.
  destruct (C2_partial_acceptance 3 "buyer@example.com" (Some 0%nat) 9
              short_basket 0 (BasketView.new_basket 3)) as [_ H].
  - vm_compute. reflexivity.
  - eexists (0%nat, short_order), (0%nat, short_line), _.
    split; [apply elem_of_select; split; vm_compute; reflexivity|].
    split; [apply elem_of_select; split; vm_compute; reflexivity|].
    split; vm_compute; reflexivity.
  - destruct (H short_basket_items_wf 0%nat) as (annotations & Hrun & _ & Hann);
      [vm_compute; reflexivity|].
    exists annotations. split; [exact Hrun|].
    destruct (Hann (0%nat, short_order) (0%nat, short_line))
      as (p & Hp & Hstatus).
    + apply elem_of_select; split; vm_compute; reflexivity.
    + apply elem_of_select; split; vm_compute; reflexivity.
    + vm_compute in Hp. inversion Hp; subst. exact Hstatus.
Defined.

Lemma two_orders_baskets :
  baskets_of 0 two_orders
  = [(0%nat,
      [(0%nat, {| oi_order := 0; oi_product_info := 0; oi_quantity := 1;
                  purchase_price := 100; purchase_price_rrc := 150 |})]);
     (1%nat,
      [(1%nat, {| oi_order := 1; oi_product_info := 1; oi_quantity := 1;
                  purchase_price := 100; purchase_price_rrc := 150 |})])].
Proof. vm_compute. reflexivity. Qed.

Lemma C7_pruner_witness :
  ∃ db', BasketView.delete 3 {[0%nat]} two_orders
         = (db', Ok {| status_code := HTTP_200_OK;
                       data := Tree (render_order ∅ db'
                                       (0%nat, BasketView.new_basket 3)) |})
         ∧ row_at (seller_order_items db') 0 = None
         ∧ row_at (seller_orders db') 0 = None
         ∧ product_infos db' = product_infos two_orders.
Proof.
  destruct (C7_pruner 3 {[0%nat]} two_orders 0 (BasketView.new_basket 3))
    as [_ H].
  - vm_compute. reflexivity.
  - rewrite two_orders_baskets. simpl. unfold listing_ids. simpl.
    repeat split; repeat constructor. set_solver.
  - destruct H as (db' & Hrun & Hitems & Horders & _ & Hlistings).
    + unfold all_ordered_ids. rewrite two_orders_baskets. simpl. set_solver.
    + exists db'. split; [exact Hrun|].
      split; [rewrite Hitems; vm_compute; reflexivity|].
      split; [rewrite Horders; vm_compute; reflexivity|exact Hlistings].
Defined.

Lemma C6_shared_validation_witness :
  ∃ d, import_products 7 "owner@example.com" (catalog [ball_negative]) empty_db
       = (set_shops [Some (new_shop 7 "A" "owner@example.com" 300)] empty_db,
          Ok (InvalidProductInfo ball_negative d)).
Proof.
  destruct C6_shared_validation as (_ & _ & H). eexists.
  refine (proj1 (H 7%nat "owner@example.com" (catalog [ball_negative]) empty_db
                   "A" [toys] _ [] ball_negative [] [] _ _ _ 0%nat true
                   _ _ _ _ _)).
  - reflexivity.
  - reflexivity.
  - reflexivity.
  - reflexivity.
  - reflexivity.
Defined.

(* ================================================================== *)
(** * Further properties of the views *)
(* ================================================================== *)

Lemma split_cons sep s : ∃ item items, split sep s = item :: items.
Proof.
  induction s as [|c s (item & items & IH)]; simpl; [by eexists _, _|].
  rewrite IH. destruct (Ascii.eqb c sep); by eexists _, _.
Qed.

Lemma only_sep_split sep s :
  only_sep sep s = true ↔ List.filter nonempty (split sep s) = [].
Proof.
  induction s as [|c s IH]; simpl; [done|].
  destruct (split_cons sep s) as (item & items & Hs). rewrite Hs in *.
  destruct (Ascii.eqb c sep); simpl; [done|].
  split; [done|]. unfold nonempty at 1. simpl. done.
Qed.

Lemma lstrip_char_only sep s :
  lstrip_char sep s = EmptyString ↔ only_sep sep s = true.
Proof.
  induction s as [|c s IH]; simpl; [done|].
  destruct (Ascii.eqb c sep); simpl; [done|]. split; done.
Qed.

Lemma rstrip_char_only sep s :
  rstrip_char sep s = EmptyString ↔ only_sep sep s = true.
Proof.
  induction s as [|c s IH]; simpl; [done|].
  destruct (rstrip_char sep s) as [|c' r].
  - rewrite (proj1 IH eq_refl), andb_true_r.
    destruct (Ascii.eqb c sep); split; done.
  - split; [done|]. intros [_ H]%andb_true_iff. by apply IH in H.
Qed.

Lemma lstrip_char_split sep s :
  List.filter nonempty (split sep (lstrip_char sep s))
  = List.filter nonempty (split sep s).
Proof.
  induction s as [|c s IH]; simpl; [done|].
  destruct (Ascii.eqb c sep) eqn:E; simpl; [done|]. by rewrite E.
Qed.

Lemma only_sep_lstrip sep s :
  only_sep sep (lstrip_char sep s) = only_sep sep s.
Proof.
  induction s as [|c s IH]; simpl; [done|].
  destruct (Ascii.eqb c sep) eqn:E; simpl; [done|]. by rewrite E.
Qed.

Lemma split_String sep c s :
  split sep (String c s)
  = if Ascii.eqb c sep then EmptyString :: split sep s
    else match split sep s with
         | item :: items => String c item :: items
         | [] => [String c EmptyString]
         end.
Proof. reflexivity. Qed.

Lemma rstrip_char_String sep c s :
  rstrip_char sep (String c s)
  = match rstrip_char sep s with
    | EmptyString => if Ascii.eqb c sep then EmptyString else String c EmptyString
    | r => String c r
    end.
Proof. reflexivity. Qed.

(** The items of a string stripped on the right: those of the string,
    without the empty items at its end. *)
Lemma rstrip_char_split sep s :
  ∃ k, split sep s
       = match rstrip_char sep s with
         | EmptyString => []
         | r => split sep r
         end ++ replicate k EmptyString.
Proof.
  induction s as [|c s [k IH]]; [by exists 1%nat|].
  rewrite rstrip_char_String, split_String.
  destruct (rstrip_char sep s) as [|c' r] eqn:Er.
  - simpl in IH. rewrite IH.
    destruct (Ascii.eqb c sep) eqn:E.
    + by exists (S k).
    + rewrite split_String, E. simpl.
      destruct k as [|k]; simpl; [by exists 0%nat|by exists k].
  - rewrite IH. rewrite (split_String sep c (String c' r)).
    destruct (split_cons sep (String c' r)) as (item & items & Hr).
    rewrite Hr. simpl.
    destruct (Ascii.eqb c sep); by exists k.
Qed.

Lemma filter_nonempty_replicate k :
  List.filter nonempty (replicate k EmptyString) = [].
Proof. induction k; simpl; done. Qed.

Lemma filter_app_list {A} (P : A → bool) (l1 l2 : list A) :
  List.filter P (l1 ++ l2) = List.filter P l1 ++ List.filter P l2.
Proof. induction l1 as [|x l1 IH]; simpl; [done|]. destruct (P x); by rewrite IH. Qed.

Lemma strip_char_split sep s :
  strip_char sep s ≠ EmptyString →
  List.filter nonempty (split sep (strip_char sep s))
  = List.filter nonempty (split sep s).
Proof.
  unfold strip_char. intros Hne.
  rewrite <- (lstrip_char_split sep s).
  destruct (rstrip_char_split sep (lstrip_char sep s)) as [k Hk].
  rewrite Hk. destruct (rstrip_char sep (lstrip_char sep s)); [done|].
  by rewrite filter_app_list, filter_nonempty_replicate, app_nil_r.
Qed.

Lemma strip_char_empty sep s :
  strip_char sep s = EmptyString ↔ List.filter nonempty (split sep s) = [].
Proof.
  unfold strip_char.
  by rewrite rstrip_char_only, only_sep_lstrip, only_sep_split.
Qed.

Lemma collect_ids_named py items acc :
  collect_ids py items acc
  = collect_ids py (List.filter nonempty items) acc.
Proof.
  revert acc. induction items as [|item items IH]; intros acc; simpl; [done|].
  unfold nonempty at 1. case_bool_decide as He; simpl; [done|].
  rewrite (bool_decide_eq_false_2 _ He).
  destruct (isdigit py item); [|done].
  destruct (int py item) as [id|]; [|done].
  destruct (0 <? id)%N; [|done]. apply IH.
Qed.

Lemma parse_ids_named py value :
  parse_ids py (Some value)
  = match named_items value with
    | [] => Answered (param_value_error ",")
    | items => collect_ids py items ∅
    end.
Proof.
  unfold parse_ids, named_items. fold nonempty.
  case_bool_decide as He.
  - apply strip_char_empty in He. by rewrite He.
  - rewrite collect_ids_named, (strip_char_split _ _ He).
    destruct (List.filter nonempty (split _ value)) eqn:E; [|done].
    by apply strip_char_empty in E.
Qed.

Lemma nonempty_filter items :
  Forall (λ item, item ≠ EmptyString) (List.filter nonempty items).
Proof.
  apply Forall_forall. intros item Hin.
  apply list_elem_of_In, filter_In in Hin as [_ Hne].
  unfold nonempty in Hne. by case_bool_decide.
Qed.

Lemma collect_ids_accepts py items acc ids :
  Forall (λ item, item ≠ EmptyString) items →
  collect_ids py items acc = Parsed ids
  ↔ ∃ l, Forall2 (names_id py) items l ∧ ids = list_to_set l ∪ acc.
Proof.
  intros Hne. revert acc. induction Hne as [|item items Hi _ IH]; intros acc.
  - simpl. split.
    + intros [= <-]. exists []. split; [constructor|set_solver].
    + intros (l & Hl & ->). inversion Hl; subst. f_equal. set_solver.
  - simpl. rewrite (bool_decide_eq_false_2 _ Hi).
    destruct (isdigit py item) eqn:Ed.
    2:{ split; [done|]. intros (l & Hl & _). inversion Hl as [|? ? ? ? Hn]; subst.
        destruct Hn as [Hn _]. congruence. }
    destruct (int py item) as [id|] eqn:Eint.
    2:{ split; [done|]. intros (l & Hl & _). inversion Hl as [|? ? ? ? Hn]; subst.
        destruct Hn as (_ & Hn & _). congruence. }
    destruct (0 <? id)%N eqn:Epos.
    2:{ split; [done|]. intros (l & Hl & _). inversion Hl as [|? ? ? ? Hn]; subst.
        destruct Hn as (_ & Hn & Hp). apply N.ltb_ge in Epos.
        assert (y = id) by congruence. lia. }
    rewrite IH. apply N.ltb_lt in Epos. split.
    + intros (l & Hl & ->). exists (id :: l). split; [by constructor|].
      set_solver.
    + intros (l & Hl & ->). inversion Hl as [|? y ? l' Hn Hl']; subst.
      destruct Hn as (_ & Hn & _). assert (y = id) as -> by congruence.
      exists l'. split; [done|]. set_solver.
Qed.

Lemma collect_ids_rejects py pre l item post acc :
  Forall2 (names_id py) pre l → item ≠ EmptyString →
  collect_ids py (pre ++ item :: post) acc
  = if isdigit py item
    then match int py item with
         | None => ValueError item
         | Some id =>
             if (0 <? id)%N
             then collect_ids py post ({[id]} ∪ (list_to_set (rev l) ∪ acc))
             else Answered (param_value_error item)
         end
    else Answered (param_value_error item).
Proof.
  intros Hpre Hne. revert acc.
  induction Hpre as [|x id pre l (Hd & Hint & Hpos) _ IH]; intros acc; simpl.
  - rewrite (bool_decide_eq_false_2 _ Hne).
    destruct (isdigit py item); [|done]. destruct (int py item) as [id|]; [|done].
    destruct (0 <? id)%N; [|done]. f_equal. set_solver.
  - assert (x ≠ EmptyString) as Hx by (intros ->; done).
    rewrite (bool_decide_eq_false_2 _ Hx), Hd, Hint.
    rewrite (proj2 (N.ltb_lt _ _) Hpos). rewrite IH.
    destruct (isdigit py item); [|done]. destruct (int py item) as [id'|]; [|done].
    destruct (0 <? id')%N; [|done]. f_equal.
    rewrite list_to_set_app_L. set_solver.
Qed.

(** *** Digits *)

Lemma utf8_chars_cons c s :
  match s with
  | String c' _ => is_continuation c' = false
  | EmptyString => True
  end →
  utf8_chars (String c s) = String c EmptyString :: utf8_chars s.
Proof. destruct s as [|c' s]; simpl; [done|]. by intros ->. Qed.

Lemma string_of_uint_head d :
  match NilEmpty.string_of_uint d with
  | String c' _ => is_continuation c' = false
  | EmptyString => True
  end.
Proof. destruct d; done. Qed.

Lemma code_points_uint d :
  code_points (NilEmpty.string_of_uint d) = (λ x, 48 + x)%N <$> uint_digits d.
Proof.
  unfold code_points.
  induction d as [|d IH|d IH|d IH|d IH|d IH|d IH|d IH|d IH|d IH|d IH];
    [done|..];
    cbn [NilEmpty.string_of_uint uint_digits];
    rewrite utf8_chars_cons by apply string_of_uint_head;
    rewrite !fmap_cons, IH; reflexivity.
Qed.

Lemma uint_digits_lt d : Forall (λ x, (x < 10)%N) (uint_digits d).
Proof. induction d; simpl; constructor; done || lia. Qed.

Lemma decimal_ascii py x : (x < 10)%N → decimal py (48 + x) = Some x.
Proof.
  intros Hx. unfold decimal.
  rewrite (proj2 (N.ltb_lt _ _)) by lia.
  rewrite (proj2 (N.leb_le 48 _)), (proj2 (N.leb_le _ 57)) by lia.
  simpl. f_equal. lia.
Qed.

Lemma mapM_decimal_uint py d :
  mapM (decimal py) (code_points (NilEmpty.string_of_uint d))
  = Some (uint_digits d).
Proof.
  rewrite code_points_uint. apply mapM_Some, Forall2_fmap_l.
  apply Forall_Forall2_diag. eapply Forall_impl; [apply uint_digits_lt|].
  intros x Hx. by apply decimal_ascii.
Qed.

Lemma foldl_of_uint_acc d acc :
  foldl (λ n x, 10 * n + x)%N (Npos acc) (uint_digits d)
  = Npos (Pos.of_uint_acc d acc).
Proof.
  revert acc. induction d; intros acc; simpl; [done|..];
    (etrans; [|apply IHd]); f_equal; lia.
Qed.

Lemma foldl_of_uint d :
  foldl (λ n x, 10 * n + x)%N 0%N (uint_digits d) = N.of_uint d.
Proof.
  unfold N.of_uint.
  induction d; simpl; [done|done|..];
    (etrans; [|apply foldl_of_uint_acc]); done.
Qed.

Lemma len_uint d :
  len (NilEmpty.string_of_uint d) = String.length (NilEmpty.string_of_uint d).
Proof.
  unfold len. induction d; [done|..];
    cbn [NilEmpty.string_of_uint String.length];
    rewrite utf8_chars_cons by apply string_of_uint_head;
    simpl; by rewrite IHd.
Qed.

Lemma str_nonempty n : str n ≠ EmptyString.
Proof.
  unfold str. destruct n as [|p]; [done|]. simpl.
  pose proof (Unsigned.to_uint_nonnil p) as H.
  destruct (Pos.to_uint p); done.
Qed.

Lemma isdigit_str py n : isdigit py (str n) = true.
Proof.
  unfold isdigit. rewrite (bool_decide_eq_false_2 _ (str_nonempty n)).
  unfold str. rewrite code_points_uint. apply forallb_forall.
  intros c Hin. apply list_elem_of_In, list_elem_of_fmap in Hin as (x & -> & Hx).
  unfold is_digit. rewrite decimal_ascii; [done|].
  by eapply (proj1 (Forall_forall _ _) (uint_digits_lt _)).
Qed.

Lemma int_str py n :
  match int_max_str_digits py with
  | Some m => (String.length (str n) ≤ m)%nat
  | None => True
  end →
  int py (str n) = Some n.
Proof.
  unfold int. intros Hlen.
  rewrite (bool_decide_eq_false_2 _ (str_nonempty n)).
  unfold str in *. rewrite mapM_decimal_uint, len_uint. simpl.
  rewrite foldl_of_uint, DecimalN.Unsigned.of_to.
  destruct (int_max_str_digits py) as [m|]; [|done].
  by rewrite (proj2 (Nat.ltb_ge _ _) Hlen).
Qed.

(** On a string of digits [int] raises in two cases: a digit is not a
    decimal, or the string is longer than the limit. *)
Lemma int_None py item :
  isdigit py item = true →
  int py item = None
  ↔ (∃ c, c ∈ code_points item ∧ decimal py c = None)
    ∨ ∃ m, int_max_str_digits py = Some m ∧ (m < len item)%nat.
Proof.
  unfold isdigit, int. intros [Hne _]%andb_true_iff. rewrite Hne, andb_true_r.
  assert (mapM (decimal py) (code_points item) = None
          ↔ ∃ c, c ∈ code_points item ∧ decimal py c = None) as Hdec.
  { rewrite eq_None_not_Some, mapM_is_Some. split.
    - intros Hex. apply not_Forall_Exists in Hex; [|intros c; apply _].
      apply Exists_exists in Hex as (c & Hin & Hc). exists c. split; [done|].
      simpl in Hc. by apply eq_None_not_Some.
    - intros (c & Hin & Hc) Hall.
      apply (proj1 (Forall_forall _ _) Hall) in Hin. simpl in Hin.
      rewrite Hc in Hin. by destruct Hin. }
  destruct (int_max_str_digits py) as [m|].
  - destruct (m <? len item)%nat eqn:E; simpl.
    + apply Nat.ltb_lt in E. split; [|done]. intros _. right. by exists m.
    + apply Nat.ltb_ge in E. rewrite fmap_None, Hdec. split; [by left|].
      intros [H|(m' & [= <-] & ?)]; [done|lia].
  - simpl. rewrite fmap_None, Hdec. split; [by left|].
    intros [H|(m' & ? & _)]; done.
Qed.

(** *** Joining and splitting *)

Lemma split_numeral d :
  split BASKET_DEL_PARAM_DELIMITER (NilEmpty.string_of_uint d)
  = [NilEmpty.string_of_uint d].
Proof.
  induction d; [done|..]; cbn [NilEmpty.string_of_uint];
    rewrite split_String, IHd; reflexivity.
Qed.

Lemma split_append d rest :
  split BASKET_DEL_PARAM_DELIMITER
        (NilEmpty.string_of_uint d ++ String BASKET_DEL_PARAM_DELIMITER rest)%string
  = NilEmpty.string_of_uint d :: split BASKET_DEL_PARAM_DELIMITER rest.
Proof.
  induction d; [done|..]; cbn [NilEmpty.string_of_uint];
    match goal with
    | |- context [(String ?c ?s ++ ?t)%string] =>
        change (String c s ++ t)%string with (String c (s ++ t)%string)
    end;
    rewrite split_String, IHd; reflexivity.
Qed.

Lemma split_join l :
  l ≠ [] →
  split BASKET_DEL_PARAM_DELIMITER (String.concat "," (map str l)) = map str l.
Proof.
  intros Hne. induction l as [|n l IH]; [done|].
  destruct l as [|n' l].
  - simpl. apply split_numeral.
  - change (String.concat "," (map str (n :: n' :: l)))
      with (str n ++ String BASKET_DEL_PARAM_DELIMITER
                      (String.concat "," (map str (n' :: l))))%string.
    unfold str at 1. rewrite split_append. simpl map. f_equal. by apply IH.
Qed.

Lemma named_items_join l :
  l ≠ [] → named_items (String.concat "," (map str l)) = map str l.
Proof.
  intros Hne. unfold named_items. rewrite split_join by done.
  clear Hne. induction l as [|n l IH]; [done|]. simpl.
  rewrite (bool_decide_eq_false_2 _ (str_nonempty n)). simpl. by f_equal.
Qed.

Lemma id_of_names py item id :
  id_of py item = Some id ↔ names_id py item id.
Proof.
  unfold id_of, names_id. destruct (isdigit py item); [|by split; [|intros [? _]]].
  destruct (int py item) as [id'|]; [|by split; [|intros (_ & ? & _)]].
  destruct (0 <? id')%N eqn:E.
  - apply N.ltb_lt in E. split; [by intros [= <-]|]. by intros (_ & [= <-] & _).
  - apply N.ltb_ge in E. split; [done|]. intros (_ & [= <-] & ?). lia.
Qed.

(** Either every item names a listing, or there is a first one that does
    not. *)
Lemma first_bad_item py items :
  (∃ l, Forall2 (names_id py) items l)
  ∨ ∃ pre l item post,
      items = pre ++ item :: post ∧ Forall2 (names_id py) pre l
      ∧ id_of py item = None.
Proof.
  induction items as [|item items IH]; [left; exists []; constructor|].
  destruct (id_of py item) as [id|] eqn:E.
  - apply id_of_names in E. destruct IH as [[l Hl]|(pre & l & bad & post & -> & Hl & Hb)].
    + left. exists (id :: l). by constructor.
    + right. exists (item :: pre), (id :: l), bad, post.
      split; [done|]. split; [by constructor|done].
  - right. exists [], [], item, items. split; [done|]. split; [constructor|done].
Qed.

Lemma named_items_nonempty value :
  Forall (λ item, item ≠ EmptyString) (named_items value).
Proof. exact (nonempty_filter (split BASKET_DEL_PARAM_DELIMITER value)). Qed.

(** Leading, trailing and repeated delimiters do not matter: a parameter
    without a named item is answered with the delimiter as the invalid
    value, and two parameters with the same named items are parsed alike. *)
Theorem parse_ids_items (py : interpreter) (value : string) :
  (named_items value = [] →
   parse_ids py (Some value) = Answered (param_value_error ","))
  ∧ (∀ value', named_items value' = named_items value →
               parse_ids py (Some value') = parse_ids py (Some value)).
Proof.
  split.
  - intros H. by rewrite parse_ids_named, H.
  - intros value' H. by rewrite !parse_ids_named, H.
Qed.

Lemma parse_ids_Parsed py value ids_to_del :
  parse_ids py (Some value) = Parsed ids_to_del
  ↔ named_items value ≠ []
    ∧ ∃ l, Forall2 (names_id py) (named_items value) l
           ∧ ids_to_del = list_to_set l.
Proof.
  rewrite parse_ids_named.
  pose proof (named_items_nonempty value) as Hne.
  destruct (named_items value) as [|item items] eqn:E.
  - split; [done|]. by intros [? _].
  - rewrite (collect_ids_accepts _ _ _ _ Hne). split.
    + intros (l & Hl & ->). split; [done|]. exists l. split; [done|].
      set_solver.
    + intros (_ & l & Hl & ->). exists l. split; [done|]. set_solver.
Qed.

(** The parameter is accepted exactly when it has a named item and every
    named item is a string of digits, of any script, that [int] converts
    to a positive number: each of its characters is a decimal of the
    Unicode database.  The set holds these numbers.  An accepted set is
    never empty and holds positive numbers only. *)
Theorem parse_ids_accepts (py : interpreter) (value : string)
    (ids_to_del : gset N) :
  (parse_ids py (Some value) = Parsed ids_to_del
   ↔ named_items value ≠ []
     ∧ ∃ l, Forall2 (names_id py) (named_items value) l
            ∧ ids_to_del = list_to_set l)
  ∧ (parse_ids py (Some value) = Parsed ids_to_del →
     ids_to_del ≠ ∅ ∧ ∀ id, id ∈ ids_to_del → (0 < id)%N).
Proof.
  pose proof (parse_ids_Parsed py value ids_to_del) as Hiff.
  split; [exact Hiff|].
  intros (Hne & l & Hl & ->)%Hiff. split.
  - destruct Hl as [|item id items l Hn Hl]; [done|]. set_solver.
  - intros id Hin. apply elem_of_list_to_set in Hin.
    apply list_elem_of_lookup in Hin as [i Hi].
    destruct (Forall2_lookup_r _ _ _ _ _ Hl Hi) as (item & _ & (_ & _ & Hp)).
    exact Hp.
Qed.

(** The first named item that [isdigit] refuses, or that [int] converts to
    zero, is the one the answer reports as invalid, whatever follows it. *)
Theorem parse_ids_rejects (py : interpreter) (value : string)
    (pre : list string) (l : list N) (item : string) (post : list string) :
  named_items value = pre ++ item :: post →
  Forall2 (names_id py) pre l →
  isdigit py item = false ∨ int py item = Some 0%N →
  parse_ids py (Some value) = Answered (param_value_error item).
Proof.
  intros Hitems Hpre Hbad. rewrite parse_ids_named, Hitems.
  assert (item ≠ EmptyString) as Hne.
  { pose proof (named_items_nonempty value) as H. rewrite Hitems in H.
    apply Forall_app in H as [_ H]. by inversion H. }
  assert (collect_ids py (pre ++ item :: post) ∅
          = Answered (param_value_error item)) as Hrun.
  { rewrite (collect_ids_rejects _ _ _ _ _ _ Hpre Hne).
    destruct Hbad as [->|Hz]; [done|]. rewrite Hz.
    by destruct (isdigit py item). }
  rewrite <- Hrun. by destruct pre.
Qed.

(** [int] raises for a named item, all the named items before it being
    accepted, exactly when the item is a string of digits and either one of
    its characters is a digit without being a decimal (a superscript, a
    circled digit), or the interpreter limits the length of the strings
    that [int] converts and the item is longer than the limit; the
    exception is not caught. *)
Theorem parse_ids_value_error (py : interpreter) (value item : string) :
  parse_ids py (Some value) = ValueError item
  ↔ ∃ pre l post,
      named_items value = pre ++ item :: post
      ∧ Forall2 (names_id py) pre l
      ∧ isdigit py item = true
      ∧ ((∃ c, c ∈ code_points item ∧ decimal py c = None)
         ∨ ∃ m, int_max_str_digits py = Some m ∧ (m < len item)%nat).
Proof.
  rewrite parse_ids_named.
  pose proof (named_items_nonempty value) as Hne.
  assert (∀ pre l bad post,
            named_items value = pre ++ bad :: post →
            Forall2 (names_id py) pre l →
            match named_items value with
            | [] => Answered (param_value_error ",")
            | items => collect_ids py items ∅
            end
            = if isdigit py bad
              then match int py bad with
                   | None => ValueError bad
                   | Some id =>
                       if (0 <? id)%N
                       then collect_ids py post
                              ({[id]} ∪ (list_to_set (rev l) ∪ ∅))
                       else Answered (param_value_error bad)
                   end
              else Answered (param_value_error bad)) as Hrun.
  { intros pre l bad post Hitems Hpre. rewrite Hitems in *.
    apply Forall_app in Hne as [_ Hb]. inversion Hb; subst.
    rewrite <- (collect_ids_rejects _ _ _ _ _ _ Hpre); [|done].
    by destruct pre. }
  split.
  - intros Hval.
    destruct (first_bad_item py (named_items value))
      as [[l Hl]|(pre & l & bad & post & Hitems & Hpre & Hbad)].
    + exfalso. destruct (named_items value) as [|i items] eqn:E; [done|].
      assert (collect_ids py (i :: items) ∅ = Parsed (list_to_set l ∪ ∅))
        as Hacc by (apply collect_ids_accepts; [done|by exists l]).
      congruence.
    + rewrite (Hrun _ _ _ _ Hitems Hpre) in Hval. unfold id_of in Hbad.
      destruct (isdigit py bad) eqn:Ed; [|done].
      destruct (int py bad) as [id|] eqn:Ei.
      * destruct (0 <? id)%N; done.
      * inversion Hval; subst bad.
        apply (int_None _ _ Ed) in Ei.
        by exists pre, l, post.
  - intros (pre & l & post & Hitems & Hpre & Hd & Hbad).
    rewrite (Hrun _ _ _ _ Hitems Hpre), Hd.
    by rewrite (proj2 (int_None py item Hd) Hbad).
Qed.

(** Round trip: the decimal numerals of a non-empty list of positive ids,
    joined by the delimiter, are parsed to the set of these ids (where [int]
    has a limit, for numerals within it). *)
Theorem parse_ids_round_trip (py : interpreter) (l : list N) :
  l ≠ [] →
  (∀ id, id ∈ l →
         (0 < id)%N
         ∧ match int_max_str_digits py with
           | Some m => (String.length (str id) ≤ m)%nat
           | None => True
           end) →
  parse_ids py (Some (String.concat "," (map str l)))
  = Parsed (list_to_set l).
Proof.
  intros Hne Hall.
  apply parse_ids_Parsed.
  rewrite (named_items_join l Hne). split; [by destruct l|].
  exists l. split; [|done].
  apply Forall2_fmap_l, Forall_Forall2_diag, Forall_forall.
  intros id Hin. destruct (Hall id Hin) as [Hpos Hlen].
  split; [apply isdigit_str|]. split; [by apply int_str|done].
Qed.

Lemma parse_ids_rejects_witness :
  parse_ids python_3_11 (Some ",1,,x7,0,")
  = Answered (param_value_error "x7").
Proof.
  apply (parse_ids_rejects _ _ ["1"%string] [1%N] "x7" ["0"%string]).
  - vm_compute. reflexivity.
  - repeat constructor.
  - left. reflexivity.
Defined.

Lemma parse_ids_round_trip_witness :
  parse_ids python_3_11 (Some (String.concat "," (map str [1; 20; 5]%N)))
  = Parsed (list_to_set [1; 20; 5]%N).
Proof.
  apply parse_ids_round_trip; [done|].
  intros id Hin.
  repeat (apply elem_of_cons in Hin as [->|Hin];
          [split; [lia|apply Nat.leb_le; vm_compute; reflexivity]|]).
  by apply elem_of_nil in Hin.
Defined.

(** The Arabic-Indic digit three names the listing 3. *)
Lemma parse_ids_accepts_witness :
  parse_ids python_3_11 (Some "٣,12") = Parsed (list_to_set [3; 12]%N).
Proof.
  apply (proj2 (proj1 (parse_ids_accepts python_3_11 "٣,12" _))).
  split; [by vm_compute|].
  exists [3; 12]%N. split; [|done].
  assert (named_items "٣,12" = ["٣"; "12"]%string) as -> by (by vm_compute).
  repeat constructor; vm_compute; reflexivity.
Defined.

(** The superscript two is a digit without a decimal value: [int] raises. *)
Lemma parse_ids_value_error_witness :
  parse_ids python_3_11 (Some "7,²,x") = ValueError "²".
Proof.
  apply (proj2 (parse_ids_value_error python_3_11 "7,²,x" "²")).
  exists ["7"%string], [7%N], ["x"%string].
  split; [by vm_compute|]. split; [|split; [by vm_compute|]].
  - repeat constructor; vm_compute; reflexivity.
  - left. exists 178%N. split; [|by vm_compute].
    assert (code_points "²" = [178%N]) as -> by (by vm_compute).
    apply list_elem_of_singleton. reflexivity.
Defined.

(* ================================================================== *)
(** ** What a basket-add writes *)
(* ================================================================== *)

Section BasketAdd.
Import BasketView.

Lemma in_basket_prefix basket db db' i :
  seller_orders db `prefix_of` seller_orders db' →
  in_basket basket db i = true → in_basket basket db' i = true.
Proof.
  intros Hp [o [Ho Hb]]%in_basket_spec. apply in_basket_spec.
  exists o. split; [by eapply row_at_prefix|done].
Qed.

Lemma adds_step_refl basket keys db0 db : adds_step basket keys db0 db db.
Proof.
  split; [apply basket_step_refl|]. split; [done|].
  split; [intros k o H1 H2; congruence|].
  split; [|intros k i H1 H2; congruence].
  intros k i Hi. exists i. by repeat split; try left.
Qed.

Lemma adds_step_trans basket keys db0 db1 db2 db3 :
  adds_step basket keys db0 db1 db2 → adds_step basket keys db0 db2 db3 →
  adds_step basket keys db0 db1 db3.
Proof.
  intros (B1 & P1 & N1 & I1 & J1) (B2 & P2 & N2 & I2 & J2).
  split; [by eapply basket_step_trans|]. split; [by etrans|].
  split; [|split].
  - intros k o Ho3 Ho1.
    destruct (row_at (seller_orders db2) k) as [o2|] eqn:Ho2.
    + assert (o2 = o) as -> by (eapply row_at_prefix in Ho2; [|exact P2];
                               congruence).
      by eapply N1.
    + by eapply N2.
  - intros k i Hi.
    destruct (I1 k i Hi) as (i' & Hi' & Ho & Hp & Hc).
    destruct (I2 k i' Hi') as (i'' & Hi'' & Ho' & Hp' & Hc').
    exists i''. split; [done|]. split; [congruence|]. split; [congruence|].
    destruct Hc' as [->|?]; [|by right].
    destruct Hc as [->|[? ?]]; [by left|]. right.
    split; [done|]. by eapply in_basket_prefix.
  - intros k i'' Hi3 Hi1.
    destruct (row_at (seller_order_items db2) k) as [i2|] eqn:Hi2.
    + destruct (J1 k i2 Hi2 Hi1) as [Hs Hb].
      destruct (I2 k i2 Hi2) as (i3 & Hi3' & _ & _ & Hc).
      assert (i3 = i'') as -> by congruence.
      destruct Hc as [->|?]; [|done].
      split; [done|]. by eapply in_basket_prefix.
    + by eapply J2.
Qed.

Lemma placed_step basket keys db0 db db' shop pk :
  adds_step basket keys db0 db db' →
  placed basket keys db0 db shop pk → placed basket keys db0 db' shop pk.
Proof.
  intros (_ & P & _ & I & _) (k & i & o & Hi & Hpk & Hs & Ho & Hb & Hsh & Hst).
  destruct (I k i Hi) as (i' & Hi' & Ho' & Hp' & Hc).
  exists k, i', o. split; [done|]. split; [congruence|].
  split; [by destruct Hc as [->|[? _]]|].
  rewrite Ho'. split; [by eapply row_at_prefix|done].
Qed.

Lemma seller_order_get_or_create_adds basket keys db0 shop s shipping db :
  row_at (shops db0) shop = Some s → is_open s = true →
  wp (seller_order_get_or_create basket shop shipping)
     (λ db' r,
        adds_step basket keys db0 db db'
        ∧ ∀ order, r = Ok order →
                   ∃ o, row_at (seller_orders db') order = Some o
                        ∧ so_buyer_order o = basket ∧ so_shop o = shop
                        ∧ so_state o = SO_basket) db.
Proof.
  intros Hs Hopen. unfold wp, seller_order_get_or_create.
  destruct (get_unique _) as [[[pk o]|]|e] eqn:E; simpl.
  - split; [apply adds_step_refl|]. intros order [= <-].
    apply get_unique_Some in E.
    assert ((pk, o) ∈ select
              (λ _ o, bool_decide (so_buyer_order o = basket
                                   ∧ so_shop o = shop ∧ so_state o = SO_basket))
              (seller_orders db)) as Hin by (rewrite E; left).
    apply elem_of_select in Hin as [Hrow Hb].
    apply bool_decide_eq_true in Hb as (? & ? & ?). by exists o.
  - split.
    + split; [by repeat split|]. simpl. split; [apply prefix_of_snoc|].
      split; [|split].
      * intros k o Hk Hnone.
        destruct (decide (k < length (seller_orders db))%nat) as [Hlt|Hge].
        { rewrite row_at_app_l in Hk by done. congruence. }
        assert (k = length (seller_orders db)) as ->.
        { apply row_at_lt in Hk. rewrite length_app in Hk. simpl in Hk. lia. }
        rewrite row_at_insert_new in Hk. inversion Hk; subst.
        split; [done|]. split; [done|]. by exists s.
      * intros k i Hi. exists i. by repeat split; try left.
      * intros k i Hi Hnone. congruence.
    + intros order [= <-]. eexists. split; [apply row_at_insert_new|done].
  - split; [apply adds_step_refl|]. intros order [=].
Qed.

Lemma item_update_or_create_adds basket keys db0 order o pk q p s db :
  keys !! pk = Some q →
  row_at (product_infos db0) pk = Some p →
  row_at (shops db0) (pi_shop p) = Some s → is_open s = true →
  row_at (seller_orders db) order = Some o → so_buyer_order o = basket →
  wp (item_update_or_create order pk q (price p) (price_rrc p))
     (λ db' r,
        adds_step basket keys db0 db db'
        ∧ (r = Ok tt →
           ∃ k i, row_at (seller_order_items db') k = Some i
                  ∧ oi_order i = order ∧ oi_product_info i = pk
                  ∧ settled keys db0 i)) db.
Proof.
  intros Hq Hp Hs Hopen Ho Hb. unfold wp, item_update_or_create.
  set (row := {| oi_order := order; oi_product_info := pk; oi_quantity := q;
                 purchase_price := price p;
                 purchase_price_rrc := price_rrc p |}).
  assert (settled keys db0 row) as Hset by (by exists p, s).
  assert (∀ db', seller_orders db' = seller_orders db →
                 in_basket basket db' row = true) as Hin.
  { intros db' Heq. apply in_basket_spec. exists o. by rewrite Heq. }
  destruct (get_unique _) as [[[k0 r0]|]|e] eqn:E; simpl.
  - apply get_unique_Some in E.
    assert ((k0, r0) ∈ select
              (λ _ i, bool_decide (oi_order i = order
                                   ∧ oi_product_info i = pk))
              (seller_order_items db)) as Hmem by (rewrite E; left).
    apply elem_of_select in Hmem as [Hrow0 Hkey].
    apply bool_decide_eq_true in Hkey as [Hko Hkp].
    split.
    + split; [by repeat split|]. simpl. split; [done|].
      split; [intros k o' H1 H2; congruence|]. split.
      * intros k i Hi. destruct (decide (k0 = k)) as [->|Hne].
        -- exists row. split; [by eapply row_at_save_eq|].
           assert (r0 = i) as -> by congruence.
           split; [done|]. split; [done|]. right. split; [done|].
           by apply Hin.
        -- exists i. rewrite row_at_save_ne by done. by repeat split; try left.
      * intros k i' Hi' Hnone. destruct (decide (k0 = k)) as [->|Hne].
        -- congruence.
        -- rewrite row_at_save_ne in Hi' by done. congruence.
    + intros _. exists k0, row. split; [by eapply row_at_save_eq|done].
  - split.
    + split; [by repeat split|]. simpl. split; [done|].
      split; [intros k o' H1 H2; congruence|]. split.
      * intros k i Hi. exists i. split; [by apply row_at_app_Some|].
        by repeat split; try left.
      * intros k i' Hi' Hnone.
        destruct (decide (k < length (seller_order_items db))%nat) as [Hlt|Hge].
        { rewrite row_at_app_l in Hi' by done. congruence. }
        assert (k = length (seller_order_items db)) as ->.
        { apply row_at_lt in Hi'. rewrite length_app in Hi'. simpl in Hi'. lia. }
        rewrite row_at_insert_new in Hi'. inversion Hi'; subst i'.
        split; [done|]. by apply Hin.
    + intros _. exists (length (seller_order_items db)), row.
      split; [apply row_at_insert_new|done].
  - split; [apply adds_step_refl|]. intros [=].
Qed.

End BasketAdd.

Section BasketAddLoop.
Import BasketView.

Lemma shops_with_ordered_products_open keys db entry :
  entry ∈ shops_with_ordered_products keys db → open_entry keys db entry.
Proof.
  unfold shops_with_ordered_products. intros Hentry.
  apply list_elem_of_In, in_flat_map in Hentry as ([sk s] & Hs & Hentry).
  apply in_map_iff in Hentry as (x & <- & _). simpl.
  apply list_elem_of_In, elem_of_select in Hs as [Hs Hopen].
  split; [done|]. split; [done|]. intros pk p Hin.
  apply elem_of_select in Hin as [Hp Hb].
  by apply bool_decide_eq_true in Hb as [? ?].
Qed.

Lemma shops_with_ordered_products_elem keys db pk p s :
  is_Some (keys !! pk) → row_at (product_infos db) pk = Some p →
  row_at (shops db) (pi_shop p) = Some s → is_open s = true →
  ∃ entry, entry ∈ shops_with_ordered_products keys db
           ∧ fst (fst entry) = pi_shop p ∧ (pk, p) ∈ snd entry.
Proof.
  intros Hk Hp Hs Hopen.
  exists (pi_shop p, s, requested_listings keys (pi_shop p) db).
  assert ((pk, p) ∈ requested_listings keys (pi_shop p) db) as Hin.
  { apply elem_of_select. split; [done|]. by apply bool_decide_eq_true. }
  split; [|done].
  unfold shops_with_ordered_products. apply list_elem_of_In, in_flat_map.
  exists (pi_shop p, s). split.
  - apply list_elem_of_In, elem_of_select. done.
  - simpl. apply in_map_iff. exists (pk, p). split; [done|].
    by apply list_elem_of_In.
Qed.

Lemma wp_conj {A} (m : M A) (P Q : DB → res A → Prop) db :
  wp m P db → wp m Q db → wp m (λ db' r, P db' r ∧ Q db' r) db.
Proof. unfold wp. done. Qed.

Lemma item_kept basket keys db0 db db' order pk :
  adds_step basket keys db0 db db' →
  (∃ k i, row_at (seller_order_items db) k = Some i
          ∧ oi_order i = order ∧ oi_product_info i = pk
          ∧ settled keys db0 i) →
  ∃ k i, row_at (seller_order_items db') k = Some i
         ∧ oi_order i = order ∧ oi_product_info i = pk
         ∧ settled keys db0 i.
Proof.
  intros (_ & _ & _ & I & _) (k & i & Hi & Ho & Hp & Hs).
  destruct (I k i Hi) as (i' & Hi' & Ho' & Hp' & Hc).
  exists k, i'. split; [done|]. split; [congruence|]. split; [congruence|].
  by destruct Hc as [->|[? _]].
Qed.

Lemma fill_items_adds basket keys db0 sk s order o listings db :
  open_entry keys db0 (sk, s, listings) →
  row_at (seller_orders db) order = Some o → so_buyer_order o = basket →
  wp (fill_items order keys listings)
     (λ db' r,
        adds_step basket keys db0 db db'
        ∧ (r = Ok tt →
           ∀ pk p, (pk, p) ∈ listings →
                   ∃ k i, row_at (seller_order_items db') k = Some i
                          ∧ oi_order i = order ∧ oi_product_info i = pk
                          ∧ settled keys db0 i)) db.
Proof.
  intros (Hs & Hopen & Hl) Ho Hob. simpl in *.
  assert (∀ pk p db2, (pk, p) ∈ listings → adds_step basket keys db0 db db2 →
            wp (match keys !! pk with
                | None => raise (KeyError (pretty pk))
                | Some requested =>
                    item_update_or_create order pk requested
                      (price p) (price_rrc p)
                end)
               (λ db3 r,
                  adds_step basket keys db0 db2 db3
                  ∧ (r = Ok tt →
                     ∃ k i, row_at (seller_order_items db3) k = Some i
                            ∧ oi_order i = order ∧ oi_product_info i = pk
                            ∧ settled keys db0 i)) db2) as Hbody.
  { intros pk p db2 Hin (_ & P2 & _).
    destruct (Hl pk p Hin) as (Hp & Hsh & [q Hq]). rewrite Hq.
    apply (item_update_or_create_adds basket keys db0 order o pk q p s);
      try done; [by rewrite Hsh|by eapply row_at_prefix]. }
  apply wp_conj.
  - apply (wp_for_each (λ db', adds_step basket keys db0 db db'));
      [apply adds_step_refl|].
    intros [pk p] db2 Hin S2. simpl.
    eapply wp_mono; [by apply Hbody|].
    intros db3 r [S3 _]. by eapply adds_step_trans.
  - eapply wp_mono.
    { apply (wp_for_each_prefix
               (λ pre db',
                  adds_step basket keys db0 db db'
                  ∧ ∀ pk p, (pk, p) ∈ pre →
                            ∃ k i, row_at (seller_order_items db') k = Some i
                                   ∧ oi_order i = order
                                   ∧ oi_product_info i = pk
                                   ∧ settled keys db0 i)).
      - split; [apply adds_step_refl|]. intros pk p Hin.
        by apply elem_of_nil in Hin.
      - intros pre [pk p] post db2 Hlist [S2 Hdone]. simpl.
        eapply wp_mono.
        { apply (Hbody pk p db2); [|done]. rewrite Hlist.
          apply elem_of_app. right. left. }
        intros db3 r [S3 Hnew] Hr. split; [by eapply adds_step_trans|].
        intros pk' p' Hin. apply elem_of_app in Hin as [Hin|Hin].
        + eapply item_kept; [exact S3|]. exact (Hdone pk' p' Hin).
        + apply list_elem_of_singleton in Hin. inversion Hin; subst.
          by apply Hnew. }
    intros db' r H Hr. by apply H.
Qed.

Lemma fill_seller_order_adds basket keys db0 entry db :
  open_entry keys db0 entry →
  wp (fill_seller_order basket keys entry)
     (λ db' r,
        adds_step basket keys db0 db db'
        ∧ (r = Ok tt →
           ∀ pk p, (pk, p) ∈ snd entry →
                   placed basket keys db0 db' (fst (fst entry)) pk)) db.
Proof.
  destruct entry as [[sk s] listings]. intros Hentry.
  pose proof Hentry as (Hs & Hopen & Hl). simpl in *.
  unfold fill_seller_order. apply wp_bind.
  eapply wp_mono;
    [apply (seller_order_get_or_create_adds basket keys db0 sk s); done|].
  intros db1 [order|e] [S1 Horder]; [|by split].
  destruct (Horder order eq_refl) as (o & Ho & Hob & Hosh & Host).
  eapply wp_mono;
    [exact (fill_items_adds basket keys db0 sk s order o listings db1
              Hentry Ho Hob)|].
  intros db2 r [S2 Hdone]. split; [by eapply adds_step_trans|].
  intros Hr pk p Hin. destruct (Hdone Hr pk p Hin) as (k & i & Hi & Hio & Hip & Hset).
  exists k, i, o. split; [done|]. split; [done|]. split; [done|].
  rewrite Hio. split; [|done].
  destruct S2 as (_ & P2 & _). by eapply row_at_prefix.
Qed.

(** The loop of [post] over the shops. *)
Lemma fill_basket_adds basket keys db0 shops db :
  (∀ entry, entry ∈ shops → open_entry keys db0 entry) →
  wp (for_each shops (fill_seller_order basket keys))
     (λ db' r,
        adds_step basket keys db0 db db'
        ∧ (r = Ok tt →
           ∀ entry pk p, entry ∈ shops → (pk, p) ∈ snd entry →
                         placed basket keys db0 db' (fst (fst entry)) pk)) db.
Proof.
  intros Hopen. apply wp_conj.
  - apply (wp_for_each (λ db', adds_step basket keys db0 db db'));
      [apply adds_step_refl|].
    intros entry db2 Hin S2.
    eapply wp_mono; [by apply fill_seller_order_adds, Hopen|].
    intros db3 r [S3 _]. by eapply adds_step_trans.
  - eapply wp_mono.
    { apply (wp_for_each_prefix
               (λ pre db',
                  adds_step basket keys db0 db db'
                  ∧ ∀ entry pk p, entry ∈ pre → (pk, p) ∈ snd entry →
                       placed basket keys db0 db' (fst (fst entry)) pk)).
      - split; [apply adds_step_refl|]. intros entry pk p Hin.
        by apply elem_of_nil in Hin.
      - intros pre entry post db2 Hlist [S2 Hdone].
        eapply wp_mono.
        { apply (fill_seller_order_adds basket keys db0 entry db2), Hopen.
          rewrite Hlist. apply elem_of_app. right. left. }
        intros db3 r [S3 Hnew] Hr. split; [by eapply adds_step_trans|].
        intros entry' pk p Hin Hp. apply elem_of_app in Hin as [Hin|Hin].
        + eapply placed_step; [exact S3|]. exact (Hdone entry' pk p Hin Hp).
        + apply list_elem_of_singleton in Hin. subst entry'.
          exact (Hnew Hr pk p Hp). }
    intros db' r H Hr. by apply H.
Qed.

End BasketAddLoop.

Section BasketPost.
Import BasketView.

Lemma ensure_basket_run user db :
  ensure_basket user db = ((ensured user db).1, Ok (ensured user db).2).
Proof.
  unfold ensure_basket, ensured, bind, query.
  by destruct (basket_object user db) as [[pk o]|].
Qed.

Lemma ensured_basket user db :
  ∃ row, basket_object user (ensured user db).1
         = Some ((ensured user db).2, row).
Proof.
  unfold ensured. destruct (basket_object user db) as [[pk o]|] eqn:E; simpl.
  - by exists o.
  - exists (new_basket user). by apply basket_object_new.
Qed.

Lemma ensured_store user db :
  (ensured user db).1 = db
  ∨ (basket_object user db = None
     ∧ (ensured user db).1 = with_new_basket user db).
Proof.
  unfold ensured. destruct (basket_object user db) as [[pk o]|]; [by left|].
  by right.
Qed.

Lemma validate_item_inl db item x :
  validate_item db item = inl x →
  is_Some (row_at (product_infos db) (fst item)) ∧ 1 ≤ snd item.
Proof.
  unfold validate_item, IntegerField.
  destruct (row_at (product_infos db) item.1) as [p|]; simpl; [|done].
  destruct (item.2 <? 1) eqn:E; simpl; [done|].
  apply Z.ltb_ge in E. intros _. split; [by eexists|done].
Qed.

Lemma validate_items_run data db :
  validate_items data db = (db, Ok data) ∧ valid_request data db
  ∨ (∃ d, validate_items data db = (db, Raise (ValidationError d)))
    ∧ ¬ valid_request data db.
Proof.
  unfold validate_items.
  destruct (forallb _ _) eqn:E.
  - left. split; [done|]. intros item Hin. rewrite forallb_forall in E.
    specialize (E (validate_item db item)).
    destruct (validate_item db item) as [x|d] eqn:Ev.
    + by eapply validate_item_inl.
    + discriminate E. apply in_map_iff. exists item. split; [done|].
      by apply list_elem_of_In.
  - right. split; [by eexists|]. intros Hvalid.
    apply not_true_iff_false in E. apply E. apply forallb_forall.
    intros r Hr. apply in_map_iff in Hr as (item & <- & Hin).
    apply list_elem_of_In in Hin. destruct (Hvalid item Hin) as [[p Hp] Hq].
    rewrite validate_item_ok; [done|by exists p|done].
Qed.

Lemma basket_object_ext user db db' :
  buyer_orders db' = buyer_orders db →
  basket_object user db' = basket_object user db.
Proof. unfold basket_object, basket_queryset. by intros ->. Qed.

Lemma post_run user request_data db :
  post user request_data db
  = let db1 := (ensured user db).1 in
    let basket := (ensured user db).2 in
    match validate_items request_data db1 with
    | (_, Raise e) => (db1, Raise e)
    | (_, Ok validated_data) =>
        let keys := ordered_items_dict validated_data in
        match for_each (shops_with_ordered_products keys db1)
                (fill_seller_order basket keys) db1 with
        | (db2, Raise e) => (db2, Raise e)
        | (db2, Ok _) =>
            match basket_object user db2 with
            | Some order =>
                (db2, Ok {| status_code := HTTP_201_CREATED;
                            data := Tree (render_order ∅ db2 order) |})
            | None => (db2, Raise DoesNotExist)
            end
        end
    end.
Proof.
  unfold post. unfold bind at 1. rewrite ensure_basket_run. simpl.
  unfold bind at 1.
  pose proof (validate_items_store request_data (ensured user db).1) as Hv.
  destruct (validate_items request_data (ensured user db).1) as [db1' [vd|e]];
    simpl in Hv; subst db1'; [|done].
  unfold bind at 1, query. unfold bind at 1.
  destruct (for_each _ _ (ensured user db).1) as [db2 [[]|e]]; [|done].
  unfold bind, query, ret. by destruct (basket_object user db2).
Qed.

Lemma settled_ext keys db db' i :
  shops db' = shops db → product_infos db' = product_infos db →
  settled keys db' i ↔ settled keys db i.
Proof. unfold settled. by intros -> ->. Qed.

Lemma ensured_tables user db :
  shops (ensured user db).1 = shops db
  ∧ product_infos (ensured user db).1 = product_infos db
  ∧ seller_orders (ensured user db).1 = seller_orders db
  ∧ seller_order_items (ensured user db).1 = seller_order_items db
  ∧ buyer_orders db `prefix_of` buyer_orders (ensured user db).1.
Proof.
  destruct (ensured_store user db) as [->|[_ ->]]; [done|].
  repeat split. apply prefix_of_snoc.
Qed.

(** The loop of [post], from the store after the first statement. *)
Lemma post_loop user keys db :
  let db1 := (ensured user db).1 in
  let basket := (ensured user db).2 in
  wp (for_each (shops_with_ordered_products keys db1)
        (fill_seller_order basket keys))
     (λ db2 r,
        adds_step basket keys db db1 db2
        ∧ (r = Ok tt →
           ∀ pk p s, is_Some (keys !! pk) →
                     row_at (product_infos db) pk = Some p →
                     row_at (shops db) (pi_shop p) = Some s →
                     is_open s = true →
                     placed basket keys db db2 (pi_shop p) pk)) db1.
Proof.
  intros db1 basket.
  destruct (ensured_tables user db) as (Hs & Hp & _).
  fold db1 in Hs, Hp.
  assert (∀ i, settled keys db1 i ↔ settled keys db i) as Hset
    by (intros i; by apply settled_ext).
  eapply wp_mono.
  { apply (fill_basket_adds basket keys db1). intros entry Hin.
    by apply shops_with_ordered_products_open. }
  intros db2 r [(B & P & N & I & J) Hplaced]. split.
  - split; [done|]. split; [done|]. split; [|split].
    + intros k o H1 H2. destruct (N k o H1 H2) as (? & ? & s & Hsh & ?).
      split; [done|]. split; [done|]. exists s. by rewrite <- Hs.
    + intros k i Hi. destruct (I k i Hi) as (i' & ? & ? & ? & Hc).
      exists i'. split; [done|]. split; [done|]. split; [done|].
      destruct Hc as [->|[? ?]]; [by left|]. right. by rewrite <- Hset.
    + intros k i' H1 H2. destruct (J k i' H1 H2) as [? ?].
      by rewrite <- Hset.
  - intros Hr pk p s Hk Hpk Hsh Hopen.
    destruct (shops_with_ordered_products_elem keys db1 pk p s)
      as (entry & Hin & Hfst & Hmem); try done;
      [by rewrite Hp|by rewrite Hs|].
    destruct (Hplaced Hr entry pk p Hin Hmem)
      as (k & i & o & Hi & Hip & Hst & Ho & ? & ? & ?).
    exists k, i, o. split; [done|]. split; [done|].
    split; [by apply Hset|]. split; [done|]. split; [done|].
    split; [congruence|done].
Qed.

End BasketPost.

Section BasketPostFacts.
Import BasketView.

(** What the store is after [post], for every request and outcome. *)
Lemma post_adds_step user request_data db :
  ∃ keys,
    adds_step (ensured user db).2 keys db (ensured user db).1
      (post user request_data db).1.
Proof.
  rewrite post_run. cbv zeta.
  destruct (validate_items request_data (ensured user db).1) as [db1' [vd|e]].
  - exists (ordered_items_dict vd).
    pose proof (post_loop user (ordered_items_dict vd) db) as H.
    cbv zeta in H. unfold wp in H.
    destruct (for_each _ _ (ensured user db).1) as [db2 [[]|e]];
      simpl in *; [|by destruct H].
    destruct H as [H _]. by destruct (basket_object user db2).
  - exists ∅. apply adds_step_refl.
Qed.

(** A basket-add reserves nothing and writes into the basket of the user
    only: it leaves the shops, the listings with their stock and prices, the
    contacts and the catalog as they are, appends at most the basket of the
    user to the buyer orders, keeps every seller order, and leaves alone the
    line items of every order that is not the basket of the user. *)
Theorem post_frame (user : nat) (request_data : list (nat * Z)) (db : DB) :
  let db' := (post user request_data db).1 in
  (shops db' = shops db ∧ product_infos db' = product_infos db
   ∧ contacts db' = contacts db ∧ categories db' = categories db
   ∧ products db' = products db ∧ shop_categories db' = shop_categories db
   ∧ parameters db' = parameters db ∧ values db' = values db
   ∧ product_parameters db' = product_parameters db)
  ∧ (buyer_orders db' = buyer_orders db
     ∨ (basket_object user db = None
        ∧ buyer_orders db' = buyer_orders db ++ [Some (new_basket user)]))
  ∧ seller_orders db `prefix_of` seller_orders db'
  ∧ (∀ k i o b,
       row_at (seller_order_items db) k = Some i →
       row_at (seller_orders db) (oi_order i) = Some o →
       row_at (buyer_orders db) (so_buyer_order o) = Some b →
       bo_user b ≠ user ∨ bo_state b ≠ BO_basket →
       row_at (seller_order_items db') k = Some i).
Proof.
  intros db'. subst db'.
  destruct (post_adds_step user request_data db)
    as (keys & (Hs & Hp & Hb & Hc & Hcat & Hpr & Hsc & Hpa & Hv & Hpp)
        & P & N & I & J).
  set (db' := (post user request_data db).1) in *.
  split; [|split; [|split]].
  - destruct (ensured_store user db) as [E|[_ E]]; rewrite E in *;
      by repeat split.
  - destruct (ensured_store user db) as [E|[Hnone E]]; rewrite E in *.
    + by left.
    + right. by split.
  - destruct (ensured_tables user db) as (_ & _ & <- & _). done.
  - intros k i o b Hi Ho Hbo Hother.
    destruct (ensured_tables user db) as (_ & _ & Hso & Hsi & _).
    rewrite <- Hsi in Hi. destruct (I k i Hi) as (i' & Hi' & Hio & _ & Hcase).
    destruct Hcase as [->|[_ Hin]]; [done|]. exfalso.
    apply in_basket_spec in Hin as (o' & Ho' & Hb').
    rewrite <- Hso in Ho. rewrite <- Hio in Ho.
    eapply row_at_prefix in Ho; [|exact P].
    assert (o' = o) as -> by congruence.
    rewrite Hb' in Hbo. unfold ensured in Hbo.
    destruct (basket_object user db) as [[pk row]|] eqn:E; simpl in Hbo.
    + destruct (basket_object_state _ _ _ _ E) as (Hrow & Hu & Hst).
      assert (row = b) as -> by congruence. by destruct Hother.
    + rewrite row_at_ge in Hbo; done.
Qed.

(** A request that is answered puts every requested listing of an open shop
    into the basket of the user: the basket has a seller order in the basket
    state for the shop of the listing, with a line item for the listing that
    carries the quantity of the request (the last one given for the listing)
    and the current prices of the listing.  Every item of the request names
    an existing listing with a quantity of at least 1, the answer is 201
    with the tree of the basket, and every line item that was written is for
    a requested listing of an open shop. *)
Theorem post_adds (user : nat) (request_data : list (nat * Z)) (db db' : DB)
    (r : response) :
  post user request_data db = (db', Ok r) →
  valid_request request_data db
  ∧ (∃ basket basket_row,
       basket_object user db' = Some (basket, basket_row)
       ∧ r = {| status_code := HTTP_201_CREATED;
                data := Tree (render_order ∅ db' (basket, basket_row)) |}
       ∧ ∀ pk q p s,
           ordered_items_dict request_data !! pk = Some q →
           row_at (product_infos db) pk = Some p →
           row_at (shops db) (pi_shop p) = Some s → is_open s = true →
           ∃ k i o,
             row_at (seller_order_items db') k = Some i
             ∧ oi_product_info i = pk ∧ oi_quantity i = q
             ∧ purchase_price i = price p
             ∧ purchase_price_rrc i = price_rrc p
             ∧ row_at (seller_orders db') (oi_order i) = Some o
             ∧ so_buyer_order o = basket ∧ so_shop o = pi_shop p
             ∧ so_state o = SO_basket)
  ∧ (∀ k i, row_at (seller_order_items db') k = Some i →
            row_at (seller_order_items db) k = Some i
            ∨ settled (ordered_items_dict request_data) db i).
Proof.
  rewrite post_run. cbv zeta. intros Hrun.
  destruct (ensured_tables user db) as (Hsh & Hpi & Hso & Hsi & _).
  destruct (validate_items_run request_data (ensured user db).1)
    as [[Hv Hvalid]|[[d Hv] _]]; rewrite Hv in Hrun; [|done].
  pose proof (post_loop user (ordered_items_dict request_data) db) as H.
  cbv zeta in H. unfold wp in H.
  destruct (for_each _ _ (ensured user db).1) as [db2 [[]|e]];
    simpl in *; [|done].
  destruct H as [(B & P & N & I & J) Hplaced].
  destruct (basket_object user db2) as [[basket basket_row]|] eqn:Eb; [|done].
  inversion Hrun; subst db' r. clear Hrun.
  split; [|split].
  - intros item Hin. rewrite <- Hpi. by apply Hvalid.
  - exists basket, basket_row. split; [done|]. split; [done|].
    intros pk q p s Hq Hp Hs Hopen.
    destruct (Hplaced eq_refl pk p s) as (k & i & o & Hi & Hip & Hset & Ho
                                          & Hob & Hos & Host); try done.
    destruct Hset as (p' & s' & Hk & Hp' & Hpr & Hprr & _).
    rewrite Hip in *. assert (p' = p) as -> by congruence.
    exists k, i, o. split; [done|]. split; [done|].
    split; [congruence|]. split; [done|]. split; [done|]. split; [done|].
    split; [|done].
    destruct (ensured_basket user db) as [row Hrow].
    destruct B as (_ & _ & Hbo & _).
    rewrite (basket_object_ext user _ _ Hbo) in Eb. congruence.
  - intros k i Hi.
    destruct (row_at (seller_order_items (ensured user db).1) k) as [i0|] eqn:E0.
    + destruct (I k i0 E0) as (i' & Hi' & _ & _ & Hc).
      assert (i' = i) as -> by congruence.
      destruct Hc as [->|[? _]]; [left; by rewrite <- Hsi|by right].
    + right. by destruct (J k i Hi E0).
Qed.

(** An item that names no listing, or asks for less than one piece, rejects
    the whole request with a validation error before any seller order or
    line item is written: the store is as it was, except for the basket of a
    user who had none. *)
Theorem post_rejects (user : nat) (request_data : list (nat * Z)) (db : DB) :
  ¬ valid_request request_data db →
  ∃ d db',
    post user request_data db = (db', Raise (ValidationError d))
    ∧ (db' = db
       ∨ (basket_object user db = None ∧ db' = with_new_basket user db)).
Proof.
  intros Hbad. rewrite post_run. cbv zeta.
  destruct (ensured_tables user db) as (_ & Hpi & _).
  destruct (validate_items_run request_data (ensured user db).1)
    as [[_ Hvalid]|[[d Hv] _]].
  - exfalso. apply Hbad. intros item Hin. rewrite <- Hpi. by apply Hvalid.
  - rewrite Hv. exists d, (ensured user db).1. split; [done|].
    apply ensured_store.
Qed.

(** Reading the basket after an answered basket-add shows the tree that the
    basket-add returned, and writes nothing. *)
Theorem post_then_get (user : nat) (request_data : list (nat * Z))
    (db db' : DB) (r : response) :
  post user request_data db = (db', Ok r) →
  BasketView_get user db'
  = (db', Ok {| status_code := HTTP_200_OK; data := data r |}).
Proof.
  rewrite post_run. cbv zeta. intros Hrun.
  destruct (validate_items _ _) as [db1' [vd|e]]; [|done].
  destruct (for_each _ _ _) as [db2 [[]|e]]; [|done].
  destruct (basket_object user db2) as [order|] eqn:Eb; [|done].
  inversion Hrun; subst db' r. clear Hrun.
  unfold BasketView_get, bind, query, ret. by rewrite Eb.
Qed.

End BasketPostFacts.

Section PrunerSafety.
Import BasketView.

(** Whatever the basket, [prune] marks seller orders of the list only, and
    only when the request names the listing of each of their line items; it
    marks line items of the list only, and only when the request names
    their listing. *)
Lemma prune_sound sob ids0 ids S I :
  ids ⊆ ids0 →
  (∀ so, so ∈ (prune sob ids S I).1 →
         so ∈ S ∨ ∃ items, (so, items) ∈ sob ∧ listing_ids items ⊆ ids0)
  ∧ (∀ k, k ∈ (prune sob ids S I).2 →
          k ∈ I ∨ ∃ so items i, (so, items) ∈ sob ∧ (k, i) ∈ items
                                ∧ oi_product_info i ∈ ids0).
Proof.
  revert ids S I. induction sob as [|[so items] rest IH]; intros ids S I Hsub.
  { simpl. split; intros x Hx; by left. }
  simpl. fold (listing_ids items).
  set (P := listing_ids items). set (D := P ∩ ids).
  assert (∀ ids' S' I' : gset nat,
            ids' ⊆ ids0 →
            (∀ x, x ∈ S' → x ∈ S ∨ (x = so ∧ P ⊆ ids0)) →
            (∀ x, x ∈ I' → x ∈ I ∨ ∃ i, (x, i) ∈ items
                                        ∧ oi_product_info i ∈ ids0) →
            (∀ x, x ∈ (prune rest ids' S' I').1 →
                  x ∈ S ∨ ∃ items0, (x, items0) ∈ (so, items) :: rest
                                    ∧ listing_ids items0 ⊆ ids0)
            ∧ (∀ x, x ∈ (prune rest ids' S' I').2 →
                    x ∈ I ∨ ∃ so0 items0 i,
                              (so0, items0) ∈ (so, items) :: rest
                              ∧ (x, i) ∈ items0
                              ∧ oi_product_info i ∈ ids0)) as Hrest.
  { intros ids' S' I' Hsub' HS' HI'.
    destruct (IH ids' S' I' Hsub') as [IHS IHI]. split.
    - intros x Hx. destruct (IHS x Hx) as [Hin|(items0 & Hin & H0)].
      + destruct (HS' x Hin) as [?|[-> HP]]; [by left|].
        right. exists items. split; [left|done].
      + right. exists items0. split; [by right|done].
    - intros x Hx. destruct (IHI x Hx) as [Hin|(so0 & items0 & i & Hin & H0)].
      + destruct (HI' x Hin) as [?|(i & Hi & Hid)]; [by left|].
        right. exists so, items, i. split; [left|done].
      + right. exists so0, items0, i. split; [by right|done]. }
  assert (∀ x, x ∈@{gset nat}
              list_to_set
                (map fst (List.filter
                            (λ i, bool_decide (oi_product_info (snd i) ∈ D))
                            items)) ∪ I
              → x ∈ I ∨ ∃ i, (x, i) ∈ items ∧ oi_product_info i ∈ ids0)
    as Hmatched.
  { intros x [Hx|Hx]%elem_of_union; [|by left]. right.
    apply elem_of_matched in Hx as (i & Hin & Hd). exists i. set_solver. }
  assert (∀ S' I' : gset nat,
            (∀ x, x ∈ S' → x ∈ S ∨ (x = so ∧ P ⊆ ids0)) →
            (∀ x, x ∈ I' → x ∈ I ∨ ∃ i, (x, i) ∈ items
                                        ∧ oi_product_info i ∈ ids0) →
            (∀ x, x ∈ S' →
                  x ∈ S ∨ ∃ items0, (x, items0) ∈ (so, items) :: rest
                                    ∧ listing_ids items0 ⊆ ids0)
            ∧ (∀ x, x ∈ I' →
                    x ∈ I ∨ ∃ so0 items0 i,
                              (so0, items0) ∈ (so, items) :: rest
                              ∧ (x, i) ∈ items0
                              ∧ oi_product_info i ∈ ids0)) as Hstop.
  { intros S' I' HS' HI'. split.
    - intros x Hx. destruct (HS' x Hx) as [?|[-> HP]]; [by left|].
      right. exists items. split; [left|done].
    - intros x Hx. destruct (HI' x Hx) as [?|(i & Hi & Hid)]; [by left|].
      right. exists so, items, i. split; [left|done]. }
  case_bool_decide as Hnone.
  { apply Hrest; [done|intros x ?; by left|intros x ?; by left]. }
  case_bool_decide as Hall; case_bool_decide as Hdone; simpl.
  - apply Hstop; [|intros x ?; by left].
    intros x [Hx|Hx]%elem_of_union; [|by left].
    right. split; [set_solver|]. rewrite Hall. set_solver.
  - apply Hrest; [set_solver| |intros x ?; by left].
    intros x [Hx|Hx]%elem_of_union; [|by left].
    right. split; [set_solver|]. rewrite Hall. set_solver.
  - apply Hstop; [intros x ?; by left|exact Hmatched].
  - apply Hrest; [set_solver|intros x ?; by left|exact Hmatched].
Qed.

(** [delete] answers a request of a user without a basket, and a request
    that names a listing that is not in the basket, with 400 and deletes
    nothing: one unknown id refuses the request for the known ones too. *)
Theorem delete_refuses (user : nat) (ids_to_del : gset nat) (db : DB) :
  (basket_object user db = None →
   delete user ids_to_del db
   = (db, Ok (api_error (ErrorMessage "Your basket does not exists")
                HTTP_400_BAD_REQUEST)))
  ∧ (∀ basket basket_row unknown,
       basket_object user db = Some (basket, basket_row) →
       unknown ∈ ids_to_del → unknown ∉ all_ordered_ids basket db →
       delete user ids_to_del db
       = (db, Ok (api_error
                    (UnknownIds
                       (elements (ids_to_del ∖ all_ordered_ids basket db)))
                    HTTP_400_BAD_REQUEST))
       ∧ unknown ∈ elements (ids_to_del ∖ all_ordered_ids basket db)).
Proof.
  split.
  - intros Hnone. unfold delete, bind, query. by rewrite Hnone.
  - intros basket basket_row unknown Hbasket Hin Hout.
    rewrite (delete_run _ _ _ _ _ Hbasket).
    rewrite bool_decide_eq_true_2 by set_solver. split; [done|].
    apply elem_of_elements. set_solver.
Qed.

(** Whatever the basket holds, [delete] never changes a row that it keeps,
    and deletes only line items of the basket of the user whose listing the
    request names, and only seller orders of that basket; it leaves the
    listings, the shops and the contacts as they are. *)
Theorem delete_safe (user : nat) (ids_to_del : gset nat) (db : DB) :
  let db' := (delete user ids_to_del db).1 in
  (∀ k i, row_at (seller_order_items db) k = Some i →
          row_at (seller_order_items db') k = Some i
          ∨ (row_at (seller_order_items db') k = None
             ∧ oi_product_info i ∈ ids_to_del
             ∧ ∃ basket basket_row,
                 basket_object user db = Some (basket, basket_row)
                 ∧ in_basket basket db i = true))
  ∧ (∀ k o, row_at (seller_orders db) k = Some o →
            row_at (seller_orders db') k = Some o
            ∨ (row_at (seller_orders db') k = None
               ∧ ∃ basket_row,
                   basket_object user db
                   = Some (so_buyer_order o, basket_row)))
  ∧ product_infos db' = product_infos db ∧ shops db' = shops db
  ∧ contacts db' = contacts db.
Proof.
  intros db'. subst db'.
  destruct (basket_object user db) as [[basket basket_row]|] eqn:Hbasket.
  2:{ unfold delete, bind, query. rewrite Hbasket. simpl.
      split; [by left|]. split; [by left|done]. }
  rewrite (delete_run _ _ _ _ _ Hbasket).
  case_bool_decide as Hunknown; [split; [by left|]; split; [by left|done]|].
  case_bool_decide as Hfull; cbn [fst].
  - split; [|split; [|done]].
    + intros k i Hi. rewrite deleted_basket_items, Hi. simpl.
      destruct (in_basket basket db i) eqn:Ein; [|by left]. right.
      split; [done|]. split; [|by exists basket, basket_row].
      rewrite Hfull. apply in_basket_spec in Ein as (o & Ho & Hb).
      unfold all_ordered_ids. apply elem_of_list_to_set.
      apply list_elem_of_In, in_flat_map.
      exists (oi_order i, ordered_items_of (oi_order i) db). split.
      * apply list_elem_of_In, elem_of_baskets. split; [by exists o|done].
      * simpl. apply in_map_iff. exists (k, i). split; [done|].
        apply list_elem_of_In, elem_of_select. split; [done|].
        by apply bool_decide_eq_true.
    + intros k o Ho. rewrite deleted_basket_orders, Ho. simpl.
      case_bool_decide as Hb; [|by left]. right. split; [done|].
      exists basket_row. by rewrite Hb.
  - destruct (prune_sound (baskets_of basket db) ids_to_del ids_to_del ∅ ∅)
      as [HS HI]; [done|].
    unfold pruned.
    destruct (prune (baskets_of basket db) ids_to_del ∅ ∅) as [S' I'].
    simpl in *. split; [|split; [|done]].
    + intros k i Hi. rewrite !row_at_delete_where, Hi.
      case_bool_decide as Hd.
      * right. split; [done|].
        apply elem_of_list_to_set, list_elem_of_fmap in Hd
          as ([k' o] & Hk & Hsel). simpl in Hk. subst k'.
        apply elem_of_select in Hsel as [Ho Hdoomed].
        apply bool_decide_eq_true in Hdoomed as [Hb Hin].
        destruct (HS _ Hin) as [?|(items & Hitems & Hsub)]; [set_solver|].
        apply elem_of_baskets in Hitems as [_ ->]. split.
        -- apply Hsub, elem_of_listing_ids. exists k, i. split; [|done].
           apply elem_of_select. split; [done|]. by apply bool_decide_eq_true.
        -- exists basket, basket_row. split; [done|].
           apply in_basket_spec. by exists o.
      * case_bool_decide as Hk; [|by left]. right. split; [done|].
        destruct (HI _ Hk) as [?|(so & items & i' & Hitems & Hmem & Hid)];
          [set_solver|].
        apply elem_of_baskets in Hitems as [(o & Ho & Hb) ->].
        apply elem_of_select in Hmem as [Hrow Ho'].
        apply bool_decide_eq_true in Ho'.
        assert (i' = i) as -> by congruence. split; [done|].
        exists basket, basket_row. split; [done|].
        apply in_basket_spec. exists o. by rewrite Ho'.
    + intros k o Ho. rewrite row_at_delete_where, Ho.
      unfold doomed_order. case_bool_decide as Hd; [|by left].
      right. split; [done|]. destruct Hd as [<- _]. by exists basket_row.
Qed.

End PrunerSafety.

Lemma basket_a_run :
  BasketView.post 3 [(0%nat, 2)] shop_a = (basket_a, Ok basket_a_answer).
Proof. vm_compute. reflexivity. Qed.

Lemma post_adds_witness :
  ∃ k i, row_at (seller_order_items basket_a) k = Some i
         ∧ oi_product_info i = 0%nat ∧ oi_quantity i = 2
         ∧ purchase_price i = 100 ∧ purchase_price_rrc i = 150.
Proof.
  destruct (post_adds 3 [(0%nat, 2)] shop_a basket_a basket_a_answer
              basket_a_run) as (_ & (basket & row & _ & _ & Hplaced) & _).
  edestruct (Hplaced 0%nat 2) as (k & i & o & Hi & Hp & Hq & Hpr & Hprr & _).
  - vm_compute. reflexivity.
  - vm_compute. reflexivity.
  - vm_compute. reflexivity.
  - reflexivity.
  - exists k, i. split; [exact Hi|]. split; [exact Hp|]. split; [exact Hq|].
    split; [exact Hpr|exact Hprr].
Defined.

Lemma post_rejects_witness :
  ∃ d db',
    BasketView.post 3 [(0%nat, 0)] shop_a = (db', Raise (ValidationError d))
    ∧ (db' = shop_a
       ∨ (basket_object 3 shop_a = None ∧ db' = with_new_basket 3 shop_a)).
Proof.
  apply post_rejects. intros H.
  destruct (H (0%nat, 0)) as [_ Hq]; [left|]. simpl in Hq. lia.
Defined.

Lemma post_then_get_witness :
  BasketView_get 3 basket_a
  = (basket_a, Ok {| status_code := HTTP_200_OK;
                     data := data basket_a_answer |}).
Proof.
  exact (post_then_get 3 [(0%nat, 2)] shop_a basket_a basket_a_answer
           basket_a_run).
Defined.

Section SelectKeys.
Context {A : Type}.

Lemma select_from_keys (P : nat → A → bool) i (t t' : table A) :
  Forall2 (λ x y, match x, y with
                  | Some r, Some r' => ∀ k, P k r = P k r'
                  | None, None => True
                  | _, _ => False
                  end) t t' →
  map fst (select_from P i t) = map fst (select_from P i t').
Proof.
  intros H. revert i. induction H as [|x y t t' Hxy _ IH]; intros i; [done|].
  destruct x as [r|], y as [r'|]; simpl; try done.
  rewrite (Hxy i). destruct (P i r'); simpl; by rewrite IH.
Qed.

Lemma select_keys_save (P : nat → A → bool) (t : table A) pk r0 r :
  row_at t pk = Some r0 → (∀ k, P k r = P k r0) →
  map fst (select P (tbl_save t pk r)) = map fst (select P t).
Proof.
  intros Hr HP. apply select_from_keys.
  apply Forall2_same_length_lookup_2; [unfold tbl_save; by rewrite length_insert|].
  intros j x y Hx Hy. unfold tbl_save in Hx.
  destruct (decide (j = pk)) as [->|Hne].
  - rewrite list_lookup_insert_eq in Hx by (by eapply row_at_lt).
    apply row_at_Some in Hr. by simplify_eq.
  - rewrite list_lookup_insert_ne in Hx by done.
    assert (x = y) as -> by congruence. by destruct y.
Qed.

End SelectKeys.

Section Views.
Import OrderViewSet.

Lemma zero_quantity_shop p : pi_shop (zero_quantity p) = pi_shop p.
Proof. done. Qed.

Lemma perform_destroy_rows pk p db pk' :
  row_at (product_infos db) pk = Some p →
  row_at (product_infos (PartnerProductView_perform_destroy (pk, p) db).1) pk'
  = if decide (pk' = pk) then Some (zero_quantity p)
    else row_at (product_infos db) pk'.
Proof.
  intros Hp. simpl. destruct (decide (pk' = pk)) as [->|Hne].
  - by eapply row_at_save_eq.
  - by rewrite row_at_save_ne.
Qed.

(** Deleting a listing through the partner's view delists it and deletes
    nothing: the row stays under its key with the quantity 0 and all its
    other columns, every other row of the store stays as it is (the line
    items and the parameters of the listing included), the listing is gone
    from the catalogue of the buyers, in which every other listing stays or
    stays out as before, and the listings of every shop still are the same
    keys, so that the partner still sees the listing. *)
Theorem destroy_delists (pk : nat) (p : ProductInfo) (db : DB) :
  row_at (product_infos db) pk = Some p →
  let db' := (PartnerProductView_perform_destroy (pk, p) db).1 in
  row_at (product_infos db') pk = Some (zero_quantity p)
  ∧ (∀ pk', pk' ≠ pk →
            row_at (product_infos db') pk' = row_at (product_infos db) pk')
  ∧ (∀ x, x ∈ ProductView_get_queryset db'
          ↔ x ∈ ProductView_get_queryset db ∧ fst x ≠ pk)
  ∧ (∀ shop, map fst (listings_of shop db') = map fst (listings_of shop db))
  ∧ db' = set_product_infos (product_infos db') db.
Proof.
  intros Hp db'.
  pose proof (perform_destroy_rows pk p db) as Hrows. fold db' in Hrows.
  split; [|split; [|split; [|split]]].
  - rewrite Hrows by done. by rewrite decide_True.
  - intros pk' Hne. rewrite Hrows by done. by rewrite decide_False.
  - intros [pk' p']. unfold ProductView_get_queryset.
    rewrite !elem_of_select. rewrite Hrows by done. simpl.
    change (shops db') with (shops db).
    destruct (decide (pk' = pk)) as [->|Hne].
    + split; [|by intros [_ ?]]. intros [Heq Hq].
      inversion Heq; subst p'. simpl in Hq.
      by apply andb_true_iff in Hq as [_ Hq].
    + tauto.
  - intros shop. unfold listings_of. simpl.
    by apply select_keys_save with p.
  - done.
Qed.

Lemma perform_destroy_items_wf pk p db :
  row_at (product_infos db) pk = Some p →
  items_wf db → items_wf (PartnerProductView_perform_destroy (pk, p) db).1.
Proof.
  intros Hp Hwf k i Hi. rewrite perform_destroy_rows by done.
  destruct (decide (oi_product_info i = pk)); [by eexists|].
  by apply (Hwf k).
Qed.

Lemma perform_destroy_contact pk p user contact_id db :
  (validate_contact user contact_id
     (PartnerProductView_perform_destroy (pk, p) db).1).2
  = (validate_contact user contact_id db).2.
Proof.
  unfold validate_contact. destruct contact_id as [c|]; [|done]. simpl.
  destruct (row_at (contacts db) c); [|done].
  by destruct (bool_decide _ && negb _).
Qed.

(** A listing that the partner deleted blocks the checkout of every basket
    that holds it.  The request writes nothing, and when it is answered the
    answer is 206 without a notification.  It is answered whenever the
    contact of the request is valid and every line item of the store has
    its listing: then the answer is the 206 with the basket tree, and
    nothing is sent. *)
Theorem destroy_blocks_checkout (user : nat) (user_email : string)
    (contact_id : option nat) (current_date : nat) (db : DB) (pk : nat)
    (p : ProductInfo) (order : nat) (order_row : BuyerOrder)
    (o : nat * SellerOrder) (i : nat * SellerOrderItem) :
  row_at (product_infos db) pk = Some p →
  basket_object user db = Some (order, order_row) →
  o ∈ seller_orders_of order db →
  i ∈ ordered_items_of (fst o) db →
  oi_product_info (snd i) = pk →
  0 < oi_quantity (snd i) →
  let db' := (PartnerProductView_perform_destroy (pk, p) db).1 in
  (create user user_email contact_id current_date db').1 = db'
  ∧ (∀ r sent,
       (create user user_email contact_id current_date db').2 = Ok (r, sent) →
       status_code r = HTTP_206_PARTIAL_CONTENT ∧ sent = [])
  ∧ (items_wf db →
     ∀ c, (validate_contact user contact_id db).2 = Ok c →
     ∃ annotations,
       create user user_email contact_id current_date db'
       = (db', Ok ({| status_code := HTTP_206_PARTIAL_CONTENT;
                      data := Tree (render_order annotations db'
                                      (order, order_row)) |}, []))).
Proof.
  intros Hp Hbasket Ho Hi Hpk Hq db'.
  assert (short_item order db') as Hshort.
  { exists o, i, (zero_quantity p). split; [done|]. split; [done|].
    split; [|simpl; lia].
    rewrite Hpk. unfold db'. rewrite perform_destroy_rows by done.
    by rewrite decide_True. }
  rewrite (create_short user user_email contact_id current_date db'
             order order_row Hbasket Hshort).
  split; [|split].
  - destruct (validate_contact user contact_id db').2; [|done].
    by destruct (prefetch order db').
  - intros r sent Heq.
    destruct (validate_contact user contact_id db').2; [|done].
    destruct (prefetch order db') as [tree|e]; [|done]. by inversion Heq.
  - intros Hwf c Hc. unfold db' at 1. rewrite perform_destroy_contact, Hc.
    destruct (prefetch_total order db'
                (perform_destroy_items_wf pk p db Hp Hwf)) as [tree ->].
    by eexists.
Qed.

(** The contacts that [ContactView] lists for a user are the contacts that
    the checkout of the user accepts. *)
Theorem contact_listed_iff_accepted (user c : nat) (db : DB) :
  (∃ row, (c, row) ∈ ContactView_get_queryset user db)
  ↔ validate_contact user (Some c) db = (db, Ok c).
Proof.
  unfold ContactView_get_queryset, validate_contact. split.
  - intros [row Hin]. apply elem_of_select in Hin as [-> ->]. done.
  - destruct (row_at (contacts db) c) as [row|] eqn:Hrow; [|done].
    destruct (_ && _) eqn:E; [|done]. intros _. exists row.
    by apply elem_of_select.
Qed.

(** Deleting a contact retires it and deletes nothing: the row stays under
    its key, flagged as deleted, and every other row of the store stays as
    it is, so the orders that were delivered to the contact keep it; the
    contact is gone from the list of its user, in which every other contact
    stays; and a checkout that names it is refused as an invalid contact
    for every user, without a write. *)
Theorem contact_destroy_retires (c : nat) (row : Contact) (db : DB) :
  row_at (contacts db) c = Some row →
  let db' := (ContactView_perform_destroy (c, row) db).1 in
  let refused :=
    Raise (ValidationError (Fields [("contact_id", Msgs ["invalid contact"])]))
  in
  row_at (contacts db') c
  = Some {| contact_user := contact_user row; is_deleted := true |}
  ∧ (∀ c', c' ≠ c → row_at (contacts db') c' = row_at (contacts db) c')
  ∧ db' = set_contacts (contacts db') db
  ∧ (∀ user x, x ∈ ContactView_get_queryset user db'
               ↔ x ∈ ContactView_get_queryset user db ∧ fst x ≠ c)
  ∧ (∀ user user_email current_date,
       basket_object user db ≠ None →
       create user user_email (Some c) current_date db' = (db', refused)).
Proof.
  intros Hrow db' refused.
  assert (row_at (contacts db') c
          = Some {| contact_user := contact_user row; is_deleted := true |})
    as Hc by (by eapply row_at_save_eq).
  assert (∀ c', c' ≠ c → row_at (contacts db') c' = row_at (contacts db) c')
    as Hother by (intros c' Hne; simpl; by rewrite row_at_save_ne).
  split; [done|]. split; [done|]. split; [done|]. split.
  - intros user [c' row']. unfold ContactView_get_queryset.
    rewrite !elem_of_select. simpl fst.
    destruct (decide (c' = c)) as [->|Hne].
    + rewrite Hc. split; [|by intros [_ ?]]. intros [Heq Hq].
      inversion Heq; subst row'. simpl in Hq.
      by rewrite andb_false_r in Hq.
    + rewrite Hother by done. tauto.
  - intros user user_email current_date Hbasket.
    unfold create. unfold bind at 1. unfold query at 1.
    change (basket_object user db') with (basket_object user db).
    destruct (basket_object user db) as [[order order_row]|]; [|done].
    unfold bind at 1. unfold validate_contact. rewrite Hc. simpl.
    by rewrite andb_false_r.
Qed.

Lemma users_shop_head user db :
  users_shop user db
  = (db, match head (shops_of_owner user db) with
         | Some shop => Ok shop
         | None => Raise DoesNotExist
         end).
Proof. unfold users_shop. by destruct (shops_of_owner user db). Qed.

Lemma users_shop_Ok user db db' pk shop :
  users_shop user db = (db', Ok (pk, shop)) →
  db' = db ∧ row_at (shops db) pk = Some shop ∧ shop_owner shop = user
  ∧ head (shops_of_owner user db) = Some (pk, shop).
Proof.
  rewrite users_shop_head.
  destruct (head (shops_of_owner user db)) as [[pk' shop']|] eqn:E; [|done].
  intros Heq. inversion Heq; subst. clear Heq.
  split; [done|]. unfold shops_of_owner in E.
  pose proof E as E'. apply head_select in E' as (Hrow & Hown & _).
  by apply bool_decide_eq_true in Hown.
Qed.

(** The shops of an owner after the state of one of them was set. *)
Lemma shops_of_owner_saved user db pk shop new_state :
  head (shops_of_owner user db) = Some (pk, shop) →
  head (shops_of_owner user
          (set_shops (tbl_save (shops db) pk (set_is_open new_state shop)) db))
  = Some (pk, set_is_open new_state shop).
Proof.
  unfold shops_of_owner. rewrite !head_select. simpl.
  intros (Hrow & Hown & Hmin). split; [by eapply row_at_save_eq|].
  split; [done|]. intros pk' r' Hlt Hr'.
  rewrite row_at_save_ne in Hr' by lia. by eapply Hmin.
Qed.

Lemma PartnerStateView_post_run user request_data db :
  PartnerStateView_post user request_data db
  = match request_data with
    | StateInvalid errors => (db, Raise (ValidationError errors))
    | StateValid (PS_other value) => (db, Raise (KeyError value))
    | StateValid state =>
        let new_state := match state with PS_open => true | _ => false end in
        match head (shops_of_owner user db) with
        | None => (db, Raise DoesNotExist)
        | Some shop =>
            (set_shops (tbl_save (shops db) (fst shop)
                          (set_is_open new_state (snd shop))) db,
             Ok {| state_status := HTTP_201_CREATED;
                   shop_is_open := new_state |})
        end
    end.
Proof.
  unfold PartnerStateView_post.
  destruct request_data as [errors|[| |value]]; [done| | |done];
    unfold bind at 1, ret at 1; unfold bind at 1; rewrite users_shop_head;
    by destruct (head (shops_of_owner user db)).
Qed.

(** What the partner reads back is what the partner set: after a request
    that was answered, which is answered with 201 and the new state, [get]
    answers 200 with that state.  A request that is not answered (data that
    are not valid, a choice that the view does not know, a user without a
    shop) writes nothing. *)
Theorem state_post_then_get (user : nat) (request_data : state_data)
    (db : DB) :
  match PartnerStateView_post user request_data db with
  | (db', Ok r) =>
      state_status r = HTTP_201_CREATED
      ∧ PartnerStateView_get user db'
        = (db', Ok {| state_status := HTTP_200_OK;
                      shop_is_open := shop_is_open r |})
  | (db', Raise _) => db' = db
  end.
Proof.
  rewrite PartnerStateView_post_run.
  destruct request_data as [errors|[| |value]]; [done| | |done]; cbv zeta;
    (destruct (head (shops_of_owner user db)) as [[pk shop]|] eqn:E;
       [|done]);
    (split; [done|]);
    unfold PartnerStateView_get, bind; rewrite users_shop_head;
    simpl fst; simpl snd;
    by rewrite (shops_of_owner_saved user db pk shop _ E).
Qed.

(** Opening or closing a shop changes the [is_open] of the shop of the
    user and nothing else in the store, and with it the catalogue of the
    buyers: the listings of the shop are all out of the catalogue after the
    shop was closed, those of them with stock are in it after the shop was
    opened, and the listings of the other shops are in the catalogue as
    before. *)
Theorem state_post_catalogue (user : nat) (state : PartnerState)
    (db db' : DB) (r : state_response) :
  PartnerStateView_post user (StateValid state) db = (db', Ok r) →
  ∃ pk shop,
    users_shop user db = (db, Ok (pk, shop))
    ∧ db' = set_shops (tbl_save (shops db) pk
                         (set_is_open (shop_is_open r) shop)) db
    ∧ (state = PS_open ∧ shop_is_open r = true
       ∨ state = PS_closed ∧ shop_is_open r = false)
    ∧ ∀ k p,
        (k, p) ∈ ProductView_get_queryset db'
        ↔ if decide (pi_shop p = pk)
          then shop_is_open r = true
               ∧ row_at (product_infos db) k = Some p ∧ 0 < quantity p
          else (k, p) ∈ ProductView_get_queryset db.
Proof.
  rewrite PartnerStateView_post_run.
  destruct state as [| |value]; [| |done]; cbv zeta;
    (destruct (head (shops_of_owner user db)) as [[pk shop]|] eqn:E;
       [|done]);
    intros Heq; inversion Heq; subst db' r; clear Heq;
    exists pk, shop; simpl fst; simpl snd; simpl shop_is_open;
    (split; [rewrite users_shop_head; by rewrite E|]);
    (split; [done|]);
    (split; [first [by left|by right]|]);
    intros k p; unfold ProductView_get_queryset; rewrite !elem_of_select;
    simpl;
    unfold shops_of_owner in E; apply head_select in E as (Hrow & _);
    (destruct (decide (pi_shop p = pk)) as [->|Hne];
       [rewrite (row_at_save_eq _ _ _ _ Hrow); simpl;
        rewrite ?andb_true_iff, ?bool_decide_eq_true; naive_solver
       |rewrite row_at_save_ne by done; by rewrite elem_of_select]).
Qed.

End Views.

Section ClosedShop.
Import BasketView.

(** Whatever its outcome, a basket-add writes line items for listings of
    open shops only. *)
Lemma post_written user request_data db k i :
  row_at (seller_order_items (post user request_data db).1) k = Some i →
  row_at (seller_order_items db) k = Some i
  ∨ ∃ p s, row_at (product_infos db) (oi_product_info i) = Some p
           ∧ row_at (shops db) (pi_shop p) = Some s ∧ is_open s = true.
Proof.
  intros Hi.
  destruct (post_adds_step user request_data db)
    as (keys & _ & _ & _ & I & J).
  destruct (ensured_tables user db) as (_ & _ & _ & Hsi & _).
  rewrite Hsi in I, J.
  destruct (row_at (seller_order_items db) k) as [i0|] eqn:E.
  - destruct (I k i0 E) as (i' & Hi' & _ & _ & Hcase).
    assert (i' = i) as -> by congruence.
    destruct Hcase as [->|[(p & s & _ & Hp & _ & _ & Hs & Hopen) _]];
      [by left|].
    right. by exists p, s.
  - destruct (J k i Hi E) as [(p & s & _ & Hp & _ & _ & Hs & Hopen) _].
    right. by exists p, s.
Qed.

(** After a partner closed the shop, no basket-add of any buyer writes a
    line item for a listing of the shop, whatever the request and its
    outcome: every line item for such a listing that is in the store after
    the request was there before the shop was closed, with the same
    quantity and purchase prices. *)
Theorem closed_shop_not_added (owner : nat) (db db1 : DB)
    (r : state_response) :
  PartnerStateView_post owner (StateValid PS_closed) db = (db1, Ok r) →
  ∃ pk shop,
    users_shop owner db = (db, Ok (pk, shop))
    ∧ ∀ user request_data k i p,
        row_at (seller_order_items (post user request_data db1).1) k = Some i →
        row_at (product_infos db) (oi_product_info i) = Some p →
        pi_shop p = pk →
        row_at (seller_order_items db) k = Some i.
Proof.
  rewrite PartnerStateView_post_run. cbv zeta.
  destruct (head (shops_of_owner owner db)) as [[pk shop]|] eqn:E; [|done].
  intros Heq. inversion Heq; subst db1 r. clear Heq.
  exists pk, shop. split; [rewrite users_shop_head; by rewrite E|].
  intros user request_data k i p Hi Hp Hshop.
  apply post_written in Hi as [Hi|(p' & s & Hp' & Hs & Hopen)]; [done|].
  exfalso. simpl in Hp', Hs. assert (p' = p) as -> by congruence.
  rewrite Hshop in Hs.
  unfold shops_of_owner in E. apply head_select in E as (Hrow & _).
  rewrite (row_at_save_eq _ _ _ _ Hrow) in Hs.
  inversion Hs; subst s. done.
Qed.

End ClosedShop.

Lemma destroy_delists_witness :
  row_at (product_infos delisted) 0 = Some (zero_quantity ball_listing)
  ∧ ProductView_get_queryset shop_a = [(0%nat, ball_listing)]
  ∧ ∀ x, x ∈ ProductView_get_queryset
               (PartnerProductView_perform_destroy (0%nat, ball_listing)
                  shop_a).1
         ↔ x ∈ ProductView_get_queryset shop_a ∧ fst x ≠ 0%nat.
Proof.
  split; [vm_compute; reflexivity|]. split; [vm_compute; reflexivity|].
  destruct (destroy_delists 0 ball_listing shop_a) as (_ & _ & H & _).
  - vm_compute. reflexivity.
  - exact H.
Defined.

Lemma contact_destroy_retires_witness :
  OrderViewSet.create 3 "buyer@example.com" (Some 0%nat) 9 contact_retired
  = (contact_retired,
     Raise (ValidationError
              (Fields [("contact_id", Msgs ["invalid contact"])]))).
Proof.
  destruct (contact_destroy_retires 0
              {| contact_user := 3; is_deleted := false |} short_basket)
    as (_ & _ & _ & _ & H).
  - vm_compute. reflexivity.
  - apply (H 3%nat "buyer@example.com" 9%nat). vm_compute. discriminate.
Defined.

Lemma state_post_catalogue_witness :
  ∃ pk shop,
    users_shop 7 shop_a = (shop_a, Ok (pk, shop))
    ∧ ∀ k p, (k, p) ∈ ProductView_get_queryset shop_a_closed
             ↔ if decide (pi_shop p = pk)
               then false = true
                    ∧ row_at (product_infos shop_a) k = Some p
                    ∧ 0 < quantity p
               else (k, p) ∈ ProductView_get_queryset shop_a.
Proof.
  destruct (state_post_catalogue 7 PS_closed shop_a shop_a_closed
              {| state_status := HTTP_201_CREATED; shop_is_open := false |})
    as (pk & shop & Hshop & _ & _ & H).
  - vm_compute. reflexivity.
  - exists pk, shop. split; [exact Hshop|exact H].
Defined.

Lemma closed_shop_not_added_witness :
  ∃ pk shop,
    users_shop 7 shop_a = (shop_a, Ok (pk, shop))
    ∧ ∀ user request_data k i p,
        row_at (seller_order_items
                  (BasketView.post user request_data shop_a_closed).1) k
        = Some i →
        row_at (product_infos shop_a) (oi_product_info i) = Some p →
        pi_shop p = pk →
        row_at (seller_order_items shop_a) k = Some i.
Proof.
  apply (closed_shop_not_added 7 shop_a shop_a_closed
           {| state_status := HTTP_201_CREATED; shop_is_open := false |}).
  vm_compute. reflexivity.
Defined.

Section CheckoutLoops.
Import OrderViewSet.

Implicit Types (tree : list (nat * SellerOrder
                             * list (nat * SellerOrderItem * ProductInfo)))
  (items : list (nat * SellerOrderItem * ProductInfo)).

Lemma check_item_ok so i p st :
  acceptable_order st = true → shortfall (snd i) p = false →
  acceptable_order (check_item so i p st) = true
  ∧ statuses (check_item so i p st) = statuses st
  ∧ quantity_to_update (check_item so i p st)
    = <[oi_product_info (snd i) := quantity p - oi_quantity (snd i)]>
        (quantity_to_update st)
  ∧ is_Some (ordered_items_strs (check_item so i p st) !! so)
  ∧ ∀ k, is_Some (ordered_items_strs st !! k) →
         is_Some (ordered_items_strs (check_item so i p st) !! k).
Proof.
  intros Hacc Hshort. unfold check_item, shortfall in *.
  rewrite Hshort, Hacc. simpl. repeat split.
  - by rewrite lookup_insert_eq.
  - intros k Hk. destruct (decide (k = so)) as [->|Hne].
    + by rewrite lookup_insert_eq.
    + by rewrite lookup_insert_ne.
Qed.

Lemma check_items_ok so items st :
  acceptable_order st = true → no_shortfall items = true →
  acceptable_order (check_items so items st) = true
  ∧ statuses (check_items so items st) = statuses st
  ∧ quantity_to_update (check_items so items st)
    = stock_after items (quantity_to_update st)
  ∧ (items ≠ [] → is_Some (ordered_items_strs (check_items so items st) !! so))
  ∧ ∀ k, is_Some (ordered_items_strs st !! k) →
         is_Some (ordered_items_strs (check_items so items st) !! k).
Proof.
  revert st. induction items as [|[i p] items IH]; intros st Hacc Hno.
  - by repeat split.
  - simpl in Hno. apply andb_true_iff in Hno as [Hi Hno].
    apply negb_true_iff in Hi. simpl in Hi.
    destruct (check_item_ok so i p st Hacc Hi) as (A1 & A2 & A3 & A4 & A5).
    destruct (IH (check_item so i p st) A1 Hno) as (B1 & B2 & B3 & B4 & B5).
    unfold check_items, stock_after in *. simpl.
    split; [done|]. split; [congruence|]. split; [by rewrite B3, A3|].
    split; [intros _; by apply B5|]. intros k Hk. by apply B5, A5.
Qed.

Lemma check_all_fold tree :
  check_all tree
  = foldl (λ st o, check_items (fst (fst o)) (snd o) st) check_start tree.
Proof. reflexivity. Qed.

Lemma stock_after_app items items' m :
  stock_after (items ++ items') m = stock_after items' (stock_after items m).
Proof. unfold stock_after. by rewrite foldl_app. Qed.

Lemma check_all_ok tree :
  acceptable_order (check_all tree) = true →
  statuses (check_all tree) = ∅
  ∧ quantity_to_update (check_all tree) = stock_after (flat_map snd tree) ∅
  ∧ ∀ o, o ∈ tree → snd o ≠ [] →
         is_Some (ordered_items_strs (check_all tree) !! fst (fst o)).
Proof.
  rewrite check_all_acceptable, check_all_fold.
  cut (∀ st, acceptable_order st = true →
         forallb (λ o, no_shortfall (snd o)) tree = true →
         let st' := foldl (λ st o, check_items (fst (fst o)) (snd o) st)
                          st tree in
         statuses st' = statuses st
         ∧ quantity_to_update st'
           = stock_after (flat_map snd tree) (quantity_to_update st)
         ∧ (∀ k, is_Some (ordered_items_strs st !! k) →
                 is_Some (ordered_items_strs st' !! k))
         ∧ ∀ o, o ∈ tree → snd o ≠ [] →
                is_Some (ordered_items_strs st' !! fst (fst o))).
  { intros H Hall. destruct (H check_start eq_refl Hall) as (A & B & _ & C).
    by repeat split. }
  induction tree as [|o tree IH]; intros st Hacc Hall; simpl.
  - split; [done|]. split; [done|]. split; [done|].
    intros o Ho. by apply elem_of_nil in Ho.
  - simpl in Hall. apply andb_true_iff in Hall as [Ho Hall].
    destruct (check_items_ok (fst (fst o)) (snd o) st Hacc Ho)
      as (A1 & A2 & A3 & A4 & A5).
    destruct (IH _ A1 Hall) as (B1 & B2 & B3 & B4).
    split; [congruence|]. split; [by rewrite B2, A3, stock_after_app|].
    split; [intros k Hk; by apply B3, A5|].
    intros o' Ho' Hne. apply elem_of_cons in Ho' as [->|Ho'].
    + by apply B3, A4.
    + by apply B4.
Qed.

Lemma stock_after_lookup items m k v :
  stock_after items m !! k = Some v →
  (∃ ip, ip ∈ items ∧ oi_product_info (snd (fst ip)) = k
         ∧ v = quantity (snd ip) - oi_quantity (snd (fst ip)))
  ∨ m !! k = Some v.
Proof.
  revert m. induction items as [|ip items IH]; intros m; [by right|].
  unfold stock_after in *. simpl. intros H.
  destruct (IH _ H) as [(ip' & Hin & Hk & Hv)|Hm].
  - left. exists ip'. split; [by right|done].
  - destruct (decide (oi_product_info (snd (fst ip)) = k)) as [Heq|Hne].
    + rewrite Heq, lookup_insert_eq in Hm. inversion Hm; subst v.
      left. exists ip. split; [left|done].
    + rewrite lookup_insert_ne in Hm by done. by right.
Qed.

Lemma stock_after_is_Some items m k :
  k ∈ map (λ ip, oi_product_info (snd (fst ip))) items ∨ is_Some (m !! k) →
  is_Some (stock_after items m !! k).
Proof.
  revert m. induction items as [|ip items IH]; intros m; simpl.
  - intros [H|H]; [by apply elem_of_nil in H|done].
  - intros H. unfold stock_after in *. simpl. apply IH.
    destruct H as [H|H].
    + apply elem_of_cons in H as [->|H]; [|by left].
      right. by rewrite lookup_insert_eq.
    + right. destruct (decide (oi_product_info (snd (fst ip)) = k)) as [->|?].
      * by rewrite lookup_insert_eq.
      * by rewrite lookup_insert_ne.
Qed.

End CheckoutLoops.

Section ConfirmLoops.
Import OrderViewSet.

Implicit Types (tree : list (nat * SellerOrder
                             * list (nat * SellerOrderItem * ProductInfo)))
  (items : list (nat * SellerOrderItem * ProductInfo)).

Lemma snoc_last {A} (l : list A) x : x ∈ l ++ [x].
Proof. apply elem_of_app. right. by apply list_elem_of_singleton. Qed.

Lemma snoc_old {A} (l : list A) x y : y ∈ l → y ∈ l ++ [x].
Proof. intros H. apply elem_of_app. by left. Qed.

Lemma snoc_new {A} (l : list A) x y : y ≠ x → y ∉ l → y ∉ l ++ [x].
Proof.
  intros Hne Hl H. apply elem_of_app in H as [H|H]; [done|].
  by apply list_elem_of_singleton in H.
Qed.

Lemma confirming_start stock c d db : confirming stock c d [] [] db db.
Proof.
  split; [|split; [|done]].
  - intros pk. by destruct (row_at (product_infos db) pk).
  - intros k. by destruct (row_at (seller_orders db) k).
Qed.

(** The loop over the line items of one seller order. *)
Lemma restock_run st c d items ids orders db0 db :
  (∀ ip, ip ∈ items →
         is_Some (quantity_to_update st !! oi_product_info (snd (fst ip)))) →
  confirming (quantity_to_update st) c d ids orders db0 db →
  ∃ db',
    for_each items (λ i,
      let ordered_product_info_id := oi_product_info (snd (fst i)) in
      match quantity_to_update st !! ordered_product_info_id with
      | None => raise (KeyError (pretty ordered_product_info_id))
      | Some q =>
          modify (λ db,
            set_product_infos
              (update_where
                 (λ pk _, bool_decide (pk = ordered_product_info_id))
                 (set_listing_quantity q) (product_infos db)) db)
      end) db = (db', Ok tt)
    ∧ confirming (quantity_to_update st) c d
        (ids ++ map (λ ip, oi_product_info (snd (fst ip))) items) orders
        db0 db'.
Proof.
  revert ids db. induction items as [|ip items IH]; intros ids db Hall Hc.
  - exists db. split; [done|]. simpl. by rewrite app_nil_r.
  - destruct (Hall ip) as [q Hq]; [left|].
    simpl. unfold bind at 1. cbv zeta. rewrite Hq. unfold modify at 1.
    set (db1 := set_product_infos _ db).
    destruct (IH (ids ++ [oi_product_info (snd (fst ip))]) db1)
      as (db' & Hrun & Hc').
    { intros ip' Hin. apply Hall. by right. }
    { destruct Hc as (Hpi & Hrest). split; [|exact Hrest].
      intros pk. unfold db1. simpl. rewrite row_at_update_where, Hpi.
      destruct (row_at (product_infos db0) pk) as [p|]; [|done]. simpl.
      f_equal. case_bool_decide as Hpk.
      - subst pk.
        destruct (decide (_ ∈ _ ++ _)) as [_|Hn];
          [|exfalso; apply Hn, snoc_last].
        rewrite Hq. simpl. by destruct (decide _).
      - destruct (decide (pk ∈ ids)) as [Hin|Hin].
        + by rewrite decide_True by (by apply snoc_old).
        + by rewrite decide_False by (by apply snoc_new). }
    exists db'. split; [exact Hrun|].
    by rewrite <- app_assoc in Hc'.
Qed.

(** The confirmation of one seller order. *)
Lemma confirm_seller_order_run st c d so row items ids orders db0 db shop strs :
  (∀ ip, ip ∈ items →
         is_Some (quantity_to_update st !! oi_product_info (snd (fst ip)))) →
  row_at (seller_orders db0) so = Some row →
  row_at (shops db0) (so_shop row) = Some shop →
  ordered_items_strs st !! so = Some strs →
  confirming (quantity_to_update st) c d ids orders db0 db →
  ∃ db',
    confirm_seller_order st c d (so, row, items) db
    = (db', Ok (SellerNotification (shop_email shop) so strs))
    ∧ confirming (quantity_to_update st) c d
        (ids ++ map (λ ip, oi_product_info (snd (fst ip))) items)
        (orders ++ [so]) db0 db'.
Proof.
  intros Hall Hrow Hshop Hstrs Hc.
  destruct (restock_run st c d items ids orders db0 db Hall Hc)
    as (db1 & Hrun & Hc1).
  unfold confirm_seller_order. cbv beta iota zeta. cbv zeta in Hrun.
  unfold bind at 1. rewrite Hrun.
  unfold bind at 1, modify at 1. unfold bind at 1, query at 1.
  set (db2 := set_seller_orders _ db1).
  destruct Hc1 as (Hpi & Hso & Hsh & Hrest).
  change (shops db2) with (shops db1). rewrite Hsh, Hshop, Hstrs.
  exists db2. split; [done|].
  split; [exact Hpi|]. split; [|by split].
  intros k. unfold db2. simpl.
  destruct (decide (k = so)) as [->|Hne].
  - rewrite (row_at_save_eq _ _ _ (if decide (so ∈ orders)
                                   then confirmed c d row else row)).
    + rewrite Hrow. simpl. by rewrite decide_True by (by apply snoc_last).
    + by rewrite Hso, Hrow.
  - rewrite row_at_save_ne by done. rewrite Hso.
    destruct (row_at (seller_orders db0) k) as [o|]; [|done]. simpl.
    f_equal. destruct (decide (k ∈ orders)) as [Hin|Hin].
    + by rewrite decide_True by (by apply snoc_old).
    + by rewrite decide_False by (by apply snoc_new).
Qed.

Lemma confirm_seller_orders_cons st c d o tree :
  confirm_seller_orders st c d (o :: tree)
  = (let! sent := confirm_seller_order st c d o in
     let! more := confirm_seller_orders st c d tree in
     ret (sent :: more)).
Proof. reflexivity. Qed.

(** The second loop of [create]. *)
Lemma confirm_seller_orders_run st c d tree ids orders db0 db :
  (∀ ip, ip ∈ flat_map snd tree →
         is_Some (quantity_to_update st !! oi_product_info (snd (fst ip)))) →
  (∀ o, o ∈ tree →
        row_at (seller_orders db0) (fst (fst o)) = Some (snd (fst o))
        ∧ is_Some (row_at (shops db0) (so_shop (snd (fst o))))
        ∧ is_Some (ordered_items_strs st !! fst (fst o))) →
  confirming (quantity_to_update st) c d ids orders db0 db →
  ∃ db' to_sellers,
    confirm_seller_orders st c d tree db = (db', Ok to_sellers)
    ∧ confirming (quantity_to_update st) c d
        (ids ++ tree_listings tree) (orders ++ map (λ o, fst (fst o)) tree)
        db0 db'
    ∧ Forall2 (λ o sent,
                 ∃ shop strs,
                   row_at (shops db0) (so_shop (snd o)) = Some shop
                   ∧ sent = SellerNotification (shop_email shop) (fst o) strs)
              (map fst tree) to_sellers.
Proof.
  revert ids orders db.
  induction tree as [|[[so row] items] tree IH]; intros ids orders db Hq Ho Hc.
  - exists db, []. split; [done|]. unfold tree_listings. simpl.
    rewrite !app_nil_r. split; [done|]. constructor.
  - destruct (Ho (so, row, items)) as (Hrow & [shop Hshop] & [strs Hstrs]);
      [left|]. simpl in Hrow, Hshop, Hstrs.
    destruct (confirm_seller_order_run st c d so row items ids orders db0 db
                shop strs) as (db1 & Hrun1 & Hc1); try done.
    { intros ip Hin. apply Hq. simpl. apply elem_of_app. by left. }
    destruct (IH (ids ++ map (λ ip, oi_product_info (snd (fst ip))) items)
                 (orders ++ [so]) db1) as (db' & more & Hrun & Hc' & Hsent);
      try done.
    { intros ip Hin. apply Hq. simpl. apply elem_of_app. by right. }
    { intros o Hin. apply Ho. by right. }
    exists db', (SellerNotification (shop_email shop) so strs :: more).
    split; [|split].
    + rewrite confirm_seller_orders_cons. unfold bind at 1. rewrite Hrun1.
      unfold bind at 1. by rewrite Hrun.
    + unfold tree_listings in *. simpl. rewrite map_app.
      rewrite <- !app_assoc in Hc'. exact Hc'.
    + simpl. constructor; [|done]. by exists shop, strs.
Qed.

End ConfirmLoops.

Section CheckoutAccepted.
Import OrderViewSet.

Implicit Types (tree : list (nat * SellerOrder
                             * list (nat * SellerOrderItem * ProductInfo)))
  (items : list (nat * SellerOrderItem * ProductInfo)).

(** The line items of a prefetched tree are the line items of the basket. *)
Lemma tree_lines order db tree :
  prefetch order db = Ok tree →
  map fst (flat_map snd tree) = basket_lines order db.
Proof.
  intros Hpre. apply prefetch_store in Hpre as [Hfst Hall].
  unfold basket_lines. rewrite <- Hfst. clear Hfst.
  induction Hall as [|o tree [Ho _] _ IH]; [done|].
  simpl. by rewrite map_app, Ho, IH.
Qed.

Lemma tree_loaded order db tree ip :
  prefetch order db = Ok tree → ip ∈ flat_map snd tree →
  row_at (product_infos db) (oi_product_info (snd (fst ip))) = Some (snd ip).
Proof.
  intros Hpre Hin. apply prefetch_store in Hpre as [_ Hall].
  apply list_elem_of_In, in_flat_map in Hin as (o & Ho & Hin).
  rewrite Forall_forall in Hall.
  destruct (Hall o) as [_ Hl]; [by apply list_elem_of_In|].
  unfold loaded in Hl. rewrite Forall_forall in Hl.
  by destruct (Hl ip (proj2 (list_elem_of_In _ _) Hin)).
Qed.

Lemma prefetch_lines order db :
  (∀ i, i ∈ basket_lines order db →
        is_Some (row_at (product_infos db) (oi_product_info (snd i)))) →
  ∃ tree, prefetch order db = Ok tree.
Proof.
  intros Hl. rewrite prefetch_unfold.
  destruct (mapM_attach_total (load_items db) (seller_orders_of order db))
    as [tree ->]; [|by exists tree].
  intros o Ho. unfold load_items. apply mapM_attach_total.
  intros i Hi. apply Hl. unfold basket_lines.
  apply list_elem_of_In, in_flat_map. exists o.
  split; by apply list_elem_of_In.
Qed.

Lemma tree_in_stock order db tree :
  prefetch order db = Ok tree →
  (∀ i, i ∈ basket_lines order db →
        ∃ p, row_at (product_infos db) (oi_product_info (snd i)) = Some p
             ∧ oi_quantity (snd i) ≤ quantity p) →
  acceptable_order (check_all tree) = true.
Proof.
  intros Hpre Hl. rewrite check_all_acceptable.
  apply forallb_forall. intros o Ho. unfold no_shortfall.
  apply forallb_forall. intros ip Hip.
  assert (ip ∈ flat_map snd tree) as Hin.
  { apply list_elem_of_In, in_flat_map. by exists o. }
  pose proof (tree_loaded order db tree ip Hpre Hin) as Hp.
  destruct (Hl (fst ip)) as (p & Hp' & Hle).
  { rewrite <- (tree_lines order db tree Hpre).
    apply list_elem_of_fmap. by exists ip. }
  assert (p = snd ip) as -> by congruence.
  apply negb_true_iff. unfold shortfall. apply Z.ltb_ge. lia.
Qed.

Lemma tree_orders order db tree k :
  prefetch order db = Ok tree →
  k ∈ map (λ o, fst (fst o)) tree
  ↔ ∃ o, row_at (seller_orders db) k = Some o ∧ so_buyer_order o = order.
Proof.
  intros Hpre. apply prefetch_store in Hpre as [Hfst _].
  replace (map (λ o, fst (fst o)) tree) with (map fst (map fst tree))
    by (rewrite map_map; done).
  rewrite Hfst, list_elem_of_fmap. unfold seller_orders_of. split.
  - intros ([k' o] & -> & Hin). apply elem_of_select in Hin as [Hrow Hb].
    exists o. split; [done|]. by apply bool_decide_eq_true in Hb.
  - intros (o & Hrow & Hb). exists (k, o). split; [done|].
    apply elem_of_select. split; [done|]. by apply bool_decide_eq_true.
Qed.

Lemma tree_listings_lines order db tree pk :
  prefetch order db = Ok tree →
  pk ∈ tree_listings tree
  ↔ ∃ i, i ∈ basket_lines order db ∧ oi_product_info (snd i) = pk.
Proof.
  intros Hpre. rewrite <- (tree_lines order db tree Hpre).
  unfold tree_listings. rewrite list_elem_of_fmap. split.
  - intros (ip & -> & Hin). exists (fst ip). split; [|done].
    apply list_elem_of_fmap. by exists ip.
  - intros (i & Hin & <-). apply list_elem_of_fmap in Hin as (ip & -> & Hin).
    by exists ip.
Qed.

(** The run of [create] on a basket that passes the first loop. *)
Lemma create_accepted_run user user_email contact_id current_date db
    order order_row c tree :
  basket_object user db = Some (order, order_row) →
  validate_contact user contact_id db = (db, Ok c) →
  prefetch order db = Ok tree →
  acceptable_order (check_all tree) = true →
  (∀ o, o ∈ seller_orders_of order db →
        ordered_items_of (fst o) db ≠ []
        ∧ is_Some (row_at (shops db) (so_shop (snd o)))) →
  ∃ db2 to_sellers lines,
    create user user_email contact_id current_date db
    = (set_buyer_orders
         (tbl_save (buyer_orders db2) order (accepted current_date order_row))
         db2,
       Ok ({| status_code := HTTP_201_CREATED;
              data := Tree (render_order ∅
                              (set_buyer_orders
                                 (tbl_save (buyer_orders db2) order
                                    (accepted current_date order_row)) db2)
                              (order, accepted current_date order_row)) |},
           to_sellers
           ++ [BuyerNotification user_email order lines
                 (foldr Z.add 0
                    (map (λ o, so_shipping_price (snd o))
                         (seller_orders_of order db)))]))
    ∧ confirming (stock_after (flat_map snd tree) ∅) c current_date
        (tree_listings tree) (map (λ o, fst (fst o)) tree) db db2
    ∧ Forall2 (λ o sent,
                 ∃ shop strs,
                   row_at (shops db) (so_shop (snd o)) = Some shop
                   ∧ sent = SellerNotification (shop_email shop) (fst o) strs)
              (seller_orders_of order db) to_sellers.
Proof.
  intros Hb Hc Hpre Hacc Ho.
  destruct (check_all_ok tree Hacc) as (Hst & Hq & Hstrs).
  pose proof Hpre as Hstore. apply prefetch_store in Hstore as [Hfst Hall].
  destruct (confirm_seller_orders_run (check_all tree) c current_date tree
              [] [] db db) as (db2 & to_sellers & Hrun & Hconf & Hsent).
  { intros ip Hin. rewrite Hq. apply stock_after_is_Some. left.
    apply list_elem_of_fmap. by exists ip. }
  { intros o Hin.
    assert (fst o ∈ seller_orders_of order db) as Hin'.
    { rewrite <- Hfst. apply list_elem_of_fmap. by exists o. }
    destruct (Ho _ Hin') as [Hne Hshop].
    split; [|split; [done|]].
    - destruct (fst o) as [k row] eqn:E. simpl.
      by apply elem_of_select in Hin' as [? _].
    - apply Hstrs; [done|]. rewrite Forall_forall in Hall.
      destruct (Hall o Hin) as [Hitems _]. intros Hnil.
      rewrite Hnil in Hitems. simpl in Hitems. by rewrite <- Hitems in Hne. }
  { apply confirming_start. }
  simpl in Hconf. rewrite Hq in Hconf. rewrite Hfst in Hsent.
  exists db2, to_sellers. eexists.
  split; [|by split].
  unfold create. unfold bind at 1, query at 1. rewrite Hb.
  unfold bind at 1. rewrite Hc. unfold bind at 1. rewrite Hpre.
  cbv zeta. rewrite Hacc. unfold bind at 1. rewrite Hrun.
  unfold bind at 1, modify at 1. unfold bind at 1, query at 1.
  unfold ret. rewrite Hst. rewrite <- Hfst, map_map. reflexivity.
Qed.

End CheckoutAccepted.

Section CheckoutAccepts.
Import OrderViewSet.

(** A checkout is accepted when the buyer has a basket, the contact of the
    request is valid, every line item of the basket is in stock, and every
    seller order of the basket has a line item and a shop.  The answer is
    201 with the tree of the order, without annotations.  The stock of the
    listing of every line item becomes what the first loop computed for it,
    the stock before the request less the quantity of one line item of the
    basket for the listing (the quantities of several line items for one
    listing do not add up), and no other listing changes.  Every
    seller order of the basket, and no other, becomes new with the contact
    and the date of the request; the buyer order, and no other, becomes
    accepted with the date, its contact being left as it was.  The line
    items, the shops, the contacts and the catalog stay as they are.  A
    notification goes to the shop of every seller order, in their order,
    and a last one to the buyer, with the sum of the shipping prices. *)
Theorem create_accepts (user : nat) (user_email : string)
    (contact_id : option nat) (current_date : nat) (db : DB)
    (order : nat) (order_row : BuyerOrder) (c : nat) :
  basket_object user db = Some (order, order_row) →
  validate_contact user contact_id db = (db, Ok c) →
  (∀ i, i ∈ basket_lines order db →
        ∃ p, row_at (product_infos db) (oi_product_info (snd i)) = Some p
             ∧ oi_quantity (snd i) ≤ quantity p) →
  (∀ o, o ∈ seller_orders_of order db →
        ordered_items_of (fst o) db ≠ []
        ∧ is_Some (row_at (shops db) (so_shop (snd o)))) →
  ∃ db' to_sellers lines,
    create user user_email contact_id current_date db
    = (db',
       Ok ({| status_code := HTTP_201_CREATED;
              data := Tree (render_order ∅ db'
                              (order, accepted current_date order_row)) |},
           to_sellers
           ++ [BuyerNotification user_email order lines
                 (foldr Z.add 0
                    (map (λ o, so_shipping_price (snd o))
                         (seller_orders_of order db)))]))
    ∧ Forall2 (λ o sent,
                 ∃ shop strs,
                   row_at (shops db) (so_shop (snd o)) = Some shop
                   ∧ sent = SellerNotification (shop_email shop) (fst o) strs)
              (seller_orders_of order db) to_sellers
    ∧ (∀ i, i ∈ basket_lines order db →
            ∃ j p,
              j ∈ basket_lines order db
              ∧ oi_product_info (snd j) = oi_product_info (snd i)
              ∧ row_at (product_infos db) (oi_product_info (snd i)) = Some p
              ∧ row_at (product_infos db') (oi_product_info (snd i))
                = Some (set_listing_quantity
                          (quantity p - oi_quantity (snd j)) p))
    ∧ (∀ pk, (∀ i, i ∈ basket_lines order db →
                   oi_product_info (snd i) ≠ pk) →
             row_at (product_infos db') pk = row_at (product_infos db) pk)
    ∧ (∀ k, row_at (seller_orders db') k
            = (λ o, if decide (so_buyer_order o = order)
                    then confirmed c current_date o
                    else o) <$> row_at (seller_orders db) k)
    ∧ (∀ k, row_at (buyer_orders db') k
            = if decide (k = order)
              then Some (accepted current_date order_row)
              else row_at (buyer_orders db) k)
    ∧ seller_order_items db' = seller_order_items db
    ∧ shops db' = shops db ∧ contacts db' = contacts db
    ∧ categories db' = categories db
    ∧ shop_categories db' = shop_categories db ∧ products db' = products db
    ∧ parameters db' = parameters db ∧ values db' = values db
    ∧ product_parameters db' = product_parameters db.
Proof.
  intros Hb Hc Hl Ho.
  destruct (prefetch_lines order db) as [tree Hpre].
  { intros i Hi. destruct (Hl i Hi) as (p & -> & _). by eexists. }
  pose proof (tree_in_stock order db tree Hpre Hl) as Hacc.
  destruct (create_accepted_run user user_email contact_id current_date db
              order order_row c tree Hb Hc Hpre Hacc Ho)
    as (db2 & to_sellers & lines & Hrun & Hconf & Hsent).
  destruct Hconf as (Hpi & Hso & Hsh & Hbo & Hsi & Hrest).
  eexists _, to_sellers, lines. split; [exact Hrun|]. split; [exact Hsent|].
  simpl. split; [|split; [|split; [|split; [|by split]]]].
  - intros i Hi. destruct (Hl i Hi) as (p & Hp & _).
    set (pk := oi_product_info (snd i)) in *.
    assert (pk ∈ tree_listings tree) as Hin
      by (apply (tree_listings_lines order db tree pk Hpre); by exists i).
    destruct (stock_after_is_Some (flat_map snd tree) ∅ pk) as [v Hv];
      [by left|].
    destruct (stock_after_lookup _ _ _ _ Hv)
      as [(ip & Hip & Hk & ->)|Hempty]; [|by rewrite lookup_empty in Hempty].
    pose proof (tree_loaded order db tree ip Hpre Hip) as Hp'.
    rewrite Hk, Hp in Hp'. inversion Hp'; subst p. clear Hp'.
    exists (fst ip), (snd ip). split; [|split; [done|split; [done|]]].
    + rewrite <- (tree_lines order db tree Hpre).
      apply list_elem_of_fmap. by exists ip.
    + rewrite Hpi, Hp. simpl. rewrite decide_True by done. by rewrite Hv.
  - intros pk Hnone. rewrite Hpi.
    destruct (row_at (product_infos db) pk) as [p|]; [|done]. simpl.
    rewrite decide_False; [done|]. intros Hin.
    apply (tree_listings_lines order db tree pk Hpre) in Hin
      as (i & Hi & Hk). by apply (Hnone i).
  - intros k. rewrite Hso.
    destruct (row_at (seller_orders db) k) as [o|] eqn:Hrow; [|done]. simpl.
    f_equal. pose proof (tree_orders order db tree k Hpre) as Hk.
    destruct (decide (so_buyer_order o = order)) as [Heq|Hne].
    + rewrite decide_True; [done|]. apply Hk. by exists o.
    + rewrite decide_False; [done|]. intros Hin. apply Hk in Hin
        as (o' & Ho' & Hb'). congruence.
  - intros k. destruct (decide (k = order)) as [->|Hne].
    + apply basket_object_state in Hb as (Hrow & _).
      eapply row_at_save_eq. by rewrite Hbo.
    + rewrite row_at_save_ne by done. by rewrite Hbo.
Qed.

End CheckoutAccepts.

Section CheckedOut.
Import OrderViewSet.

(** The orders after a checkout that was accepted. *)
Lemma create_accepted_rows user user_email contact_id current_date db
    order order_row c :
  basket_object user db = Some (order, order_row) →
  validate_contact user contact_id db = (db, Ok c) →
  (∀ i, i ∈ basket_lines order db →
        ∃ p, row_at (product_infos db) (oi_product_info (snd i)) = Some p
             ∧ oi_quantity (snd i) ≤ quantity p) →
  (∀ o, o ∈ seller_orders_of order db →
        ordered_items_of (fst o) db ≠ []
        ∧ is_Some (row_at (shops db) (so_shop (snd o)))) →
  let db' := (create user user_email contact_id current_date db).1 in
  (∀ k, row_at (seller_orders db') k
        = (λ o, if decide (so_buyer_order o = order)
                then confirmed c current_date o
                else o) <$> row_at (seller_orders db) k)
  ∧ (∀ k, row_at (buyer_orders db') k
          = if decide (k = order)
            then Some (accepted current_date order_row)
            else row_at (buyer_orders db) k)
  ∧ shops db' = shops db.
Proof.
  intros Hb Hc Hl Ho.
  destruct (prefetch_lines order db) as [tree Hpre].
  { intros i Hi. destruct (Hl i Hi) as (p & -> & _). by eexists. }
  pose proof (tree_in_stock order db tree Hpre Hl) as Hacc.
  destruct (create_accepted_run user user_email contact_id current_date db
              order order_row c tree Hb Hc Hpre Hacc Ho)
    as (db2 & to_sellers & lines & Hrun & Hconf & Hsent).
  destruct Hconf as (Hpi & Hso & Hsh & Hbo & Hsi & Hrest).
  rewrite Hrun. simpl. split; [|split; [|done]].
  - intros k. rewrite Hso.
    destruct (row_at (seller_orders db) k) as [o|] eqn:Hrow; [|done]. simpl.
    f_equal. pose proof (tree_orders order db tree k Hpre) as Hk.
    destruct (decide (so_buyer_order o = order)) as [Heq|Hne].
    + rewrite decide_True; [done|]. apply Hk. by exists o.
    + rewrite decide_False; [done|]. intros Hin. apply Hk in Hin
        as (o' & Ho' & Hb'). congruence.
  - intros k. destruct (decide (k = order)) as [->|Hne].
    + apply basket_object_state in Hb as (Hrow & _).
      eapply row_at_save_eq. by rewrite Hbo.
    + rewrite row_at_save_ne by done. by rewrite Hbo.
Qed.

(** A checkout is accepted once: after the checkout of the only basket of
    the buyer was accepted, the buyer has no basket, the basket is shown as
    empty, and a repeated checkout is answered with 200 and the message
    that there is no order to confirm, without a write or a notification. *)
Theorem checkout_once (user : nat) (user_email : string)
    (contact_id : option nat) (current_date : nat) (db : DB)
    (order : nat) (order_row : BuyerOrder) (c : nat) :
  basket_queryset user db = [(order, order_row)] →
  validate_contact user contact_id db = (db, Ok c) →
  (∀ i, i ∈ basket_lines order db →
        ∃ p, row_at (product_infos db) (oi_product_info (snd i)) = Some p
             ∧ oi_quantity (snd i) ≤ quantity p) →
  (∀ o, o ∈ seller_orders_of order db →
        ordered_items_of (fst o) db ≠ []
        ∧ is_Some (row_at (shops db) (so_shop (snd o)))) →
  let db' := (create user user_email contact_id current_date db).1 in
  basket_object user db' = None
  ∧ BasketView_get user db'
    = (db', Ok {| status_code := HTTP_200_OK; data := Empty |})
  ∧ ∀ user_email' contact_id' current_date',
      create user user_email' contact_id' current_date' db'
      = (db', Ok (api_error (ErrorMessage "no order to confirm")
                            HTTP_200_OK, [])).
Proof.
  intros Hq Hc Hl Ho db'.
  assert (basket_object user db = Some (order, order_row)) as Hb
    by (unfold basket_object; by rewrite Hq).
  destruct (create_accepted_rows user user_email contact_id current_date db
              order order_row c Hb Hc Hl Ho) as (_ & Hbo & _).
  fold db' in Hbo.
  assert (basket_object user db' = None) as Hnone.
  { unfold basket_object.
    destruct (basket_queryset user db') as [|[k b] l] eqn:E; [done|].
    exfalso.
    assert ((k, b) ∈ basket_queryset user db') as Hin by (rewrite E; left).
    unfold basket_queryset in Hin. apply elem_of_select in Hin as [Hrow Hkb].
    rewrite Hbo in Hrow. destruct (decide (k = order)) as [->|Hne].
    - inversion Hrow; subst b. apply bool_decide_eq_true in Hkb as [_ Hst].
      done.
    - assert ((k, b) ∈ basket_queryset user db) as Hin
        by (by apply elem_of_select).
      rewrite Hq in Hin. apply list_elem_of_singleton in Hin.
      by inversion Hin. }
  split; [done|]. split.
  - unfold BasketView_get, bind, query. by rewrite Hnone.
  - intros user_email' contact_id' current_date'.
    unfold create, bind, query. by rewrite Hnone.
Qed.

(** An accepted checkout publishes the order: the basket, which the list
    of the orders of the buyer leaves out, is in that list as accepted after
    the checkout, and each of its seller orders is in the list of the orders
    of the owner of its shop, as a new order with the contact of the
    buyer. *)
Theorem checkout_publishes (user : nat) (user_email : string)
    (contact_id : option nat) (current_date : nat) (db : DB)
    (order : nat) (order_row : BuyerOrder) (c : nat) :
  basket_object user db = Some (order, order_row) →
  validate_contact user contact_id db = (db, Ok c) →
  (∀ i, i ∈ basket_lines order db →
        ∃ p, row_at (product_infos db) (oi_product_info (snd i)) = Some p
             ∧ oi_quantity (snd i) ≤ quantity p) →
  (∀ o, o ∈ seller_orders_of order db →
        ordered_items_of (fst o) db ≠ []
        ∧ is_Some (row_at (shops db) (so_shop (snd o)))) →
  let db' := (create user user_email contact_id current_date db).1 in
  ((order, order_row) ∉ OrderViewSet_get_queryset user db)
  ∧ ((order, accepted current_date order_row)
     ∈ OrderViewSet_get_queryset user db')
  ∧ ∀ o owner shop,
      o ∈ seller_orders_of order db →
      users_shop owner db = (db, Ok shop) →
      so_shop (snd o) = fst shop →
      ∃ listed,
        PartnerOrderView_get_queryset owner db' = (db', Ok listed)
        ∧ (fst o, confirmed c current_date (snd o)) ∈ listed.
Proof.
  intros Hb Hc Hl Ho db'.
  destruct (create_accepted_rows user user_email contact_id current_date db
              order order_row c Hb Hc Hl Ho) as (Hso & Hbo & Hsh).
  fold db' in Hso, Hbo, Hsh.
  destruct (basket_object_state _ _ _ _ Hb) as (Hrow & Hu & Hst).
  split; [|split].
  - unfold OrderViewSet_get_queryset. rewrite elem_of_select.
    intros [_ H]. apply andb_true_iff in H as [_ H].
    apply negb_true_iff, bool_decide_eq_false in H. done.
  - unfold OrderViewSet_get_queryset. apply elem_of_select.
    rewrite Hbo, decide_True by done. split; [done|]. simpl.
    apply andb_true_iff. split; [by apply bool_decide_eq_true|done].
  - intros [k o] owner shop Hin Hshop Hk. simpl in *.
    unfold PartnerOrderView_get_queryset, bind.
    rewrite !users_shop_head in *. unfold shops_of_owner in *.
    rewrite Hsh.
    destruct (head (select _ (shops db))) as [shop'|]; [|done].
    inversion Hshop; subst shop'. clear Hshop.
    eexists. split; [reflexivity|].
    apply elem_of_select in Hin as [Hko Hbuyer].
    apply bool_decide_eq_true in Hbuyer.
    apply elem_of_select. rewrite Hso, Hko. simpl.
    rewrite decide_True by done. split; [done|].
    apply andb_true_iff. split; [by apply bool_decide_eq_true|done].
Qed.

End CheckedOut.

Lemma stocked_basket_lines :
  ∀ i, i ∈ basket_lines 0 stocked_basket →
       ∃ p, row_at (product_infos stocked_basket) (oi_product_info (snd i))
            = Some p
            ∧ oi_quantity (snd i) ≤ quantity p.
Proof.
  intros i Hi.
  assert (basket_lines 0 stocked_basket = [(0%nat, ball_item 100 150)]) as E
    by (vm_compute; reflexivity).
  rewrite E in Hi. apply list_elem_of_singleton in Hi as ->.
  exists ball_listing. split; [vm_compute; reflexivity|simpl; lia].
Defined.

Lemma stocked_basket_orders :
  ∀ o, o ∈ seller_orders_of 0 stocked_basket →
       ordered_items_of (fst o) stocked_basket ≠ []
       ∧ is_Some (row_at (shops stocked_basket) (so_shop (snd o))).
Proof.
  intros o Ho.
  assert (seller_orders_of 0 stocked_basket = [(0%nat, short_order)]) as E
    by (vm_compute; reflexivity).
  rewrite E in Ho. apply list_elem_of_singleton in Ho as ->.
  split; [vm_compute; discriminate|]. vm_compute. by eexists.
Defined.

Lemma create_accepts_witness :
  ∃ db' to_sellers lines,
    OrderViewSet.create 3 "buyer@example.com" (Some 0%nat) 9 stocked_basket
    = (db',
       Ok ({| status_code := HTTP_201_CREATED;
              data := Tree (render_order ∅ db'
                              (0%nat,
                               accepted 9 (BasketView.new_basket 3))) |},
           to_sellers
           ++ [BuyerNotification "buyer@example.com" 0 lines
                 (foldr Z.add 0
                    (map (λ o, so_shipping_price (snd o))
                         (seller_orders_of 0 stocked_basket)))]))
    ∧ row_at (seller_order_items db') 0 = Some (ball_item 100 150).
Proof.
  destruct (create_accepts 3 "buyer@example.com" (Some 0%nat) 9
              stocked_basket 0 (BasketView.new_basket 3) 0)
    as (db' & to_sellers & lines & Hrun & _ & _ & _ & _ & _ & Hitems & _).
  - vm_compute. reflexivity.
  - vm_compute. reflexivity.
  - exact stocked_basket_lines.
  - exact stocked_basket_orders.
  - exists db', to_sellers, lines. split; [exact Hrun|].
    rewrite Hitems. vm_compute. reflexivity.
Defined.

Lemma checkout_once_witness :
  basket_object 3
    (OrderViewSet.create 3 "buyer@example.com" (Some 0%nat) 9
       stocked_basket).1
  = None.
Proof.
  destruct (checkout_once 3 "buyer@example.com" (Some 0%nat) 9
              stocked_basket 0 (BasketView.new_basket 3) 0) as [H _].
  - vm_compute. reflexivity.
  - vm_compute. reflexivity.
  - exact stocked_basket_lines.
  - exact stocked_basket_orders.
  - exact H.
Defined.

Lemma checkout_publishes_witness :
  (0%nat, accepted 9 (BasketView.new_basket 3))
  ∈ OrderViewSet_get_queryset 3
      (OrderViewSet.create 3 "buyer@example.com" (Some 0%nat) 9
         stocked_basket).1.
Proof.
  destruct (checkout_publishes 3 "buyer@example.com" (Some 0%nat) 9
              stocked_basket 0 (BasketView.new_basket 3) 0) as (_ & H & _).
  - vm_compute. reflexivity.
  - vm_compute. reflexivity.
  - exact stocked_basket_lines.
  - exact stocked_basket_orders.
  - exact H.
Defined.

(** The checkout of the stocked basket is accepted; after the partner
    deleted the listing, the same checkout is answered with 206 and
    nothing is sent. *)
Lemma destroy_blocks_checkout_witness :
  let db' :=
    (PartnerProductView_perform_destroy (0%nat, ball_listing)
       stocked_basket).1 in
  (∃ r sent,
     (OrderViewSet.create 3 "buyer@example.com" (Some 0%nat) 9
        stocked_basket).2 = Ok (r, sent)
     ∧ status_code r = HTTP_201_CREATED)
  ∧ ∃ annotations,
      OrderViewSet.create 3 "buyer@example.com" (Some 0%nat) 9 db'
      = (db', Ok ({| status_code := HTTP_206_PARTIAL_CONTENT;
                     data := Tree (render_order annotations db'
                                     (0%nat, BasketView.new_basket 3)) |},
                  [])).
Proof.
  intros db'. split.
  { eexists _, _. split; vm_compute; reflexivity. }
  destruct (destroy_blocks_checkout 3 "buyer@example.com" (Some 0%nat) 9
              stocked_basket 0 ball_listing 0 (BasketView.new_basket 3)
              (0%nat, short_order) (0%nat, ball_item 100 150))
    as (_ & _ & H).
  - vm_compute. reflexivity.
  - vm_compute. reflexivity.
  - apply elem_of_select; split; vm_compute; reflexivity.
  - apply elem_of_select; split; vm_compute; reflexivity.
  - reflexivity.
  - simpl. lia.
  - apply (H ltac:(intros k i Hi; destruct k as [|k];
                    [vm_compute in Hi; inversion Hi; subst; by eexists
                    |by destruct k]) 0%nat).
    vm_compute. reflexivity.
Defined.

Section ImportIsolation.

(** The shop of a run is the shop of the owner, or a new one. *)
Lemma shop_of_run owner name email shipping db db1 shop created :
  shop_get_or_create owner name email shipping db = (db1, Ok (shop, created)) →
  (∃ s, row_at (shops db) shop = Some s ∧ shop_owner s = owner)
  ∨ shop = length (shops db).
Proof.
  rewrite shop_get_or_create_run.
  destruct (shops_of_owner owner db) as [|[pk s] [|? ?]] eqn:E.
  - case_bool_decide; [done|]. intros [= _ <- _]. by right.
  - intros [= _ <- _]. left. exists s.
    assert ((pk, s) ∈ shops_of_owner owner db) as Hin by (rewrite E; left).
    unfold shops_of_owner in Hin. apply elem_of_select in Hin as [Hrow Ho].
    split; [done|]. by apply bool_decide_eq_true in Ho.
  - done.
Qed.

(** Whatever its outcome, a run keeps the listings of the shops of the
    other owners. *)
Lemma import_products_kept_all user_id user_email json_data db shop ext s :
  row_at (shops db) shop = Some s → shop_owner s ≠ user_id →
  kept_step shop ext db (import_products user_id user_email json_data db).1.
Proof.
  intros Hs Hown. rewrite import_products_run.
  destruct (parse_top json_data) as [key|[[[name cs] cats] goods]];
    [apply kept_step_refl|].
  destruct (shop_get_or_create _ _ _ _ db) as [db1 r] eqn:Es.
  assert (kept_step shop ext db db1) as K1.
  { destruct (shop_step_same _ _ _ _ _ _ _ Es) as [->|[s' ->]];
      exact (kept_step_refl shop ext db). }
  destruct r as [[shop' created]|e]; [|by destruct e].
  assert (shop ≠ shop') as Hne.
  { destruct (shop_of_run _ _ _ _ _ _ _ _ Es) as [(s' & Hs' & Ho')| ->].
    - intros <-. congruence.
    - apply row_at_lt in Hs. lia. }
  destruct (validation_of cs cats goods) as [err|infos]; [done|].
  assert (kept_step shop ext db1 (store_products shop' created infos db1).1)
    as K2.
  { rewrite store_products_run.
    assert (∀ x, x ∈ infos → (shop, ext) ≠ (shop', pd_external_id x)) as Hoff
      by (intros x _ [= ? _]; done).
    destruct (created || negb (bool_decide (listings_of shop' db1 ≠ []))).
    - exact (create_all_kept shop ext shop' infos db1 Hoff).
    - eapply kept_step_trans; [apply zeroed_kept; by left|].
      exact (upsert_all_kept shop ext shop' infos
               (zeroed shop' (external_ids infos) db1) Hoff). }
  destruct (store_products shop' created infos db1) as [db2 [[]|e]];
    simpl in *; by eapply kept_step_trans.
Qed.

Lemma import_products_shops user_id user_email json_data db :
  shops db `prefix_of` shops (import_products user_id user_email json_data db).1.
Proof.
  rewrite import_products_run.
  destruct (parse_top json_data) as [key|[[[name cs] cats] goods]]; [done|].
  destruct (shop_get_or_create _ _ _ _ db) as [db1 r] eqn:Es.
  assert (shops db `prefix_of` shops db1) as P1.
  { destruct (shop_step_same _ _ _ _ _ _ _ Es) as [->|[s' ->]]; [done|].
    simpl. by apply prefix_app_r. }
  destruct r as [[shop' created]|e]; [|by destruct e].
  destruct (validation_of cs cats goods) as [err|infos]; [done|].
  pose proof (store_products_step shop' created infos db1) as [G _].
  destruct (store_products shop' created infos db1) as [db2 [[]|e]];
    simpl in *; by rewrite (grows_shops _ _ G).
Qed.

(** The catalog of a partner is out of the reach of the imports of the
    others: whatever the payload and whatever the outcome of the run, an
    import leaves every listing of a shop of another owner as it is, with
    its stock, its prices and its parameter rows, and leaves the row of
    that shop as it is. *)
Theorem import_isolated (user_id : nat) (user_email : string)
    (json_data : payload) (db : DB) (pk : nat) (p : ProductInfo) (s : Shop) :
  row_at (product_infos db) pk = Some p →
  row_at (shops db) (pi_shop p) = Some s →
  shop_owner s ≠ user_id →
  let db' := (import_products user_id user_email json_data db).1 in
  row_at (product_infos db') pk = Some p
  ∧ parameters_of pk db' = parameters_of pk db
  ∧ row_at (shops db') (pi_shop p) = Some s
  ∧ parameters db `prefix_of` parameters db'
  ∧ values db `prefix_of` values db'.
Proof.
  intros Hp Hs Hown db'.
  destruct (import_products_kept_all user_id user_email json_data db
              (pi_shop p) (external_id p) s Hs Hown)
    as ((_ & _ & _ & Hpar & Hval) & _ & K & _).
  destruct (K pk p Hp) as [Hrow Hparams]; [done|].
  split; [done|]. split; [done|]. split; [|done].
  eapply row_at_prefix; [|exact Hs]. apply import_products_shops.
Qed.

End ImportIsolation.

Section ImportCatalogue.

(** The store after the shop of a run was looked up or created. *)
Lemma shop_step_wf owner name email shipping db db1 shop created :
  params_wf db → listings_wf db →
  shop_get_or_create owner name email shipping db = (db1, Ok (shop, created)) →
  params_wf db1 ∧ (created = true → listings_of shop db1 = []).
Proof.
  intros Hwf Hlwf. rewrite shop_get_or_create_run.
  destruct (shops_of_owner owner db) as [|[pk s] [|? ?]].
  - case_bool_decide; [done|]. intros [= <- <- <-]. split; [done|].
    intros _. apply select_nil. intros k p Hp. apply bool_decide_eq_false.
    simpl in Hp. apply Hlwf in Hp. lia.
  - by intros [= <- <- <-].
  - done.
Qed.

(** After a run that succeeded, the catalogue of the buyers shows of the
    shop of the run, when it is open, the goods of the run that are in
    stock: every listing of the shop in the catalogue has the external id
    of a good of the run, and every good of the run with a quantity above 0
    (the last one, of those with its id) is in the catalogue as a listing
    of the shop with its external id, quantity and prices. *)
Theorem import_then_catalogue (user_id : nat) (user_email : string)
    (json_data : payload) (db db' : DB) (shop : nat) (s : Shop) :
  params_wf db → listings_wf db →
  import_products user_id user_email json_data db = (db', Ok (ImportOk shop)) →
  row_at (shops db') shop = Some s → is_open s = true →
  ∃ name cs cats goods infos,
    parse_top json_data = inr (name, cs, cats, goods)
    ∧ validation_of cs cats goods = inr infos
    ∧ (∀ k p, (k, p) ∈ ProductView_get_queryset db' → pi_shop p = shop →
              external_id p ∈ ids_of infos)
    ∧ (∀ l1 info l2,
         infos = l1 ++ info :: l2 → pd_external_id info ∉ ids_of l2 →
         0 < pd_quantity info →
         ∃ k p, (k, p) ∈ ProductView_get_queryset db'
                ∧ pi_shop p = shop ∧ external_id p = pd_external_id info
                ∧ quantity p = pd_quantity info ∧ price p = pd_price info
                ∧ price_rrc p = pd_price_rrc info).
Proof.
  intros Hwf Hlwf Hrun Hs Hopen.
  destruct (import_products_ok _ _ _ _ _ _ Hrun)
    as (name & cs & cats & goods & infos & db1 & created
        & Hparse & Hshop & Hv & Hst).
  destruct (shop_step_wf _ _ _ _ _ _ _ _ Hwf Hlwf Hshop) as [Hwf1 Hc].
  destruct (store_products_ok shop created infos db1 db' Hwf1 Hc Hst)
    as (G & Hsync & Hzero).
  exists name, cs, cats, goods, infos. split; [done|]. split; [done|]. split.
  - intros k p Hin Hp. unfold ProductView_get_queryset in Hin.
    apply elem_of_select in Hin as [Hrow Hq].
    apply andb_true_iff in Hq as [_ Hq]. apply bool_decide_eq_true in Hq.
    destruct (decide (external_id p ∈ ids_of infos)) as [|Hout]; [done|].
    pose proof (Hzero k p Hrow Hp Hout). lia.
  - intros l1 info l2 Hl Hlast Hq.
    destruct (Hsync l1 info l2 Hl Hlast)
      as (k & p & old & Hhead & Hqty & Hprice & Hrrc & _).
    apply head_listings_with in Hhead as (Hrow & [Hps Hext] & _).
    exists k, p. split; [|done].
    unfold ProductView_get_queryset. apply elem_of_select. split; [done|].
    rewrite Hps, Hs, Hopen. simpl. apply bool_decide_eq_true. lia.
Qed.

End ImportCatalogue.

Lemma import_isolated_witness :
  row_at (product_infos
            (import_products 8 "other@example.com" (catalog_b []) shops_a_b).1)
         0
  = row_at (product_infos shops_a_b) 0.
Proof.
  destruct (import_isolated 8 "other@example.com" (catalog_b []) shops_a_b 0
              {| pi_product := 0; pi_shop := 0; pi_category := 0;
                 external_id := 10; quantity := 5; price := 100;
                 price_rrc := 150 |} shop_a_row) as [H _].
  - vm_compute. reflexivity.
  - vm_compute. reflexivity.
  - simpl. lia.
  - rewrite H. vm_compute. reflexivity.
Defined.

Lemma import_then_catalogue_witness :
  ∃ k p, (k, p) ∈ ProductView_get_queryset shop_a
         ∧ pi_shop p = 0%nat ∧ external_id p = 10
         ∧ quantity p = 5 ∧ price p = 100 ∧ price_rrc p = 150.
Proof.
  destruct (import_then_catalogue 7 "owner@example.com" (catalog [ball])
              empty_db shop_a 0 shop_a_row)
    as (name & cs & cats & goods & infos & Hparse & Hv & _ & H).
  - intros k pp Hk. vm_compute in Hk. by destruct k.
  - intros k p Hk. vm_compute in Hk. by destruct k.
  - vm_compute. reflexivity.
  - vm_compute. reflexivity.
  - reflexivity.
  - vm_compute in Hparse. inversion Hparse; subst. clear Hparse.
    vm_compute in Hv. inversion Hv; subst. clear Hv.
    exact (H [] ball_data [] eq_refl (not_elem_of_nil _) eq_refl).
Defined.

Section ParameterOrder.
Import PartnerProductInfoSerializer.

(** The order of the sort is transitive. *)
Lemma ascii_compare_N c1 c2 :
  Ascii.compare c1 c2 = N.compare (N_of_ascii c1) (N_of_ascii c2).
Proof. reflexivity. Qed.

Lemma ascii_compare_Eq c1 c2 : Ascii.compare c1 c2 = Eq → c1 = c2.
Proof.
  rewrite ascii_compare_N. intros H%N.compare_eq.
  rewrite <- (ascii_N_embedding c1), <- (ascii_N_embedding c2). by rewrite H.
Qed.

Lemma ascii_compare_refl c : Ascii.compare c c = Eq.
Proof. rewrite ascii_compare_N. apply N.compare_refl. Qed.

Lemma string_leb_trans s1 s2 s3 :
  String.leb s1 s2 = true → String.leb s2 s3 = true → String.leb s1 s3 = true.
Proof.
  unfold String.leb. revert s2 s3.
  induction s1 as [|c1 s1 IH]; intros [|c2 s2] [|c3 s3]; simpl; try done.
  destruct (Ascii.compare c1 c2) eqn:E12; [| |done].
  - apply ascii_compare_Eq in E12 as ->.
    destruct (Ascii.compare c2 c3) eqn:E23; [|done..]. apply IH.
  - destruct (Ascii.compare c2 c3) eqn:E23; [| |done].
    + apply ascii_compare_Eq in E23 as ->. by rewrite E12.
    + rewrite ascii_compare_N in *.
      apply N.compare_lt_iff in E12. apply N.compare_lt_iff in E23.
      pose proof (N.lt_trans _ _ _ E12 E23) as H.
      apply N.compare_lt_iff in H. by rewrite H.
Qed.

(** Two insertions of different names commute. *)
Lemma insert_by_parameter_comm x y l :
  fst x ≠ fst y →
  insert_by_parameter x (insert_by_parameter y l)
  = insert_by_parameter y (insert_by_parameter x l).
Proof.
  intros Hne. induction l as [|z l IH]; simpl.
  - destruct (String.leb (fst x) (fst y)) eqn:Exy,
             (String.leb (fst y) (fst x)) eqn:Eyx; try done.
    + destruct Hne. by apply String.leb_antisym.
    + destruct (String.leb_total (fst x) (fst y)); congruence.
  - destruct (String.leb (fst y) (fst z)) eqn:Eyz,
             (String.leb (fst x) (fst z)) eqn:Exz; simpl;
      rewrite ?Eyz, ?Exz.
    + destruct (String.leb (fst x) (fst y)) eqn:Exy,
               (String.leb (fst y) (fst x)) eqn:Eyx; rewrite ?Eyz, ?Exz;
        try done.
      * destruct Hne. by apply String.leb_antisym.
      * destruct (String.leb_total (fst x) (fst y)); congruence.
    + destruct (String.leb (fst x) (fst y)) eqn:Exy; [|done].
      pose proof (string_leb_trans _ _ _ Exy Eyz). congruence.
    + destruct (String.leb (fst y) (fst x)) eqn:Eyx; [|done].
      pose proof (string_leb_trans _ _ _ Eyx Exz). congruence.
    + by rewrite IH.
Qed.

(** The sort of parameters with different names does not depend on their
    order. *)
Lemma sort_by_parameter_perm l l' :
  l ≡ₚ l' → NoDup (map fst l) →
  sort_by_parameter l = sort_by_parameter l'.
Proof.
  unfold sort_by_parameter. induction 1 as [|x l l' _ IH|x y l|l1 l2 l3 H12 IH12 H23 IH23];
    intros Hnd; simpl.
  - done.
  - apply NoDup_cons in Hnd as [_ Hnd]. by rewrite IH.
  - apply insert_by_parameter_comm.
    apply NoDup_cons in Hnd as [Hin _]. intros Heq. apply Hin.
    rewrite Heq. left.
  - rewrite IH12 by done. apply IH23.
    by rewrite <- (fmap_Permutation fst _ _ H12).
Qed.

(** The upsert of a listing does not look at the order of the parameters:
    when a listing carries the quantity, the prices and the parameters of a
    payload, the upsert of a payload that differs from it in the order of
    the parameters only, their names being different from each other,
    writes nothing. *)
Theorem update_or_create_reordered (info info' : product_data) (shop : nat)
    (db : DB) :
  synced db shop info →
  pd_external_id info' = pd_external_id info →
  pd_quantity info' = pd_quantity info →
  pd_price info' = pd_price info →
  pd_price_rrc info' = pd_price_rrc info →
  pd_product_parameters info' ≡ₚ pd_product_parameters info →
  NoDup (map fst (pd_product_parameters info)) →
  ∃ pk, update_or_create info' shop db = (db, Ok pk).
Proof.
  intros (pk & p & old & Hhead & Hq & Hp & Hr & Hold & Hsort)
         Hext Hqty Hprice Hrrc Hperm Hnd.
  apply update_or_create_synced. exists pk, p, old.
  rewrite Hext, Hqty, Hprice, Hrrc. repeat (split; [done|]).
  rewrite Hsort. symmetry. apply sort_by_parameter_perm; [done|].
  by rewrite (fmap_Permutation fst _ _ Hperm).
Qed.

End ParameterOrder.

Lemma update_or_create_reordered_witness :
  ∃ pk,
    PartnerProductInfoSerializer.update_or_create
      (ball_sized_data [("size", "5"); ("color", "red")]) 0 shop_sized
    = (shop_sized, Ok pk).
Proof.
  apply (update_or_create_reordered
           (ball_sized_data [("color", "red"); ("size", "5")])).
  - exists 0%nat,
      {| pi_product := 0; pi_shop := 0; pi_category := 0; external_id := 10;
         quantity := 5; price := 100; price_rrc := 150 |},
      [("color", "red"); ("size", "5")].
    split; [vm_compute; reflexivity|]. split; [reflexivity|].
    split; [reflexivity|]. split; [reflexivity|].
    split; vm_compute; reflexivity.
  - reflexivity.
  - reflexivity.
  - reflexivity.
  - reflexivity.
  - apply perm_swap.
  - simpl. apply NoDup_cons. split.
    + intros H. apply list_elem_of_singleton in H. discriminate.
    + apply NoDup_singleton.
Defined.

Section SoleRows.
Context {A : Type}.
Implicit Types (t : table A) (P : nat → A → bool).

Lemma select_sole P t k r :
  row_at t k = Some r → P k r = true →
  (∀ k' r', row_at t k' = Some r' → P k' r' = true → k' = k) →
  select P t = [(k, r)].
Proof.
  intros Hr HP Huniq.
  assert (∀ x, x ∈ select P t → x = (k, r)) as Hall.
  { intros [k' r'] Hin. apply elem_of_select in Hin as [Hr' HP'].
    assert (k' = k) as -> by (by eapply Huniq). congruence. }
  assert ((k, r) ∈ select P t) as Hin by (by apply elem_of_select).
  pose proof (select_NoDup P t) as Hnd.
  destruct (select P t) as [|x [|y l]]; [by apply elem_of_nil in Hin| |].
  - rewrite (Hall x); [done|left].
  - exfalso. rewrite (Hall x) in Hnd by left.
    rewrite (Hall y) in Hnd by (right; left).
    simpl in Hnd. apply NoDup_cons in Hnd as [Hn _]. apply Hn. left.
Qed.

Lemma sole_of_select P t k r :
  select P t = [(k, r)] →
  row_at t k = Some r ∧ P k r = true
  ∧ ∀ k' r', row_at t k' = Some r' → P k' r' = true → k' = k.
Proof.
  intros E.
  assert ((k, r) ∈ select P t) as Hin by (rewrite E; left).
  apply elem_of_select in Hin as [Hr HP]. split; [done|]. split; [done|].
  intros k' r' Hr' HP'.
  assert ((k', r') ∈ select P t) as Hin' by (by apply elem_of_select).
  rewrite E in Hin'. apply list_elem_of_singleton in Hin'. by inversion Hin'.
Qed.

(** Saving a row that the filter takes, in the place of the one row that
    it took. *)
Lemma select_save_sole P t k r0 r :
  select P t = [(k, r0)] → P k r = true →
  select P (tbl_save t k r) = [(k, r)].
Proof.
  intros E HP. apply sole_of_select in E as (Hr0 & _ & Huniq).
  apply select_sole; [by eapply row_at_save_eq|done|].
  intros k' r' Hr' HP'. destruct (decide (k' = k)) as [|Hne]; [done|].
  rewrite row_at_save_ne in Hr' by done. by eapply Huniq.
Qed.

(** Saving a row that the filter leaves, in the place of a row that it
    left. *)
Lemma select_save_other P t k r0 r k1 r1 :
  select P t = [(k1, r1)] → row_at t k = Some r0 →
  P k r0 = false → P k r = false →
  select P (tbl_save t k r) = [(k1, r1)].
Proof.
  intros E Hr0 HP0 HP. apply sole_of_select in E as (Hr1 & HP1 & Huniq).
  assert (k1 ≠ k) as Hne by (intros ->; congruence).
  apply select_sole; [by rewrite row_at_save_ne|done|].
  intros k' r' Hr' HP'. destruct (decide (k' = k)) as [->|Hne'].
  - rewrite (row_at_save_eq _ _ _ _ Hr0) in Hr'. congruence.
  - rewrite row_at_save_ne in Hr' by done. by eapply Huniq.
Qed.

End SoleRows.

Section BasketAddTwice.
Import BasketView.

Lemma sole_order_ext basket shop db db' o :
  seller_orders db' = seller_orders db →
  sole_order basket shop db o → sole_order basket shop db' o.
Proof. unfold sole_order. by intros ->. Qed.

Lemma sole_item_ext o pk line db db' :
  seller_order_items db' = seller_order_items db →
  sole_item o pk line db → sole_item o pk line db'.
Proof. unfold sole_item. by intros ->. Qed.

Lemma items_done_ext keys o listings db db' :
  seller_order_items db' = seller_order_items db →
  items_done keys o listings db → items_done keys o listings db'.
Proof.
  intros E H x Hx. destruct (H x Hx) as (line & Hl & Hs).
  exists line. split; [done|]. by eapply sole_item_ext.
Qed.

(** A line item that is there is written again as it is. *)
Lemma item_update_or_create_sole o pk q pr rrc db :
  sole_item o pk (line_item o pk q pr rrc) db →
  item_update_or_create o pk q pr rrc db = (db, Ok tt).
Proof.
  intros [k E]. unfold item_update_or_create. rewrite E. simpl.
  apply sole_of_select in E as (Hrow & _).
  fold (line_item o pk q pr rrc).
  rewrite (tbl_save_id _ _ _ Hrow). by rewrite set_seller_order_items_id.
Qed.

(** What [item_update_or_create] leaves behind. *)
Lemma item_update_or_create_done o pk q pr rrc db db' :
  item_update_or_create o pk q pr rrc db = (db', Ok tt) →
  sole_item o pk (line_item o pk q pr rrc) db'
  ∧ seller_orders db' = seller_orders db
  ∧ ∀ o0 pk0 line0,
      sole_item o0 pk0 line0 db →
      (o0 = o → pk0 = pk → line0 = line_item o pk q pr rrc) →
      sole_item o0 pk0 line0 db'.
Proof.
  unfold item_update_or_create. fold (line_item o pk q pr rrc).
  destruct (get_unique _) as [[[k r0]|]|e] eqn:E; [| |done].
  - apply get_unique_Some in E. intros [= <-]. split; [|split; [done|]].
    + exists k. simpl. apply (select_save_sole _ _ _ r0); [exact E|].
      by apply bool_decide_eq_true.
    + intros o0 pk0 line0 [k0 E0] Hsame. exists k0. simpl.
      destruct (decide (o0 = o ∧ pk0 = pk)) as [[-> ->]|Hne].
      * rewrite E in E0. inversion E0; subst k0 line0.
        rewrite (Hsame eq_refl eq_refl).
        apply (select_save_sole _ _ _ r0); [exact E|].
        by apply bool_decide_eq_true.
      * apply sole_of_select in E as (Hr0 & HP0 & _).
        apply bool_decide_eq_true in HP0 as [Ho Hpk].
        apply (select_save_other _ _ _ r0); [done|done| |].
        -- apply bool_decide_eq_false. intros [? ?]. apply Hne. split; congruence.
        -- apply bool_decide_eq_false. simpl. intros [? ?]. apply Hne.
           split; congruence.
  - assert (select (λ _ i, bool_decide (oi_order i = o
                                        ∧ oi_product_info i = pk))
                   (seller_order_items db) = []) as Hnil
      by (by destruct (select _ _) as [|? [|? ?]]).
    intros [= <-]. split; [|split; [done|]].
    + exists (length (seller_order_items db)). simpl.
      rewrite select_insert, Hnil. simpl.
      by rewrite bool_decide_eq_true_2.
    + intros o0 pk0 line0 [k0 E0] Hsame. exists k0. simpl.
      rewrite select_insert, E0. simpl.
      rewrite bool_decide_eq_false_2; [done|].
      intros [-> ->]. by rewrite Hnil in E0.
Qed.

(** A seller order that is there is found again. *)
Lemma seller_order_get_or_create_sole basket shop shipping_price db o :
  sole_order basket shop db o →
  seller_order_get_or_create basket shop shipping_price db = (db, Ok o).
Proof.
  intros [row E]. unfold seller_order_get_or_create. by rewrite E.
Qed.

(** What [seller_order_get_or_create] leaves behind. *)
Lemma seller_order_get_or_create_done basket shop shipping_price db db' o :
  seller_order_get_or_create basket shop shipping_price db = (db', Ok o) →
  sole_order basket shop db' o
  ∧ seller_order_items db' = seller_order_items db
  ∧ ∀ shop0 o0, sole_order basket shop0 db o0 → sole_order basket shop0 db' o0.
Proof.
  unfold seller_order_get_or_create.
  destruct (get_unique _) as [[[k r0]|]|e] eqn:E; [| |done].
  - apply get_unique_Some in E. intros [= <- <-].
    split; [by exists r0|]. done.
  - assert (select (λ _ o, bool_decide (so_buyer_order o = basket
                                        ∧ so_shop o = shop
                                        ∧ so_state o = SO_basket))
                   (seller_orders db) = []) as Hnil
      by (by destruct (select _ _) as [|? [|? ?]]).
    intros [= <- <-]. split; [|split; [done|]].
    + eexists. simpl. rewrite select_insert, Hnil. simpl.
      by rewrite bool_decide_eq_true_2.
    + intros shop0 o0 [row0 E0]. exists row0. simpl.
      rewrite select_insert, E0. simpl.
      rewrite bool_decide_eq_false_2; [done|].
      intros (_ & -> & _). by rewrite Hnil in E0.
Qed.

End BasketAddTwice.

Section BasketAddAgain.
Import BasketView.

Lemma for_each_cons {A} (x : A) (l : list A) (body : A → M unit) :
  for_each (x :: l) body = (run! body x in for_each l body).
Proof. reflexivity. Qed.

Lemma fill_items_cons order keys x listings :
  fill_items order keys (x :: listings)
  = (run! match keys !! fst x with
          | None => raise (KeyError (pretty (fst x)))
          | Some requested =>
              item_update_or_create order (fst x) requested
                (price (snd x)) (price_rrc (snd x))
          end in
     fill_items order keys listings).
Proof. reflexivity. Qed.

(** The line items that the loop over the listings of one shop leaves
    behind: one for each listing, and those of the request that were there
    before. *)
Lemma fill_items_done db0 keys order listings db db' :
  (∀ x, x ∈ listings → row_at (product_infos db0) (fst x) = Some (snd x)) →
  fill_items order keys listings db = (db', Ok tt) →
  items_done keys order listings db'
  ∧ seller_orders db' = seller_orders db
  ∧ ∀ o0 x0 line0,
      row_at (product_infos db0) (fst x0) = Some (snd x0) →
      line_of keys o0 x0 = Some line0 →
      sole_item o0 (fst x0) line0 db → sole_item o0 (fst x0) line0 db'.
Proof.
  revert db. induction listings as [|x listings IH]; intros db Hload.
  - intros [= <-]. split; [|done]. intros x Hx. by apply elem_of_nil in Hx.
  - rewrite fill_items_cons. unfold bind at 1.
    destruct (keys !! fst x) as [q|] eqn:Hq; [|done].
    destruct (item_update_or_create order (fst x) q (price (snd x))
                (price_rrc (snd x)) db) as [db1 [[]|e]] eqn:E1; [|done].
    intros Hrun.
    destruct (item_update_or_create_done _ _ _ _ _ _ _ E1) as (S1 & O1 & P1).
    destruct (IH db1) as (D2 & O2 & P2); [|done|].
    { intros y Hy. apply Hload. by right. }
    assert (∀ o0 x0 line0,
              row_at (product_infos db0) (fst x0) = Some (snd x0) →
              line_of keys o0 x0 = Some line0 →
              sole_item o0 (fst x0) line0 db →
              sole_item o0 (fst x0) line0 db') as P.
    { intros o0 x0 line0 Hx0 Hl0 Hs0. apply P2; [done|done|].
      apply P1; [done|]. intros -> Hfst.
      unfold line_of in Hl0. rewrite Hfst, Hq in Hl0. simpl in Hl0.
      inversion Hl0; subst line0.
      assert (snd x0 = snd x) as ->; [|done].
      pose proof (Hload x (list_elem_of_here _ _)) as Hx.
      rewrite Hfst in Hx0. congruence. }
    split; [|split; [congruence|done]].
    intros y Hy. apply elem_of_cons in Hy as [->|Hy]; [|by apply D2].
    exists (line_item order (fst x) q (price (snd x)) (price_rrc (snd x))).
    assert (line_of keys order x
            = Some (line_item order (fst x) q (price (snd x))
                              (price_rrc (snd x)))) as Hl
      by (unfold line_of; by rewrite Hq).
    split; [done|]. apply P2; [|done|done]. apply Hload. left.
Qed.

(** The loop over listings whose line items are there changes nothing. *)
Lemma fill_items_again keys order listings db :
  items_done keys order listings db →
  fill_items order keys listings db = (db, Ok tt).
Proof.
  induction listings as [|x listings IH]; intros Hdone; [done|].
  rewrite fill_items_cons. unfold bind at 1.
  destruct (Hdone x) as (line & Hl & Hs); [left|].
  unfold line_of in Hl. destruct (keys !! fst x) as [q|]; [|done].
  simpl in Hl. inversion Hl; subst line.
  rewrite (item_update_or_create_sole _ _ _ _ _ _ Hs).
  apply IH. intros y Hy. apply Hdone. by right.
Qed.

Lemma fill_seller_order_run basket keys shop listings db :
  fill_seller_order basket keys (shop, listings) db
  = match seller_order_get_or_create basket (fst shop)
            (base_shipping_price (snd shop)) db with
    | (db1, Ok order) => fill_items order keys listings db1
    | (db1, Raise e) => (db1, Raise e)
    end.
Proof.
  unfold fill_seller_order, bind.
  by destruct (seller_order_get_or_create _ _ _ db) as [db1 [order|e]].
Qed.

(** What the body of the loop of [post] leaves behind. *)
Lemma fill_seller_order_done basket keys db0 entry db db' :
  open_entry keys db0 entry →
  fill_seller_order basket keys entry db = (db', Ok tt) →
  entry_done basket keys entry db'
  ∧ ∀ entry0, open_entry keys db0 entry0 →
              entry_done basket keys entry0 db →
              entry_done basket keys entry0 db'.
Proof.
  destruct entry as [shop listings]. intros (_ & _ & Hload).
  rewrite fill_seller_order_run.
  destruct (seller_order_get_or_create _ _ _ db) as [db1 [order|e]] eqn:E1;
    [|done].
  intros Hrun.
  destruct (seller_order_get_or_create_done _ _ _ _ _ _ E1) as (S1 & I1 & P1).
  destruct (fill_items_done db0 keys order listings db1 db')
    as (D2 & O2 & P2); [|done|].
  { intros [pk p] Hx. by destruct (Hload pk p Hx). }
  split.
  - exists order. split; [|done]. by eapply sole_order_ext.
  - intros [shop0 listings0] (_ & _ & Hload0) (o0 & Ho0 & Hd0).
    exists o0. split.
    + eapply sole_order_ext; [exact O2|]. by apply P1.
    + intros x Hx. destruct (Hd0 x Hx) as (line & Hl & Hs).
      exists line. split; [done|]. apply P2; [|done|].
      * destruct x as [pk p]. by destruct (Hload0 pk p Hx).
      * by eapply sole_item_ext.
Qed.

(** After the loop of [post] every entry is in the basket. *)
Lemma fill_basket_done basket keys db0 entries db db' :
  (∀ entry, entry ∈ entries → open_entry keys db0 entry) →
  for_each entries (fill_seller_order basket keys) db = (db', Ok tt) →
  (∀ entry, entry ∈ entries → entry_done basket keys entry db')
  ∧ ∀ entry0, open_entry keys db0 entry0 →
              entry_done basket keys entry0 db →
              entry_done basket keys entry0 db'.
Proof.
  revert db. induction entries as [|entry entries IH]; intros db Hopen.
  - intros [= <-]. split; [|done]. intros e He. by apply elem_of_nil in He.
  - simpl. unfold bind at 1.
    destruct (fill_seller_order basket keys entry db) as [db1 [[]|e]] eqn:E1;
      [|done].
    intros Hrun.
    destruct (fill_seller_order_done basket keys db0 entry db db1)
      as (D1 & P1); [apply Hopen; left|done|].
    destruct (IH db1) as (D2 & P2); [|done|].
    { intros e He. apply Hopen. by right. }
    split.
    + intros e He. apply elem_of_cons in He as [->|He]; [|by apply D2].
      apply P2; [apply Hopen; left|done].
    + intros e0 Ho0 Hd0. apply P2; [done|]. by apply P1.
Qed.

(** The loop of [post] over entries that are in the basket changes
    nothing. *)
Lemma fill_basket_again basket keys entries db :
  (∀ entry, entry ∈ entries → entry_done basket keys entry db) →
  for_each entries (fill_seller_order basket keys) db = (db, Ok tt).
Proof.
  induction entries as [|[shop listings] entries IH]; intros Hdone; [done|].
  rewrite for_each_cons. unfold bind at 1. rewrite fill_seller_order_run.
  destruct (Hdone (shop, listings)) as (o & Ho & Hi); [left|].
  simpl in Ho, Hi. rewrite (seller_order_get_or_create_sole _ _ _ _ _ Ho).
  rewrite (fill_items_again _ _ _ _ Hi).
  apply IH. intros e He. apply Hdone. by right.
Qed.

End BasketAddAgain.

Section BasketAddIdempotent.
Import BasketView.

Lemma validate_items_ext data db db' :
  product_infos db' = product_infos db →
  validate_items data db' = (db', (validate_items data db).2).
Proof.
  intros Hp. unfold validate_items, validate_item. rewrite Hp.
  by destruct (forallb _ _).
Qed.

Lemma shops_with_ordered_products_ext keys db db' :
  shops db' = shops db → product_infos db' = product_infos db →
  shops_with_ordered_products keys db' = shops_with_ordered_products keys db.
Proof.
  intros Hs Hp. unfold shops_with_ordered_products, requested_listings.
  by rewrite Hs, Hp.
Qed.

(** A basket-add is idempotent: the request that was answered, sent again,
    is answered with the same tree and changes nothing. *)
Theorem post_twice (user : nat) (request_data : list (nat * Z))
    (db db' : DB) (r : response) :
  post user request_data db = (db', Ok r) →
  post user request_data db' = (db', Ok r).
Proof.
  rewrite post_run. cbv zeta.
  destruct (ensured_basket user db) as [row Hbasket].
  set (db1 := (ensured user db).1) in *.
  set (basket := (ensured user db).2) in *.
  destruct (validate_items request_data db1) as [db1' [vd|e]] eqn:Ev; [|done].
  pose proof (post_loop user (ordered_items_dict vd) db) as Hloop.
  cbv zeta in Hloop. fold db1 basket in Hloop. unfold wp in Hloop.
  destruct (for_each _ _ db1) as [db2 [[]|e]] eqn:El; [|done].
  simpl in Hloop. destruct Hloop as [((Hs & Hp & Hb & _) & _) _].
  pose proof (basket_object_ext user db1 db2 Hb) as Hobj.
  rewrite Hbasket in Hobj. rewrite Hobj.
  intros [= <- <-].
  destruct (fill_basket_done basket (ordered_items_dict vd) db1
              (shops_with_ordered_products (ordered_items_dict vd) db1)
              db1 db2) as [Hdone _]; [|exact El|].
  { intros entry. apply shops_with_ordered_products_open. }
  rewrite post_run. cbv zeta.
  assert (ensured user db2 = (db2, basket)) as ->
    by (unfold ensured; by rewrite Hobj).
  simpl. rewrite (validate_items_ext _ db1 db2 Hp), Ev. simpl.
  rewrite (shops_with_ordered_products_ext _ db1 db2 Hs Hp).
  rewrite (fill_basket_again _ _ _ _ Hdone). by rewrite Hobj.
Qed.

End BasketAddIdempotent.

Lemma post_twice_witness :
  BasketView.post 3 [(0%nat, 2)] basket_a = (basket_a, Ok basket_a_answer).
Proof. exact (post_twice 3 [(0%nat, 2)] shop_a _ _ basket_a_run). Defined.

Section NewOrders.
Import BasketView.

(** The seller orders that the loop of [post] adds are those of the
    entries. *)
Lemma seller_order_get_or_create_new basket shop shipping_price db db' o :
  seller_order_get_or_create basket shop shipping_price db = (db', Ok o) →
  ∀ k row, row_at (seller_orders db') k = Some row →
           row_at (seller_orders db) k = Some row
           ∨ (so_buyer_order row = basket ∧ so_shop row = shop
              ∧ so_state row = SO_basket).
Proof.
  unfold seller_order_get_or_create.
  destruct (get_unique _) as [[[k0 r0]|]|e]; [| |done].
  - intros [= <- _] k row H. by left.
  - intros [= <- _] k row H. simpl in H.
    destruct (decide (k < length (seller_orders db))%nat) as [Hlt|Hge].
    + left. by rewrite row_at_app_l in H.
    + destruct (decide (k = length (seller_orders db))) as [->|Hne].
      * rewrite row_at_insert_new in H. inversion H; subst row. by right.
      * rewrite row_at_ge in H; [done|]. rewrite length_app. simpl. lia.
Qed.

Lemma fill_seller_order_new basket keys db0 entry db db' :
  open_entry keys db0 entry →
  fill_seller_order basket keys entry db = (db', Ok tt) →
  ∀ k row, row_at (seller_orders db') k = Some row →
           row_at (seller_orders db) k = Some row
           ∨ (so_buyer_order row = basket ∧ so_shop row = fst (fst entry)
              ∧ so_state row = SO_basket).
Proof.
  destruct entry as [shop listings]. intros (_ & _ & Hload).
  rewrite fill_seller_order_run.
  destruct (seller_order_get_or_create _ _ _ db) as [db1 [order|e]] eqn:E1;
    [|done].
  intros Hrun k row Hrow.
  destruct (fill_items_done db0 keys order listings db1 db')
    as (_ & O2 & _); [|done|].
  { intros [pk p] Hx. by destruct (Hload pk p Hx). }
  rewrite O2 in Hrow.
  exact (seller_order_get_or_create_new _ _ _ _ _ _ E1 k row Hrow).
Qed.

Lemma fill_basket_new basket keys db0 entries db db' :
  (∀ entry, entry ∈ entries → open_entry keys db0 entry) →
  for_each entries (fill_seller_order basket keys) db = (db', Ok tt) →
  ∀ k row, row_at (seller_orders db') k = Some row →
           row_at (seller_orders db) k = Some row
           ∨ (so_buyer_order row = basket ∧ so_state row = SO_basket
              ∧ ∃ entry, entry ∈ entries ∧ so_shop row = fst (fst entry)).
Proof.
  revert db. induction entries as [|entry entries IH]; intros db Hopen.
  - intros [= <-] k row H. by left.
  - rewrite for_each_cons. unfold bind at 1.
    destruct (fill_seller_order basket keys entry db) as [db1 [[]|e]] eqn:E1;
      [|done].
    intros Hrun k row Hrow.
    destruct (IH db1) with (k := k) (row := row)
      as [Hold|(Hb & Hst & e & He & Hshop)]; try done.
    { intros e He. apply Hopen. by right. }
    + destruct (fill_seller_order_new basket keys db0 entry db db1)
        with (k := k) (row := row) as [Hold'|(Hb & Hshop & Hst)]; try done.
      * apply Hopen. left.
      * by left.
      * right. split; [done|]. split; [done|]. exists entry.
        split; [left|done].
    + right. split; [done|]. split; [done|]. exists e. split; [by right|done].
Qed.

(** An entry of the join has a requested listing. *)
Lemma shops_with_ordered_products_nonempty keys db entry :
  entry ∈ shops_with_ordered_products keys db → snd entry ≠ [].
Proof.
  unfold shops_with_ordered_products. intros Hentry.
  apply list_elem_of_In, in_flat_map in Hentry as (shop & _ & Hentry).
  apply in_map_iff in Hentry as (x & <- & Hx). simpl.
  intros Hnil. by rewrite Hnil in Hx.
Qed.

(** A seller order that is the one of an entry that is in the basket has a
    line item. *)
Lemma entry_done_line basket keys entry db k row :
  entry_done basket keys entry db → snd entry ≠ [] →
  row_at (seller_orders db) k = Some row →
  so_buyer_order row = basket → so_shop row = fst (fst entry) →
  so_state row = SO_basket →
  ordered_items_of k db ≠ [].
Proof.
  intros (o & [row0 Ho] & Hitems) Hne Hrow Hb Hshop Hst.
  apply sole_of_select in Ho as (_ & _ & Huniq).
  assert (k = o) as ->.
  { apply (Huniq k row Hrow). by apply bool_decide_eq_true. }
  destruct (snd entry) as [|x listings]; [done|].
  destruct (Hitems x) as (line & _ & [kl Hl]); [left|].
  apply sole_of_select in Hl as (Hline & Hkey & _).
  apply bool_decide_eq_true in Hkey as [Hord _].
  intros Hnil. unfold ordered_items_of in Hnil. rewrite select_nil in Hnil.
  specialize (Hnil kl line Hline). by apply bool_decide_eq_false in Hnil.
Qed.

End NewOrders.

Section FreshBasket.
Import BasketView.

Lemma elem_of_basket_lines order db k i :
  (k, i) ∈ basket_lines order db
  ↔ row_at (seller_order_items db) k = Some i
    ∧ ∃ row, row_at (seller_orders db) (oi_order i) = Some row
             ∧ so_buyer_order row = order.
Proof.
  unfold basket_lines. rewrite list_elem_of_In, in_flat_map. split.
  - intros ([o row] & Ho & Hi). apply list_elem_of_In in Ho, Hi.
    apply elem_of_select in Ho as [Hrow Hb].
    apply elem_of_select in Hi as [Hitem Hord]. simpl in *.
    apply bool_decide_eq_true in Hb, Hord. subst o.
    split; [done|]. by exists row.
  - intros (Hitem & row & Hrow & Hb). exists (oi_order i, row). split.
    + apply list_elem_of_In, elem_of_select. split; [done|].
      by apply bool_decide_eq_true.
    + apply list_elem_of_In, elem_of_select. split; [done|].
      by apply bool_decide_eq_true.
Qed.

(** The basket of a buyer who had none, after the basket-add: its line
    items are those of the request, and each of its seller orders has a
    line item and an open shop. *)
Lemma post_fresh user request_data db db1 r :
  basket_object user db = None → orders_wf db → lines_wf db →
  post user request_data db = (db1, Ok r) →
  let basket := length (buyer_orders db) in
  let keys := ordered_items_dict request_data in
  basket_object user db1 = Some (basket, new_basket user)
  ∧ shops db1 = shops db ∧ product_infos db1 = product_infos db
  ∧ contacts db1 = contacts db
  ∧ (∀ i, i ∈ basket_lines basket db1 → settled keys db (snd i))
  ∧ (∀ o, o ∈ seller_orders_of basket db1 →
          ordered_items_of (fst o) db1 ≠ []
          ∧ is_Some (row_at (shops db1) (so_shop (snd o))))
  ∧ (∀ pk p s, is_Some (keys !! pk) →
               row_at (product_infos db) pk = Some p →
               row_at (shops db) (pi_shop p) = Some s → is_open s = true →
               ∃ i, i ∈ basket_lines basket db1
                    ∧ oi_product_info (snd i) = pk).
Proof.
  intros Hnone Howf Hlwf. rewrite post_run. cbv zeta.
  pose proof (post_loop user (ordered_items_dict request_data) db) as Hloop.
  cbv zeta in Hloop. unfold wp in Hloop.
  assert (ensured user db
          = (with_new_basket user db, length (buyer_orders db))) as Hens
    by (unfold ensured; by rewrite Hnone).
  rewrite Hens in *. simpl fst in *. simpl snd in *.
  set (dbe := with_new_basket user db) in *.
  set (basket := length (buyer_orders db)) in *.
  destruct (validate_items_run request_data dbe) as [[Hv _]|[[d Hv] _]];
    rewrite Hv; [|done].
  set (keys := ordered_items_dict request_data) in *.
  destruct (for_each _ _ dbe) as [db2 [[]|e]] eqn:El; [|done].
  simpl in Hloop.
  destruct Hloop as [((Hs & Hp & Hb & Hc & _) & P & N & I & J) Hplaced].
  specialize (Hplaced eq_refl).
  destruct (basket_object user db2) as [order|] eqn:Eobj; [|done].
  intros [= <- _].
  assert (basket_object user db2 = Some (basket, new_basket user)) as Hobj.
  { rewrite (basket_object_ext user dbe db2 Hb). by apply basket_object_new. }
  (* the seller orders of the basket are new *)
  assert (∀ k row, row_at (seller_orders db2) k = Some row →
                   so_buyer_order row = basket →
                   row_at (seller_orders db) k = None) as Hnew.
  { intros k row Hrow Hbk.
    destruct (row_at (seller_orders db) k) as [row0|] eqn:E0; [|done].
    exfalso. pose proof (Howf k row0 E0) as Hlt.
    assert (row_at (seller_orders db2) k = Some row0) as Hrow0
      by (eapply row_at_prefix; [exact P|exact E0]).
    assert (row0 = row) as -> by congruence. unfold basket in Hbk. lia. }
  split; [done|]. split; [done|]. split; [done|]. split; [done|].
  split; [|split].
  - intros [k i] Hin. simpl.
    apply elem_of_basket_lines in Hin as (Hitem & row & Hrow & Hbk).
    destruct (row_at (seller_order_items db) k) as [i0|] eqn:E0.
    + destruct (I k i0 E0) as (i' & Hi' & Hord & _ & Hcase).
      assert (i' = i) as -> by congruence.
      destruct Hcase as [->|[Hset _]]; [|done].
      exfalso. pose proof (Hlwf k i0 E0) as Hlt.
      pose proof (Hnew _ _ Hrow Hbk) as Hnone'.
      destruct (lookup_lt_is_Some_2 _ _ Hlt) as [x El0].
      assert (seller_orders db2 !! oi_order i0 = Some x) as El2
        by (eapply prefix_lookup_Some; [exact El0|exact P]).
      unfold row_at in Hrow, Hnone'. rewrite El2 in Hrow.
      rewrite El0 in Hnone'. by destruct x.
    + by destruct (J k i Hitem E0).
  - intros [k row] Hin. simpl.
    apply elem_of_select in Hin as [Hrow Hbk].
    apply bool_decide_eq_true in Hbk.
    pose proof (Hnew _ _ Hrow Hbk) as Hnone'.
    assert (∀ entry, entry ∈ shops_with_ordered_products keys dbe →
                     open_entry keys dbe entry) as Hopen
      by (intros entry; apply shops_with_ordered_products_open).
    destruct (fill_basket_new basket keys dbe _ dbe db2 Hopen El k row Hrow)
      as [Hold|(_ & Hst & entry & Hentry & Hshop)].
    { simpl in Hold. congruence. }
    destruct (fill_basket_done basket keys dbe _ dbe db2 Hopen El)
      as [Hdone _].
    split.
    + eapply (entry_done_line basket keys entry); try done.
      * by apply Hdone.
      * by eapply shops_with_ordered_products_nonempty.
    + destruct (Hopen entry Hentry) as (Hsrow & _).
      rewrite Hshop, Hs. by eexists.
  - intros pk p s Hk Hpk Hsh Hopen.
    destruct (Hplaced pk p s Hk Hpk Hsh Hopen)
      as (k & i & o & Hi & Hip & _ & Ho & Hbk & _).
    exists (k, i). split; [|done].
    apply elem_of_basket_lines. split; [done|]. by exists o.
Qed.

End FreshBasket.

Section AddThenCheckout.
Import OrderViewSet.

Lemma validate_contact_ext user contact_id db db' :
  contacts db' = contacts db →
  validate_contact user contact_id db'
  = (db', (validate_contact user contact_id db).2).
Proof.
  intros Hc. unfold validate_contact. rewrite Hc.
  destruct contact_id as [c|]; [|done].
  destruct (row_at (contacts db) c); [|done]. by destruct (_ && _).
Qed.

(** The stock after a checkout that was accepted. *)
Lemma create_accepted_stock user user_email contact_id current_date db
    order order_row c :
  basket_object user db = Some (order, order_row) →
  validate_contact user contact_id db = (db, Ok c) →
  (∀ i, i ∈ basket_lines order db →
        ∃ p, row_at (product_infos db) (oi_product_info (snd i)) = Some p
             ∧ oi_quantity (snd i) ≤ quantity p) →
  (∀ o, o ∈ seller_orders_of order db →
        ordered_items_of (fst o) db ≠ []
        ∧ is_Some (row_at (shops db) (so_shop (snd o)))) →
  ∃ db' sent,
    create user user_email contact_id current_date db
    = (db',
       Ok ({| status_code := HTTP_201_CREATED;
              data := Tree (render_order ∅ db'
                              (order, accepted current_date order_row)) |},
           sent))
    ∧ (∀ i, i ∈ basket_lines order db →
            ∃ j p,
              j ∈ basket_lines order db
              ∧ oi_product_info (snd j) = oi_product_info (snd i)
              ∧ row_at (product_infos db) (oi_product_info (snd i)) = Some p
              ∧ row_at (product_infos db') (oi_product_info (snd i))
                = Some (set_listing_quantity
                          (quantity p - oi_quantity (snd j)) p))
    ∧ (∀ pk, (∀ i, i ∈ basket_lines order db →
                   oi_product_info (snd i) ≠ pk) →
             row_at (product_infos db') pk = row_at (product_infos db) pk).
Proof.
  intros Hb Hc Hl Ho.
  destruct (prefetch_lines order db) as [tree Hpre].
  { intros i Hi. destruct (Hl i Hi) as (p & -> & _). by eexists. }
  pose proof (tree_in_stock order db tree Hpre Hl) as Hacc.
  destruct (create_accepted_run user user_email contact_id current_date db
              order order_row c tree Hb Hc Hpre Hacc Ho)
    as (db2 & to_sellers & lines & Hrun & Hconf & Hsent).
  destruct Hconf as (Hpi & _).
  eexists _, _. split; [exact Hrun|]. simpl. split.
  - intros i Hi. destruct (Hl i Hi) as (p & Hp & _).
    set (pk := oi_product_info (snd i)) in *.
    assert (pk ∈ tree_listings tree) as Hin
      by (apply (tree_listings_lines order db tree pk Hpre); by exists i).
    destruct (stock_after_is_Some (flat_map snd tree) ∅ pk) as [v Hv];
      [by left|].
    destruct (stock_after_lookup _ _ _ _ Hv)
      as [(ip & Hip & Hk & ->)|Hempty]; [|by rewrite lookup_empty in Hempty].
    pose proof (tree_loaded order db tree ip Hpre Hip) as Hp'.
    rewrite Hk, Hp in Hp'. inversion Hp'; subst p. clear Hp'.
    exists (fst ip), (snd ip). split; [|split; [done|split; [done|]]].
    + rewrite <- (tree_lines order db tree Hpre).
      apply list_elem_of_fmap. by exists ip.
    + rewrite Hpi, Hp. simpl. rewrite decide_True by done. by rewrite Hv.
  - intros pk Hnone. rewrite Hpi.
    destruct (row_at (product_infos db) pk) as [p|]; [|done]. simpl.
    rewrite decide_False; [done|]. intros Hin.
    apply (tree_listings_lines order db tree pk Hpre) in Hin
      as (i & Hi & Hk). by apply (Hnone i).
Qed.

(** From the empty hands to the accepted order: when a buyer without a
    basket adds listings to the basket, is answered, and confirms the order
    with a valid contact, every requested quantity being in stock, the
    checkout is accepted with 201; the stock of every requested listing of
    an open shop goes down by the requested quantity (the last one given
    for the listing), and the stock of every other listing stays as it
    is. *)
Theorem add_then_checkout (user : nat) (user_email : string)
    (request_data : list (nat * Z)) (contact_id : option nat)
    (current_date : nat) (db db1 : DB) (r : response) (c : nat) :
  basket_object user db = None → orders_wf db → lines_wf db →
  BasketView.post user request_data db = (db1, Ok r) →
  validate_contact user contact_id db = (db, Ok c) →
  (∀ pk q p, BasketView.ordered_items_dict request_data !! pk = Some q →
             row_at (product_infos db) pk = Some p → q ≤ quantity p) →
  ∃ db2 sent,
    create user user_email contact_id current_date db1
    = (db2,
       Ok ({| status_code := HTTP_201_CREATED;
              data := Tree (render_order ∅ db2
                              (length (buyer_orders db),
                               accepted current_date
                                 (BasketView.new_basket user))) |},
           sent))
    ∧ (∀ pk q p s,
         BasketView.ordered_items_dict request_data !! pk = Some q →
         row_at (product_infos db) pk = Some p →
         row_at (shops db) (pi_shop p) = Some s → is_open s = true →
         row_at (product_infos db2) pk
         = Some (set_listing_quantity (quantity p - q) p))
    ∧ (∀ pk p,
         row_at (product_infos db) pk = Some p →
         BasketView.ordered_items_dict request_data !! pk = None
         ∨ (∀ s, row_at (shops db) (pi_shop p) = Some s → is_open s = false) →
         row_at (product_infos db2) pk = Some p).
Proof.
  intros Hnone Howf Hlwf Hpost Hcontact Hstock.
  destruct (post_fresh user request_data db db1 r Hnone Howf Hlwf Hpost)
    as (Hobj & Hs & Hp & Hc & Hlines & Horders & Hplaced).
  set (basket := length (buyer_orders db)) in *.
  set (keys := BasketView.ordered_items_dict request_data) in *.
  assert (validate_contact user contact_id db1 = (db1, Ok c)) as Hcontact1
    by (rewrite (validate_contact_ext _ _ db db1 Hc); by rewrite Hcontact).
  destruct (create_accepted_stock user user_email contact_id current_date db1
              basket (BasketView.new_basket user) c Hobj Hcontact1)
    as (db2 & sent & Hrun & Hdown & Hsame).
  { intros i Hi. destruct (Hlines i Hi) as (p & s & Hk & Hpi & _).
    exists p. rewrite Hp. split; [done|]. by eapply Hstock. }
  { exact Horders. }
  exists db2, sent. split; [exact Hrun|]. split.
  - intros pk q p s Hq Hpk Hsh Hopen.
    destruct (Hplaced pk p s) as (i & Hi & Hipk); try done.
    destruct (Hdown i Hi) as (j & p' & Hj & Hjpk & Hp' & Hrow).
    rewrite Hipk in *. rewrite Hp, Hpk in Hp'. inversion Hp'; subst p'.
    destruct (Hlines j Hj) as (_ & _ & Hk & _).
    rewrite Hjpk in Hk. fold keys in Hq.
    assert (oi_quantity (snd j) = q) as <- by congruence. done.
  - intros pk p Hpk Hout. rewrite Hsame; [by rewrite Hp|].
    intros i Hi Hipk. destruct (Hlines i Hi) as (p' & s & Hk & Hp' & _ & _ & Hsh & Hopen).
    rewrite Hipk in *. assert (p' = p) as -> by congruence.
    destruct Hout as [Hnk|Hclosed]; [congruence|].
    rewrite (Hclosed s Hsh) in Hopen. done.
Qed.

End AddThenCheckout.

Lemma add_then_checkout_witness :
  ∃ db2 sent,
    OrderViewSet.create 3 "buyer@example.com" (Some 0%nat) 9 stocked_basket
    = (db2,
       Ok ({| status_code := HTTP_201_CREATED;
              data := Tree (render_order ∅ db2
                              (0%nat,
                               accepted 9 (BasketView.new_basket 3))) |},
           sent))
    ∧ row_at (product_infos db2) 0
      = Some (OrderViewSet.set_listing_quantity 3 ball_listing).
Proof.
  destruct (add_then_checkout 3 "buyer@example.com" [(0%nat, 2)]
              (Some 0%nat) 9
              (set_contacts [Some {| contact_user := 3; is_deleted := false |}]
                 shop_a)
              stocked_basket
              {| status_code := HTTP_201_CREATED;
                 data := Tree (render_order ∅ stocked_basket
                                 (0%nat, BasketView.new_basket 3)) |} 0)
    as (db2 & sent & Hrun & Hdown & _).
  - vm_compute. reflexivity.
  - intros k o Hk. vm_compute in Hk. by destruct k.
  - intros k i Hk. vm_compute in Hk. by destruct k.
  - vm_compute. reflexivity.
  - vm_compute. reflexivity.
  - intros pk q p Hq Hp. destruct pk as [|pk].
    + vm_compute in Hq, Hp. inversion Hq; inversion Hp; subst. simpl. lia.
    + vm_compute in Hp. by destruct pk.
  - exists db2, sent. split; [exact Hrun|].
    apply (Hdown 0%nat 2 ball_listing shop_a_row);
      vm_compute; reflexivity.
Defined.
